(* ===== verification/_CoqProject ===== *)
-Q . S2P
Prelude.v
Machine.v
Arch.v
StrTab.v
Version.v
Mmap.v
Trace.v
Segment.v
Dynamic.v
Symbol.v
Object.v
UserData.v
Loader.v
Image.v
Core.v
Lifecycle.v
Relocation.v
Resolver.v
Format.v
Quiet.v
MiniLoader.v
Async.v
Macros.v
Complete.v
Linked.v
Lazy.v
Whole.v
Run.v
LinkedRun.v
Exports.v
Chain.v
Demo.v
Exec.v
MiniRun.v
Examples.v
