(* ===== verification/Prelude.v ===== *)
(** * elf_loader: a verification library (root file)

    [elf_loader] loads ELF files into the address space of the running process:
    it reads and checks the headers, maps the segments, parses the dynamic
    section, binds symbols by the GNU hash table and symbol versions, applies the
    relocations at once or lazily, calls the initialisers, and finalises and
    unmaps an object when its last handle goes.  [mini-loader] is a program built
    on it that starts other programs.  This library models the Rust code of
    [src/src], [src/mini-loader/src/main.rs] and the two programs of [src/examples] with
    their libraries, and proves what the parts promise and what the programs do.
    This file is the prelude: notations, hint databases, tactics and the lemmas on
    bits, lists and options the components share.

    ** Parts, in dependency order

    - [Machine.v]: the layer below all others.  [outcome] is the result of a Rust
      computation: [Ok], [Err] with the [Error] of [lib.rs], [Panic], [Fault]
      (undefined behaviour: an access outside the mapped memory, [unwrap_unchecked]
      of [None], an uninitialised read) and [OutOfFuel], which no code produces.
      Integers are [Z] with [checked] operations: they panic on overflow in the dev
      profile and wrap in the release profile ([Config]).  The memory is a finite
      map from addresses to bytes, little-endian.  [M] passes the [world]: memory,
      log of external calls, the static [GLOBAL_SCOPE] and the [Arc] cells.
      [on_unwind] and [finally] place the destructors of owned values.
    - [Arch.v] ([arch/]): entries of the tables, symbol predicates, the CPU
      interface [Arch] with its four instances and [prepare_lazy_bind].
    - [StrTab.v], [Symbol.v] ([symbol.rs]): string table; hash table parsing,
      [lookup], [lookup_filter], [symbol_idx], [count_syms].
    - [Version.v] ([version.rs]): the version lists and their iterators,
      [ELFVersion::new], [dl_elf_hash], [get_requirement], [check_match].
    - [Mmap.v] ([mmap/]): the trait [Mmap] as a class, its implementations [Libc],
      [Syscall] and [NoMmap], and the laws [MmapLaws] they all satisfy.
    - [Trace.v]: what a computation does to a part of the world: [quiet E] when
      it has no other effect than [E] allows (on the log of external calls, on the
      [Arc] cells), [once] and [owned] for an event, with the hint database [trace] and
      the tactic [quiet].  [Quiet.v] has these facts of the loader's functions.
    - [Segment.v] ([segment.rs]): the mapped object, RELRO, the permission bits.
    - [Dynamic.v] ([dynamic.rs]): [ElfDynamic::new] as a scan and a final step.
    - [Object.v] ([object/]): the trait [ElfObject] as a class, [ElfBinary], and
      [ElfFile] over libc and over system calls; the contract [Serves].
    - [UserData.v], [Core.v], [Format.v] ([format/]): user data; the shared
      [CoreComponent], its reference counting, [init] and [fini]; libraries and
      executables, loading entry points, relocation entry points, [get].
    - [Loader.v] ([loader.rs]): headers and buffers, [create_segments],
      [load_segment], [fill_bss], the [Builder] and [load_impl].
    - [Image.v]: what [load_impl] leaves in memory, that a well-formed library loads,
      and a load that fails early.
    - [Lifecycle.v]: the abstract life cycle of an object and its refinement.
    - [Relocation.v] ([relocation.rs]): [find_symdef], the three passes of
      [ElfRelocation], [relocate_impl], [dl_fixup].
    - [Resolver.v] ([arch/], [mini-loader/src/main.rs]): the assembly routines
      [dl_runtime_resolve], [_start] and [trampoline] as instruction lists of one
      machine with registers, a stack in the memory and a calling convention.
    - [MiniLoader.v] ([mini-loader/src/main.rs]): [rust_main], and the panic handler.
    - [Async.v] ([loader.rs], [object/mod.rs], [format/]): the [async fn]s as futures
      that are polled, suspended at the read of an [ElfObjectAsync], and dropped.
    - [Macros.v] ([macros.rs]): [load_dylib!], [load_exec!] and [load!], every arm.
    - [Whole.v]: no code of its own; [load_dylib] from the bytes of the file to the
      handle, by composing the theorems of [Loader.v], [Image.v] and [Dynamic.v] with
      lemmas on what the tables of a dynamic section refer to.
    - [Complete.v], [Linked.v], [Lazy.v]: no code of their own either; the passes of
      [Relocation.v] and the initialisers as one run; an abstract linker, which
      resolves names in lists of exported symbols, and the run against it; lazy
      binding against the same linker, from [relocate_impl] to the first call.
    - [Run.v], [LinkedRun.v], [Exports.v]: loading followed by relocation, with every
      condition stated of the file: for a library that needs no symbol, for one that
      is linked against a scope, and what [get] answers for it afterwards.
    - [Chain.v]: several libraries in one program: what loading, relocating and dropping
      one of them does ([load_step], [link_step], [drop_step]) and that it leaves the
      others alone.
    - [Demo.v]: a kernel, an allocator, a directory and three library files on which the
      theorems above and below are applied.
    - [Exec.v]: executables, static and dynamic, from the file to the entry point.
    - [MiniRun.v]: [rust_main] as a whole.
    - [Examples.v] ([examples/], [example_dylib/]): the two programs, [compile()] with its
      static, and the three libraries as files.

    A definition has the name of the function it models; where two types have a
    method of the same name the type is prefixed ([ELFVersion_new]).  Interactions
    are those of the code: [Loader] uses objects through [ElfObject] and memory
    through [Mmap], so its theorems are proved from [Serves] and [MmapLaws] and hold
    for every implementation for which these are instances; [Relocation] uses
    [Symbol] through [lookup_filter] and [symbol_idx]; [Format] puts loading,
    relocation and the life cycle together.

    ** What is proved

    - As a whole: a well-formed shared library loads and its handle describes the file
      ([load_dylib_loads]), whatever is outside of its image stays as it is, and it is
      linked against the libraries of a scope as the abstract linker says, up to the
      addends below, before its first initialiser starts ([load_and_relocate_links];
      [load_and_relocate_runs] when it needs no symbol); then it answers [get] for what its file exports, and
      can be in the scope of the next ([loaded_library_exports]).
    - Executables: a dynamic one is linked against itself and then the scope, and a
      static one handed out as it is ([load_exec_links], [static_exec_loads]); at the
      address it was linked at, unless that is in use ([exec_entry_elsewhere]).
    - Programs: [load_dylib.rs] and [relocate_dylib.rs] print, load, call and release what
      they are meant to ([load_dylib_main_runs], [relocate_dylib_main_runs]), after one
      build of the libraries ([compile_once]); the mini-loader starts a program with its
      interpreter, both in memory, and a stack that describes the program, but for
      AT_BASE, which is an entry point ([rust_main_runs]).
    - Loading: the first mapping covers the segments ([create_segments_covers]);
      a library that loads is in memory as its headers say ([load_impl_image]), and a
      well-formed one loads when the platform grants sound requests, with every
      other header recorded ([load_impl_loads]); the program headers are those of the
      file, before and after mapping ([prepare_phdr_from_file], [phdrs_in_memory]);
      header checks ([vaildate_exact]); a load releases its object exactly once
      whatever happens ([macros_close]).
    - Asynchronous loading: run to completion it does what the synchronous entry
      points do, in a bounded number of polls ([load_async_completes]); dropped
      between two polls it releases what an error there would ([load_async_cancel]).
    - Symbols: the hash lookup is a linear search ([lookup_is_linear_search]), never
      returns a wrong symbol on any memory ([lookup_sound]), and ends
      ([lookup_terminates]); filters, counts and round trip; the hash of version
      names is the gABI's up to overflow; the version table is exact.
    - Dynamic section: every field, the errors and termination.
    - Relocation: what each pass writes and that it writes nothing else
      ([relocate_relative_applies], [relocate_dynrel_binds], [relocate_pltrel_binds],
      [relocate_pltrel_lazy_rebases]), scope order ([find_symdef_order]), the passes as
      one run ([relocate_impl_completes]), and what of the abstract linker's word each
      slot holds ([relocate_impl_links]).  The linker follows the comment of
      [relocate_dynrel]: REL_SYMBOLIC is S + A ([word_of]).  The code stores S, so the
      theorems subtract [dropped_addend], which is 0 for every other entry.
    - The order of initialisation, and that failures clean up ([relocate_impl_inits],
      [relocate_impl_failure]).
    - Lazy binding: what is prepared, the words of the resolver included
      ([relocate_impl_lazy]); the first call binds ([dl_fixup_binds],
      [create_lazy_scope_order]), down to the integer registers of the caller on the
      three CPUs that have a routine ([first_plt_call]), to the address that immediate
      binding would have stored, or panics in one of three cases ([lazy_calls_link]).
    - Life cycle: the reference counting refines an abstract machine, finalisers
      run exactly once and before the unmapping, and weak handles neither keep an
      object nor bring it back ([last_drop_finalises], [counts_observed],
      [drop_inner_order]).
    - Files and memory: reads are exact however the kernel splits them
      ([ElfFile_read_exact]), and end; RELRO; user data.
    - Mini-loader, by parts: its self-relocation ([bootstrap_relocates]), the stack it
      hands over ([hand_over_stack]) and what it does with a panic ([panic_reports]).
    - Defects, each proved of the code as written: [dl_elf_hash_overflow],
      [unversioned_slot_uninitialised], [exec_needs_pt_phdr],
      [small_binary_panics], [syscall_short_read_panics],
      [lazy_without_got_panics], [exec_no_relocation_skips_init],
      [load_impl_first_copy_leaks], [riscv64_resolve_misaligned],
      [exec_entry_elsewhere].

    Every theorem with hypotheses has a witness [<name>_witness] that applies it to
    concrete data; the examples build a table, a file, a library and a stack.

    ** Fuel

    Loops over raw memory (strings, chains, dynamic sections, environment,
    auxiliary vector) get [S (size m)] rounds for a memory [m]: each round reads a new
    mapped address, so the walk ends or faults before the fuel does
    ([stride_walk_bound], and a [.._no_fuel] lemma per loop of the library).  The
    read loop gets one round per byte of its buffer: a round that goes on has
    stored at least one byte.  Version iterators get one round per entry counted.
    The futures of [Async.v] need no fuel: between two suspensions there is a finite
    tree of code, and only the executor [block_on] counts its polls.

    ** Parameters

    Code outside the repository is a parameter with named laws: the kernel
    ([Kernel], [Files], [Console]), the allocator ([Allocator], [ArcAlloc]), the
    native functions of loaded objects ([Native]), the function of the global scope
    ([ScopeFn]), user closures (hooks, [pre_find], [deal_unknown]), the asynchronous
    read of a user's object ([ElfObjectAsync], [AsyncReads]), the address of the
    assembly resolver, and what a called function leaves in the registers and on the
    stack it may use ([Callee]), the allocator of the mini-loader ([StaticHeap]), [cargo] and the environment of the examples ([BuildEnv]).
    The laws, by what needs them: mappings are where the platform says and show the file
    ([MmapLaws], [KernelLaws]); sound requests are granted ([MmapGrants]), also those that
    name an address ([MmapAnswers], [KernelHints]); a mapping that is not fixed is away
    from given ranges ([MmapAvoids]) or, while less than a budget of bytes is in use, from
    all memory in use ([MmapFresh]); an [munmap] succeeds ([MmapReleases]); a new [Arc]
    has an address of its own ([ArcFresh]); loaded code keeps what it is said to keep
    ([native_keeps]).  Each has an instance in [Mmap.v] or [Demo.v].  The constants of the ELF format and the layout of its
    structures, which the code takes from the [elf] crate, have the values of the
    ELF specification.

    ** Not modelled

    - Page protections: a write to a read-only page does not fault, so the effect
      of protections is in the log, not in the memory.  A mapped page that lies wholly
      past the end of its file reads as zeros, where a kernel raises SIGBUS.
    - What the mini-loader allocates in its heap after it has set it up: the theorems
      on it say nothing of the bytes of the heap and of the allocator.
    - [Debug] instances, the [log] feature, 32-bit layouts; tests and benchmarks, which drive the library as the
      examples do.
    - Flags and vector registers of the CPU: [Resolver.v] has the general registers.
    - The code of a PLT entry is in the loaded file: [first_plt_call] starts where it
      jumps to [dl_runtime_resolve].
    - A lazy scope is a closure over [M] and cannot be part of the [world] it runs in;
      it is stored in the handle that [relocate_impl] returns, whereas the code
      writes it into the shared allocation.
    - The order of relocation entries matters only where slots overlap; the pass
      theorems assume they do not.

    ** Bounds of the composed theorems

    [LinkedRun.v], [Exports.v], [Chain.v], [Exec.v] and [Examples.v] take objects without
    symbol versions, with immediate binding and without indirect functions or copy
    relocations ([word_of] gives those no word, [dyn_entry_ok] has no case for them; the passes alone handle them in
    [Relocation.v] and [Complete.v]); [Lazy.v] takes [JUMP_SLOT] entries only.
    [MiniRun.v] takes a program and an interpreter that have a dynamic section, and a
    PT_PHDR header if they are executables, in files that are read in one go; for one
    without, [static_exec_loads] says what the mini-loader would hand over: no program
    headers.  What the code of a loaded object does is the parameter [Native].

    ** Plan

    What is left: libraries with symbol versions in the theorems that start from the
    file, whose pieces are the theorems of [Version.v] and [Symbol.v]; lazy binding from
    the file, whose pieces are [Exports.v] and [Lazy.v]; the 32-bit layouts, once the
    code has a CPU module that uses them. *)

From stdpp Require Export base numbers list strings gmap pretty.
From Stdlib Require Export ZArith Lia.

(** ** Scope, numeric limits *)

Declare Scope elf_scope.
Delimit Scope elf_scope with elf.

#[local] Open Scope Z_scope.

(** Bounds of the unsigned machine integers, written as literals so that [lia]
    sees constants. *)
Notation U8_LIM := 256%Z.
Notation U16_LIM := 65536%Z.
Notation U32_LIM := 4294967296%Z.
Notation U64_LIM := 18446744073709551616%Z.

(** Names, paths and the contents of files are sequences of bytes. *)
Notation bytes := (list Z) (only parsing).

(** ** Hint databases and tactics *)

Create HintDb elf discriminated.
Create HintDb elf_rw.

(** [lia] with the euclidean equations of every [/] and [mod] in sight. *)
Ltac zlia := Z.to_euclidean_division_equations; lia.

(** Case analysis on every [if]/[match] scrutinee of the goal, closing the
    branches that the context refutes. *)
Ltac cases_auto :=
  repeat (case_match; simplify_eq/=; try done; try lia).

(** ** Bits and alignment *)

(** A low mask keeps the remainder; this is how [x & (2^k - 1)] is computed. *)
Lemma land_low_mask (x k : Z) : 0 <= k -> Z.land x (2 ^ k - 1) = x mod 2 ^ k.
Proof. intros Hk. rewrite <- Z.land_ones by done. f_equal. rewrite Z.ones_equiv. lia. Qed.

(** The complement of a low mask, at 64 bits, rounds down. *)
Lemma land_high_mask (x : Z) :
  0 <= x < U64_LIM -> Z.land x (U64_LIM - 4096) = x - x mod 4096.
Proof.
  intros Hx.
  assert (Hlow : Z.land x (2 ^ 12 - 1) = x mod 2 ^ 12) by (apply land_low_mask; lia).
  assert (Hsplit : Z.land x (U64_LIM - 4096) = Z.ldiff x (Z.ones 12)).
  { apply Z.bits_inj'. intros n Hn. rewrite Z.land_spec, Z.ldiff_spec.
    destruct (decide (n < 64)) as [Hlt|Hge].
    - f_equal. change (U64_LIM - 4096) with (Z.shiftl (Z.ones 52) 12).
      rewrite Z.shiftl_spec by done.
      destruct (decide (n < 12)).
      + rewrite Z.testbit_neg_r by lia. rewrite Z.ones_spec_low by lia. done.
      + rewrite Z.ones_spec_low by lia. rewrite Z.ones_spec_high by lia. done.
    - assert (Z.testbit x n = false) as ->; [|done].
      rewrite Z.bits_above_log2; [done|lia|].
      destruct (decide (x = 0)) as [->|]; [simpl; lia|].
      assert (Z.log2 x < 64); [|lia]. apply Z.log2_lt_pow2; lia. }
  rewrite Hsplit, Z.ldiff_ones_r, Z.shiftl_mul_pow2, Z.shiftr_div_pow2 by lia.
  change (2 ^ 12) with 4096 in *. zlia.
Qed.

(** Testing one bit with a mask. *)
Lemma land_bit_eqb (x n : Z) : 0 <= n -> (Z.land x (Z.shiftl 1 n) =? 0) = negb (Z.testbit x n).
Proof.
  intros Hn. rewrite Z.shiftl_mul_pow2, Z.mul_1_l by done. destruct (Z.eqb_spec (Z.land x (2 ^ n)) 0) as [He|Hne].
  - apply (f_equal (fun z => Z.testbit z n)) in He.
    rewrite Z.land_spec, Z.pow2_bits_true, andb_true_r, Z.bits_0 in He by done. by rewrite He.
  - destruct (Z.testbit x n) eqn:Hb; [done|]. exfalso. apply Hne, Z.bits_inj'. intros k Hk.
    rewrite Z.land_spec, Z.pow2_bits_eqb, Z.bits_0 by done.
    destruct (Z.eqb_spec n k) as [<-|]; [by rewrite Hb|apply andb_false_r].
Qed.

Lemma land_one_eqb (x : Z) : (Z.land x 1 =? 0) = negb (Z.testbit x 0).
Proof. exact (land_bit_eqb x 0 ltac:(lia)). Qed.

Lemma land_le_r (x y : Z) : 0 <= y -> 0 <= Z.land x y <= y.
Proof.
  intros Hy. split; [apply Z.land_nonneg; lia|]. apply Z.ldiff_le; [done|].
  apply Z.bits_inj'. intros n Hn. rewrite Z.ldiff_spec, Z.land_spec, Z.bits_0.
  destruct (Z.testbit x n), (Z.testbit y n); done.
Qed.

(** ** Lists *)

(** The first index, counted from [k], whose element satisfies [P]. *)
Fixpoint find_from {A} (P : nat -> A -> bool) (k : nat) (l : list A) : option (nat * A) :=
  match l with
  | [] => None
  | x :: l' => if P k x then Some (k, x) else find_from P (S k) l'
  end.

Lemma find_from_Some {A} (P : nat -> A -> bool) k l i x :
  find_from P k l = Some (i, x) <->
  exists j, i = (k + j)%nat /\ l !! j = Some x /\ P i x = true /\
    forall j' y, (j' < j)%nat -> l !! j' = Some y -> P (k + j')%nat y = false.
Proof.
  revert k. induction l as [|y l IH]; intros k; simpl.
  - split; [done|]. intros (j & _ & Hj & _). by rewrite lookup_nil in Hj.
  - destruct (P k y) eqn:HP.
    + split.
      * intros [= <- <-]. exists 0%nat. repeat split; [lia|done|]. intros; lia.
      * intros (j & -> & Hj & HPj & Hmin). destruct j as [|j].
        -- simpl in Hj. simplify_eq. by rewrite Nat.add_0_r.
        -- exfalso. specialize (Hmin 0%nat y ltac:(lia) eq_refl).
           rewrite Nat.add_0_r in Hmin. congruence.
    + rewrite IH. split.
      * intros (j & -> & Hj & HPj & Hmin). exists (S j). repeat split; [lia|done|done|].
        intros [|j'] z Hlt Hz; simpl in Hz.
        -- simplify_eq. by rewrite Nat.add_0_r.
        -- replace (k + S j')%nat with (S k + j')%nat by lia. apply (Hmin j'); [lia|done].
      * intros (j & -> & Hj & HPj & Hmin). destruct j as [|j].
        { simpl in Hj. simplify_eq. rewrite Nat.add_0_r in HPj. congruence. }
        exists j. repeat split; [lia|done|done|].
        intros j' z Hlt Hz. replace (S k + j')%nat with (k + S j')%nat by lia.
        apply (Hmin (S j') z); [lia|done].
Qed.

Lemma find_from_None {A} (P : nat -> A -> bool) k l :
  find_from P k l = None <-> forall j x, l !! j = Some x -> P (k + j)%nat x = false.
Proof.
  revert k. induction l as [|y l IH]; intros k; simpl.
  - split; [|done]. intros _ j x Hj. by rewrite lookup_nil in Hj.
  - destruct (P k y) eqn:HP.
    + split; [done|]. intros H. specialize (H 0%nat y eq_refl).
      rewrite Nat.add_0_r in H. congruence.
    + rewrite IH. split; intros H j x Hj.
      * destruct j as [|j]; simpl in Hj; [simplify_eq; by rewrite Nat.add_0_r|].
        replace (k + S j)%nat with (S k + j)%nat by lia. by apply H.
      * replace (S k + j)%nat with (k + S j)%nat by lia. by apply H.
Qed.

Lemma find_from_drop {A} (P : nat -> A -> bool) j : forall k l,
  (forall i x, (i < j)%nat -> l !! i = Some x -> P (k + i)%nat x = false) ->
  find_from P k l = find_from P (k + j) (drop j l).
Proof.
  induction j as [|j IH]; intros k l Hl; [by rewrite Nat.add_0_r|].
  destruct l as [|x l]; simpl; [done|].
  pose proof (Hl 0%nat x ltac:(lia) eq_refl) as H0. rewrite Nat.add_0_r in H0. rewrite H0.
  rewrite (IH (S k)); [f_equal; lia|]. intros i y Hi Hy.
  replace (S k + i)%nat with (k + S i)%nat by lia. apply Hl; [lia|done].
Qed.

(** Rust's [find_map] on an iterator: the first result that is not [None]. *)
Fixpoint find_map {A B} (f : A -> option B) (l : list A) : option B :=
  match l with
  | [] => None
  | x :: l' => match f x with Some y => Some y | None => find_map f l' end
  end.

Lemma find_map_None {A B} (f : A -> option B) l :
  find_map f l = None <-> Forall (fun x => f x = None) l.
Proof.
  induction l as [|x l IH]; simpl; [by split|].
  rewrite Forall_cons, <- IH. destruct (f x) eqn:Hf; [|tauto].
  split; [done|]. by intros [? _].
Qed.
