(* ===== verification/Machine.v ===== *)
(** * Machine: Rust's outcomes, integers and memory

    The layer every component is written in: the result type of a Rust
    computation (value, [Err], panic, access to unmapped memory), checked [usize]
    and [u32] arithmetic in both build profiles, the byte-addressed memory, and
    the state monad over memory and the log of external calls.  The error type
    is the [Error] enum of [src/src/lib.rs]. *)

From S2P Require Import Prelude.
#[local] Open Scope Z_scope.

(** ** Build configuration

    [debug_assertions] is cargo's dev profile (overflow checks and
    [debug_assert!] on) against its release profile (both off);
    [feature_version] is the crate feature [version]. *)
Class Config := {
  debug_assertions : bool;
  feature_version : bool;
}.

(** ** Errors *)

(** A [Box<dyn Any>] is an opaque handle: the library stores and returns it and
    never looks inside. *)
Notation any := Z (only parsing).

Inductive Error :=
  | IOError (msg : string)
  | MmapError (msg : string)
  | RelocateError (msg : string) (custom_err : any)
  | ParseDynamicError (msg : string)
  | ParseEhdrError (msg : string)
  | ParsePhdrError (msg : string) (custom_err : any).

(** [impl Display for Error] *)
Definition display (e : Error) : string :=
  match e with
  | IOError msg => msg
  | MmapError msg => msg
  | RelocateError msg _ => msg
  | ParseDynamicError msg => msg
  | ParseEhdrError msg => msg
  | ParsePhdrError msg _ => msg
  end.

Definition io_error (msg : string) : Error := IOError msg.
Definition relocate_error (msg : string) (custom_err : any) : Error := RelocateError msg custom_err.
Definition parse_dynamic_error (msg : string) : Error := ParseDynamicError msg.
Definition parse_ehdr_error (msg : string) : Error := ParseEhdrError msg.
Definition parse_phdr_error (msg : string) (custom_err : any) : Error := ParsePhdrError msg custom_err.

(** ** Outcomes *)

(** [Err] is the [Err] of the crate's [Result]; [Panic] is an unwinding panic;
    [Fault] stands for undefined behaviour the code can reach (dereferencing
    unmapped memory, reading an uninitialised element); [OutOfFuel] is the model's
    own and is proved unreachable wherever a loop is modelled with fuel. *)
Inductive outcome (A : Type) :=
  | Ok (a : A)
  | Err (e : Error)
  | Panic
  | Fault
  | OutOfFuel.
Arguments Ok {A} a.
Arguments Err {A} e.
Arguments Panic {A}.
Arguments Fault {A}.
Arguments OutOfFuel {A}.

#[export] Instance outcome_ret : MRet outcome := fun A a => Ok a.
#[export] Instance outcome_bind : MBind outcome := fun A B f o =>
  match o with
  | Ok a => f a
  | Err e => Err e
  | Panic => Panic
  | Fault => Fault
  | OutOfFuel => OutOfFuel
  end.

(** [Option::unwrap] *)
Definition unwrap {A} (o : option A) : outcome A :=
  match o with Some a => Ok a | None => Panic end.

(** [unwrap_unchecked], and a read through a pointer *)
Definition unwrap_unchecked {A} (o : option A) : outcome A :=
  match o with Some a => Ok a | None => Fault end.

(** [assert!] *)
Definition rust_assert (b : bool) : outcome unit := if b then Ok tt else Panic.

Definition is_ok {A} (o : outcome A) : bool := match o with Ok _ => true | _ => false end.

Lemma bind_Ok {A B} (f : A -> outcome B) a : mbind f (Ok a) = f a.
Proof. done. Qed.

Lemma bind_inv_Ok {A B} (f : A -> outcome B) o b :
  mbind f o = Ok b -> exists a, o = Ok a /\ f a = Ok b.
Proof. destruct o; simpl; naive_solver. Qed.

Lemma bind_ext {A B} (f g : A -> outcome B) o o' :
  o = o' -> (forall a, f a = g a) -> mbind f o = mbind g o'.
Proof. intros <- Hfg. destruct o; simpl; auto. Qed.

Lemma bind_no_fuel {A B} (f : A -> outcome B) o :
  o <> OutOfFuel -> (forall a, f a <> OutOfFuel) -> mbind f o <> OutOfFuel.
Proof. destruct o; simpl; naive_solver. Qed.

#[export] Hint Rewrite @bind_Ok : elf_rw.

(** Splits a monadic computation that is known to return. *)
Ltac inv_bind H :=
  let a := fresh "a" in let Ha := fresh "H" a in
  apply bind_inv_Ok in H as (a & Ha & H).

(** ** Machine integers *)

Section arith.
Context `{Config}.

(** The result of an unsigned operation whose mathematical value is [v]: the
    dev profile panics on overflow, the release profile wraps. *)
Definition checked (lim v : Z) : outcome Z :=
  if (0 <=? v) && (v <? lim) then Ok v
  else if debug_assertions then Panic else Ok (v mod lim).

Definition uadd (a b : Z) : outcome Z := checked U64_LIM (a + b).
Definition usub (a b : Z) : outcome Z := checked U64_LIM (a - b).
Definition umul (a b : Z) : outcome Z := checked U64_LIM (a * b).
Definition u32_add (a b : Z) : outcome Z := checked U32_LIM (a + b).
Definition u32_sub (a b : Z) : outcome Z := checked U32_LIM (a - b).

(** Shifts: only the shift amount is checked, bits shifted out are lost. *)
Definition ushl (bits v n : Z) : outcome Z :=
  if n <? bits then Ok (Z.shiftl v n mod 2 ^ bits)
  else if debug_assertions then Panic else Ok (Z.shiftl v (n mod bits) mod 2 ^ bits).
Definition ushr (bits v n : Z) : outcome Z :=
  if n <? bits then Ok (Z.shiftr v n)
  else if debug_assertions then Panic else Ok (Z.shiftr v (n mod bits)).

(** [a % b]: division by zero panics in both profiles. *)
Definition urem (a b : Z) : outcome Z := if b =? 0 then Panic else Ok (a mod b).

(** [debug_assert!] *)
Definition debug_assert (b : bool) : outcome unit :=
  if debug_assertions then rust_assert b else Ok tt.

(** [debug_assert!] of an expression that computes: it is evaluated in the dev
    profile only. *)
Definition debug_check (c : outcome bool) : outcome unit :=
  if debug_assertions then b ← c; rust_assert b else Ok tt.

Lemma checked_small lim v : 0 <= v < lim -> checked lim v = Ok v.
Proof.
  intros Hv. unfold checked.
  by rewrite (proj2 (Z.leb_le _ _)), (proj2 (Z.ltb_lt _ _)) by lia.
Qed.
Lemma checked_no_fuel lim v : checked lim v <> OutOfFuel.
Proof. unfold checked. by repeat case_match. Qed.

Lemma uadd_ok a b : 0 <= a + b < U64_LIM -> uadd a b = Ok (a + b).
Proof. apply checked_small. Qed.
Lemma usub_ok a b : 0 <= a - b < U64_LIM -> usub a b = Ok (a - b).
Proof. apply checked_small. Qed.
Lemma umul_ok a b : 0 <= a * b < U64_LIM -> umul a b = Ok (a * b).
Proof. apply checked_small. Qed.
Lemma u32_sub_ok a b : 0 <= a - b < U32_LIM -> u32_sub a b = Ok (a - b).
Proof. apply checked_small. Qed.
Lemma ushr_ok bits v n : n < bits -> ushr bits v n = Ok (Z.shiftr v n).
Proof. intros Hn. unfold ushr. by rewrite (proj2 (Z.ltb_lt _ _)). Qed.
Lemma urem_ok a b : b <> 0 -> urem a b = Ok (a mod b).
Proof. intros Hb. unfold urem. by rewrite (proj2 (Z.eqb_neq _ _)). Qed.
Lemma debug_assert_ok b : b = true -> debug_assert b = Ok tt.
Proof. intros ->. unfold debug_assert. by destruct debug_assertions. Qed.

Lemma debug_check_ok c : c = Ok true -> debug_check c = Ok tt.
Proof. intros ->. unfold debug_check. by destruct debug_assertions. Qed.
End arith.

(** Rewrites away the arithmetic whose side condition [lia] proves. *)
Ltac ustep :=
  repeat first
    [ rewrite uadd_ok by lia | rewrite usub_ok by lia | rewrite umul_ok by lia
    | rewrite u32_sub_ok by lia | rewrite ushr_ok by lia | rewrite urem_ok by lia
    | rewrite debug_assert_ok by lia | rewrite bind_Ok ].

(** Pointer arithmetic ([add], [sub], [byte_add]) wraps at the word size. *)
Definition padd (p off : Z) : Z := (p + off) mod U64_LIM.

Lemma padd_small p off : 0 <= p + off < U64_LIM -> padd p off = p + off.
Proof. intros H. unfold padd. by rewrite Z.mod_small. Qed.

(** ** Little-endian integers *)

Fixpoint le_combine (bs : bytes) : Z :=
  match bs with [] => 0 | b :: bs' => b + 256 * le_combine bs' end.

Fixpoint le_split (n : nat) (v : Z) : bytes :=
  match n with O => [] | S n' => v mod 256 :: le_split n' (v / 256) end.

Definition byte_ok (b : Z) : Prop := 0 <= b < U8_LIM.

Lemma length_le_split n v : length (le_split n v) = n.
Proof. revert v. induction n; intros v; simpl; auto. Qed.

Lemma le_combine_split n v : le_combine (le_split n v) = v mod 256 ^ Z.of_nat n.
Proof.
  revert v. induction n as [|n IH]; intros v; cbn [le_split le_combine].
  - by rewrite Z.mod_1_r.
  - rewrite IH, Nat2Z.inj_succ, Z.pow_succ_r by lia.
    rewrite Z.rem_mul_r by lia. done.
Qed.

Lemma le_combine_range bs :
  Forall byte_ok bs -> 0 <= le_combine bs < 256 ^ Z.of_nat (length bs).
Proof.
  induction 1 as [|b bs Hb _ IH]; cbn [le_combine length]; [lia|].
  unfold byte_ok in Hb. rewrite Nat2Z.inj_succ, Z.pow_succ_r by lia. nia.
Qed.

(** ** Memory *)

Notation memory := (gmap Z Z) (only parsing).

Fixpoint load_bytes (m : memory) (a : Z) (n : nat) : option bytes :=
  match n with
  | O => Some []
  | S n' => b ← m !! a; bs ← load_bytes m (a + 1) n'; Some (b :: bs)
  end.

Fixpoint store_bytes (m : memory) (a : Z) (bs : bytes) : memory :=
  match bs with
  | [] => m
  | b :: bs' => <[a := b]> (store_bytes m (a + 1) bs')
  end.

(** An [n]-byte little-endian read through a raw pointer. *)
Definition load_le (m : memory) (a : Z) (n : nat) : outcome Z :=
  match load_bytes m a n with Some bs => Ok (le_combine bs) | None => Fault end.

Definition read_u8 (m : memory) (a : Z) : outcome Z := load_le m a 1.
Definition read_u16 (m : memory) (a : Z) : outcome Z := load_le m a 2.
Definition read_u32 (m : memory) (a : Z) : outcome Z := load_le m a 4.
Definition read_u64 (m : memory) (a : Z) : outcome Z := load_le m a 8.

(** Every byte of the memory is a byte. *)
Definition mem_ok (m : memory) : Prop := map_Forall (fun _ b => byte_ok b) m.

Lemma load_bytes_length m a n bs : load_bytes m a n = Some bs -> length bs = n.
Proof.
  revert a bs. induction n as [|n IH]; intros a bs; simpl; [naive_solver|].
  destruct (m !! a); simpl; [|done].
  destruct (load_bytes m (a + 1) n) eqn:Hl; simpl; [|done].
  intros [= <-]. simpl. f_equal. eauto.
Qed.

Lemma load_bytes_lookup m a n bs :
  load_bytes m a n = Some bs <->
  length bs = n /\ forall i, (i < n)%nat -> m !! (a + Z.of_nat i) = bs !! i.
Proof.
  revert a bs. induction n as [|n IH]; intros a bs; simpl.
  - split.
    + intros [= <-]. split; [done|]. intros; lia.
    + intros [Hl _]. by destruct bs.
  - split.
    + destruct (m !! a) as [b|] eqn:Hb; simpl; [|done].
      destruct (load_bytes m (a + 1) n) as [bs'|] eqn:Hl; simpl; [|done].
      intros [= <-]. apply IH in Hl as [Hlen Hi]. split; [simpl; lia|].
      intros [|i] Hlt; [by rewrite Z.add_0_r|]. simpl. rewrite <- Hi by lia. f_equal. lia.
    + destruct bs as [|b bs]; intros [Hlen Hi]; simpl in Hlen; [lia|].
      pose proof (Hi 0%nat ltac:(lia)) as H0. rewrite Z.add_0_r in H0. simpl in H0.
      rewrite H0. simpl.
      assert (load_bytes m (a + 1) n = Some bs) as ->; [|done].
      apply IH. split; [lia|]. intros i Hlt. specialize (Hi (S i) ltac:(lia)). simpl in Hi.
      rewrite <- Hi. f_equal. lia.
Qed.

Lemma load_bytes_mapped m a n :
  is_Some (load_bytes m a n) <-> forall i, (i < n)%nat -> is_Some (m !! (a + Z.of_nat i)).
Proof.
  revert a. induction n as [|n IH]; intros a; simpl.
  - split; [intros _ i; lia|eauto].
  - split.
    + intros [bs Hbs] i Hi. destruct (m !! a) as [b|] eqn:Hb; simpl in Hbs; [|done].
      destruct i as [|i]; [rewrite Z.add_0_r; eauto|].
      destruct (load_bytes m (a + 1) n) eqn:Hl; simpl in Hbs; [|done].
      replace (a + Z.of_nat (S i)) with (a + 1 + Z.of_nat i) by lia.
      apply IH; [eauto|lia].
    + intros Hi. destruct (Hi 0%nat ltac:(lia)) as [b Hb]. rewrite Z.add_0_r in Hb.
      rewrite Hb. simpl. destruct (proj2 (IH (a + 1))) as [bs Hbs]; [|rewrite Hbs; simpl; eauto].
      intros i Hlt. replace (a + 1 + Z.of_nat i) with (a + Z.of_nat (S i)) by lia. apply Hi. lia.
Qed.

Lemma load_bytes_ok m a n bs : mem_ok m -> load_bytes m a n = Some bs -> Forall byte_ok bs.
Proof.
  intros Hm [Hlen Hi]%load_bytes_lookup. apply Forall_lookup_2. intros i b Hb.
  pose proof (lookup_lt_Some _ _ _ Hb).
  rewrite <- Hi in Hb by lia. exact (map_Forall_lookup_1 _ _ _ _ Hm Hb).
Qed.

Lemma load_le_ok m a n v : mem_ok m -> load_le m a n = Ok v -> 0 <= v < 256 ^ Z.of_nat n.
Proof.
  unfold load_le. intros Hm Hl. destruct (load_bytes m a n) as [bs|] eqn:Hbs; [|done].
  simplify_eq. rewrite <- (load_bytes_length _ _ _ _ Hbs). apply le_combine_range.
  by eapply load_bytes_ok.
Qed.

Lemma load_le_no_fuel m a n : load_le m a n <> OutOfFuel.
Proof. unfold load_le. by case_match. Qed.

Lemma store_bytes_lookup m a bs i :
  store_bytes m a bs !! i =
    if decide (a <= i < a + Z.of_nat (length bs)) then bs !! Z.to_nat (i - a) else m !! i.
Proof.
  revert a. induction bs as [|b bs IH]; intros a; cbn [store_bytes length].
  - rewrite decide_False by lia. done.
  - rewrite lookup_insert, IH. repeat case_decide; try lia; subst.
    + by rewrite Z.sub_diag.
    + replace (Z.to_nat (i - a)) with (S (Z.to_nat (i - (a + 1)))) by lia. done.
    + done.
Qed.

Lemma store_bytes_out m a bs i :
  ~ (a <= i < a + Z.of_nat (length bs)) -> store_bytes m a bs !! i = m !! i.
Proof. intros H. by rewrite store_bytes_lookup, decide_False. Qed.

Lemma store_bytes_in m a bs i b :
  bs !! i = Some b -> store_bytes m a bs !! (a + Z.of_nat i) = Some b.
Proof.
  intros Hb. pose proof (lookup_lt_Some _ _ _ Hb).
  rewrite store_bytes_lookup, decide_True by lia.
  by replace (Z.to_nat (a + Z.of_nat i - a)) with i by lia.
Qed.

Lemma load_store_eq m a bs : load_bytes (store_bytes m a bs) a (length bs) = Some bs.
Proof.
  apply load_bytes_lookup. split; [done|]. intros i Hi.
  destruct (lookup_lt_is_Some_2 bs i Hi) as [b Hb]. rewrite Hb. by apply store_bytes_in.
Qed.

Lemma load_bytes_agree m1 m2 a n :
  (forall i, a <= i < a + Z.of_nat n -> m1 !! i = m2 !! i) ->
  load_bytes m1 a n = load_bytes m2 a n.
Proof.
  revert a. induction n as [|n IH]; intros a Hagree; simpl; [done|].
  rewrite Hagree by lia. rewrite (IH (a + 1)); [done|]. intros i Hi. apply Hagree. lia.
Qed.

Lemma load_le_agree m1 m2 a n :
  (forall i, a <= i < a + Z.of_nat n -> m1 !! i = m2 !! i) -> load_le m1 a n = load_le m2 a n.
Proof. intros H. unfold load_le. by rewrite (load_bytes_agree m1 m2). Qed.

(** Walks over memory end: [n] distinct mapped addresses need [n] entries of the
    map, so a walk with a positive stride leaves the mapped memory within
    [size m] steps.  This bounds every loop that scans raw memory. *)
Lemma stride_walk_bound (m : memory) (a k : Z) (n : nat) :
  0 < k -> (forall i, (i < n)%nat -> is_Some (m !! (a + k * Z.of_nat i))) -> (n <= size m)%nat.
Proof.
  intros Hk Hall.
  set (l := (fun i : nat => a + k * Z.of_nat i) <$> seq 0 n).
  assert (Hnd : NoDup l).
  { apply NoDup_fmap_2; [|apply NoDup_seq]. intros i j Hij. nia. }
  assert (Hsub : (list_to_set l : gset Z) ⊆ dom m).
  { intros x. rewrite elem_of_list_to_set. unfold l. rewrite list_elem_of_fmap.
    intros (i & -> & Hi%elem_of_seq). apply elem_of_dom. apply Hall. lia. }
  apply subseteq_size in Hsub. rewrite size_list_to_set in Hsub by done.
  rewrite size_dom in Hsub. unfold l in Hsub. by rewrite length_fmap, length_seq in Hsub.
Qed.

(** ** C strings

    [CStr::from_ptr] scans for the terminating NUL.  The scan is bounded by the
    number of mapped bytes: one byte further and it has left the mapped memory. *)

Fixpoint cstr_scan (fuel : nat) (m : memory) (p : Z) : outcome bytes :=
  match fuel with
  | O => OutOfFuel
  | S fuel' =>
      match m !! p with
      | None => Fault
      | Some b => if b =? 0 then Ok [] else bs ← cstr_scan fuel' m (p + 1); Ok (b :: bs)
      end
  end.

Definition cstr_from_ptr (m : memory) (p : Z) : outcome bytes := cstr_scan (S (size m)) m p.

(** A NUL-terminated string sits at [p]. *)
Definition cstr_at (m : memory) (p : Z) (s : bytes) : Prop :=
  load_bytes m p (length s) = Some s /\ m !! (p + Z.of_nat (length s)) = Some 0 /\
  Forall (fun b => b <> 0) s.

Lemma cstr_scan_at fuel m p s :
  cstr_at m p s -> (length s < fuel)%nat -> cstr_scan fuel m p = Ok s.
Proof.
  revert p s. induction fuel as [|fuel IH]; intros p s (Hl & Hz & Hnz) Hf; [lia|].
  destruct s as [|b s]; simpl in *.
  - rewrite Z.add_0_r in Hz. by rewrite Hz.
  - apply Forall_cons in Hnz as [Hb Hnz].
    destruct (m !! p) as [b'|] eqn:Hp; simpl in Hl; [|done].
    destruct (load_bytes m (p + 1) (length s)) as [s'|] eqn:Hl'; simpl in Hl; [|done].
    simplify_eq. rewrite (proj2 (Z.eqb_neq _ _)) by done.
    rewrite (IH (p + 1) s); [done| |lia]. split_and!; [done| |done].
    by replace (p + 1 + Z.of_nat (length s)) with (p + Z.of_nat (S (length s))) by lia.
Qed.

Lemma cstr_at_short m p s : cstr_at m p s -> (length s < size m)%nat.
Proof.
  intros (Hl & Hz & _). apply (stride_walk_bound m p 1 (S (length s))); [lia|].
  intros i Hi. rewrite Z.mul_1_l. destruct (decide (i = length s)) as [->|]; [eauto|].
  apply (load_bytes_mapped m p (length s)); [eauto|lia].
Qed.

Lemma cstr_from_ptr_at m p s : cstr_at m p s -> cstr_from_ptr m p = Ok s.
Proof. intros Hs. apply cstr_scan_at; [done|]. pose proof (cstr_at_short _ _ _ Hs). lia. Qed.

Lemma cstr_scan_no_fuel m p a n :
  p = a + Z.of_nat n -> (forall i, (i < n)%nat -> is_Some (m !! (a + 1 * Z.of_nat i))) ->
  forall fuel, (size m < n + fuel)%nat -> cstr_scan fuel m p <> OutOfFuel.
Proof.
  intros -> Hall fuel. revert n Hall. induction fuel as [|fuel IH]; intros n Hall Hf.
  - pose proof (stride_walk_bound m a 1 n ltac:(lia) Hall). lia.
  - simpl. destruct (m !! (a + Z.of_nat n)) as [b|] eqn:Hb; [|done].
    destruct (b =? 0); [done|]. apply bind_no_fuel; [|done].
    replace (a + Z.of_nat n + 1) with (a + Z.of_nat (S n)) by lia. apply IH; [|lia].
    intros i Hi. destruct (decide (i = n)) as [->|]; [rewrite Z.mul_1_l; eauto|]. apply Hall. lia.
Qed.

Lemma cstr_from_ptr_total m p : cstr_from_ptr m p <> OutOfFuel.
Proof. apply (cstr_scan_no_fuel m p p 0); [lia|intros i; lia|lia]. Qed.

Lemma cstr_from_ptr_inv m p s : cstr_from_ptr m p = Ok s -> cstr_at m p s.
Proof.
  unfold cstr_from_ptr. generalize (S (size m)). intros fuel. revert p s.
  induction fuel as [|fuel IH]; intros p s; simpl; [done|].
  destruct (m !! p) as [b|] eqn:Hb; [|done]. destruct (b =? 0) eqn:Hz.
  - intros [= <-]. apply Z.eqb_eq in Hz as ->. split_and!; simpl; [done| |done].
    by rewrite Z.add_0_r.
  - intros H. inv_bind H. simplify_eq. apply IH in Ha as (Hl & Hnul & Hnz).
    apply Z.eqb_neq in Hz. split_and!; [| |by constructor].
    + simpl. rewrite Hb. simpl. by rewrite Hl.
    + simpl length. replace (p + Z.of_nat (S (length a))) with (p + 1 + Z.of_nat (length a)) by lia.
      done.
Qed.

(** ** The state monad *)

(** Calls that leave the library: native code, the kernel, the allocator.  The
    log keeps them in order. *)
Inductive event :=
  | EvCall (f : Z) (args : list Z)
  | EvMmap (addr len prot flags fd off : Z) (res : option Z)
  | EvMprotect (addr len prot : Z) (ok : bool)
  | EvMunmap (addr len : Z) (ok : bool)
  | EvAlloc (len align : Z) (res : option Z)
  | EvDealloc (addr len : Z)
  | EvOpen (path : bytes) (res : Z)
  | EvLseek (fd off : Z) (res : Z)
  | EvRead (fd n : Z) (res : Z)
  | EvClose (fd : Z)
  | EvWrite (fd : Z) (bs : bytes) (res : Z).

(** The shared part of an [Arc]'s allocation: the counts of strong and of weak
    handles, and the flag [is_init] of the object it holds.  The standard library
    counts one weak handle more while there is a strong one; [weak_count] hides
    it.  The allocation is there as long as a handle of either kind is. *)
Record arc_cell := mk_cell { strong : Z; weak : Z; cell_init : bool }.

#[export] Instance arc_cell_eq_dec : EqDecision arc_cell.
Proof. solve_decision. Defined.

(** The memory, the log of external calls, the static [GLOBAL_SCOPE] of
    [relocation.rs] (0 when unset) and the [Arc]s by address. *)
Record world := mk_world {
  mem : memory;
  log : list event;
  GLOBAL_SCOPE : Z;
  arcs : gmap Z arc_cell;
}.

Definition set_mem (m : memory) (w : world) : world := mk_world m (log w) (GLOBAL_SCOPE w) (arcs w).
Definition push_event (e : event) (w : world) : world :=
  mk_world (mem w) (log w ++ [e]) (GLOBAL_SCOPE w) (arcs w).
Definition set_arcs (a : gmap Z arc_cell) (w : world) : world :=
  mk_world (mem w) (log w) (GLOBAL_SCOPE w) a.
Definition empty_world : world := mk_world ∅ [] 0 ∅.

(** A computation keeps the world whatever its outcome: an error or a panic
    does not roll back what was done. *)
Definition M (A : Type) : Type := world -> outcome A * world.

Definition ret {A} (a : A) : M A := fun w => (Ok a, w).
Definition bind {A B} (c : M A) (f : A -> M B) : M B := fun w =>
  match c w with
  | (Ok a, w') => f a w'
  | (Err e, w') => (Err e, w')
  | (Panic, w') => (Panic, w')
  | (Fault, w') => (Fault, w')
  | (OutOfFuel, w') => (OutOfFuel, w')
  end.

Notation "'let!' x := c 'in' k" := (bind c (fun x => k))
  (at level 200, x name, c at level 100, k at level 200, right associativity) : elf_scope.
Notation "'let!' ' p := c 'in' k" := (bind c (fun x => match x with p => k end))
  (at level 200, p pattern, c at level 100, k at level 200, right associativity) : elf_scope.
Notation "c ;; k" := (bind c (fun _ => k)) (at level 100, right associativity) : elf_scope.
#[global] Open Scope elf_scope.

(** Pure outcomes, readers of the memory, and effects. *)
Definition lift {A} (o : outcome A) : M A := fun w => (o, w).
Definition reads {A} (f : memory -> outcome A) : M A := fun w => (f (mem w), w).
Definition emit (e : event) : M unit := fun w => (Ok tt, push_event e w).
Definition throw {A} (e : Error) : M A := fun w => (Err e, w).

(** [Result::map_err] *)
Definition map_err {A} (f : Error -> Error) (c : M A) : M A := fun w =>
  match c w with (Err e, w') => (Err (f e), w') | r => r end.

(** A raw write of a byte string: every byte must be mapped. *)
Definition write_bytes (a : Z) (bs : bytes) : M unit := fun w =>
  match load_bytes (mem w) a (length bs) with
  | Some _ => (Ok tt, set_mem (store_bytes (mem w) a bs) w)
  | None => (Fault, w)
  end.

(** [ptr.write(v)] for [*mut usize]. *)
Definition write_usize (a v : Z) : M unit := write_bytes a (le_split 8 v).

Fixpoint for_each {A} (l : list A) (f : A -> M unit) : M unit :=
  match l with
  | [] => ret tt
  | x :: l' => f x ;; for_each l' f
  end.

(** Native code reached through a function pointer: it returns a word and may
    change the memory; [None] is a call that does not return normally. *)
Class Native := {
  native_call : world -> Z -> list Z -> option (Z * memory);
}.

(** What holds of the memory is not broken by native code. *)
Definition native_keeps `{Native} (K : memory -> Prop) : Prop :=
  forall w f args v m', K (mem w) -> native_call w f args = Some (v, m') -> K m'.

Lemma native_keeps_and `{Native} (K1 K2 : memory -> Prop) :
  native_keeps K1 -> native_keeps K2 -> native_keeps (fun m => K1 m /\ K2 m).
Proof. intros H1 H2 w f args v m' [? ?] Hc. split; [by apply (H1 w f args v)|by apply (H2 w f args v)]. Qed.

Definition invoke `{Native} (f : Z) (args : list Z) : M Z := fun w =>
  match native_call w f args with
  | Some (v, m') => (Ok v, push_event (EvCall f args) (set_mem m' w))
  | None => (Fault, push_event (EvCall f args) w)
  end.

(** [Result::unwrap] *)
Definition unwrap_result {A} (c : M A) : M A := fun w =>
  match c w with (Err _, w') => (Panic, w') | r => r end.

Lemma unwrap_result_run {A} (c : M A) w a w' : c w = (Ok a, w') -> unwrap_result c w = (Ok a, w').
Proof. unfold unwrap_result. by intros ->. Qed.

(** Drop of a value whose owner returns: [finally] when the scope ends, whatever
    its outcome; [on_unwind] when it ends by an error or a panic.  A panic inside
    the drop wins over a result and over an error. *)
Definition run_drop {A} (o : outcome A) (d : M unit) : M A := fun w =>
  match d w with
  | (Ok _, w') => (o, w')
  | (Err e, w') => (Err e, w')
  | (Panic, w') => (Panic, w')
  | (Fault, w') => (Fault, w')
  | (OutOfFuel, w') => (OutOfFuel, w')
  end.

Definition finally {A} (c : M A) (d : M unit) : M A := fun w =>
  match c w with
  | (Ok a, w') => run_drop (Ok a) d w'
  | (Err e, w') => run_drop (Err e) d w'
  | (Panic, w') => run_drop Panic d w'
  | r => r
  end.

Definition on_unwind {A} (c : M A) (d : M unit) : M A := fun w =>
  match c w with
  | (Err e, w') => run_drop (Err e) d w'
  | (Panic, w') => run_drop Panic d w'
  | r => r
  end.

(** ** Running computations *)

Lemma bind_run {A B} (c : M A) (f : A -> M B) w w' a :
  c w = (Ok a, w') -> bind c f w = f a w'.
Proof. unfold bind. by intros ->. Qed.

Lemma bind_run_inv {A B} (c : M A) (f : A -> M B) w w' b :
  bind c f w = (Ok b, w') -> exists a w1, c w = (Ok a, w1) /\ f a w1 = (Ok b, w').
Proof. unfold bind. destruct (c w) as [[] w1]; intros; simplify_eq; eauto. Qed.

Lemma lift_bind_inv {A B} (o : outcome A) (f : A -> M B) w w' b :
  bind (lift o) f w = (Ok b, w') -> exists a, o = Ok a /\ f a w = (Ok b, w').
Proof. unfold bind, lift. destruct o; intros; simplify_eq; eauto. Qed.

Lemma finally_inv {A} (c : M A) d w a w' :
  finally c d w = (Ok a, w') -> exists w1, c w = (Ok a, w1) /\ w' = (d w1).2.
Proof.
  unfold finally, run_drop. destruct (c w) as [[] w1]; try done;
    destruct (d w1) as [[] w2] eqn:Hd; intros; simplify_eq; exists w1; by rewrite Hd.
Qed.

Lemma finally_run_inv {A} (c : M A) d w a w' :
  finally c d w = (Ok a, w') -> exists w1, c w = (Ok a, w1) /\ d w1 = (Ok tt, w').
Proof.
  unfold finally, run_drop. destruct (c w) as [[] w1]; try done;
    destruct (d w1) as [[[]| | | |] w2] eqn:Hd; intros; simplify_eq; eauto.
Qed.

Lemma finally_run {A} (c : M A) d w w1 w' a :
  c w = (Ok a, w1) -> d w1 = (Ok tt, w') -> finally c d w = (Ok a, w').
Proof. unfold finally, run_drop. by intros -> ->. Qed.

Lemma on_unwind_run {A} (c : M A) d w w' a : c w = (Ok a, w') -> on_unwind c d w = (Ok a, w').
Proof. unfold on_unwind. by intros ->. Qed.

Lemma on_unwind_err {A} (c : M A) d w w1 w' e :
  c w = (Err e, w1) -> d w1 = (Ok tt, w') -> on_unwind c d w = (Err e, w').
Proof. unfold on_unwind, run_drop. by intros -> ->. Qed.

Lemma on_unwind_inv {A} (c : M A) d w a w' : on_unwind c d w = (Ok a, w') -> c w = (Ok a, w').
Proof.
  unfold on_unwind, run_drop. destruct (c w) as [[] w1]; try done;
    destruct (d w1) as [[] w2]; intros; simplify_eq.
Qed.

Lemma write_bytes_run a bs w :
  (forall i, a <= i < a + Z.of_nat (length bs) -> is_Some (mem w !! i)) ->
  write_bytes a bs w = (Ok tt, set_mem (store_bytes (mem w) a bs) w).
Proof.
  intros Hm. unfold write_bytes.
  destruct (proj2 (load_bytes_mapped (mem w) a (length bs))) as [l ->]; [|done].
  intros i Hi. apply Hm. lia.
Qed.

Lemma write_bytes_inv a bs w w' :
  write_bytes a bs w = (Ok tt, w') ->
  w' = set_mem (store_bytes (mem w) a bs) w /\
  (forall i, a <= i < a + Z.of_nat (length bs) -> is_Some (mem w !! i)).
Proof.
  unfold write_bytes. destruct (load_bytes (mem w) a (length bs)) as [l|] eqn:Hl; [|done].
  intros [= <-]. split; [done|]. intros i Hi.
  replace i with (a + Z.of_nat (Z.to_nat (i - a))) by lia.
  apply (load_bytes_mapped (mem w) a (length bs)); [eauto|lia].
Qed.

(** Two memories are mapped at the same addresses. *)
Definition same_dom (m m' : memory) : Prop := forall i, is_Some (m !! i) <-> is_Some (m' !! i).

#[export] Instance same_dom_equiv : Equivalence same_dom.
Proof.
  split; [by intros m i|by intros m m' H i|]. intros m1 m2 m3 H1 H2 i. by rewrite (H1 i), (H2 i).
Qed.

Lemma store_bytes_same_dom m a bs :
  (forall i, a <= i < a + Z.of_nat (length bs) -> is_Some (m !! i)) ->
  same_dom m (store_bytes m a bs).
Proof.
  intros Hm i. rewrite store_bytes_lookup. case_decide; [|done].
  split; intros _; [|auto]. apply lookup_lt_is_Some_2. lia.
Qed.

(** ** Iterators

    [for a in it { s = f(s, a) }] for an iterator given by its [next]; the fuel is
    the number of calls to [next] the loop may make. *)
Fixpoint iter_fold {I A S : Type} (next : I -> outcome (option A * I))
    (f : S -> A -> outcome S) (fuel : nat) (it : I) (s : S) : outcome S :=
  match fuel with
  | O => OutOfFuel
  | Datatypes.S fuel' =>
      r ← next it;
      match r with
      | (None, _) => Ok s
      | (Some a, it') => s' ← f s a; iter_fold next f fuel' it' s'
      end
  end.

(** The same loop over a list. *)
Fixpoint fold_outcome {A S : Type} (f : S -> A -> outcome S) (l : list A) (s : S) : outcome S :=
  match l with
  | [] => Ok s
  | a :: l' => s' ← f s a; fold_outcome f l' s'
  end.

(** [yields next it l]: the iterator produces exactly the items of [l]. *)
Fixpoint yields {I A : Type} (next : I -> outcome (option A * I)) (it : I) (l : list A) : Prop :=
  match l with
  | [] => exists it', next it = Ok (None, it')
  | a :: l' => exists it', next it = Ok (Some a, it') /\ yields next it' l'
  end.

Lemma iter_fold_yields {I A S : Type} (next : I -> outcome (option A * I)) (f : S -> A -> outcome S)
    fuel it l s :
  yields next it l -> (length l < fuel)%nat ->
  iter_fold next f fuel it s = fold_outcome f l s.
Proof.
  revert it l s. induction fuel as [|fuel IH]; intros it l s Hy Hf; [lia|].
  destruct l as [|a l]; simpl in *.
  - destruct Hy as [it' ->]. done.
  - destruct Hy as (it' & -> & Hy). simpl. destruct (f s a); simpl; try done.
    apply IH; [done|lia].
Qed.

Lemma fold_outcome_pure {A S : Type} (f : S -> A -> outcome S) (g : S -> A -> S) l s :
  (forall s a, a ∈ l -> f s a = Ok (g s a)) -> fold_outcome f l s = Ok (fold_left g l s).
Proof.
  revert s. induction l as [|a l IH]; intros s Hf; simpl; [done|].
  rewrite Hf by (by left). simpl. apply IH. intros s' a' Ha. apply Hf. by right.
Qed.

(** ** Text

    [core::str::from_utf8]: the well-formed byte sequences of the Unicode standard. *)
Definition cont_byte (b : Z) : bool := (128 <=? b) && (b <=? 191).
Definition in_range (lo hi b : Z) : bool := (lo <=? b) && (b <=? hi).

Fixpoint utf8_valid (s : bytes) : bool :=
  match s with
  | [] => true
  | a :: s1 =>
      if a <? 128 then utf8_valid s1
      else if in_range 194 223 a then
        match s1 with b :: s2 => cont_byte b && utf8_valid s2 | _ => false end
      else if in_range 224 239 a then
        match s1 with
        | b :: c :: s3 =>
            in_range (if a =? 224 then 160 else 128) (if a =? 237 then 159 else 191) b &&
            cont_byte c && utf8_valid s3
        | _ => false
        end
      else if in_range 240 244 a then
        match s1 with
        | b :: c :: d :: s4 =>
            in_range (if a =? 240 then 144 else 128) (if a =? 244 then 143 else 191) b &&
            cont_byte c && cont_byte d && utf8_valid s4
        | _ => false
        end
      else false
  end.

(** [CStr::to_str().unwrap()] *)
Definition to_str_unwrap (s : bytes) : outcome bytes := if utf8_valid s then Ok s else Panic.

Definition string_of_bytes (s : bytes) : string :=
  String.string_of_list_ascii ((fun b => Ascii.ascii_of_N (Z.to_N b)) <$> s).

(** ** Concrete memories

    Packed little-endian records and memories written piece by piece, for the
    closed examples. *)
Definition pack (fields : list (nat * Z)) : bytes := mjoin ((fun f => le_split f.1 f.2) <$> fields).
Definition image (pieces : list (Z * bytes)) : memory :=
  foldr (fun p m => store_bytes m p.1 p.2) ∅ pieces.

(** The ASCII bytes of a string. *)
Definition bytes_of (s : string) : bytes :=
  (fun c => Z.of_N (Ascii.N_of_ascii c)) <$> String.list_ascii_of_string s.

(** The two cargo profiles with the [version] feature, and the default features. *)
Definition release_config : Config := {| debug_assertions := false; feature_version := true |}.
Definition dev_config : Config := {| debug_assertions := true; feature_version := true |}.
Definition default_config : Config := {| debug_assertions := false; feature_version := false |}.

(** A C string found by computation. *)
Lemma cstr_at_check m p s :
  load_bytes m p (length s) = Some s -> m !! (p + Z.of_nat (length s)) = Some 0 ->
  forallb (fun b => negb (b =? 0)) s = true -> cstr_at m p s.
Proof.
  intros H1 H2 H3. split_and!; [done..|]. apply Forall_forall. intros b Hb.
  rewrite forallb_forall in H3. specialize (H3 b (proj1 (list_elem_of_In _ _) Hb)). lia.
Qed.

(** ** Slices

    [&[T]]: an address and a number of elements.  A shared slice is immutable for
    its lifetime, so a loop over it decodes it where the loop starts. *)
Record slice := mk_slice { sl_ptr : Z; sl_len : Z }.

#[export] Instance slice_eq_dec : EqDecision slice.
Proof. solve_decision. Defined.

Fixpoint read_array {A} (read : memory -> Z -> outcome A) (size : Z) (m : memory) (p : Z) (n : nat) :
    outcome (list A) :=
  match n with
  | O => Ok []
  | S n' => x ← read m p; xs ← read_array read size m (p + size) n'; Ok (x :: xs)
  end.

Definition read_slice {A} (read : memory -> Z -> outcome A) (size : Z) (m : memory) (s : slice) :
    outcome (list A) := read_array read size m (sl_ptr s) (Z.to_nat (sl_len s)).

Lemma read_array_lookup {A} (read : memory -> Z -> outcome A) size m n : forall p xs,
  read_array read size m p n = Ok xs <->
  length xs = n /\ forall i x, xs !! i = Some x -> read m (p + size * Z.of_nat i) = Ok x.
Proof.
  induction n as [|n IH]; intros p xs; cbn [read_array].
  - split; [intros [= <-]; split; [done|]; intros i x Hi; by rewrite lookup_nil in Hi|].
    intros [Hl _]. by destruct xs.
  - split.
    + intros H. inv_bind H. inv_bind H. simplify_eq.
      match goal with Hx : read_array _ _ _ _ _ = _ |- _ => apply IH in Hx as [Hl Hi] end.
      split; [simpl; lia|]. intros [|i] x Hx; simpl in Hx.
      * simplify_eq. by rewrite Z.mul_0_r, Z.add_0_r.
      * replace (p + size * Z.of_nat (S i)) with (p + size + size * Z.of_nat i) by lia. by apply Hi.
    + destruct xs as [|x xs]; intros [Hl Hi]; simpl in Hl; [lia|].
      pose proof (Hi 0%nat x eq_refl) as H0. rewrite Z.mul_0_r, Z.add_0_r in H0. rewrite H0. simpl.
      rewrite (proj2 (IH (p + size) xs)); [done|]. split; [lia|].
      intros i y Hy. specialize (Hi (S i) y Hy). rewrite <- Hi. f_equal. lia.
Qed.
