(* ===== verification/Arch.v ===== *)
(** * Arch: the ELF data the loader reads, and the per-CPU constants

    Models [src/src/arch/mod.rs] and the four CPU files beside it.  The numeric
    constants of the [elf] crate are the values of the System V gABI and of the
    processor supplements; the record layouts are those of the 64-bit ELF
    structures, which every supported CPU uses. *)

From S2P Require Import Prelude Machine.
#[local] Open Scope Z_scope.

(** ** Constants of the ELF specification *)

Definition PT_LOAD := 1.
Definition PT_DYNAMIC := 2.
Definition PT_INTERP := 3.
Definition PT_PHDR := 6.
Definition PT_GNU_RELRO := 1685382482.
Definition PF_X := 1.
Definition PF_W := 2.
Definition PF_R := 4.
Definition ET_DYN := 3.
Definition EI_CLASS : nat := 4.
Definition EI_VERSION : nat := 6.
Definition ELFCLASS64 := 2.
Definition EV_CURRENT := 1.
Definition ELFMAGIC : bytes := [127; 69; 76; 70].
Definition SHN_UNDEF := 0.
Definition STB_LOCAL := 0.
Definition STB_GLOBAL := 1.
Definition STB_WEAK := 2.
Definition STB_GNU_UNIQUE := 10.
Definition STT_NOTYPE := 0.
Definition STT_OBJECT := 1.
Definition STT_FUNC := 2.
Definition STT_COMMON := 5.
Definition STT_TLS := 6.
Definition STT_GNU_IFUNC := 10.

(** ** Sizes *)

Definition EHDR_SIZE := 64.
Definition PHDR_SIZE := 56.
Definition SYM_SIZE := 24.
Definition RELA_SIZE := 24.
Definition DYN_SIZE := 16.
Definition E_CLASS := ELFCLASS64.
Definition REL_MASK := 4294967295.
Definition REL_BIT := 32.

(** ** Relocation entries *)

Record ElfRela := mk_rela {
  rela_r_offset : Z;
  rela_r_info : Z;
  rela_r_addend : Z;   (** the [i64] addend as the [usize] it is cast to *)
}.

Definition r_type (r : ElfRela) : Z := Z.land (rela_r_info r) REL_MASK.
Definition r_symbol (r : ElfRela) : Z := Z.shiftr (rela_r_info r) REL_BIT.
Definition r_offset (r : ElfRela) : Z := rela_r_offset r.
Definition r_addend (r : ElfRela) : Z := rela_r_addend r.

Definition read_rela (m : memory) (p : Z) : outcome ElfRela :=
  o ← read_u64 m p; i ← read_u64 m (p + 8); a ← read_u64 m (p + 16); Ok (mk_rela o i a).

(** ** Symbols *)

Record ElfSymbol := mk_symbol {
  sym_st_name : Z;
  sym_st_info : Z;
  sym_st_other : Z;
  sym_st_shndx : Z;
  sym_st_value : Z;
  sym_st_size : Z;
}.

#[export] Instance ElfSymbol_eq_dec : EqDecision ElfSymbol.
Proof. solve_decision. Defined.

Definition st_value (s : ElfSymbol) : Z := sym_st_value s.
Definition st_bind (s : ElfSymbol) : Z := Z.shiftr (sym_st_info s) 4.
Definition st_type (s : ElfSymbol) : Z := Z.land (sym_st_info s) 15.
Definition st_shndx (s : ElfSymbol) : Z := sym_st_shndx s.
Definition st_name (s : ElfSymbol) : Z := sym_st_name s.
Definition st_size (s : ElfSymbol) : Z := sym_st_size s.
Definition st_other (s : ElfSymbol) : Z := sym_st_other s.

Definition OK_BINDS : Z :=
  Z.lor (Z.lor (Z.shiftl 1 STB_GLOBAL) (Z.shiftl 1 STB_WEAK)) (Z.shiftl 1 STB_GNU_UNIQUE).
Definition OK_TYPES : Z :=
  Z.lor (Z.lor (Z.lor (Z.lor (Z.lor (Z.shiftl 1 STT_NOTYPE) (Z.shiftl 1 STT_OBJECT))
    (Z.shiftl 1 STT_FUNC)) (Z.shiftl 1 STT_COMMON)) (Z.shiftl 1 STT_TLS))
    (Z.shiftl 1 STT_GNU_IFUNC).

Definition is_undef (s : ElfSymbol) : bool := st_shndx s =? SHN_UNDEF.
Definition is_ok_bind (s : ElfSymbol) : bool := negb (Z.land (Z.shiftl 1 (st_bind s)) OK_BINDS =? 0).
Definition is_ok_type (s : ElfSymbol) : bool := negb (Z.land (Z.shiftl 1 (st_type s)) OK_TYPES =? 0).
Definition is_local (s : ElfSymbol) : bool := st_bind s =? STB_LOCAL.
Definition is_weak (s : ElfSymbol) : bool := st_bind s =? STB_WEAK.

Definition read_symbol (m : memory) (p : Z) : outcome ElfSymbol :=
  name ← read_u32 m p; info ← read_u8 m (p + 4); other ← read_u8 m (p + 5);
  shndx ← read_u16 m (p + 6); value ← read_u64 m (p + 8); size ← read_u64 m (p + 16);
  Ok (mk_symbol name info other shndx value size).

(** ** Program headers *)

Record ElfPhdr := mk_phdr {
  p_type : Z;
  p_flags : Z;
  p_offset : Z;
  p_vaddr : Z;
  p_paddr : Z;
  p_filesz : Z;
  p_memsz : Z;
  p_align : Z;
}.

#[export] Instance ElfPhdr_eq_dec : EqDecision ElfPhdr.
Proof. solve_decision. Defined.

Definition read_phdr_at (m : memory) (p : Z) : outcome ElfPhdr :=
  t ← read_u32 m p; f ← read_u32 m (p + 4); o ← read_u64 m (p + 8); v ← read_u64 m (p + 16);
  pa ← read_u64 m (p + 24); fs ← read_u64 m (p + 32); ms ← read_u64 m (p + 40);
  al ← read_u64 m (p + 48);
  Ok (mk_phdr t f o v pa fs ms al).

(** ** The CPU interface

    What [relocation.rs] and [loader.rs] use of the CPU module. *)

Class Arch := {
  EM_ARCH : Z;
  TLS_DTV_OFFSET : Z;
  REL_RELATIVE : Z;
  REL_GOT : Z;
  REL_DTPMOD : Z;
  REL_SYMBOLIC : Z;
  REL_JUMP_SLOT : Z;
  REL_DTPOFF : Z;
  REL_IRELATIVE : Z;
  REL_COPY : Z;
  REL_TPOFF : Z;
  prepare_lazy_bind : Z -> Z -> M unit;   (** [got], [dylib] *)
}.

Definition REL_NONE := 0.

(** The GOT words written for lazy binding; [resolve] is the address of the
    assembly routine [dl_runtime_resolve]. *)
Definition prepare_lazy_bind_got12 (resolve got dylib : Z) : M unit :=
  write_usize (padd got 8) dylib ;; write_usize (padd got 16) resolve.

Definition prepare_lazy_bind_riscv64 (resolve got dylib : Z) : M unit :=
  write_usize got resolve ;; write_usize (padd got 8) dylib.

(** loongarch64 ends in [unimplemented!()]. *)
Definition prepare_lazy_bind_loongarch64 (resolve got dylib : Z) : M unit :=
  write_usize (padd got 8) dylib ;; write_usize (padd got 16) resolve ;; lift Panic.

Definition x86_64 (resolve : Z) : Arch := {|
  EM_ARCH := 62;
  TLS_DTV_OFFSET := 0;
  REL_RELATIVE := 8;
  REL_GOT := 6;
  REL_DTPMOD := 16;
  REL_SYMBOLIC := 1;
  REL_JUMP_SLOT := 7;
  REL_DTPOFF := 17;
  REL_IRELATIVE := 37;
  REL_COPY := 5;
  REL_TPOFF := 18;
  prepare_lazy_bind := prepare_lazy_bind_got12 resolve;
|}.

Definition aarch64 (resolve : Z) : Arch := {|
  EM_ARCH := 183;
  TLS_DTV_OFFSET := 0;
  REL_RELATIVE := 1027;
  REL_GOT := 1025;
  REL_DTPMOD := 1028;
  REL_SYMBOLIC := 257;
  REL_JUMP_SLOT := 1026;
  REL_DTPOFF := 1029;
  REL_IRELATIVE := 1032;
  REL_COPY := 1024;
  REL_TPOFF := 1030;
  prepare_lazy_bind := prepare_lazy_bind_got12 resolve;
|}.

Definition riscv64 (resolve : Z) : Arch := {|
  EM_ARCH := 243;
  TLS_DTV_OFFSET := 2048;
  REL_RELATIVE := 3;
  REL_GOT := 4294967295;
  REL_DTPMOD := 7;
  REL_SYMBOLIC := 2;
  REL_JUMP_SLOT := 5;
  REL_DTPOFF := 9;
  REL_IRELATIVE := 58;
  REL_COPY := 4;
  REL_TPOFF := 11;
  prepare_lazy_bind := prepare_lazy_bind_riscv64 resolve;
|}.

Definition loongarch64 (resolve : Z) : Arch := {|
  EM_ARCH := 258;
  TLS_DTV_OFFSET := 0;
  REL_RELATIVE := 3;
  REL_GOT := 4294967295;
  REL_DTPMOD := 7;
  REL_SYMBOLIC := 2;
  REL_JUMP_SLOT := 5;
  REL_DTPOFF := 9;
  REL_IRELATIVE := 12;
  REL_COPY := 4;
  REL_TPOFF := 11;
  prepare_lazy_bind := prepare_lazy_bind_loongarch64 resolve;
|}.

(** What the relocation loops rely on: the relocation numbers they dispatch on
    are pairwise different, so the order of the branches does not matter. *)
Definition rel_types `{Arch} : list Z :=
  [REL_NONE; REL_RELATIVE; REL_GOT; REL_SYMBOLIC; REL_JUMP_SLOT; REL_DTPOFF; REL_IRELATIVE; REL_COPY].

Class ArchOk (A : Arch) := { rel_types_distinct : NoDup (rel_types (H := A)) }.

#[export] Instance x86_64_ok r : ArchOk (x86_64 r).
Proof. constructor. by apply (bool_decide_unpack (NoDup _)). Qed.
#[export] Instance aarch64_ok r : ArchOk (aarch64 r).
Proof. constructor. by apply (bool_decide_unpack (NoDup _)). Qed.
#[export] Instance riscv64_ok r : ArchOk (riscv64 r).
Proof. constructor. by apply (bool_decide_unpack (NoDup _)). Qed.
#[export] Instance loongarch64_ok r : ArchOk (loongarch64 r).
Proof. constructor. by apply (bool_decide_unpack (NoDup _)). Qed.

(** ** Theorems *)

(** The bind test is membership of GLOBAL, WEAK and GNU_UNIQUE; the type test is
    membership of NOTYPE, OBJECT, FUNC, COMMON, TLS and GNU_IFUNC. *)
Lemma is_ok_bind_spec (s : ElfSymbol) :
  0 <= sym_st_info s < U8_LIM ->
  is_ok_bind s = bool_decide (st_bind s ∈ [STB_GLOBAL; STB_WEAK; STB_GNU_UNIQUE]).
Proof.
  intros Hi. unfold is_ok_bind, st_bind. rewrite Z.shiftr_div_pow2 by lia.
  change (2 ^ 4) with 16. assert (Hb : 0 <= sym_st_info s / 16 < 16) by zlia.
  generalize dependent (sym_st_info s / 16). intros b Hb.
  assert (Hcase : Forall (fun b => negb (Z.land (Z.shiftl 1 b) OK_BINDS =? 0) =
                             bool_decide (b ∈ [STB_GLOBAL; STB_WEAK; STB_GNU_UNIQUE])) (seqZ 0 16)).
  { vm_compute. repeat constructor. }
  rewrite Forall_forall in Hcase. apply Hcase. apply elem_of_seqZ. lia.
Qed.

Lemma is_ok_type_spec (s : ElfSymbol) :
  0 <= sym_st_info s ->
  is_ok_type s =
    bool_decide (st_type s ∈ [STT_NOTYPE; STT_OBJECT; STT_FUNC; STT_COMMON; STT_TLS; STT_GNU_IFUNC]).
Proof.
  intros Hi. unfold is_ok_type, st_type. change 15 with (2 ^ 4 - 1).
  rewrite land_low_mask by lia. change (2 ^ 4) with 16.
  assert (Ht : 0 <= sym_st_info s mod 16 < 16) by zlia.
  generalize dependent (sym_st_info s mod 16). intros t Ht.
  assert (Hcase : Forall (fun t => negb (Z.land (Z.shiftl 1 t) OK_TYPES =? 0) =
      bool_decide (t ∈ [STT_NOTYPE; STT_OBJECT; STT_FUNC; STT_COMMON; STT_TLS; STT_GNU_IFUNC]))
      (seqZ 0 16)).
  { vm_compute. repeat constructor. }
  rewrite Forall_forall in Hcase. apply Hcase. apply elem_of_seqZ. lia.
Qed.

(** A symbol relocations may bind to: defined, visible and of a linkable type. *)
Definition usable (s : ElfSymbol) : Prop :=
  st_shndx s <> SHN_UNDEF /\ st_bind s ∈ [STB_GLOBAL; STB_WEAK; STB_GNU_UNIQUE] /\
  st_type s ∈ [STT_NOTYPE; STT_OBJECT; STT_FUNC; STT_COMMON; STT_TLS; STT_GNU_IFUNC].

#[export] Instance usable_dec s : Decision (usable s).
Proof. unfold usable. apply _. Defined.

Lemma usable_bool (s : ElfSymbol) :
  0 <= sym_st_info s < U8_LIM ->
  negb (is_undef s) && is_ok_bind s && is_ok_type s = bool_decide (usable s).
Proof.
  intros Hs. rewrite is_ok_bind_spec, is_ok_type_spec by lia. apply eq_true_iff_eq. unfold is_undef.
  rewrite !andb_true_iff, negb_true_iff, Z.eqb_neq, !bool_decide_eq_true. unfold usable. tauto.
Qed.

Lemma read_symbol_info m p s : mem_ok m -> read_symbol m p = Ok s -> 0 <= sym_st_info s < U8_LIM.
Proof.
  intros Hm H. unfold read_symbol in H. do 6 inv_bind H. simplify_eq. simpl.
  match goal with Hi : read_u8 _ _ = Ok ?i |- 0 <= ?i < _ => exact (load_le_ok m _ 1 i Hm Hi) end.
Qed.
