(* ===== verification/StrTab.v ===== *)
(** * StrTab: the string table

    [ElfStringTable] of [src/src/symbol.rs]: a pointer to NUL-terminated names. *)

From S2P Require Import Prelude Machine.
#[local] Open Scope Z_scope.

Record ElfStringTable := mk_strtab { strtab_data : Z }.

(** [get_cstr]: the bytes of the C string at [offset]. *)
Definition get_cstr (m : memory) (t : ElfStringTable) (offset : Z) : outcome bytes :=
  cstr_from_ptr m (padd (strtab_data t) offset).

(** [convert_cstr]: [from_utf8_unchecked] keeps the bytes. *)
Definition convert_cstr (s : bytes) : bytes := s.

Definition get_str (m : memory) (t : ElfStringTable) (offset : Z) : outcome bytes :=
  s ← get_cstr m t offset; Ok (convert_cstr s).

(** The table holds [s] at [offset]. *)
Definition str_at (m : memory) (t : ElfStringTable) (offset : Z) (s : bytes) : Prop :=
  cstr_at m (padd (strtab_data t) offset) s.

Lemma get_str_at m t offset s : str_at m t offset s -> get_str m t offset = Ok s.
Proof. intros Hs. unfold get_str, get_cstr. by rewrite (cstr_from_ptr_at _ _ _ Hs). Qed.

Lemma get_str_inv m t offset s : get_str m t offset = Ok s -> str_at m t offset s.
Proof.
  unfold get_str, get_cstr. intros H. inv_bind H. simplify_eq. by apply cstr_from_ptr_inv.
Qed.

Lemma get_str_total m t offset : get_str m t offset <> OutOfFuel.
Proof. apply bind_no_fuel; [apply cstr_from_ptr_total|done]. Qed.

#[export] Hint Resolve get_str_at get_str_total : elf.
