(* ===== verification/Version.v ===== *)
(** * Version: GNU symbol versions

    Models [src/src/version.rs] (crate feature [version]): the iterators over
    [.gnu.version_d] and [.gnu.version_r], the table [ELFVersion] built from them,
    the version hash, and the two methods of [SymbolTable] that use the table. *)

From S2P Require Import Prelude Machine StrTab.
#[local] Open Scope Z_scope.

(** ** Section records *)

Definition VER_NDX_VERSION := 32767.
Definition VER_NDX_HIDDEN := 32768.

Record VerDef := mk_verdef {
  vd_version : Z; vd_flags : Z; vd_ndx : Z; vd_cnt : Z; vd_hash : Z; vd_aux : Z; vd_next : Z }.
Record VerDefAux := mk_verdefaux { vda_name : Z; vda_next : Z }.
Record VerNeed := mk_verneed {
  vn_version : Z; vn_cnt : Z; vn_file : Z; vn_aux : Z; vn_next : Z }.
Record VerNeedAux := mk_verneedaux {
  vna_hash : Z; vna_flags : Z; vna_other : Z; vna_name : Z; vna_next : Z }.

Definition VERDEFAUX_SIZE := 8.
Definition VERNEEDAUX_SIZE := 16.

Definition VerDef_index (d : VerDef) : Z := Z.land (vd_ndx d) VER_NDX_VERSION.
Definition VerNeedAux_index (a : VerNeedAux) : Z := Z.land (vna_other a) VER_NDX_VERSION.

Definition read_verdef (m : memory) (p : Z) : outcome VerDef :=
  v ← read_u16 m p; f ← read_u16 m (p + 2); n ← read_u16 m (p + 4); c ← read_u16 m (p + 6);
  h ← read_u32 m (p + 8); a ← read_u32 m (p + 12); x ← read_u32 m (p + 16);
  Ok (mk_verdef v f n c h a x).
Definition read_verdefaux (m : memory) (p : Z) : outcome VerDefAux :=
  n ← read_u32 m p; x ← read_u32 m (p + 4); Ok (mk_verdefaux n x).
Definition read_verneed (m : memory) (p : Z) : outcome VerNeed :=
  v ← read_u16 m p; c ← read_u16 m (p + 2); f ← read_u32 m (p + 4); a ← read_u32 m (p + 8);
  x ← read_u32 m (p + 12);
  Ok (mk_verneed v c f a x).
Definition read_verneedaux (m : memory) (p : Z) : outcome VerNeedAux :=
  h ← read_u32 m p; f ← read_u16 m (p + 4); o ← read_u16 m (p + 6); n ← read_u32 m (p + 8);
  x ← read_u32 m (p + 12);
  Ok (mk_verneedaux h f o n x).

(** ** Symbol version indices *)

Definition VersionIndex_index (v : Z) : Z := Z.land v VER_NDX_VERSION.
Definition VersionIndex_is_hidden (v : Z) : bool := negb (Z.land v VER_NDX_HIDDEN =? 0).

Record VersionIndexTable := mk_versions { version_ids_ptr : Z }.

Definition VersionIndexTable_get (m : memory) (t : VersionIndexTable) (sym_idx : Z) : outcome Z :=
  read_u16 m (padd (version_ids_ptr t) (2 * sym_idx)).

(** ** Iterators

    The four iterators share a shape: a cursor, a count, and the number of
    entries. *)
Record cursor := mk_cursor { cur_ptr : Z; cur_count : Z; cur_num : Z }.

Definition VerNeedAuxIterator_next (m : memory) (it : cursor) : outcome (option VerNeedAux * cursor) :=
  if cur_count it <? cur_num it then
    verneed_aux ← read_verneedaux m (cur_ptr it);
    Ok (Some verneed_aux,
        mk_cursor (padd (cur_ptr it) VERNEEDAUX_SIZE) (cur_count it + 1) (cur_num it))
  else Ok (None, it).

Definition VerNeedIterator_next (m : memory) (it : cursor) :
    outcome (option (VerNeed * cursor) * cursor) :=
  if cur_count it <? cur_num it then
    verneed ← read_verneed m (cur_ptr it);
    let verneed_aux := mk_cursor (padd (cur_ptr it) (vn_aux verneed)) 0 (vn_cnt verneed) in
    Ok (Some (verneed, verneed_aux),
        mk_cursor (padd (cur_ptr it) (vn_next verneed)) (cur_count it + 1) (cur_num it))
  else Ok (None, it).

Definition VerDefAuxIterator_next (m : memory) (it : cursor) : outcome (option VerDefAux * cursor) :=
  if cur_count it <? cur_num it then
    verdef_aux ← read_verdefaux m (cur_ptr it);
    Ok (Some verdef_aux,
        mk_cursor (padd (cur_ptr it) VERDEFAUX_SIZE) (cur_count it + 1) (cur_num it))
  else Ok (None, it).

Definition VerDefIterator_next (m : memory) (it : cursor) :
    outcome (option (VerDef * cursor) * cursor) :=
  if cur_count it <? cur_num it then
    verdef ← read_verdef m (cur_ptr it);
    let verdef_aux := mk_cursor (padd (cur_ptr it) (vd_aux verdef)) 0 (vd_cnt verdef) in
    Ok (Some (verdef, verdef_aux),
        mk_cursor (padd (cur_ptr it) (vd_next verdef)) (cur_count it + 1) (cur_num it))
  else Ok (None, it).

(** [into_iter] of [VerNeedTable] and [VerDefTable]. *)
Definition table_into_iter (ptr num : Z) : cursor := mk_cursor ptr 0 num.

(** A loop over a cursor makes at most [num] rounds and one more call of [next]. *)
Definition cursor_fuel (it : cursor) : nat := S (Z.to_nat (cur_num it - cur_count it)).

Definition for_cursor {A S} (next : cursor -> outcome (option A * cursor)) (it : cursor)
    (f : S -> A -> outcome S) (s : S) : outcome S :=
  iter_fold next f (cursor_fuel it) it s.
Arguments for_cursor : simpl never.

(** ** The version table *)

Record Version := mk_version { ver_name : bytes; ver_hash : Z }.

(** A slot of the vector is [None] while it is uninitialised ([set_len] on
    reserved memory). *)
Record ELFVersion := mk_elfversion {
  version_ids : VersionIndexTable;
  versions : list (option Version);
}.

(** [versions[i] = v]: indexing out of range panics. *)
Definition set_version (vs : list (option Version)) (i : Z) (v : Version) :
    outcome (list (option Version)) :=
  if i <? Z.of_nat (length vs) then Ok (<[Z.to_nat i := Some v]> vs) else Panic.

(** [&versions[i]] used as a [Version]: out of range panics, an uninitialised
    slot is undefined behaviour. *)
Definition get_version_at (vs : list (option Version)) (i : Z) : outcome Version :=
  v ← unwrap (vs !! Z.to_nat i); unwrap_unchecked v.

Section new.
Context (m : memory) (strtab : ElfStringTable).

Definition max_def (ndx_max : Z) (d : VerDef * cursor) : outcome Z :=
  Ok (if ndx_max <? VerDef_index d.1 then VerDef_index d.1 else ndx_max).
Definition max_need_aux (ndx_max : Z) (a : VerNeedAux) : outcome Z :=
  Ok (if ndx_max <? VerNeedAux_index a then VerNeedAux_index a else ndx_max).
Definition max_need (ndx_max : Z) (n : VerNeed * cursor) : outcome Z :=
  for_cursor (VerNeedAuxIterator_next m) n.2 max_need_aux ndx_max.

Definition put_def (vs : list (option Version)) (d : VerDef * cursor) :
    outcome (list (option Version)) :=
  r ← VerDefAuxIterator_next m d.2;
  aux ← unwrap r.1;
  name ← get_str m strtab (vda_name aux);
  set_version vs (VerDef_index d.1) (mk_version name (vd_hash d.1)).
Definition put_need_aux (vs : list (option Version)) (a : VerNeedAux) :
    outcome (list (option Version)) :=
  name ← get_str m strtab (vna_name a);
  set_version vs (VerNeedAux_index a) (mk_version name (vna_hash a)).
Definition put_need (vs : list (option Version)) (n : VerNeed * cursor) :
    outcome (list (option Version)) :=
  for_cursor (VerNeedAuxIterator_next m) n.2 put_need_aux vs.

(** [if let Some((ptr, num)) = table { for .. in table { .. } }] *)
Definition over_table {A S} (next : cursor -> outcome (option A * cursor))
    (table : option (Z * Z)) (f : S -> A -> outcome S) (s : S) : outcome S :=
  match table with
  | Some (ptr, num) => for_cursor next (table_into_iter ptr num) f s
  | None => Ok s
  end.

Definition ELFVersion_new (version_ids_off : option Z) (verneeds verdefs : option (Z * Z)) :
    outcome (option ELFVersion) :=
  match version_ids_off with
  | None => Ok None
  | Some version_ids_off =>
      ndx_max ← over_table (VerDefIterator_next m) verdefs max_def 0;
      ndx_max ← over_table (VerNeedIterator_next m) verneeds max_need ndx_max;
      let vs := replicate (Z.to_nat (ndx_max + 1)) None in
      vs ← over_table (VerDefIterator_next m) verdefs put_def vs;
      vs ← over_table (VerNeedIterator_next m) verneeds put_need vs;
      Ok (Some (mk_elfversion (mk_versions version_ids_off) vs))
  end.
End new.

(** ** The version hash *)

Section hash.
Context `{Config}.

(** [(hash << 4) + byte as u32] *)
Definition hash_step (hash byte : Z) : outcome Z :=
  u32_add (Z.shiftl hash 4 mod U32_LIM) byte.

Fixpoint hash_tail (hash : Z) (name : bytes) : outcome Z :=
  match name with
  | [] => Ok hash
  | byte :: name' =>
      hash ← hash_step hash byte;
      let hi := Z.land hash 4026531840 in
      hash_tail (Z.lxor hash (Z.shiftr hi 24)) name'
  end.

Definition dl_elf_hash (name : bytes) : outcome Z :=
  match name with
  | [] => Panic
  | b0 :: n1 =>
      if b0 =? 0 then Ok b0 else
      match n1 with
      | [] => Ok b0
      | b1 :: n2 =>
          hash ← hash_step b0 b1;
          match n2 with
          | [] => Ok hash
          | b2 :: n3 =>
              hash ← hash_step hash b2;
              match n3 with
              | [] => Ok hash
              | b3 :: n4 =>
                  hash ← hash_step hash b3;
                  match n4 with
                  | [] => Ok hash
                  | b4 :: n5 =>
                      hash ← hash_step hash b4;
                      hash ← hash_tail hash n5;
                      Ok (Z.land hash 268435455)
                  end
              end
          end
      end
  end.
End hash.

Record SymbolVersion := mk_symver { sv_name : bytes; sv_hash : Z; sv_hidden : bool }.

Definition SymbolVersion_new `{Config} (name : bytes) : outcome SymbolVersion :=
  hash ← dl_elf_hash name; Ok (mk_symver name hash true).

(** ** Matching

    [version] is the field [SymbolTable::version]. *)
Definition get_requirement (m : memory) (version : option ELFVersion) (sym_idx : Z) :
    outcome (option SymbolVersion) :=
  match version with
  | Some gnu_version =>
      ver_ndx ← VersionIndexTable_get m (version_ids gnu_version) sym_idx;
      if VersionIndex_index ver_ndx <=? 1 then Ok None
      else
        let hidden := VersionIndex_is_hidden ver_ndx in
        v ← get_version_at (versions gnu_version) (VersionIndex_index ver_ndx);
        Ok (Some (mk_symver (ver_name v) (ver_hash v) hidden))
  | None => Ok None
  end.

Definition check_match (m : memory) (self_version : option ELFVersion) (sym_idx : Z)
    (version : option SymbolVersion) : outcome bool :=
  match version with
  | Some version =>
      gnu_version ← unwrap self_version;
      ver_ndx ← VersionIndexTable_get m (version_ids gnu_version) sym_idx;
      let def_hidden := VersionIndex_is_hidden ver_ndx in
      def_version ← get_version_at (versions gnu_version) (VersionIndex_index ver_ndx);
      Ok (((ver_hash def_version =? sv_hash version) && bool_decide (ver_name def_version = sv_name version))
          || (negb (sv_hidden version) && negb def_hidden))
  | None => Ok true
  end.

(** ** The reference hash

    The ELF hash of the System V gABI, on 32-bit words. *)
Definition sysv_step (h b : Z) : Z :=
  let h := (h * 16 + b) mod U32_LIM in
  let g := Z.land h 4026531840 in
  Z.ldiff (if g =? 0 then h else Z.lxor h (Z.shiftr g 24)) g.

Definition sysv_hash (name : bytes) : Z := fold_left sysv_step name 0.

(** ** Hash theorems *)

(** Bits 28 to 31, as a mask. *)
Lemma testbit_high_mask n :
  0 <= n -> Z.testbit 4026531840 n = bool_decide (28 <= n < 32).
Proof.
  intros Hn. change 4026531840 with (Z.shiftl (Z.ones 4) 28).
  rewrite Z.shiftl_spec by done.
  destruct (decide (28 <= n < 32)).
  - rewrite bool_decide_true by done. apply Z.ones_spec_low. lia.
  - rewrite bool_decide_false by done. destruct (decide (n < 28)).
    + apply Z.testbit_neg_r. lia.
    + apply Z.ones_spec_high. lia.
Qed.

Lemma land_low_28 x : Z.land x 268435455 = x mod 268435456.
Proof. exact (land_low_mask x 28 ltac:(lia)). Qed.

(** Both hashes fold the high nibble into bits 4 to 7; the reference then clears
    it, which at 32 bits is the remainder modulo [2^28]. *)
Lemma fold_nibble h :
  0 <= h < U32_LIM ->
  let g := Z.land h 4026531840 in
  Z.ldiff (if g =? 0 then h else Z.lxor h (Z.shiftr g 24)) g = Z.lxor h (Z.shiftr g 24) mod 268435456.
Proof.
  intros Hh g. change 268435456 with (2 ^ 28).
  assert ((if g =? 0 then h else Z.lxor h (Z.shiftr g 24)) = Z.lxor h (Z.shiftr g 24)) as ->.
  { destruct (g =? 0) eqn:Hg; [|done]. apply Z.eqb_eq in Hg as ->. by rewrite Z.lxor_0_r. }
  rewrite <- Z.land_ones by lia. apply Z.bits_inj'. intros n Hn.
  rewrite Z.ldiff_spec, Z.land_spec, Z.lxor_spec, Z.shiftr_spec by done. unfold g.
  rewrite !Z.land_spec, !testbit_high_mask by lia.
  destruct (decide (n < 28)).
  - rewrite Z.ones_spec_low by lia. rewrite (bool_decide_false (28 <= n < 32)) by lia.
    by rewrite andb_false_r.
  - rewrite Z.ones_spec_high by lia. rewrite (bool_decide_false (28 <= n + 24 < 32)) by lia.
    rewrite !andb_false_r, xorb_false_r. destruct (decide (n < 32)).
    + rewrite bool_decide_true by lia. by destruct (Z.testbit h n).
    + rewrite (Z.bits_above_log2 h n); [done|lia|].
      destruct (decide (h = 0)) as [->|]; [simpl; lia|].
      assert (Z.log2 h < 32); [|lia]. apply Z.log2_lt_pow2; lia.
Qed.

(** Folding a nibble below bit 28 commutes with the remainder. *)
Lemma fold_nibble_range h : 0 <= h < U32_LIM ->
  0 <= Z.lxor h (Z.shiftr (Z.land h 4026531840) 24) < U32_LIM.
Proof.
  intros Hh. set (hi := Z.shiftr _ 24).
  assert (Hhi : 0 <= hi) by (apply Z.shiftr_nonneg, Z.land_nonneg; lia).
  split; [apply Z.lxor_nonneg; lia|].
  change U32_LIM with (2 ^ 32).
  assert (Hx : Z.lxor h hi = Z.lxor h hi mod 2 ^ 32); [|rewrite Hx; by apply Z.mod_pos_bound].
  rewrite <- Z.land_ones by lia. apply Z.bits_inj'. intros n Hn.
  rewrite Z.land_spec. destruct (decide (n < 32)); [rewrite Z.ones_spec_low by lia; by rewrite andb_true_r|].
  rewrite Z.ones_spec_high, andb_false_r by lia. rewrite Z.lxor_spec. unfold hi.
  rewrite Z.shiftr_spec, Z.land_spec, testbit_high_mask by lia.
  rewrite bool_decide_false, andb_false_r, xorb_false_r by lia.
  rewrite Z.bits_above_log2; [done|lia|].
  destruct (decide (h = 0)) as [->|]; [simpl; lia|].
  assert (Z.log2 h < 32); [|lia]. apply Z.log2_lt_pow2; lia.
Qed.

(** Exposes the next byte of the name. *)
Ltac hash_peel Hbs :=
  lazymatch goal with
  | |- context [match ?n with [] => Ok _ | _ :: _ => _ end] =>
      destruct n as [|?b ?]; [by left|];
      apply Forall_cons in Hbs as [? Hbs]; unfold byte_ok in * |-; cbn [fold_left]
  end.

Section hash_proofs.
Context `{Config}.

Lemma hash_step_cases h b :
  0 <= h < U32_LIM -> byte_ok b ->
  hash_step h b = Ok ((h mod 268435456 * 16 + b) mod U32_LIM) \/
  (debug_assertions = true /\ hash_step h b = Panic).
Proof.
  intros Hh Hb. unfold byte_ok in Hb. unfold hash_step, u32_add, checked.
  rewrite Z.shiftl_mul_pow2 by lia.
  replace (h * 2 ^ 4 mod U32_LIM) with (h mod 268435456 * 16)
    by (change (2 ^ 4) with 16; zlia).
  case_match eqn:Hc.
  - left. f_equal. symmetry. apply Z.mod_small. lia.
  - destruct debug_assertions; [right|left]; done.
Qed.

(** One step of the loaded-hash loop is one step of the reference, below bit 28. *)
Lemma hash_tail_sysv name : forall h,
  0 <= h < U32_LIM -> Forall byte_ok name ->
  (exists r, hash_tail h name = Ok r /\ r mod 268435456 = fold_left sysv_step name (h mod 268435456)) \/
  (debug_assertions = true /\ hash_tail h name = Panic).
Proof.
  induction name as [|b name IH]; intros h Hh Hbs; simpl; [left; eauto|].
  apply Forall_cons in Hbs as [Hb Hbs].
  destruct (hash_step_cases h b Hh Hb) as [->|[Hd ->]]; [|right; done]. simpl.
  set (h1 := (h mod 268435456 * 16 + b) mod U32_LIM).
  assert (Hh1 : 0 <= h1 < U32_LIM) by (apply Z.mod_pos_bound; lia).
  destruct (IH _ (fold_nibble_range h1 Hh1) Hbs) as [(r & Hr & Hm)|[Hd Hp]]; [left|right; done].
  exists r. split; [done|]. rewrite Hm. f_equal. unfold sysv_step. fold h1.
  by rewrite fold_nibble.
Qed.

(** Without a bit above 28 the step is the plain polynomial step in both. *)
Lemma sysv_step_small h b : 0 <= h * 16 + b < 268435456 -> sysv_step h b = h * 16 + b.
Proof.
  intros Hs. unfold sysv_step.
  rewrite (Z.mod_small (h * 16 + b)) by lia.
  pose proof (fold_nibble (h * 16 + b) ltac:(lia)) as Hf. simpl in Hf. rewrite Hf.
  assert (Z.land (h * 16 + b) 4026531840 = 0) as ->.
  { apply Z.bits_inj'. intros n Hn. rewrite Z.land_spec, testbit_high_mask, Z.bits_0 by done.
    destruct (decide (28 <= n < 32)); [|by rewrite bool_decide_false, andb_false_r].
    rewrite Z.bits_above_log2; [done|lia|].
    destruct (decide (h * 16 + b = 0)) as [->|]; [simpl; lia|].
    assert (Z.log2 (h * 16 + b) < 28); [|lia]. apply Z.log2_lt_pow2; lia. }
  rewrite Z.shiftr_0_l, Z.lxor_0_r. apply Z.mod_small. done.
Qed.

Lemma hash_step_small h b :
  0 <= h -> byte_ok b -> h * 16 + b < 268435456 -> hash_step h b = Ok (sysv_step h b).
Proof.
  intros Hh Hb Hs. unfold byte_ok in Hb.
  rewrite sysv_step_small by lia.
  unfold hash_step, u32_add. rewrite Z.shiftl_mul_pow2 by lia. change (2 ^ 4) with 16.
  rewrite Z.mod_small by lia. by rewrite checked_small by lia.
Qed.

Lemma dl_elf_hash_cases (b0 : Z) (name : bytes) :
  b0 <> 0 -> Forall byte_ok (b0 :: name) ->
  dl_elf_hash (b0 :: name) = Ok (sysv_hash (b0 :: name)) \/
  (debug_assertions = true /\ dl_elf_hash (b0 :: name) = Panic).
Proof.
  intros Hb0 Hbs. unfold dl_elf_hash. rewrite (proj2 (Z.eqb_neq _ _)) by done.
  apply Forall_cons in Hbs as [Hr0 Hbs]. unfold byte_ok in Hr0.
  unfold sysv_hash. cbn [fold_left].
  assert (sysv_step 0 b0 = b0) as -> by (rewrite sysv_step_small; lia).
  assert (Hstep : forall h b, 0 <= h < 2000000 -> byte_ok b ->
    hash_step h b = Ok (sysv_step h b) /\ sysv_step h b = h * 16 + b).
  { intros h b Hh Hb. pose proof Hb as Hb'.
    unfold byte_ok in Hb'. split.
    - apply hash_step_small; [lia|done|lia].
    - apply sysv_step_small. lia. }
  hash_peel Hbs. destruct (Hstep b0 b) as [-> E1]; [lia..|]. rewrite bind_Ok.
  generalize dependent (sysv_step b0 b). intros h1 E1.
  hash_peel Hbs. destruct (Hstep h1 b1) as [-> E2]; [lia..|]. rewrite bind_Ok.
  generalize dependent (sysv_step h1 b1). intros h2 E2.
  hash_peel Hbs. destruct (Hstep h2 b2) as [-> E3]; [lia..|]. rewrite bind_Ok.
  generalize dependent (sysv_step h2 b2). intros h3 E3.
  hash_peel Hbs. destruct (Hstep h3 b3) as [-> E4]; [lia..|]. rewrite bind_Ok.
  generalize dependent (sysv_step h3 b3). intros h4 E4.
  match goal with |- context [hash_tail h4 ?l] =>
    destruct (hash_tail_sysv l h4) as [(r & -> & Hr)|[Hd ->]]; [lia|done| |right; done] end.
  left. rewrite bind_Ok, land_low_28, Hr, (Z.mod_small h4) by lia. done.
Qed.

(** C33: [dl_elf_hash], which unrolls the first five bytes and delays clearing
    the high nibble, computes the gABI's ELF hash of every non-empty name whose
    first byte is not NUL; the only other outcome is the overflow panic of the
    dev profile. *)
Theorem dl_elf_hash_is_sysv (b0 : Z) (name : bytes) :
  b0 <> 0 -> Forall byte_ok (b0 :: name) ->
  dl_elf_hash (b0 :: name) = Ok (sysv_hash (b0 :: name)) \/
  (debug_assertions = true /\ dl_elf_hash (b0 :: name) = Panic).
Proof. apply dl_elf_hash_cases. Qed.
End hash_proofs.

Lemma dl_elf_hash_is_sysv_witness :
  sysv_hash (bytes_of "GLIBC_2.2.5") = 157882997 /\
  (dl_elf_hash (H := dev_config) (bytes_of "GLIBC_2.2.5") = Ok 157882997 \/
   (debug_assertions (Config := dev_config) = true /\
    dl_elf_hash (H := dev_config) (bytes_of "GLIBC_2.2.5") = Panic)).
Proof.
  split; [vm_compute; reflexivity|].
  apply (dl_elf_hash_is_sysv (H := dev_config) 71 (bytes_of "LIBC_2.2.5")).
  - discriminate.
  - vm_compute. repeat constructor; discriminate.
Defined.

(** The addition of [dl_elf_hash] overflows on ordinary names: with overflow
    checks on, hashing "xzXzXrloD" panics where the gABI's hash is defined (and
    the release profile returns it). *)
Theorem dl_elf_hash_overflow :
  dl_elf_hash (H := dev_config) (bytes_of "xzXzXrloD") = Panic /\
  dl_elf_hash (H := release_config) (bytes_of "xzXzXrloD") = Ok (sysv_hash (bytes_of "xzXzXrloD")).
Proof. split; vm_compute; reflexivity. Qed.

(** ** The version sections as data

    [verdef_chain m t p ds]: from [p] the memory holds the definitions [ds], each
    linked to the next by [vd_next] and named by its first auxiliary entry. *)
Fixpoint verdef_chain (m : memory) (t : ElfStringTable) (p : Z) (ds : list (VerDef * bytes)) : Prop :=
  match ds with
  | [] => True
  | (d, name) :: ds' =>
      read_verdef m p = Ok d /\ 0 < vd_cnt d /\
      (exists a, read_verdefaux m (padd p (vd_aux d)) = Ok a /\ str_at m t (vda_name a) name) /\
      verdef_chain m t (padd p (vd_next d)) ds'
  end.

(** An array of [VerNeedAux] with their names, contiguous as the iterator reads it. *)
Fixpoint verneedaux_array (m : memory) (t : ElfStringTable) (p : Z)
    (auxs : list (VerNeedAux * bytes)) : Prop :=
  match auxs with
  | [] => True
  | (a, name) :: auxs' =>
      read_verneedaux m p = Ok a /\ str_at m t (vna_name a) name /\
      verneedaux_array m t (padd p VERNEEDAUX_SIZE) auxs'
  end.

Fixpoint verneed_chain (m : memory) (t : ElfStringTable) (p : Z)
    (ns : list (VerNeed * list (VerNeedAux * bytes))) : Prop :=
  match ns with
  | [] => True
  | (n, auxs) :: ns' =>
      read_verneed m p = Ok n /\ vn_cnt n = Z.of_nat (length auxs) /\
      verneedaux_array m t (padd p (vn_aux n)) auxs /\
      verneed_chain m t (padd p (vn_next n)) ns'
  end.

(** A table given to [ELFVersion_new]: absent and empty, or [num] linked entries. *)
Definition table_holds {A} (chain : Z -> list A -> Prop) (table : option (Z * Z)) (l : list A) : Prop :=
  match table with
  | None => l = []
  | Some (ptr, num) => num = Z.of_nat (length l) /\ chain ptr l
  end.

(** The index-to-version association the sections define. *)
Definition def_entry (e : VerDef * bytes) : Z * Version :=
  (VerDef_index e.1, mk_version e.2 (vd_hash e.1)).
Definition aux_entry (e : VerNeedAux * bytes) : Z * Version :=
  (VerNeedAux_index e.1, mk_version e.2 (vna_hash e.1)).
Definition need_entries (e : VerNeed * list (VerNeedAux * bytes)) : list (Z * Version) :=
  aux_entry <$> e.2.

Definition assign (vs : list (option Version)) (e : Z * Version) : list (option Version) :=
  <[Z.to_nat e.1 := Some e.2]> vs.

Lemma ndx_nonneg x : 0 <= Z.land x VER_NDX_VERSION.
Proof. apply Z.land_nonneg. right. by vm_compute. Qed.

Lemma length_assign vs e : length (assign vs e) = length vs.
Proof. apply length_insert. Qed.

Lemma length_assigns es vs : length (fold_left assign es vs) = length vs.
Proof.
  revert vs. induction es as [|e es IH]; intros vs; simpl; [done|].
  by rewrite IH, length_assign.
Qed.

Lemma assigns_lookup_out es vs n :
  Forall (fun e => 0 <= e.1) es -> Z.of_nat n ∉ es.*1 -> fold_left assign es vs !! n = vs !! n.
Proof.
  revert vs. induction es as [|[i v] es IH]; intros vs Hpos Hn; simpl in *; [done|].
  apply Forall_cons in Hpos as [Hi Hpos]. simpl in Hi.
  rewrite not_elem_of_cons in Hn. destruct Hn as [Hne Hn].
  rewrite IH by done. unfold assign. simpl. apply list_lookup_insert_ne. lia.
Qed.

(** The value of the last entry with the index [n]. *)
Definition last_entry (n : nat) (es : list (Z * Version)) : option Version :=
  last (filter (fun e => e.1 = Z.of_nat n) es).*2.

(** The last assignment to an index is what it holds. *)
Lemma assigns_lookup es k n :
  Forall (fun e => 0 <= e.1) es -> (n < k)%nat -> fold_left assign es (replicate k None) !! n = Some (last_entry n es).
Proof.
  intros Hpos Hn. induction es as [|e es IH] using rev_ind; simpl.
  { by rewrite lookup_replicate_2. }
  apply Forall_app in Hpos as [Hpos [He _]%Forall_cons]. rewrite fold_left_app. cbn [fold_left]. unfold assign at 1, last_entry.
  rewrite filter_app, fmap_app. destruct (decide (e.1 = Z.of_nat n)) as [Heq|Hne].
  - rewrite filter_cons_True by done. cbn [filter list_filter fmap list_fmap]. rewrite last_snoc, Heq, Nat2Z.id.
    apply list_lookup_insert_eq. by rewrite length_assigns, length_replicate.
  - rewrite filter_cons_False by done. cbn [filter list_filter fmap list_fmap]. rewrite app_nil_r.
    rewrite list_lookup_insert_ne by lia. by apply IH.
Qed.

(** ** The loops of [ELFVersion_new] over well-formed sections *)

(** The items the definition iterator yields from [p]. *)
Fixpoint def_items (p : Z) (ds : list (VerDef * bytes)) : list (VerDef * cursor) :=
  match ds with
  | [] => []
  | (d, _) :: ds' =>
      (d, mk_cursor (padd p (vd_aux d)) 0 (vd_cnt d)) :: def_items (padd p (vd_next d)) ds'
  end.
Fixpoint need_items (p : Z) (ns : list (VerNeed * list (VerNeedAux * bytes))) :
    list (VerNeed * cursor) :=
  match ns with
  | [] => []
  | (n, _) :: ns' =>
      (n, mk_cursor (padd p (vn_aux n)) 0 (vn_cnt n)) :: need_items (padd p (vn_next n)) ns'
  end.

Section new_proofs.
Context (m : memory) (t : ElfStringTable).

Lemma def_iter_yields ds : forall p c,
  verdef_chain m t p ds ->
  yields (VerDefIterator_next m) (mk_cursor p c (c + Z.of_nat (length ds))) (def_items p ds).
Proof.
  induction ds as [|[d name] ds IH]; intros p c; simpl.
  - intros _. eexists. unfold VerDefIterator_next. simpl.
    by rewrite (proj2 (Z.ltb_ge _ _)) by lia.
  - intros (Hd & _ & _ & Hc). eexists. split.
    + unfold VerDefIterator_next. simpl. rewrite (proj2 (Z.ltb_lt _ _)) by lia.
      rewrite Hd. simpl. done.
    + replace (c + Z.of_nat (S (length ds))) with (c + 1 + Z.of_nat (length ds)) by lia. by apply IH.
Qed.

Lemma need_iter_yields ns : forall p c,
  verneed_chain m t p ns ->
  yields (VerNeedIterator_next m) (mk_cursor p c (c + Z.of_nat (length ns))) (need_items p ns).
Proof.
  induction ns as [|[n auxs] ns IH]; intros p c; simpl.
  - intros _. eexists. unfold VerNeedIterator_next. simpl.
    by rewrite (proj2 (Z.ltb_ge _ _)) by lia.
  - intros (Hn & _ & _ & Hc). eexists. split.
    + unfold VerNeedIterator_next. simpl. rewrite (proj2 (Z.ltb_lt _ _)) by lia.
      rewrite Hn. simpl. done.
    + replace (c + Z.of_nat (S (length ns))) with (c + 1 + Z.of_nat (length ns)) by lia. by apply IH.
Qed.

Lemma aux_iter_yields auxs : forall p c,
  verneedaux_array m t p auxs ->
  yields (VerNeedAuxIterator_next m) (mk_cursor p c (c + Z.of_nat (length auxs))) (auxs.*1).
Proof.
  induction auxs as [|[a name] auxs IH]; intros p c; simpl.
  - intros _. eexists. unfold VerNeedAuxIterator_next. simpl.
    by rewrite (proj2 (Z.ltb_ge _ _)) by lia.
  - intros (Ha & _ & Hc). eexists. split.
    + unfold VerNeedAuxIterator_next. simpl. rewrite (proj2 (Z.ltb_lt _ _)) by lia.
      rewrite Ha. simpl. done.
    + replace (c + Z.of_nat (S (length auxs))) with (c + 1 + Z.of_nat (length auxs)) by lia.
      by apply IH.
Qed.

(** A [for] loop over a cursor is the loop over the items it yields. *)
Lemma for_cursor_yields {A S} (next : cursor -> outcome (option A * cursor)) p n
    (f : S -> A -> outcome S) (s : S) l :
  n = Z.of_nat (length l) -> yields next (mk_cursor p 0 (0 + n)) l ->
  for_cursor next (mk_cursor p 0 n) f s = fold_outcome f l s.
Proof.
  intros -> Hy. unfold for_cursor. rewrite Z.add_0_l in Hy. apply iter_fold_yields; [done|].
  unfold cursor_fuel. simpl. lia.
Qed.

Lemma length_def_items p ds : length (def_items p ds) = length ds.
Proof. revert p. induction ds as [|[d ?] ds IH]; intros p; simpl; auto. Qed.
Lemma length_need_items p ns : length (need_items p ns) = length ns.
Proof. revert p. induction ns as [|[n ?] ns IH]; intros p; simpl; auto. Qed.

Lemma max_def_fold ds : forall p s,
  fold_outcome max_def (def_items p ds) s = Ok (foldl Z.max s (def_entry <$> ds).*1).
Proof.
  induction ds as [|[d name] ds IH]; intros p s; simpl; [done|]. rewrite IH. do 2 f_equal.
  case_match; lia.
Qed.

Lemma max_aux_fold auxs : forall s,
  fold_outcome max_need_aux (auxs.*1) s = Ok (foldl Z.max s (aux_entry <$> auxs).*1).
Proof.
  induction auxs as [|[a name] auxs IH]; intros s; simpl; [done|]. rewrite IH. do 2 f_equal.
  case_match; lia.
Qed.

Lemma max_need_fold ns : forall p s,
  verneed_chain m t p ns ->
  fold_outcome (max_need m) (need_items p ns) s = Ok (foldl Z.max s (mjoin (need_entries <$> ns)).*1).
Proof.
  induction ns as [|[n auxs] ns IH]; intros p s; simpl; [done|].
  intros (Hn & Hcnt & Harr & Hc). rewrite Hcnt.
  assert (max_need m s (n, mk_cursor (padd p (vn_aux n)) 0 (Z.of_nat (length auxs))) =
          Ok (foldl Z.max s (aux_entry <$> auxs).*1)) as ->.
  { unfold max_need. simpl. rewrite <- max_aux_fold. apply for_cursor_yields.
    - by rewrite length_fmap.
    - by apply (aux_iter_yields auxs _ 0). }
  simpl. rewrite IH by done. by rewrite fmap_app, foldl_app.
Qed.

Lemma put_def_fold ds : forall p vs,
  verdef_chain m t p ds ->
  Forall (fun e => e.1 < Z.of_nat (length vs)) (def_entry <$> ds) ->
  fold_outcome (put_def m t) (def_items p ds) vs = Ok (fold_left assign (def_entry <$> ds) vs).
Proof.
  induction ds as [|[d name] ds IH]; intros p vs; simpl; [done|].
  intros (Hd & Hcnt & (a & Ha & Hs) & Hc) [Hlt Hall]%Forall_cons. simpl in Hlt.
  unfold put_def at 2, VerDefAuxIterator_next. simpl.
  rewrite (proj2 (Z.ltb_lt 0 _)) by done. rewrite Ha. simpl.
  rewrite (get_str_at _ _ _ _ Hs). simpl. unfold set_version.
  rewrite (proj2 (Z.ltb_lt _ _)) by done. simpl. apply IH; [done|].
  eapply Forall_impl; [exact Hall|]. intros e. by rewrite ?length_assign, ?length_insert.
Qed.

Lemma put_aux_fold auxs : forall p vs,
  verneedaux_array m t p auxs ->
  Forall (fun e => e.1 < Z.of_nat (length vs)) (aux_entry <$> auxs) ->
  fold_outcome (put_need_aux m t) (auxs.*1) vs = Ok (fold_left assign (aux_entry <$> auxs) vs).
Proof.
  induction auxs as [|[a name] auxs IH]; intros p vs; simpl; [done|].
  intros (Ha & Hs & Hc) [Hlt Hall]%Forall_cons. simpl in Hlt.
  unfold put_need_aux at 2. rewrite (get_str_at _ _ _ _ Hs). simpl. unfold set_version.
  rewrite (proj2 (Z.ltb_lt _ _)) by done. simpl. apply (IH _ _ Hc).
  eapply Forall_impl; [exact Hall|]. intros e. by rewrite ?length_assign, ?length_insert.
Qed.

Lemma put_need_fold ns : forall p vs,
  verneed_chain m t p ns ->
  Forall (fun e => e.1 < Z.of_nat (length vs)) (mjoin (need_entries <$> ns)) ->
  fold_outcome (put_need m t) (need_items p ns) vs =
    Ok (fold_left assign (mjoin (need_entries <$> ns)) vs).
Proof.
  induction ns as [|[n auxs] ns IH]; intros p vs; simpl; [done|].
  intros (Hn & Hcnt & Harr & Hc) [Hall1 Hall2]%Forall_app. rewrite Hcnt.
  assert (put_need m t vs (n, mk_cursor (padd p (vn_aux n)) 0 (Z.of_nat (length auxs))) =
          Ok (fold_left assign (aux_entry <$> auxs) vs)) as ->.
  { unfold put_need. simpl. rewrite <- (put_aux_fold _ _ _ Harr) by done. apply for_cursor_yields.
    - by rewrite length_fmap.
    - by apply (aux_iter_yields auxs _ 0). }
  simpl. rewrite fold_left_app. apply IH; [done|]. by rewrite length_assigns.
Qed.
End new_proofs.

(** ** The version table is right *)

Lemma foldl_max_ge l : forall s, s <= foldl Z.max s l /\ Forall (fun x => x <= foldl Z.max s l) l.
Proof.
  induction l as [|x l IH]; intros s; simpl; [split; [lia|done]|].
  destruct (IH (s `max` x)%Z) as [H1 H2]. split; [lia|]. constructor; [lia|done].
Qed.

Section new_theorem.
Context (m : memory) (t : ElfStringTable).

(** The loop [if let Some(..) = table { for .. }] over a well-formed table. *)
Lemma over_table_yields {A B S} (next : cursor -> outcome (option A * cursor))
    (chain : Z -> list B -> Prop) (items : Z -> list B -> list A) table (l : list B)
    (f : S -> A -> outcome S) s r :
  (forall p, chain p l -> yields next (mk_cursor p 0 (0 + Z.of_nat (length l))) (items p l)) ->
  (forall p, length (items p l) = length l) ->
  table_holds chain table l ->
  (forall p, chain p l -> fold_outcome f (items p l) s = Ok r) ->
  (l = [] -> r = s) ->
  over_table next table f s = Ok r.
Proof.
  intros Hy Hlen Ht Hf Hnil. destruct table as [[ptr num]|]; simpl in *.
  - destruct Ht as [-> Hc]. rewrite <- (Hf _ Hc). apply for_cursor_yields; [by rewrite Hlen|auto].
  - by rewrite Hnil.
Qed.

Context (ids_off : Z) (verneeds verdefs : option (Z * Z)).
Context (ds : list (VerDef * bytes)) (ns : list (VerNeed * list (VerNeedAux * bytes))).
Context (Hds : table_holds (verdef_chain m t) verdefs ds).
Context (Hns : table_holds (verneed_chain m t) verneeds ns).
Let es := (def_entry <$> ds) ++ mjoin (need_entries <$> ns).

Lemma entries_nonneg : Forall (fun e => 0 <= e.1) es.
Proof.
  apply Forall_forall. intros e [He|He]%elem_of_app.
  - apply list_elem_of_fmap in He as ([d ?] & -> & _). apply ndx_nonneg.
  - apply list_elem_of_join in He as (l & Hl & He2).
    apply list_elem_of_fmap in He2 as ([n auxs] & -> & _).
    apply list_elem_of_fmap in Hl as ([a ?] & -> & _). apply ndx_nonneg.
Qed.

(** The function returns, and its table is the array of the assignments. *)
Lemma ELFVersion_new_assigns :
  ELFVersion_new m t (Some ids_off) verneeds verdefs =
    Ok (Some (mk_elfversion (mk_versions ids_off)
      (fold_left assign es (replicate (Z.to_nat (foldl Z.max 0 es.*1 + 1)) None)))).
Proof.
  unfold ELFVersion_new. subst es.
  rewrite (over_table_yields _ (verdef_chain m t) def_items _ ds _ _
    (foldl Z.max 0 (def_entry <$> ds).*1)); simpl;
    [|intros; by eapply (def_iter_yields _ _ _ _ 0)|intros; apply length_def_items|done
     |intros; apply max_def_fold|by intros ->].
  rewrite (over_table_yields _ (verneed_chain m t) need_items _ ns _ _
    (foldl Z.max (foldl Z.max 0 (def_entry <$> ds).*1) (mjoin (need_entries <$> ns)).*1)); simpl;
    [|intros; by eapply (need_iter_yields _ _ _ _ 0)|intros; apply length_need_items|done
     |intros; by eapply max_need_fold|by intros ->].
  rewrite <- foldl_app, <- fmap_app.
  set (es := _ ++ _). set (mx := foldl Z.max 0 es.*1).
  destruct (foldl_max_ge es.*1 0) as [Hmx Hall]. fold mx in Hmx, Hall.
  set (vs0 := replicate _ None).
  assert (Hvs0 : Forall (fun e => e.1 < Z.of_nat (length vs0)) es).
  { unfold vs0. rewrite length_replicate. rewrite Forall_fmap in Hall.
    eapply Forall_impl; [exact Hall|]. simpl. lia. }
  apply Forall_app in Hvs0 as [Hvd Hvn].
  rewrite (over_table_yields _ (verdef_chain m t) def_items _ ds _ _
    (fold_left assign (def_entry <$> ds) vs0)); simpl;
    [|intros; by eapply (def_iter_yields _ _ _ _ 0)|intros; apply length_def_items|done
     |intros; by apply put_def_fold|by intros ->].
  rewrite (over_table_yields _ (verneed_chain m t) need_items _ ns _ _
    (fold_left assign (mjoin (need_entries <$> ns)) (fold_left assign (def_entry <$> ds) vs0)));
    simpl; [|intros; by eapply (need_iter_yields _ _ _ _ 0)|intros; apply length_need_items|done
     |intros; apply put_need_fold; [done|by rewrite length_assigns]|by intros ->].
  unfold es. by rewrite fold_left_app.
Qed.
End new_theorem.

(** C30: over well-formed version sections [ELFVersion::new] returns (no panic, no
    fault, whatever the order of their entries), and its table has a slot for the index
    of every definition and of every requirement; each slot holds the name and the hash
    of the last entry with its index, the requirements counting after the definitions,
    and is left uninitialised when no entry has it. *)
Theorem ELFVersion_new_table (m : memory) (t : ElfStringTable) (ids_off : Z)
    (verneeds verdefs : option (Z * Z)) (ds : list (VerDef * bytes))
    (ns : list (VerNeed * list (VerNeedAux * bytes))) :
  let es := (def_entry <$> ds) ++ mjoin (need_entries <$> ns) in
  table_holds (verdef_chain m t) verdefs ds ->
  table_holds (verneed_chain m t) verneeds ns ->
  exists vs,
    ELFVersion_new m t (Some ids_off) verneeds verdefs =
      Ok (Some (mk_elfversion (mk_versions ids_off) vs)) /\
    (forall i v, (i, v) ∈ es -> (Z.to_nat i < length vs)%nat) /\
    (forall n, (n < length vs)%nat -> vs !! n = Some (last_entry n es)).
Proof.
  intros es Hds Hns. eexists. split; [by apply ELFVersion_new_assigns|]. fold es.
  pose proof (entries_nonneg ds ns) as Hpos. fold es in Hpos.
  destruct (foldl_max_ge es.*1 0) as [Hmx Hall]. rewrite length_assigns, length_replicate. split.
  - intros i v Hin. rewrite Forall_fmap, Forall_forall in Hall. rewrite Forall_forall in Hpos.
    specialize (Hall _ Hin). specialize (Hpos _ Hin). simpl in *. lia.
  - intros n Hn. by apply assigns_lookup.
Qed.

(** ** Matching a requirement *)

(** A lookup by version name ([get_version]) accepts a definition exactly when
    the definition's version has that name, provided the table's hashes are the
    ELF hashes of its names. *)
Theorem check_match_by_name `{Config} (m : memory) (gv : ELFVersion) (sym_idx ndx : Z) (dv : Version)
    (b0 : Z) (name : bytes) (sv : SymbolVersion) :
  b0 <> 0 -> Forall byte_ok (b0 :: name) ->
  SymbolVersion_new (b0 :: name) = Ok sv ->
  VersionIndexTable_get m (version_ids gv) sym_idx = Ok ndx ->
  versions gv !! Z.to_nat (VersionIndex_index ndx) = Some (Some dv) ->
  ver_hash dv = sysv_hash (ver_name dv) ->
  check_match m (Some gv) sym_idx (Some sv) = Ok (bool_decide (ver_name dv = b0 :: name)).
Proof.
  intros Hb0 Hbs Hsv Hndx Hdv Hh. unfold SymbolVersion_new in Hsv. inv_bind Hsv. simplify_eq.
  unfold check_match. simpl. rewrite Hndx. simpl. unfold get_version_at. rewrite Hdv. simpl.
  rewrite orb_false_r, Hh. f_equal.
  destruct (dl_elf_hash_cases b0 name Hb0 Hbs) as [Hs|[_ Hp]]; [|congruence].
  destruct (decide (ver_name dv = b0 :: name)) as [->|Hne].
  - rewrite bool_decide_true by done. rewrite andb_true_r. apply Z.eqb_eq. congruence.
  - rewrite bool_decide_false by done. apply andb_false_r.
Qed.

Lemma get_requirement_matches (m : memory) (gv : option ELFVersion) (sym_idx : Z)
    (req : option SymbolVersion) :
  get_requirement m gv sym_idx = Ok req -> check_match m gv sym_idx req = Ok true.
Proof.
  unfold get_requirement, check_match. destruct gv as [gv|]; [|by intros [= <-]].
  intros H. inv_bind H. rename a into ndx, Ha into Hndx. destruct (VersionIndex_index ndx <=? 1); [by simplify_eq|].
  inv_bind H. simplify_eq. simpl. rewrite Hndx. simpl.
  match goal with Hv : get_version_at _ _ = Ok _ |- _ => rewrite Hv end. simpl.
  by rewrite Z.eqb_refl, bool_decide_true.
Qed.

(** The requirement read for a symbol is satisfied by that symbol itself: a
    versioned symbol always matches its own table entry. *)
Theorem requirement_matches_itself (m : memory) (gv : option ELFVersion) (sym_idx : Z)
    (req : option SymbolVersion) :
  get_requirement m gv sym_idx = Ok req -> check_match m gv sym_idx req = Ok true.
Proof. apply get_requirement_matches. Qed.

(** C40: the slots of the reserved indices 0 (local) and 1 (global, unversioned) stay
    uninitialised in a library that only requires versions, so matching an
    unversioned symbol of such a library against a requirement reads uninitialised
    memory. *)
Theorem unversioned_slot_uninitialised (m : memory) (t : ElfStringTable) (ids_off sym_idx ndx : Z)
    (verneeds : option (Z * Z)) (ns : list (VerNeed * list (VerNeedAux * bytes)))
    (req : SymbolVersion) :
  let es := mjoin (need_entries <$> ns) in
  table_holds (verneed_chain m t) verneeds ns ->
  es <> [] -> Forall (fun e => 2 <= e.1) es ->
  read_u16 m (padd ids_off (2 * sym_idx)) = Ok ndx -> VersionIndex_index ndx <= 1 ->
  exists gv,
    ELFVersion_new m t (Some ids_off) verneeds None = Ok (Some gv) /\
    check_match m (Some gv) sym_idx (Some req) = Fault.
Proof.
  intros es Hns Hne Hge Hndx Hidx.
  pose proof (ELFVersion_new_assigns m t ids_off verneeds None [] ns eq_refl Hns) as Hnew.
  eexists. split; [exact Hnew|]. simpl fmap in *. rewrite app_nil_l in *. fold es in Hnew |- *.
  unfold check_match. simpl. unfold VersionIndexTable_get. simpl. rewrite Hndx. simpl.
  unfold get_version_at. pose proof (ndx_nonneg ndx) as Hnn. fold (VersionIndex_index ndx) in Hnn.
  rewrite assigns_lookup_out.
  - assert (Hlen : (Z.to_nat (VersionIndex_index ndx) < Z.to_nat (foldl Z.max 0%Z es.*1 + 1))%nat).
    { destruct (foldl_max_ge es.*1 0) as [_ Hall]. destruct es as [|e es'] eqn:Hes; [done|].
      apply Forall_cons in Hge as [Hge _]. simpl in Hall. apply Forall_cons in Hall as [Hall _].
      simpl. lia. }
    by rewrite lookup_replicate_2.
  - eapply Forall_impl; [exact Hge|]. simpl. lia.
  - rewrite Z2Nat.id by done. intros ([i v] & Hi & Hin)%list_elem_of_fmap. simpl in Hi.
    rewrite Forall_forall in Hge. specialize (Hge _ Hin). simpl in Hge. lia.
Qed.

(** ** A concrete library

    One definition [LIB_1] with index 2 and one requirement [GLIBC_2.2.5] with
    index 3; symbol 1 is unversioned, symbol 2 has version 2, symbol 3 requires
    version 3. *)
Definition demo_strtab : ElfStringTable := mk_strtab 1000.
Definition demo_def : VerDef := mk_verdef 1 0 2 1 (sysv_hash (bytes_of "LIB_1")) 20 0.
Definition demo_need : VerNeed := mk_verneed 1 1 0 16 0.
Definition demo_aux : VerNeedAux := mk_verneedaux 157882997 0 3 1 0.
Definition demo_version_memory : memory := image
  [ (1000, 0 :: bytes_of "GLIBC_2.2.5" ++ 0 :: bytes_of "LIB_1" ++ [0]);
    (2000, pack [(2%nat, 1); (2%nat, 1); (4%nat, 0); (4%nat, 16); (4%nat, 0);
                 (4%nat, 157882997); (2%nat, 0); (2%nat, 3); (4%nat, 1); (4%nat, 0)]);
    (3000, pack [(2%nat, 1); (2%nat, 0); (2%nat, 2); (2%nat, 1);
                 (4%nat, sysv_hash (bytes_of "LIB_1")); (4%nat, 20); (4%nat, 0);
                 (4%nat, 13); (4%nat, 0)]);
    (4000, pack [(2%nat, 0); (2%nat, 1); (2%nat, 2); (2%nat, 32771)]) ].

Lemma demo_verdefs :
  table_holds (verdef_chain demo_version_memory demo_strtab) (Some (3000, 1)) [(demo_def, bytes_of "LIB_1")].
Proof.
  split; [done|]. split_and!; [vm_compute; reflexivity|done| |done].
  exists (mk_verdefaux 13 0). split; [vm_compute; reflexivity|].
  apply cstr_at_check; vm_compute; reflexivity.
Qed.

Lemma demo_verneeds :
  table_holds (verneed_chain demo_version_memory demo_strtab) (Some (2000, 1))
    [(demo_need, [(demo_aux, bytes_of "GLIBC_2.2.5")])].
Proof.
  split; [done|]. split_and!; [vm_compute; reflexivity|done| |done].
  split_and!; [vm_compute; reflexivity| |done]. apply cstr_at_check; vm_compute; reflexivity.
Qed.

Lemma ELFVersion_new_table_witness :
  exists vs,
    ELFVersion_new demo_version_memory demo_strtab (Some 4000) (Some (2000, 1)) (Some (3000, 1)) =
      Ok (Some (mk_elfversion (mk_versions 4000) vs)) /\
    vs !! 3%nat = Some (Some (mk_version (bytes_of "GLIBC_2.2.5") 157882997)).
Proof.
  destruct (ELFVersion_new_table demo_version_memory demo_strtab 4000 (Some (2000, 1)) (Some (3000, 1))
    _ _ demo_verdefs demo_verneeds) as (vs & Hvs & Hlen & Hslot).
  exists vs. split; [exact Hvs|]. rewrite Hslot; [by vm_compute|].
  apply (Hlen 3 (mk_version (bytes_of "GLIBC_2.2.5") 157882997)). vm_compute. right. left.
Defined.

Definition demo_gv : ELFVersion :=
  mk_elfversion (mk_versions 4000)
    [None; None; Some (mk_version (bytes_of "LIB_1") (sysv_hash (bytes_of "LIB_1")));
     Some (mk_version (bytes_of "GLIBC_2.2.5") 157882997)].

Lemma check_match_by_name_witness :
  check_match demo_version_memory (Some demo_gv) 2
    (Some (mk_symver (bytes_of "LIB_1") (sysv_hash (bytes_of "LIB_1")) true)) = Ok true /\
  check_match demo_version_memory (Some demo_gv) 2
    (Some (mk_symver (bytes_of "LIB_2") (sysv_hash (bytes_of "LIB_2")) true)) = Ok false.
Proof.
  split.
  - rewrite (check_match_by_name (H := release_config) demo_version_memory demo_gv 2 2
      (mk_version (bytes_of "LIB_1") (sysv_hash (bytes_of "LIB_1"))) 76 (bytes_of "IB_1"));
      [reflexivity|discriminate|vm_compute; repeat constructor; discriminate|reflexivity..].
  - rewrite (check_match_by_name (H := release_config) demo_version_memory demo_gv 2 2
      (mk_version (bytes_of "LIB_1") (sysv_hash (bytes_of "LIB_1"))) 76 (bytes_of "IB_2"));
      [reflexivity|discriminate|vm_compute; repeat constructor; discriminate|reflexivity..].
Defined.

Lemma requirement_matches_itself_witness :
  check_match demo_version_memory (Some demo_gv) 3
    (Some (mk_symver (bytes_of "GLIBC_2.2.5") 157882997 true)) = Ok true.
Proof. apply requirement_matches_itself. vm_compute. reflexivity. Defined.

Lemma unversioned_slot_uninitialised_witness :
  exists gv,
    ELFVersion_new demo_version_memory demo_strtab (Some 4000) (Some (2000, 1)) None = Ok (Some gv) /\
    check_match demo_version_memory (Some gv) 1
      (Some (mk_symver (bytes_of "LIB_1") (sysv_hash (bytes_of "LIB_1")) true)) = Fault.
Proof.
  apply (unversioned_slot_uninitialised demo_version_memory demo_strtab 4000 1 1 (Some (2000, 1)) _
    _ demo_verneeds).
  - discriminate.
  - vm_compute. repeat constructor; discriminate.
  - vm_compute. reflexivity.
  - vm_compute. discriminate.
Defined.
