(* ===== verification/Mmap.v ===== *)
(** * Mmap: mapping memory

    Models [src/src/mmap]: the trait [Mmap] as a class, its three implementations
    (libc and raw system calls of [mmap.rs], the allocator-backed one of
    [no_mmap.rs]), and the contract the loader relies on, proved for them.

    The kernel and the global allocator are parameters: [Kernel] and [Allocator]
    give the address and the bytes a request yields, as functions of the whole
    history of calls. *)

From S2P Require Import Prelude Machine.
#[local] Open Scope Z_scope.

(** ** Flags *)

Definition PROT_NONE := 0.
Definition PROT_READ := 1.
Definition PROT_WRITE := 2.
Definition PROT_EXEC := 4.

Definition MAP_PRIVATE := 2.
Definition MAP_FIXED := 16.
Definition MAP_ANONYMOUS := 32.

(** ** The trait *)

Class Mmap := {
  (** [addr], [len], [prot], [flags], [offset], [fd], [need_copy] on entry; the
      address and [need_copy] on return *)
  mmap : option Z -> Z -> Z -> Z -> Z -> option Z -> bool -> M (Z * bool);
  mmap_anonymous : Z -> Z -> Z -> Z -> M Z;
  munmap : Z -> Z -> M unit;
  mprotect : Z -> Z -> Z -> M unit;
}.

(** ** The outside world *)

(** What a mapping request answers: an address and the bytes found there. *)
Record mapping := mk_mapping { map_ptr : Z; map_byte : Z -> Z }.

Class Kernel := {
  (** [addr], [len], [prot], [flags], [fd], [off]; [None] is [MAP_FAILED] *)
  sys_mmap : world -> Z -> Z -> Z -> Z -> Z -> Z -> option mapping;
  sys_munmap : world -> Z -> Z -> bool;
  sys_mprotect : world -> Z -> Z -> Z -> bool;
}.

Class Allocator := {
  (** [len], [align]; [None] is a null pointer *)
  sys_alloc : world -> Z -> Z -> option mapping;
}.

(** [len] bytes appear at, or disappear from, [p]. *)
Definition map_range (m : memory) (p len : Z) (f : Z -> Z) : memory :=
  store_bytes m p (f <$> seqZ 0 len).
Definition unmap_range (m : memory) (p len : Z) : memory :=
  foldr (fun i m => delete i m) m (seqZ p len).

Definition map_error (msg : string) : Error := MmapError msg.

(** A call of the kernel's [mmap], with the message for [MAP_FAILED]. *)
Definition kernel_mmap `{Kernel} (msg : string) (addr len prot flags fd off : Z) : M Z := fun w =>
  match sys_mmap w addr len prot flags fd off with
  | Some r =>
      (Ok (map_ptr r),
       push_event (EvMmap addr len prot flags fd off (Some (map_ptr r)))
         (set_mem (map_range (mem w) (map_ptr r) len (map_byte r)) w))
  | None => (Err (map_error msg), push_event (EvMmap addr len prot flags fd off None) w)
  end.

Definition kernel_munmap `{Kernel} (addr len : Z) : M unit := fun w =>
  if sys_munmap w addr len then
    (Ok tt, push_event (EvMunmap addr len true) (set_mem (unmap_range (mem w) addr len) w))
  else (Err (map_error "munmap failed"), push_event (EvMunmap addr len false) w).

Definition kernel_mprotect `{Kernel} (addr len prot : Z) : M unit := fun w =>
  if sys_mprotect w addr len prot then (Ok tt, push_event (EvMprotect addr len prot true) w)
  else (Err (map_error "mprotect failed"), push_event (EvMprotect addr len prot false) w).

(** ** mmap.rs, feature [use-libc] *)

Module Libc.
Section libc.
Context `{Kernel}.

Definition mmap (addr : option Z) (len prot flags offset : Z) (fd : option Z) (need_copy : bool) :
    M (Z * bool) :=
  let '(flags, prot, fd, need_copy) :=
    match fd with
    | Some fd => (flags, prot, fd, need_copy)
    | None => (Z.lor flags MAP_ANONYMOUS, PROT_WRITE, -1, true)
    end in
  let! ptr := kernel_mmap "mmap failed" (default 0 addr) len prot flags fd offset in
  ret (ptr, need_copy).

Definition mmap_anonymous (addr len prot flags : Z) : M Z :=
  kernel_mmap "mmap anonymous failed" addr len prot (Z.lor flags MAP_ANONYMOUS) (-1) 0.

Definition munmap (addr len : Z) : M unit := kernel_munmap addr len.

Definition mprotect (addr len prot : Z) : M unit := kernel_mprotect addr len prot.

#[global] Instance MmapImpl : Mmap := {
  Mmap.mmap := mmap;
  Mmap.mmap_anonymous := mmap_anonymous;
  Mmap.munmap := munmap;
  Mmap.mprotect := mprotect;
}.
End libc.
End Libc.

(** ** mmap.rs, feature [use-syscall] *)

Module Syscall.
Section syscall.
Context `{Kernel}.

Definition sys_mmap (addr len prot flags fd offset : Z) : M Z :=
  kernel_mmap "mmap failed" addr len prot flags fd offset.

(** The descriptor argument is [usize::MAX]. *)
Definition sys_mmap_anonymous (addr len prot flags : Z) : M Z :=
  kernel_mmap "mmap anonymous failed" addr len prot (Z.lor flags MAP_ANONYMOUS) (U64_LIM - 1) 0.

Definition mmap (addr : option Z) (len prot flags offset : Z) (fd : option Z) (need_copy : bool) :
    M (Z * bool) :=
  match fd with
  | Some fd =>
      let! ptr := sys_mmap (default 0 addr) len prot flags fd offset in ret (ptr, need_copy)
  | None =>
      let! ptr := sys_mmap_anonymous (default 0 addr) len PROT_WRITE flags in ret (ptr, true)
  end.

Definition mmap_anonymous (addr len prot flags : Z) : M Z := sys_mmap_anonymous addr len prot flags.

Definition munmap (addr len : Z) : M unit := kernel_munmap addr len.

Definition mprotect (addr len prot : Z) : M unit := kernel_mprotect addr len prot.

#[global] Instance MmapImpl : Mmap := {
  Mmap.mmap := mmap;
  Mmap.mmap_anonymous := mmap_anonymous;
  Mmap.munmap := munmap;
  Mmap.mprotect := mprotect;
}.
End syscall.
End Syscall.

(** ** no_mmap.rs *)

Module NoMmap.
Section no_mmap.
Context `{Allocator}.

(** [alloc::alloc::alloc]; a null pointer ends in [handle_alloc_error]. *)
Definition alloc (len align : Z) : M Z := fun w =>
  match sys_alloc w len align with
  | Some r =>
      (Ok (map_ptr r),
       push_event (EvAlloc len align (Some (map_ptr r)))
         (set_mem (map_range (mem w) (map_ptr r) len (map_byte r)) w))
  | None => (Panic, push_event (EvAlloc len align None) w)
  end.

Definition dealloc (addr len : Z) : M unit := fun w =>
  (Ok tt, push_event (EvDealloc addr len) (set_mem (unmap_range (mem w) addr len) w)).

(** [align] is [PAGE_SIZE] *)
Definition mmap (addr : option Z) (len _prot flags _offset : Z) (_fd : option Z) (need_copy : bool) :
    M (Z * bool) :=
  match addr with
  | Some addr => ret (addr, true)
  | None =>
      lift (rust_assert (Z.land MAP_FIXED flags =? 0)) ;;
      let! memory := alloc len 4096 in
      ret (memory, true)
  end.

Definition mmap_anonymous (addr len _prot _flags : Z) : M Z :=
  write_bytes addr (replicate (Z.to_nat len) 0) ;; ret addr.

Definition munmap (addr len : Z) : M unit := dealloc addr len.

Definition mprotect (_addr _len _prot : Z) : M unit := ret tt.

#[global] Instance MmapImpl : Mmap := {
  Mmap.mmap := mmap;
  Mmap.mmap_anonymous := mmap_anonymous;
  Mmap.munmap := munmap;
  Mmap.mprotect := mprotect;
}.
End no_mmap.
End NoMmap.

(** ** The contract

    What the loader needs of an implementation.  [file fd i] is byte [i] of the
    file behind a descriptor, as a mapping shows it (zero past the end). *)

Definition mapped_range (m : memory) (p len : Z) : Prop := forall i, p <= i < p + len -> is_Some (m !! i).
Definition same_outside (m m' : memory) (p len : Z) : Prop :=
  forall i, ~ (p <= i < p + len) -> m' !! i = m !! i.

(** A range of the address space, away from both ends. *)
Definition range_ok (p len : Z) : Prop := 0 < p /\ p + len < U64_LIM.

Class MmapLaws (I : Mmap) (file : Z -> Z -> Z) := {
  (** A request, whose range is mapped already when it is fixed: a fixed request
      lands where it was asked, the range is mapped, nothing else is touched, and
      the result either shows the file or asks for a copy. *)
  mmap_law : forall addr len prot flags off fd nc w p nc' w',
    Z.land MAP_ANONYMOUS flags = 0 ->
    (forall a, addr = Some a -> Z.land MAP_FIXED flags <> 0 -> mapped_range (mem w) a len) ->
    mmap addr len prot flags off fd nc w = (Ok (p, nc'), w') ->
    (forall a, addr = Some a -> Z.land MAP_FIXED flags <> 0 -> p = a) /\
    ((forall a, addr = Some a -> range_ok a len) -> range_ok p len) /\
    ((addr = None \/ Z.land MAP_FIXED flags <> 0) -> mapped_range (mem w') p len) /\
    same_outside (mem w) (mem w') p len /\
    (nc' = false -> exists fd', fd = Some fd' /\
       forall i, 0 <= i < len -> mem w' !! (p + i) = Some (file fd' (off + i)));
  (** Anonymous pages replace the range by zeros. *)
  mmap_anonymous_law : forall addr len prot flags w p w',
    Z.land MAP_FIXED flags <> 0 ->
    mmap_anonymous addr len prot flags w = (Ok p, w') ->
    p = addr /\ same_outside (mem w) (mem w') p len /\
    forall i, p <= i < p + len -> mem w' !! i = Some 0;
  (** Changing a protection changes no byte. *)
  mprotect_law : forall addr len prot w w',
    mprotect addr len prot w = (Ok tt, w') -> mem w' = mem w;
}.

(** ** The implementations meet the contract *)

Lemma map_range_lookup m p len f i :
  map_range m p len f !! i = if decide (p <= i < p + len) then Some (f (i - p)) else m !! i.
Proof.
  unfold map_range. rewrite store_bytes_lookup, length_fmap, length_seqZ.
  destruct (decide (p <= i < p + len)).
  - rewrite decide_True by lia. rewrite list_lookup_fmap, lookup_seqZ_lt by lia. simpl.
    do 2 f_equal. lia.
  - rewrite decide_False by lia. done.
Qed.

Lemma unmap_range_lookup m p len i :
  unmap_range m p len !! i = if decide (p <= i < p + len) then None else m !! i.
Proof.
  unfold unmap_range. destruct (decide (p <= i < p + len)) as [Hin|Hout].
  - assert (Hi : i ∈ seqZ p len) by (apply elem_of_seqZ; lia). clear Hin.
    induction (seqZ p len) as [|j l IH]; simpl; [by apply not_elem_of_nil in Hi|].
    rewrite lookup_delete. case_decide; [done|].
    apply elem_of_cons in Hi as [->|Hi]; [done|]. by apply IH.
  - assert (Hi : i ∉ seqZ p len) by (rewrite elem_of_seqZ; lia). clear Hout.
    induction (seqZ p len) as [|j l IH]; simpl; [done|].
    apply not_elem_of_cons in Hi as [Hne Hi]. rewrite lookup_delete_ne by done. by apply IH.
Qed.

(** The documented behaviour of the kernel's [mmap]: [MAP_FIXED] is obeyed, a
    file mapping shows the file and an anonymous one shows zeros. *)
Class KernelLaws (K : Kernel) (file : Z -> Z -> Z) := {
  sys_mmap_range : forall w addr len prot flags fd off r,
    sys_mmap w addr len prot flags fd off = Some r -> range_ok (map_ptr r) len;
  sys_mmap_fixed : forall w addr len prot flags fd off r,
    sys_mmap w addr len prot flags fd off = Some r -> Z.land MAP_FIXED flags <> 0 -> map_ptr r = addr;
  sys_mmap_file : forall w addr len prot flags fd off r i,
    sys_mmap w addr len prot flags fd off = Some r -> Z.land MAP_ANONYMOUS flags = 0 ->
    0 <= i < len -> map_byte r i = file fd (off + i);
  sys_mmap_anon : forall w addr len prot flags fd off r i,
    sys_mmap w addr len prot flags fd off = Some r -> Z.land MAP_ANONYMOUS flags <> 0 ->
    0 <= i < len -> map_byte r i = 0;
}.

Lemma lor_anonymous flags : Z.land MAP_ANONYMOUS (Z.lor flags MAP_ANONYMOUS) <> 0.
Proof.
  intros Heq. assert (Hb : Z.testbit (Z.land MAP_ANONYMOUS (Z.lor flags MAP_ANONYMOUS)) 5 = true).
  { rewrite Z.land_spec, Z.lor_spec. change (Z.testbit MAP_ANONYMOUS 5) with true.
    by rewrite orb_true_r. }
  by rewrite Heq in Hb.
Qed.

Lemma lor_anonymous_fixed flags :
  Z.land MAP_FIXED flags <> 0 -> Z.land MAP_FIXED (Z.lor flags MAP_ANONYMOUS) <> 0.
Proof.
  intros Hf Heq. apply Hf. apply Z.bits_inj'. intros n Hn.
  apply (f_equal (fun z => Z.testbit z n)) in Heq. rewrite Z.land_spec, Z.lor_spec, Z.bits_0 in Heq.
  rewrite Z.land_spec, Z.bits_0. destruct (Z.testbit MAP_FIXED n); [|done]. simpl in *.
  by apply orb_false_iff in Heq as [? _].
Qed.

Lemma map_range_facts m p len f :
  mapped_range (map_range m p len f) p len /\ same_outside m (map_range m p len f) p len.
Proof.
  split; intros i Hi; rewrite map_range_lookup.
  - rewrite decide_True by done. eauto.
  - by rewrite decide_False.
Qed.

Section kernel_laws.
Context `{K : Kernel} (file : Z -> Z -> Z) `{!KernelLaws K file}.

Lemma kernel_mmap_inv msg addr len prot flags fd off w p w' :
  kernel_mmap msg addr len prot flags fd off w = (Ok p, w') ->
  exists r, sys_mmap w addr len prot flags fd off = Some r /\ p = map_ptr r /\
    mem w' = map_range (mem w) p len (map_byte r).
Proof.
  unfold kernel_mmap. destruct (sys_mmap _ _ _ _ _ _ _) as [r|] eqn:Hr; [|done].
  intros [= <- <-]. eauto.
Qed.

(** The facts both kernel-backed implementations need of a mapping call. *)
Lemma kernel_mmap_facts msg addr len prot flags fd off w p w' :
  kernel_mmap msg addr len prot flags fd off w = (Ok p, w') ->
  (Z.land MAP_FIXED flags <> 0 -> p = addr) /\ range_ok p len /\
  mapped_range (mem w') p len /\ same_outside (mem w) (mem w') p len /\
  (Z.land MAP_ANONYMOUS flags = 0 ->
     forall i, 0 <= i < len -> mem w' !! (p + i) = Some (file fd (off + i))) /\
  (Z.land MAP_ANONYMOUS flags <> 0 -> forall i, p <= i < p + len -> mem w' !! i = Some 0).
Proof.
  intros (r & Hr & -> & Hm)%kernel_mmap_inv. rewrite Hm.
  destruct (map_range_facts (mem w) (map_ptr r) len (map_byte r)) as [Hmap Hout].
  split_and!; [by eapply sys_mmap_fixed|by eapply sys_mmap_range|done|done| |].
  - intros Ha i Hi. rewrite map_range_lookup, decide_True by lia.
    replace (map_ptr r + i - map_ptr r) with i by lia. f_equal. by eapply sys_mmap_file.
  - intros Ha i Hi. rewrite map_range_lookup, decide_True by lia. f_equal.
    eapply sys_mmap_anon; [done..|lia].
Qed.

Lemma kernel_mprotect_mem addr len prot w w' :
  kernel_mprotect addr len prot w = (Ok tt, w') -> mem w' = mem w.
Proof. unfold kernel_mprotect. case_match; [|done]. by intros [= <-]. Qed.

#[global] Instance libc_laws : MmapLaws Libc.MmapImpl file.
Proof.
  constructor.
  - intros addr len prot flags off fd nc w p nc' w' Hanon Hpre. simpl. unfold Libc.mmap.
    destruct fd as [fd|]; intros (p0 & w1 & Hk & [= <- <- <-])%bind_run_inv;
      apply kernel_mmap_facts in Hk as (Hfix & Hr & Hmap & Hout & Hfile & _);
      (split_and!; [|done..|]).
    + intros a -> Hf. by apply Hfix.
    + intros _. eauto.
    + intros a -> Hf. apply Hfix. by apply lor_anonymous_fixed.
    + done.
  - intros addr len prot flags w p w' Hf Hk. simpl in Hk. unfold Libc.mmap_anonymous in Hk.
    apply kernel_mmap_facts in Hk as (Hfix & _ & _ & Hout & _ & Hz).
    split_and!; [by apply Hfix, lor_anonymous_fixed|done|]. apply Hz, lor_anonymous.
  - intros addr len prot w w'. apply kernel_mprotect_mem.
Qed.

#[global] Instance syscall_laws : MmapLaws Syscall.MmapImpl file.
Proof.
  constructor.
  - intros addr len prot flags off fd nc w p nc' w' Hanon Hpre. simpl. unfold Syscall.mmap.
    destruct fd as [fd|]; intros (p0 & w1 & Hk & [= <- <- <-])%bind_run_inv;
      apply kernel_mmap_facts in Hk as (Hfix & Hr & Hmap & Hout & Hfile & _);
      (split_and!; [|done..|]).
    + intros a -> Hf. by apply Hfix.
    + intros _. eauto.
    + intros a -> Hf. apply Hfix. by apply lor_anonymous_fixed.
    + done.
  - intros addr len prot flags w p w' Hf Hk. simpl in Hk. unfold Syscall.mmap_anonymous in Hk.
    apply kernel_mmap_facts in Hk as (Hfix & _ & _ & Hout & _ & Hz).
    split_and!; [by apply Hfix, lor_anonymous_fixed|done|]. apply Hz, lor_anonymous.
  - intros addr len prot w w'. apply kernel_mprotect_mem.
Qed.
End kernel_laws.

(** The documented behaviour of the allocator: a block lies inside the address
    space. *)
Class AllocatorLaws (A : Allocator) := {
  sys_alloc_range : forall w len align r, sys_alloc w len align = Some r -> range_ok (map_ptr r) len;
}.

Section no_mmap_laws.
Context `{A : Allocator} `{!AllocatorLaws A} (file : Z -> Z -> Z).

#[global] Instance no_mmap_laws : MmapLaws NoMmap.MmapImpl file.
Proof.
  constructor.
  - intros addr len prot flags off fd nc w p nc' w' Hanon Hpre. simpl. unfold NoMmap.mmap.
    destruct addr as [a|].
    + intros [= <- <- <-]. split_and!; [by intros ? [= <-]|by eauto| |done|done].
      intros [?|Hf]; [done|]. by apply Hpre.
    + destruct (Z.land MAP_FIXED flags =? 0); [|done]. unfold NoMmap.alloc, bind, lift. simpl.
      destruct (sys_alloc w len 4096) as [r|] eqn:Hr; [|done]. intros [= <- <- <-]. simpl.
      destruct (map_range_facts (mem w) (map_ptr r) len (map_byte r)) as [Hmap Hout].
      split_and!; [done| |done|done|done]. intros _. by eapply sys_alloc_range.
  - intros addr len prot flags w p w' _ H. simpl in H. unfold NoMmap.mmap_anonymous in H.
    apply bind_run_inv in H as ([] & w1 & Hw & [= <- <-]).
    apply write_bytes_inv in Hw as [-> _]. simpl.
    split_and!; [done| |]; intros i Hi; rewrite store_bytes_lookup, length_replicate.
    + by rewrite decide_False by lia.
    + rewrite decide_True by lia. apply lookup_replicate_2. lia.
  - by intros addr len prot w w' [= <-].
Qed.
End no_mmap_laws.

(** ** Progress

    What a platform must grant for loading to succeed, the second half of the
    contract.  A request is sound when it asks for whole pages, at a file offset on
    a page boundary, and either leaves the choice of the address open and asks for
    at most [limit] bytes, or is fixed to a page boundary in a range already
    mapped.  [room] is a lower bound of the addresses given to free requests. *)

Definition sound_request (limit : Z) (m : memory) (addr : option Z) (len flags off : Z) : Prop :=
  0 < len /\ len mod 4096 = 0 /\ 0 <= off /\ off mod 4096 = 0 /\
  match addr with
  | None => Z.land MAP_FIXED flags = 0 /\ len <= limit
  | Some a => Z.land MAP_FIXED flags <> 0 /\ a mod 4096 = 0 /\ range_ok a len /\ mapped_range m a len
  end.

Class MmapGrants (I : Mmap) (room limit : Z) := {
  mmap_grant : forall addr len prot flags off fd w,
    Z.land MAP_ANONYMOUS flags = 0 -> sound_request limit (mem w) addr len flags off ->
    exists p nc' w', mmap addr len prot flags off fd false w = (Ok (p, nc'), w') /\
      p mod 4096 = 0 /\ (addr = None -> room <= p);
  mmap_anonymous_grant : forall addr len prot flags w,
    sound_request limit (mem w) (Some addr) len flags 0 ->
    exists p w', mmap_anonymous addr len prot flags w = (Ok p, w');
  mprotect_grant : forall addr len prot w, exists w', mprotect addr len prot w = (Ok tt, w');
}.

(** A kernel that refuses no sound request and no change of a protection. *)
Class KernelGrants (K : Kernel) (room limit : Z) := {
  sys_mmap_grant : forall w addr len prot flags fd off,
    0 < len -> len mod 4096 = 0 -> 0 <= off -> off mod 4096 = 0 -> addr mod 4096 = 0 ->
    (if decide (Z.land MAP_FIXED flags = 0) then len <= limit else range_ok addr len) ->
    exists r, sys_mmap w addr len prot flags fd off = Some r /\ map_ptr r mod 4096 = 0 /\
      (Z.land MAP_FIXED flags = 0 -> addr = 0 -> room <= map_ptr r);
  sys_mprotect_grant : forall w addr len prot, sys_mprotect w addr len prot = true;
}.

(** [MAP_ANONYMOUS] does not make a request fixed. *)
Lemma land_fixed_anonymous flags :
  Z.land MAP_FIXED flags = 0 -> Z.land MAP_FIXED (Z.lor flags MAP_ANONYMOUS) = 0.
Proof. intros Hf. by rewrite Z.land_lor_distr_r, Hf. Qed.

Section kernel_grants.
Context `{K : Kernel} (room limit : Z) `{!KernelGrants K room limit}.

Lemma kernel_mmap_grant msg m addr len prot flags fd off w :
  sound_request limit m addr len flags off ->
  exists p w', kernel_mmap msg (default 0 addr) len prot flags fd off w = (Ok p, w') /\
    p mod 4096 = 0 /\ (addr = None -> room <= p).
Proof.
  intros (Hl & Hlm & Ho & Hom & Ha). unfold kernel_mmap.
  destruct (sys_mmap_grant w (default 0 addr) len prot flags fd off) as (r & -> & Hr & Hroom); try done.
  - destruct addr as [a|]; [by destruct Ha as (_ & ? & _)|done].
  - destruct addr as [a|]; case_decide; naive_solver.
  - do 2 eexists. split; [done|]. split; [done|]. intros ->. apply Hroom; [apply Ha|done].
Qed.

Lemma sound_request_anonymous m addr len flags off :
  sound_request limit m addr len flags off -> sound_request limit m addr len (Z.lor flags MAP_ANONYMOUS) off.
Proof.
  intros (? & ? & ? & ? & Ha). split_and!; try done. destruct addr as [a|]; [|by destruct Ha; split; [apply land_fixed_anonymous|]].
  destruct Ha as (Hf & ? & ? & ?). split; [by apply lor_anonymous_fixed|done].
Qed.

Lemma kernel_mprotect_grant addr len prot w : exists w', kernel_mprotect addr len prot w = (Ok tt, w').
Proof. unfold kernel_mprotect. rewrite sys_mprotect_grant. eauto. Qed.

#[global] Instance libc_grants : MmapGrants Libc.MmapImpl room limit.
Proof.
  constructor.
  - intros addr len prot flags off fd w _ Hs. simpl. unfold Libc.mmap. destruct fd as [fd|].
    + destruct (kernel_mmap_grant "mmap failed" _ addr len prot flags fd off w Hs) as (p & w' & Hk & ? & ?).
      exists p, false, w'. by rewrite (bind_run _ _ _ _ _ Hk).
    + destruct (kernel_mmap_grant "mmap failed" _ addr len PROT_WRITE _ (-1) off w (sound_request_anonymous _ _ _ _ _ Hs))
        as (p & w' & Hk & ? & ?).
      exists p, true, w'. by rewrite (bind_run _ _ _ _ _ Hk).
  - intros addr len prot flags w Hs.
    destruct (kernel_mmap_grant "mmap anonymous failed" _ _ len prot _ (-1) 0 w (sound_request_anonymous _ _ _ _ _ Hs))
      as (p & w' & Hk & _). by exists p, w'.
  - intros. apply kernel_mprotect_grant.
Qed.

#[global] Instance syscall_grants : MmapGrants Syscall.MmapImpl room limit.
Proof.
  constructor.
  - intros addr len prot flags off fd w _ Hs. simpl. unfold Syscall.mmap. destruct fd as [fd|].
    + destruct (kernel_mmap_grant "mmap failed" _ addr len prot flags fd off w Hs) as (p & w' & Hk & ? & ?).
      exists p, false, w'. unfold Syscall.sys_mmap. by rewrite (bind_run _ _ _ _ _ Hk).
    + assert (Hs0 : sound_request limit (mem w) addr len (Z.lor flags MAP_ANONYMOUS) 0).
      { apply sound_request_anonymous. destruct Hs as (? & ? & ? & ? & ?). by split_and!. }
      destruct (kernel_mmap_grant "mmap anonymous failed" _ addr len PROT_WRITE _ (U64_LIM - 1) 0 w Hs0)
        as (p & w' & Hk & ? & ?).
      exists p, true, w'. unfold Syscall.sys_mmap_anonymous. by rewrite (bind_run _ _ _ _ _ Hk).
  - intros addr len prot flags w Hs.
    destruct (kernel_mmap_grant "mmap anonymous failed" _ _ len prot _ (U64_LIM - 1) 0 w (sound_request_anonymous _ _ _ _ _ Hs))
      as (p & w' & Hk & _). by exists p, w'.
  - intros. apply kernel_mprotect_grant.
Qed.
End kernel_grants.

(** An allocator that does not run out of memory and gives aligned blocks. *)
Class AllocatorGrants (A : Allocator) (room limit : Z) := {
  sys_alloc_grant : forall w len, 0 < len -> len <= limit ->
    exists r, sys_alloc w len 4096 = Some r /\ map_ptr r mod 4096 = 0 /\ room <= map_ptr r;
}.

#[export] Instance no_mmap_grants `{A : Allocator} (room limit : Z) `{!AllocatorGrants A room limit} :
  MmapGrants NoMmap.MmapImpl room limit.
Proof.
  constructor.
  - intros addr len prot flags off fd w _ (Hl & _ & _ & _ & Ha). simpl. unfold NoMmap.mmap.
    destruct addr as [a|]; [destruct Ha as (_ & ? & _); by do 3 eexists|].
    destruct Ha as [Ha Hlim]. rewrite Ha. unfold NoMmap.alloc, bind, lift. simpl.
    destruct (sys_alloc_grant w len Hl Hlim) as (r & -> & ? & ?). by do 3 eexists.
  - intros addr len prot flags w (Hl & _ & _ & _ & _ & _ & _ & Hm). simpl. unfold NoMmap.mmap_anonymous.
    do 2 eexists. erewrite bind_run; [done|]. apply write_bytes_run. rewrite length_replicate. intros i Hi. apply Hm. lia.
  - intros. simpl. eauto.
Qed.

(** *** Placement

    A platform that places an image, when it is free to choose, away from the
    ranges [rs] that are in use. *)

Definition range_apart (p n : Z) (r : Z * Z) : Prop := p + n <= r.1 \/ r.1 + r.2 <= p.

Class MmapAvoids (I : Mmap) (rs : list (Z * Z)) : Prop := {
  mmap_avoids : forall addr len prot flags off fd nc w p nc' w',
    Z.land MAP_FIXED flags = 0 ->
    mmap addr len prot flags off fd nc w = (Ok (p, nc'), w') -> Forall (range_apart p len) rs;
}.

(** The pages at [p] are what the platform answered to a free request, in memory [m]. *)
Definition placed (I : Mmap) (m : memory) (p len : Z) : Prop := exists addr prot flags off fd nc w nc' w',
  mem w = m /\ Z.land MAP_FIXED flags = 0 /\ mmap addr len prot flags off fd nc w = (Ok (p, nc'), w').

Lemma placed_avoids (I : Mmap) rs `{!MmapAvoids I rs} m p len : placed I m p len -> Forall (range_apart p len) rs.
Proof. intros (addr & prot & flags & off & fd & nc & w & nc' & w' & _ & Hf & Hrun). by apply (mmap_avoids _ _ _ _ _ _ _ _ _ _ _ Hf Hrun). Qed.

(** A platform that answers a free request with pages that are not in use, as long as
    at most [budget] bytes are: an address space can be full. *)
Definition free_range (m : memory) (p len : Z) : Prop := forall a, p <= a < p + len -> m !! a = None.

Class MmapFresh (I : Mmap) (budget : Z) : Prop := {
  mmap_fresh : forall addr len prot flags off fd nc w p nc' w',
    Z.land MAP_FIXED flags = 0 -> Z.of_nat (size (mem w)) <= budget ->
    mmap addr len prot flags off fd nc w = (Ok (p, nc'), w') -> free_range (mem w) p len;
}.

Lemma placed_fresh (I : Mmap) budget `{!MmapFresh I budget} m p len :
  placed I m p len -> Z.of_nat (size m) <= budget -> free_range m p len.
Proof.
  intros (addr & prot & flags & off & fd & nc & w & nc' & w' & <- & Hf & Hrun) Hm. by apply (mmap_fresh _ _ _ _ _ _ _ _ _ _ _ Hf Hm Hrun).
Qed.

Class KernelFresh (K : Kernel) (budget : Z) : Prop := {
  sys_mmap_fresh : forall w addr len prot flags fd off r,
    Z.land MAP_FIXED flags = 0 -> Z.of_nat (size (mem w)) <= budget ->
    sys_mmap w addr len prot flags fd off = Some r -> free_range (mem w) (map_ptr r) len;
}.

Class KernelAvoids (K : Kernel) (rs : list (Z * Z)) : Prop := {
  sys_mmap_avoids : forall w addr len prot flags fd off r,
    Z.land MAP_FIXED flags = 0 -> sys_mmap w addr len prot flags fd off = Some r -> Forall (range_apart (map_ptr r) len) rs;
}.

Lemma lor_anonymous_free flags : Z.land MAP_FIXED flags = 0 -> Z.land MAP_FIXED (Z.lor flags MAP_ANONYMOUS) = 0.
Proof. intros Hf. rewrite Z.land_lor_distr_r, Hf. done. Qed.

Section avoids.
Context `{K : Kernel} (rs : list (Z * Z)) `{!KernelAvoids K rs}.

Lemma kernel_mmap_avoids msg addr len prot flags fd off w p w' :
  Z.land MAP_FIXED flags = 0 -> kernel_mmap msg addr len prot flags fd off w = (Ok p, w') -> Forall (range_apart p len) rs.
Proof.
  unfold kernel_mmap. intros Hf. destruct (sys_mmap _ _ _ _ _ _ _) as [r|] eqn:Hr; [|done]. intros [= <- _].
  by apply (sys_mmap_avoids _ _ _ _ _ _ _ _ Hf Hr).
Qed.

#[global] Instance libc_avoids : MmapAvoids Libc.MmapImpl rs.
Proof.
  constructor. intros addr len prot flags off fd nc w p nc' w' Hf Hrun. simpl in Hrun. unfold Libc.mmap in Hrun.
  destruct fd; apply bind_run_inv in Hrun as (q & w1 & Hk & [= <- _ _]);
    (eapply kernel_mmap_avoids; [|exact Hk]; [done || by apply lor_anonymous_free]).
Qed.

#[global] Instance syscall_avoids : MmapAvoids Syscall.MmapImpl rs.
Proof.
  constructor. intros addr len prot flags off fd nc w p nc' w' Hf Hrun. simpl in Hrun. unfold Syscall.mmap in Hrun.
  destruct fd; apply bind_run_inv in Hrun as (q & w1 & Hk & [= <- _ _]);
    (eapply kernel_mmap_avoids; [|exact Hk]; [done || by apply lor_anonymous_free]).
Qed.
End avoids.

Section fresh.
Context `{K : Kernel} (budget : Z) `{!KernelFresh K budget}.

Lemma kernel_mmap_fresh msg addr len prot flags fd off w p w' :
  Z.land MAP_FIXED flags = 0 -> Z.of_nat (size (mem w)) <= budget ->
  kernel_mmap msg addr len prot flags fd off w = (Ok p, w') -> free_range (mem w) p len.
Proof.
  unfold kernel_mmap. intros Hf Hm. destruct (sys_mmap _ _ _ _ _ _ _) as [r|] eqn:Hr; [|done]. intros [= <- _].
  by apply (sys_mmap_fresh _ _ _ _ _ _ _ _ Hf Hm Hr).
Qed.

#[global] Instance libc_fresh : MmapFresh Libc.MmapImpl budget.
Proof.
  constructor. intros addr len prot flags off fd nc w p nc' w' Hf Hm Hrun. simpl in Hrun. unfold Libc.mmap in Hrun.
  destruct fd; apply bind_run_inv in Hrun as (q & w1 & Hk & [= <- _ _]);
    (eapply kernel_mmap_fresh; [|exact Hm|exact Hk]; [done || by apply lor_anonymous_free]).
Qed.

#[global] Instance syscall_fresh : MmapFresh Syscall.MmapImpl budget.
Proof.
  constructor. intros addr len prot flags off fd nc w p nc' w' Hf Hm Hrun. simpl in Hrun. unfold Syscall.mmap in Hrun.
  destruct fd; apply bind_run_inv in Hrun as (q & w1 & Hk & [= <- _ _]);
    (eapply kernel_mmap_fresh; [|exact Hm|exact Hk]; [done || by apply lor_anonymous_free]).
Qed.
End fresh.

(** *** Hints

    A request that is not fixed may still name an address, [addr].  A platform that
    answers such requests maps what it answers; it takes the named pages when they are
    not in use, and pages above [room] otherwise. *)

Class MmapAnswers (I : Mmap) (room limit : Z) (addr : option Z) : Prop := {
  mmap_answer_maps : forall len prot flags off fd nc w p nc' w',
    Z.land MAP_FIXED flags = 0 -> Z.land MAP_ANONYMOUS flags = 0 ->
    mmap addr len prot flags off fd nc w = (Ok (p, nc'), w') -> mapped_range (mem w') p len;
  mmap_answer : forall len prot flags off fd w,
    Z.land MAP_FIXED flags = 0 -> Z.land MAP_ANONYMOUS flags = 0 ->
    0 < len -> len <= limit -> len mod 4096 = 0 -> 0 <= off -> off mod 4096 = 0 ->
    (forall a, addr = Some a -> a mod 4096 = 0 /\ range_ok a len) ->
    exists p nc' w', mmap addr len prot flags off fd false w = (Ok (p, nc'), w') /\ p mod 4096 = 0 /\
      (addr = Some p \/ room <= p) /\ (forall a, addr = Some a -> free_range (mem w) a len -> p = a);
}.

(** Without a hint this is the contract above. *)
#[export] Instance free_answers (I : Mmap) (file : Z -> Z -> Z) (room limit : Z) `{!MmapLaws I file} `{!MmapGrants I room limit} :
  MmapAnswers I room limit None.
Proof.
  constructor.
  - intros len prot flags off fd nc w p nc' w' Hf Ha Hrun.
    destruct (mmap_law _ _ _ _ _ _ _ _ _ _ _ Ha ltac:(done) Hrun) as (_ & _ & Hm & _). apply Hm. by left.
  - intros len prot flags off fd w Hf Ha Hl Hlim Hm Ho Hom _.
    destruct (mmap_grant None len prot flags off fd w Ha) as (p & nc' & w' & Hrun & Hp & Hroom); [by split_and!|].
    exists p, nc', w'. split_and!; [done|done|right; by apply Hroom|done].
Qed.

(** The kernel's documentation: an address without [MAP_FIXED] is a hint, which is
    taken if nothing is mapped there. *)
Class KernelHints (K : Kernel) (room limit : Z) : Prop := {
  sys_mmap_hint : forall w addr len prot flags fd off,
    0 < len -> len <= limit -> len mod 4096 = 0 -> 0 <= off -> off mod 4096 = 0 -> addr mod 4096 = 0 -> range_ok addr len ->
    Z.land MAP_FIXED flags = 0 ->
    exists r, sys_mmap w addr len prot flags fd off = Some r /\ map_ptr r mod 4096 = 0 /\
      (map_ptr r = addr \/ room <= map_ptr r) /\ (free_range (mem w) addr len -> map_ptr r = addr);
}.

Section hints.
Context `{K : Kernel} (file : Z -> Z -> Z) (room limit : Z) `{!KernelHints K room limit} `{!KernelLaws K file}.

Lemma kernel_mmap_hint msg addr len prot flags fd off w :
  0 < len -> len <= limit -> len mod 4096 = 0 -> 0 <= off -> off mod 4096 = 0 -> addr mod 4096 = 0 -> range_ok addr len ->
  Z.land MAP_FIXED flags = 0 ->
  exists p w', kernel_mmap msg addr len prot flags fd off w = (Ok p, w') /\ p mod 4096 = 0 /\
    (Some addr = Some p \/ room <= p) /\ (forall a, Some addr = Some a -> free_range (mem w) a len -> p = a).
Proof.
  intros. unfold kernel_mmap. destruct (sys_mmap_hint w addr len prot flags fd off) as (r & -> & Hr & Hp & Hfree); try done.
  do 2 eexists. split; [done|]. split; [done|]. split; [destruct Hp as [->|]; [by left|by right]|]. by intros a [= <-].
Qed.

#[global] Instance libc_answers a : MmapAnswers Libc.MmapImpl room limit (Some a).
Proof.
  constructor.
  - intros len prot flags off fd nc w p nc' w' Hf Ha Hrun. simpl in Hrun. unfold Libc.mmap in Hrun.
    destruct fd; apply bind_run_inv in Hrun as (q & w1 & Hk & [= <- _ <-]);
      apply (kernel_mmap_facts file) in Hk as (_ & _ & Hm & _); done.
  - intros len prot flags off fd w Hf Ha Hl Hlim Hm Ho Hom Had. destruct (Had a eq_refl) as [Haa Har]. simpl. unfold Libc.mmap.
    destruct fd as [fd|].
    + destruct (kernel_mmap_hint "mmap failed" a len prot flags fd off w) as (p & w' & Hk & ?); try done.
      exists p, false, w'. by rewrite (bind_run _ _ _ _ _ Hk).
    + destruct (kernel_mmap_hint "mmap failed" a len PROT_WRITE (Z.lor flags MAP_ANONYMOUS) (-1) off w) as (p & w' & Hk & ?);
        try done; [by apply lor_anonymous_free|].
      exists p, true, w'. by rewrite (bind_run _ _ _ _ _ Hk).
Qed.

#[global] Instance syscall_answers a : MmapAnswers Syscall.MmapImpl room limit (Some a).
Proof.
  constructor.
  - intros len prot flags off fd nc w p nc' w' Hf Ha Hrun. simpl in Hrun. unfold Syscall.mmap in Hrun.
    destruct fd; apply bind_run_inv in Hrun as (q & w1 & Hk & [= <- _ <-]);
      apply (kernel_mmap_facts file) in Hk as (_ & _ & Hm & _); done.
  - intros len prot flags off fd w Hf Ha Hl Hlim Hm Ho Hom Had. destruct (Had a eq_refl) as [Haa Har]. simpl. unfold Syscall.mmap.
    destruct fd as [fd|].
    + destruct (kernel_mmap_hint "mmap failed" a len prot flags fd off w) as (p & w' & Hk & ?); try done.
      exists p, false, w'. unfold Syscall.sys_mmap. by rewrite (bind_run _ _ _ _ _ Hk).
    + destruct (kernel_mmap_hint "mmap anonymous failed" a len PROT_WRITE (Z.lor flags MAP_ANONYMOUS) (U64_LIM - 1) 0 w)
        as (p & w' & Hk & ?); try done; [by apply lor_anonymous_free|].
      exists p, true, w'. unfold Syscall.sys_mmap_anonymous. by rewrite (bind_run _ _ _ _ _ Hk).
Qed.
End hints.

(** *** Release

    A platform that takes back what it gave. *)

Class MmapReleases (I : Mmap) : Prop := {
  mmap_release : forall p len w, exists e,
    (e = EvMunmap p len true \/ e = EvDealloc p len) /\
    munmap p len w = (Ok tt, push_event e (set_mem (unmap_range (mem w) p len) w));
}.

Class KernelReleases (K : Kernel) : Prop := { sys_munmap_release : forall w p len, sys_munmap w p len = true }.

#[export] Instance libc_releases `{K : Kernel} `{!KernelReleases K} : MmapReleases Libc.MmapImpl.
Proof. constructor. intros p len w. eexists. split; [by left|]. simpl. unfold Libc.munmap, kernel_munmap. by rewrite sys_munmap_release. Qed.
#[export] Instance syscall_releases `{K : Kernel} `{!KernelReleases K} : MmapReleases Syscall.MmapImpl.
Proof. constructor. intros p len w. eexists. split; [by left|]. simpl. unfold Syscall.munmap, kernel_munmap. by rewrite sys_munmap_release. Qed.
#[export] Instance no_mmap_releases `{Allocator} : MmapReleases NoMmap.MmapImpl.
Proof. constructor. intros p len w. eexists. split; [by right|]. done. Qed.

(** ** A concrete kernel

    It places every free request at one address and honours fixed ones. *)

Definition demo_file (data : bytes) (fd i : Z) : Z := default 0 (data !! Z.to_nat i).

Definition demo_kernel (data : bytes) : Kernel := {|
  sys_mmap _ addr len _ flags fd off :=
    let p := if Z.land MAP_FIXED flags =? 0 then 65536 else addr in
    if (0 <? p) && (p + len <? U64_LIM) then
      Some (mk_mapping p (fun i => if Z.land MAP_ANONYMOUS flags =? 0 then demo_file data fd (off + i) else 0))
    else None;
  sys_munmap _ _ _ := true;
  sys_mprotect _ _ _ _ := true;
|}.

Lemma demo_kernel_inv data w addr len prot flags fd off r :
  @sys_mmap (demo_kernel data) w addr len prot flags fd off = Some r ->
  map_ptr r = (if Z.land MAP_FIXED flags =? 0 then 65536 else addr) /\ range_ok (map_ptr r) len /\
  map_byte r = (fun i => if Z.land MAP_ANONYMOUS flags =? 0 then demo_file data fd (off + i) else 0).
Proof.
  cbn [sys_mmap demo_kernel]. cbv zeta.
  destruct (_ && _) eqn:Hc; [|done]. intros [= <-]. cbn [map_ptr map_byte]. unfold range_ok.
  split_and!; [done|lia..|done].
Qed.

#[export] Instance demo_kernel_laws data : KernelLaws (demo_kernel data) (demo_file data).
Proof.
  constructor.
  - by intros w addr len prot flags fd off r (_ & Hr & _)%demo_kernel_inv.
  - intros w addr len prot flags fd off r (-> & _)%demo_kernel_inv Hf. by rewrite (proj2 (Z.eqb_neq _ _)).
  - intros w addr len prot flags fd off r i (_ & _ & ->)%demo_kernel_inv Ha _. by rewrite (proj2 (Z.eqb_eq _ _)).
  - intros w addr len prot flags fd off r i (_ & _ & ->)%demo_kernel_inv Ha _. by rewrite (proj2 (Z.eqb_neq _ _)).
Qed.

(** It grants what fits into the address space. *)
#[export] Instance demo_kernel_grants data : KernelGrants (demo_kernel data) 65536 (2 ^ 47).
Proof.
  constructor; [|done]. intros w addr len prot flags fd off Hl _ _ _ Ha Hr. cbn [sys_mmap demo_kernel]. cbv zeta.
  destruct (Z.eqb_spec (Z.land MAP_FIXED flags) 0) as [Hf|Hf].
  - rewrite decide_True in Hr by done. rewrite (proj2 (Z.ltb_lt (65536 + len) _)) by lia. by eexists.
  - rewrite decide_False in Hr by done. destruct Hr.
    rewrite (proj2 (Z.ltb_lt 0 addr)), (proj2 (Z.ltb_lt (addr + len) _)) by lia. by eexists.
Qed.
