(* ===== verification/Trace.v ===== *)
(** * Trace: what a computation leaves in the log of external calls

    [quiet E c]: [c] has no other effect than [E] allows; with [logged_never R], it only
    appends to the log, and never the call [R], with [same_arcs], it leaves the
    reference counts alone.  [once R c]: it appends [R] to the log exactly once,
    unless it stops by undefined behaviour.  The rules
    for the computations of [Machine.v] are in the hint database [trace]; the tactic
    [quiet] follows the shape of a computation with them. *)

From S2P Require Import Prelude Machine Mmap.
#[local] Open Scope Z_scope.

(** An effect a computation may have on the world, besides on the memory. *)
Class Effect (E : world -> world -> Prop) : Prop := {
  effect_refl : forall w, E w w;
  effect_trans : forall w1 w2 w3, E w1 w2 -> E w2 w3 -> E w1 w3;
  effect_mem : forall w m, E w (set_mem m w);
}.

Definition quiet (E : world -> world -> Prop) {A} (c : M A) : Prop := forall w, E w (c w).2.

(** Undefined behaviour, and the model's own outcome. *)
Definition stuck {A} (o : outcome A) : bool :=
  match o with Fault | OutOfFuel => true | _ => false end.

(** [R] was logged exactly once between two worlds. *)
Definition logged_once (R : event) (w w' : world) : Prop :=
  exists l1 l2, log w' = log w ++ l1 ++ R :: l2 /\ R ∉ l1 /\ R ∉ l2.
Definition logged_never (R : event) (w w' : world) : Prop := exists l, log w' = log w ++ l /\ R ∉ l.

Definition once (R : event) {A} (c : M A) : Prop :=
  forall w, stuck (c w).1 = false -> logged_once R w (c w).2.

Create HintDb trace.

(** No reference count changes. *)
Definition same_arcs (w w' : world) : Prop := arcs w' = arcs w.

#[export] Instance logged_never_effect R : Effect (logged_never R).
Proof.
  constructor.
  - intros w. exists []. split; [by rewrite app_nil_r|]. set_solver.
  - intros w1 w2 w3 (l1 & H1 & N1) (l2 & H2 & N2). exists (l1 ++ l2). rewrite H2, H1, app_assoc. split; [done|]. set_solver.
  - intros w m. exists []. split; [by rewrite app_nil_r|]. set_solver.
Qed.

#[export] Instance same_arcs_effect : Effect same_arcs.
Proof. constructor; unfold same_arcs; [done|congruence|done]. Qed.

Section rules.
Context (E : world -> world -> Prop) `{!Effect E}.

Lemma quiet_pure {A} (c : M A) : (forall w, (c w).2 = w) -> quiet E c.
Proof. intros Hc w. rewrite Hc. apply effect_refl. Qed.

Lemma quiet_bind {A B} (c : M A) (k : A -> M B) : quiet E c -> (forall a, quiet E (k a)) -> quiet E (bind c k).
Proof.
  intros Hc Hk w. unfold bind. specialize (Hc w). destruct (c w) as [[] w1]; try exact Hc.
  apply (effect_trans w w1); [exact Hc|apply Hk].
Qed.

Lemma quiet_run_drop {A} (o : outcome A) (d : M unit) : quiet E d -> quiet E (run_drop o d).
Proof. intros Hd w. unfold run_drop. specialize (Hd w). by destruct (d w) as [[] w1]. Qed.

Lemma quiet_finally {A} (c : M A) d : quiet E c -> quiet E d -> quiet E (finally c d).
Proof.
  intros Hc Hd w. unfold finally. specialize (Hc w). destruct (c w) as [[] w1]; try exact Hc.
  all: apply (effect_trans w w1); [exact Hc|by apply quiet_run_drop].
Qed.

Lemma quiet_on_unwind {A} (c : M A) d : quiet E c -> quiet E d -> quiet E (on_unwind c d).
Proof.
  intros Hc Hd w. unfold on_unwind. specialize (Hc w). destruct (c w) as [[] w1]; try exact Hc.
  all: apply (effect_trans w w1); [exact Hc|by apply quiet_run_drop].
Qed.

Lemma quiet_map_err {A} f (c : M A) : quiet E c -> quiet E (map_err f c).
Proof. intros Hc w. unfold map_err. specialize (Hc w). by destruct (c w) as [[] w1]. Qed.

Lemma quiet_ret {A} (a : A) : quiet E (ret a).
Proof. by apply quiet_pure. Qed.
Lemma quiet_lift {A} (o : outcome A) : quiet E (lift o).
Proof. by apply quiet_pure. Qed.
Lemma quiet_reads {A} (f : memory -> outcome A) : quiet E (reads f).
Proof. by apply quiet_pure. Qed.
Lemma quiet_throw {A} e : quiet E (throw (A := A) e).
Proof. by apply quiet_pure. Qed.
Lemma quiet_write_bytes a bs : quiet E (write_bytes a bs).
Proof. intros w. unfold write_bytes. destruct (load_bytes _ _ _); [apply effect_mem|apply effect_refl]. Qed.
End rules.

Section once.
Context (R : event).

Lemma logged_once_after w1 w2 w3 : logged_never R w1 w2 -> logged_once R w2 w3 -> logged_once R w1 w3.
Proof.
  intros (l & H1 & N) (l1 & l2 & H2 & N1 & N2). exists (l ++ l1), l2. rewrite H2, H1, <- !app_assoc.
  split; [done|]. set_solver.
Qed.

Lemma logged_once_before w1 w2 w3 : logged_once R w1 w2 -> logged_never R w2 w3 -> logged_once R w1 w3.
Proof.
  intros (l1 & l2 & H1 & N1 & N2) (l & H2 & N). exists l1, (l2 ++ l). rewrite H2, H1, <- !app_assoc.
  split; [done|]. set_solver.
Qed.

(** A computation that ends by dropping what it owns, and one that drops it when it
    does not hand it over. *)
Lemma once_run_drop {A} (o : outcome A) (d : M unit) : once R d -> once R (run_drop o d).
Proof. intros Hd w. unfold run_drop. specialize (Hd w). destruct (d w) as [[] w1]; intros Hs; by apply Hd. Qed.

Lemma once_finally {A} (c : M A) d : quiet (logged_never R) c -> once R d -> once R (finally c d).
Proof.
  intros Hc Hd w. unfold finally. specialize (Hc w). destruct (c w) as [[] w1]; intros Hs; try done.
  all: apply (logged_once_after w w1); [exact Hc|by apply once_run_drop].
Qed.

(** What a computation that hands over, or releases, what it owns has logged. *)
Definition owned {A} (c : M A) : Prop := forall w, stuck (c w).1 = false ->
  if is_ok (c w).1 then logged_never R w (c w).2 else logged_once R w (c w).2.

Lemma on_unwind_owned {A} (c : M A) d : quiet (logged_never R) c -> once R d -> owned (on_unwind c d).
Proof.
  intros Hc Hd w. specialize (Hc w).
  assert (Hdrop : forall o w1, is_ok o = false -> logged_never R w w1 -> stuck (run_drop (A := A) o d w1).1 = false ->
    if is_ok (run_drop o d w1).1 then logged_never R w (run_drop o d w1).2 else logged_once R w (run_drop o d w1).2).
  { intros o w1 Ho H1 Hs. replace (is_ok (run_drop o d w1).1) with false.
    - apply (logged_once_after w w1); [done|]. by apply once_run_drop.
    - unfold run_drop. by destruct (d w1) as [[]]. }
  unfold on_unwind. destruct (c w) as [[a|e| | |] w1]; try done; by apply Hdrop.
Qed.

Lemma once_bind_owned {A B} (c : M A) (k : A -> M B) :
  owned c -> (forall a, (exists w w', c w = (Ok a, w')) -> once R (k a)) -> once R (bind c k).
Proof.
  intros Hc Hk w. unfold bind. specialize (Hc w). destruct (c w) as [[a|e| | |] w1] eqn:E; intros Hs; try by apply Hc.
  apply (logged_once_after w w1); [by apply Hc|]. apply Hk; eauto.
Qed.

Lemma once_bind_quiet {A B} (c : M A) (k : A -> M B) :
  once R c -> (forall a, (exists w w', c w = (Ok a, w')) -> quiet (logged_never R) (k a)) -> once R (bind c k).
Proof.
  intros Hc Hk w. unfold bind. specialize (Hc w). destruct (c w) as [[a|e| | |] w1] eqn:E; intros Hs; try by apply Hc.
  apply (logged_once_before w w1); [by apply Hc|]. apply Hk; eauto.
Qed.
End once.

#[export] Hint Extern 0 (Effect _) => typeclasses eauto : trace.
#[export] Hint Resolve quiet_ret quiet_lift quiet_reads quiet_throw quiet_write_bytes : trace.

(** Follows binds, scopes and case distinctions down to the operations. *)
Ltac quiet :=
  repeat (progress intros ||
    match goal with
    | |- quiet _ (match ?x with _ => _ end) => destruct x
    | _ => solve [auto with trace]
    | |- quiet _ (bind _ _) => apply quiet_bind
    | |- quiet _ (finally _ _) => apply quiet_finally
    | |- quiet _ (on_unwind _ _) => apply quiet_on_unwind
    | |- quiet _ (map_err _ _) => apply quiet_map_err
    end).

(** ** What the loader's mappings log *)

Class MmapQuiet (E : world -> world -> Prop) (I : Mmap) : Prop := {
  quiet_mmap : forall addr len prot flags off fd nc, quiet E (mmap addr len prot flags off fd nc);
  quiet_mmap_anonymous : forall addr len prot flags, quiet E (mmap_anonymous addr len prot flags);
  quiet_munmap : forall addr len, quiet E (munmap addr len);
  quiet_mprotect : forall addr len prot, quiet E (mprotect addr len prot);
}.
#[export] Hint Resolve quiet_mmap quiet_mmap_anonymous quiet_munmap quiet_mprotect : trace.

(** An effect that allows the calls of the kernel and of the allocator. *)
Class MmapEffect (E : world -> world -> Prop) : Prop := {
  map_effect :: Effect E;
  effect_mmap : forall addr len prot flags fd off res w, E w (push_event (EvMmap addr len prot flags fd off res) w);
  effect_munmap : forall addr len ok w, E w (push_event (EvMunmap addr len ok) w);
  effect_mprotect : forall addr len prot ok w, E w (push_event (EvMprotect addr len prot ok) w);
  effect_alloc : forall len align res w, E w (push_event (EvAlloc len align res) w);
  effect_dealloc : forall addr len w, E w (push_event (EvDealloc addr len) w);
}.

Lemma logged_never_event R e w : e <> R -> logged_never R w (push_event e w).
Proof. intros He. exists [e]. split; [done|]. set_solver. Qed.

#[export] Instance close_effect fd : MmapEffect (logged_never (EvClose fd)).
Proof. constructor; [apply _|intros; by apply logged_never_event..]. Qed.
#[export] Instance arcs_effect : MmapEffect same_arcs.
Proof. constructor; [apply _|done..]. Qed.

Section mmap_quiet.
Context (E : world -> world -> Prop) `{!MmapEffect E}.

Lemma quiet_kernel_mmap `{Kernel} msg addr len prot flags fd off : quiet E (kernel_mmap msg addr len prot flags fd off).
Proof.
  intros w. unfold kernel_mmap. destruct (sys_mmap _ _ _ _ _ _ _); [|apply effect_mmap].
  eapply effect_trans; [apply effect_mem|apply effect_mmap].
Qed.
Lemma quiet_kernel_munmap `{Kernel} addr len : quiet E (kernel_munmap addr len).
Proof.
  intros w. unfold kernel_munmap. destruct (sys_munmap _ _ _); [|apply effect_munmap].
  eapply effect_trans; [apply effect_mem|apply effect_munmap].
Qed.
Lemma quiet_kernel_mprotect `{Kernel} addr len prot : quiet E (kernel_mprotect addr len prot).
Proof. intros w. unfold kernel_mprotect. destruct (sys_mprotect _ _ _ _); apply effect_mprotect. Qed.
Lemma quiet_alloc `{Allocator} len align : quiet E (NoMmap.alloc len align).
Proof.
  intros w. unfold NoMmap.alloc. destruct (sys_alloc _ _ _); [|apply effect_alloc].
  eapply effect_trans; [apply effect_mem|apply effect_alloc].
Qed.
Lemma quiet_dealloc addr len : quiet E (NoMmap.dealloc addr len).
Proof. intros w. unfold NoMmap.dealloc. eapply effect_trans; [apply effect_mem|apply effect_dealloc]. Qed.
#[local] Hint Resolve quiet_kernel_mmap quiet_kernel_munmap quiet_kernel_mprotect quiet_alloc quiet_dealloc : trace.

#[export] Instance libc_quiet `{Kernel} : MmapQuiet E Libc.MmapImpl.
Proof. constructor; intros; simpl; unfold Libc.mmap, Libc.mmap_anonymous, Libc.munmap, Libc.mprotect; quiet. Qed.

#[export] Instance syscall_quiet `{Kernel} : MmapQuiet E Syscall.MmapImpl.
Proof.
  constructor; intros; simpl; unfold Syscall.mmap, Syscall.mmap_anonymous, Syscall.munmap, Syscall.mprotect,
    Syscall.sys_mmap, Syscall.sys_mmap_anonymous; quiet.
Qed.

#[export] Instance no_mmap_quiet `{Allocator} : MmapQuiet E NoMmap.MmapImpl.
Proof.
  constructor; intros; simpl; unfold NoMmap.mmap, NoMmap.mmap_anonymous, NoMmap.munmap, NoMmap.mprotect; quiet.
Qed.
End mmap_quiet.
