(* ===== verification/Segment.v ===== *)
(** * Segment: the mapped image of an object

    Models [src/src/segment.rs]: the page constants, [ElfSegments] (the one
    mapping an object lives in, and the addresses computed from it) and
    [ELFRelro]. *)

From S2P Require Import Prelude Machine Arch Mmap.
#[local] Open Scope Z_scope.

Definition PAGE_SIZE := 4096.
Definition MASK := Z.lxor (U64_LIM - 1) (PAGE_SIZE - 1).

Lemma land_MASK x : 0 <= x < U64_LIM -> Z.land x MASK = x - x mod 4096.
Proof. change MASK with (U64_LIM - 4096). apply land_high_mask. Qed.

(** The page protection of a segment's flags. *)
Definition map_prot (prot : Z) : Z :=
  Z.lor (Z.lor (Z.shiftl (Z.land prot PF_X) 2) (Z.land prot PF_W)) (Z.shiftr (Z.land prot PF_R) 2).

(** ** ElfSegments *)

Record ElfSegments := mk_segments {
  memory_ptr : Z;
  seg_offset : Z;
  seg_len : Z;
  seg_munmap : Z -> Z -> M unit;
}.

Definition ElfSegments_new (memory len : Z) (munmap : Z -> Z -> M unit) : ElfSegments :=
  mk_segments memory 0 len munmap.

(** base = memory_addr - offset *)
Definition base (s : ElfSegments) : Z := padd (memory_ptr s) (- seg_offset s).

Section segments.
Context `{Config}.

Definition get_ptr (s : ElfSegments) (offset : Z) : outcome Z :=
  _ ← debug_check (d ← usub offset (seg_offset s); Ok (d <? seg_len s));
  uadd (base s) offset.

Definition get_mut_ptr (s : ElfSegments) (offset : Z) : outcome Z := get_ptr s offset.

(** [size] is [size_of::<T>()]; [len] is in bytes. *)
Definition get_slice (size : Z) (s : ElfSegments) (start len : Z) : outcome slice :=
  _ ← debug_check (e ← uadd start len; d ← usub e (seg_offset s); Ok (d <=? seg_len s));
  p ← get_ptr s start;
  Ok (mk_slice p (len / size)).

Definition get_slice_mut (size : Z) (s : ElfSegments) (start len : Z) : outcome slice :=
  _ ← debug_check (e ← uadd start len; d ← usub e (seg_offset s); Ok (d <=? seg_len s));
  p ← get_mut_ptr s start;
  Ok (mk_slice p (len / size)).
End segments.

(** [Drop for ElfSegments]: unmapping must succeed. *)
Definition drop_segments (s : ElfSegments) : M unit := fun w =>
  match seg_munmap s (memory_ptr s) (seg_len s) w with
  | (Err _, w') => (Panic, w')
  | r => r
  end.

(** ** ELFRelro *)

Record ELFRelro := mk_relro {
  relro_addr : Z;
  relro_len : Z;
  relro_mprotect : Z -> Z -> Z -> M unit;
}.

Definition ELFRelro_new `{Config} `{Mmap} (phdr : ElfPhdr) (base : Z) : outcome ELFRelro :=
  addr ← uadd base (p_vaddr phdr);
  Ok (mk_relro addr (p_memsz phdr) mprotect).

(** [(x + PAGE_SIZE - 1) & MASK], as [segment.rs] and [loader.rs] write it. *)
Definition page_round_up `{Config} (x : Z) : outcome Z :=
  x ← uadd x PAGE_SIZE; x ← usub x 1; Ok (Z.land x MASK).

Definition relro `{Config} (r : ELFRelro) : M unit :=
  let! top := lift (uadd (relro_addr r) (relro_len r)) in
  let! end_ := lift (page_round_up top) in
  let start := Z.land (relro_addr r) MASK in
  let! len := lift (usub end_ start) in
  relro_mprotect r start len PROT_READ.

(** ** Theorems *)

Lemma page_round_up_ok `{Config} x :
  0 <= x -> x + 4096 < U64_LIM ->
  page_round_up x = Ok (x + 4095 - (x + 4095) mod 4096).
Proof.
  intros H0 H1. unfold page_round_up, PAGE_SIZE. ustep. rewrite land_MASK by lia.
  by replace (x + 4096 - 1) with (x + 4095) by lia.
Qed.

(** [map_prot] translates the three segment permission bits to the three page
    protection bits, whatever other bits the flags carry. *)
Theorem map_prot_bits (f : Z) :
  map_prot f = (if Z.testbit f 2 then PROT_READ else 0) + (if Z.testbit f 1 then PROT_WRITE else 0)
               + (if Z.testbit f 0 then PROT_EXEC else 0).
Proof.
  assert (Hbit : forall b k, 0 <= k -> b = 2 ^ k -> Z.land f b = if Z.testbit f k then b else 0).
  { intros b k Hk ->. apply Z.bits_inj'. intros n Hn. rewrite Z.land_spec, Z.pow2_bits_eqb by done.
    destruct (Z.eqb_spec k n) as [->|].
    - destruct (Z.testbit f n); [by rewrite Z.pow2_bits_true by done|by rewrite Z.bits_0].
    - rewrite andb_false_r. destruct (Z.testbit f k); [by rewrite Z.pow2_bits_false|by rewrite Z.bits_0]. }
  unfold map_prot, PF_X, PF_W, PF_R.
  rewrite (Hbit 1 0), (Hbit 2 1), (Hbit 4 2) by done.
  by destruct (Z.testbit f 0), (Z.testbit f 1), (Z.testbit f 2).
Qed.

(** The run behind the theorem below. *)
Lemma relro_runs `{Config} (r : ELFRelro) (w : world) :
  0 <= relro_addr r -> 0 <= relro_len r -> relro_addr r + relro_len r + 4096 < U64_LIM ->
  exists start len,
    relro r w = relro_mprotect r start len PROT_READ w /\
    start mod 4096 = 0 /\ len mod 4096 = 0 /\
    start <= relro_addr r < start + 4096 /\
    relro_addr r + relro_len r <= start + len < relro_addr r + relro_len r + 4096.
Proof.
  intros Ha Hl Hb. unfold relro, bind, lift. ustep.
  rewrite page_round_up_ok by lia. rewrite land_MASK by lia.
  set (e := _ - _ mod 4096). set (s := relro_addr r - _).
  assert (He : e = relro_addr r + relro_len r + 4095 - (relro_addr r + relro_len r + 4095) mod 4096)
    by reflexivity.
  assert (Hs : s = relro_addr r - relro_addr r mod 4096) by reflexivity.
  clearbody e s. rewrite usub_ok by zlia.
  exists s, (e - s). split; [done|]. zlia.
Qed.

(** The RELRO protection is one [mprotect(PROT_READ)] of the smallest
    page-aligned range that contains the segment. *)
Theorem relro_protects `{Config} (r : ELFRelro) (w : world) :
  0 <= relro_addr r -> 0 <= relro_len r -> relro_addr r + relro_len r + 4096 < U64_LIM ->
  exists start len,
    relro r w = relro_mprotect r start len PROT_READ w /\
    start mod 4096 = 0 /\ len mod 4096 = 0 /\
    start <= relro_addr r < start + 4096 /\
    relro_addr r + relro_len r <= start + len < relro_addr r + relro_len r + 4096.
Proof. exact (relro_runs r w). Qed.

(** An address inside the object resolves to its place in the mapping: offset
    [v] of the image is byte [v - offset] of the memory the object was given, in
    both profiles. *)
Theorem get_ptr_in_mapping `{Config} (s : ElfSegments) (v : Z) :
  range_ok (memory_ptr s) (seg_len s) -> 0 <= seg_offset s ->
  seg_offset s <= v < seg_offset s + seg_len s -> v < U64_LIM ->
  (seg_offset s <= memory_ptr s) ->
  get_ptr s v = Ok (memory_ptr s + (v - seg_offset s)).
Proof.
  intros [Hp Hend] Ho Hv Hvl Hle. unfold get_ptr.
  rewrite debug_check_ok; simpl.
  - unfold base. rewrite padd_small by lia. rewrite uadd_ok by lia. f_equal. lia.
  - rewrite usub_ok by lia. simpl. f_equal. lia.
Qed.

(** ** Well-placed segments *)

(** The object's memory lies inside the address space and does not start below
    its own link address, so [base] does not wrap. *)
Definition segments_ok (s : ElfSegments) : Prop :=
  range_ok (memory_ptr s) (seg_len s) /\ 0 <= seg_offset s <= memory_ptr s /\ 0 <= seg_len s.

Definition in_segments (s : ElfSegments) (start len : Z) : Prop :=
  seg_offset s <= start < seg_offset s + seg_len s /\ 0 <= len /\
  start + len <= seg_offset s + seg_len s.

Lemma base_ok s : segments_ok s -> base s = memory_ptr s - seg_offset s.
Proof. intros ([? ?] & ? & ?). unfold base. rewrite padd_small; lia. Qed.

Section segments_facts.
Context `{Config} (s : ElfSegments) (Hs : segments_ok s).

Lemma get_ptr_ok v : in_segments s v 0 -> get_ptr s v = Ok (base s + v).
Proof.
  intros [Hv _]. pose proof Hs as ([Hp He] & Ho & _). unfold get_ptr. rewrite debug_check_ok; simpl.
  - rewrite (base_ok s Hs). rewrite uadd_ok by lia. done.
  - rewrite usub_ok by lia. simpl. f_equal. lia.
Qed.

Lemma get_slice_ok size v len :
  in_segments s v len -> get_slice size s v len = Ok (mk_slice (base s + v) (len / size)).
Proof.
  intros Hin. pose proof Hin as (Hv & Hl & Hvl). pose proof Hs as ([Hp He] & Ho & _). unfold get_slice.
  rewrite debug_check_ok; simpl.
  - by rewrite get_ptr_ok by (split_and!; lia).
  - rewrite uadd_ok by lia. simpl. rewrite usub_ok by lia. simpl. f_equal. lia.
Qed.

Lemma get_slice_mut_ok size v len :
  in_segments s v len -> get_slice_mut size s v len = Ok (mk_slice (base s + v) (len / size)).
Proof. exact (get_slice_ok size v len). Qed.
End segments_facts.

(** ** Examples *)

(** A mapping made by a system call that accepts everything. *)
Definition demo_mapping : ElfSegments := mk_segments 65536 4096 12288 (fun _ _ => ret tt).

Lemma relro_protects_witness :
  exists start len,
    @relro dev_config (mk_relro 70000 5000 (fun _ _ _ => ret tt)) empty_world =
      (Ok tt, empty_world) /\
    start mod 4096 = 0 /\ len mod 4096 = 0 /\ start <= 70000 < start + 4096 /\
    75000 <= start + len < 79096.
Proof.
  exact (@relro_protects dev_config (mk_relro 70000 5000 (fun _ _ _ => ret tt)) empty_world
           ltac:(done) ltac:(done) ltac:(done)).
Defined.

Lemma get_ptr_in_mapping_witness :
  @get_ptr dev_config demo_mapping 8200 = Ok (65536 + (8200 - 4096)).
Proof.
  apply (@get_ptr_in_mapping dev_config demo_mapping 8200); unfold range_ok; simpl; lia.
Defined.
