(* ===== verification/Dynamic.v ===== *)
(** * Dynamic: the dynamic section

    Models [src/src/dynamic.rs]: the scan of the [.dynamic] array up to [DT_NULL]
    and the record [ElfDynamic] of mapped addresses built from it. *)

From S2P Require Import Prelude Machine Arch Mmap Segment.
#[local] Open Scope Z_scope.

(** ** Tags *)

Definition DT_NULL := 0.
Definition DT_NEEDED := 1.
Definition DT_PLTRELSZ := 2.
Definition DT_PLTGOT := 3.
Definition DT_STRTAB := 5.
Definition DT_SYMTAB := 6.
Definition DT_RELA := 7.
Definition DT_RELASZ := 8.
Definition DT_INIT := 12.
Definition DT_FINI := 13.
Definition DT_RPATH := 15.
Definition DT_JMPREL := 23.
Definition DT_INIT_ARRAY := 25.
Definition DT_FINI_ARRAY := 26.
Definition DT_INIT_ARRAYSZ := 27.
Definition DT_FINI_ARRAYSZ := 28.
Definition DT_RUNPATH := 29.
Definition DT_FLAGS := 30.
Definition DT_GNU_HASH := 1879047925.
Definition DT_VERSYM := 1879048176.
Definition DT_RELACOUNT := 1879048185.
Definition DT_VERDEF := 1879048188.
Definition DT_VERDEFNUM := 1879048189.
Definition DT_VERNEED := 1879048190.
Definition DT_VERNEEDNUM := 1879048191.
Definition DF_BIND_NOW := 8.

Record Dyn := mk_dyn { d_tag : Z; d_un : Z }.

Definition read_dyn (m : memory) (p : Z) : outcome Dyn :=
  t ← read_u64 m p; v ← read_u64 m (p + 8); Ok (mk_dyn t v).

(** ** The scan *)

(** The [let mut] variables of [ElfDynamic::new]. *)
Record dyn_vars := mk_vars {
  v_symtab_off : Z;
  v_strtab_off : Z;
  v_hash_off : option Z;
  v_got_off : option Z;
  v_pltrel_size : option Z;
  v_pltrel_off : option Z;
  v_rela_off : option Z;
  v_rela_size : option Z;
  v_rela_count : option Z;
  v_init_off : option Z;
  v_fini_off : option Z;
  v_init_array_off : option Z;
  v_init_array_size : option Z;
  v_fini_array_off : option Z;
  v_fini_array_size : option Z;
  v_version_ids_off : option Z;
  v_verneed_off : option Z;
  v_verneed_num : option Z;
  v_verdef_off : option Z;
  v_verdef_num : option Z;
  v_rpath_off : option Z;
  v_runpath_off : option Z;
  v_flags : Z;
  v_needed_libs : list Z;
}.

Definition dyn_init : dyn_vars :=
  mk_vars 0 0 None None None None None None None None None None None None None None None None None
    None None None 0 [].

(** [NonZeroUsize::new_unchecked]: zero is undefined behaviour. *)
Definition new_unchecked (v : Z) : outcome Z := if v =? 0 then Fault else Ok v.

(** One round of the [match dynamic.d_tag]. *)
Definition dyn_step (s : dyn_vars) (d : Dyn) : outcome dyn_vars :=
  let '(mk_vars symtab strtab hash got pltsz plt rela relasz relacnt init fini ia ias fa fas
          vids vn vnn vd vdn rp rup fl needed) := s in
  let t := d_tag d in
  let v := d_un d in
  if t =? DT_FLAGS then
    Ok (mk_vars symtab strtab hash got pltsz plt rela relasz relacnt init fini ia ias fa fas
          vids vn vnn vd vdn rp rup v needed)
  else if t =? DT_PLTGOT then
    v ← new_unchecked v;
    Ok (mk_vars symtab strtab hash (Some v) pltsz plt rela relasz relacnt init fini ia ias fa fas
          vids vn vnn vd vdn rp rup fl needed)
  else if t =? DT_NEEDED then
    v ← new_unchecked v;
    Ok (mk_vars symtab strtab hash got pltsz plt rela relasz relacnt init fini ia ias fa fas
          vids vn vnn vd vdn rp rup fl (needed ++ [v]))
  else if t =? DT_GNU_HASH then
    Ok (mk_vars symtab strtab (Some v) got pltsz plt rela relasz relacnt init fini ia ias fa fas
          vids vn vnn vd vdn rp rup fl needed)
  else if t =? DT_SYMTAB then
    Ok (mk_vars v strtab hash got pltsz plt rela relasz relacnt init fini ia ias fa fas
          vids vn vnn vd vdn rp rup fl needed)
  else if t =? DT_STRTAB then
    Ok (mk_vars symtab v hash got pltsz plt rela relasz relacnt init fini ia ias fa fas
          vids vn vnn vd vdn rp rup fl needed)
  else if t =? DT_PLTRELSZ then
    v ← new_unchecked v;
    Ok (mk_vars symtab strtab hash got (Some v) plt rela relasz relacnt init fini ia ias fa fas
          vids vn vnn vd vdn rp rup fl needed)
  else if t =? DT_JMPREL then
    v ← new_unchecked v;
    Ok (mk_vars symtab strtab hash got pltsz (Some v) rela relasz relacnt init fini ia ias fa fas
          vids vn vnn vd vdn rp rup fl needed)
  else if t =? DT_RELA then
    v ← new_unchecked v;
    Ok (mk_vars symtab strtab hash got pltsz plt (Some v) relasz relacnt init fini ia ias fa fas
          vids vn vnn vd vdn rp rup fl needed)
  else if t =? DT_RELASZ then
    v ← new_unchecked v;
    Ok (mk_vars symtab strtab hash got pltsz plt rela (Some v) relacnt init fini ia ias fa fas
          vids vn vnn vd vdn rp rup fl needed)
  else if t =? DT_RELACOUNT then
    v ← new_unchecked v;
    Ok (mk_vars symtab strtab hash got pltsz plt rela relasz (Some v) init fini ia ias fa fas
          vids vn vnn vd vdn rp rup fl needed)
  else if t =? DT_INIT then
    v ← new_unchecked v;
    Ok (mk_vars symtab strtab hash got pltsz plt rela relasz relacnt (Some v) fini ia ias fa fas
          vids vn vnn vd vdn rp rup fl needed)
  else if t =? DT_FINI then
    v ← new_unchecked v;
    Ok (mk_vars symtab strtab hash got pltsz plt rela relasz relacnt init (Some v) ia ias fa fas
          vids vn vnn vd vdn rp rup fl needed)
  else if t =? DT_INIT_ARRAY then
    v ← new_unchecked v;
    Ok (mk_vars symtab strtab hash got pltsz plt rela relasz relacnt init fini (Some v) ias fa fas
          vids vn vnn vd vdn rp rup fl needed)
  else if t =? DT_INIT_ARRAYSZ then
    v ← new_unchecked v;
    Ok (mk_vars symtab strtab hash got pltsz plt rela relasz relacnt init fini ia (Some v) fa fas
          vids vn vnn vd vdn rp rup fl needed)
  else if t =? DT_FINI_ARRAY then
    v ← new_unchecked v;
    Ok (mk_vars symtab strtab hash got pltsz plt rela relasz relacnt init fini ia ias (Some v) fas
          vids vn vnn vd vdn rp rup fl needed)
  else if t =? DT_FINI_ARRAYSZ then
    v ← new_unchecked v;
    Ok (mk_vars symtab strtab hash got pltsz plt rela relasz relacnt init fini ia ias fa (Some v)
          vids vn vnn vd vdn rp rup fl needed)
  else if t =? DT_VERSYM then
    v ← new_unchecked v;
    Ok (mk_vars symtab strtab hash got pltsz plt rela relasz relacnt init fini ia ias fa fas
          (Some v) vn vnn vd vdn rp rup fl needed)
  else if t =? DT_VERNEED then
    v ← new_unchecked v;
    Ok (mk_vars symtab strtab hash got pltsz plt rela relasz relacnt init fini ia ias fa fas
          vids (Some v) vnn vd vdn rp rup fl needed)
  else if t =? DT_VERNEEDNUM then
    v ← new_unchecked v;
    Ok (mk_vars symtab strtab hash got pltsz plt rela relasz relacnt init fini ia ias fa fas
          vids vn (Some v) vd vdn rp rup fl needed)
  else if t =? DT_VERDEF then
    v ← new_unchecked v;
    Ok (mk_vars symtab strtab hash got pltsz plt rela relasz relacnt init fini ia ias fa fas
          vids vn vnn (Some v) vdn rp rup fl needed)
  else if t =? DT_VERDEFNUM then
    v ← new_unchecked v;
    Ok (mk_vars symtab strtab hash got pltsz plt rela relasz relacnt init fini ia ias fa fas
          vids vn vnn vd (Some v) rp rup fl needed)
  else if t =? DT_RPATH then
    v ← new_unchecked v;
    Ok (mk_vars symtab strtab hash got pltsz plt rela relasz relacnt init fini ia ias fa fas
          vids vn vnn vd vdn (Some v) rup fl needed)
  else if t =? DT_RUNPATH then
    v ← new_unchecked v;
    Ok (mk_vars symtab strtab hash got pltsz plt rela relasz relacnt init fini ia ias fa fas
          vids vn vnn vd vdn rp (Some v) fl needed)
  else Ok s.

(** The [loop]: [DT_NULL] breaks; a scan of the section cannot outlast the mapped
    memory. *)
Fixpoint dyn_scan (fuel : nat) (m : memory) (p : Z) (s : dyn_vars) : outcome dyn_vars :=
  match fuel with
  | O => OutOfFuel
  | S fuel' =>
      d ← read_dyn m p;
      if d_tag d =? DT_NULL then Ok s
      else s' ← dyn_step s d; dyn_scan fuel' m (p + DYN_SIZE) s'
  end.

(** ** The result *)

Record ElfDynamic := mk_dynamic {
  dyn_ptr : Z;
  hashtab_addr : Z;
  symtab_addr : Z;
  strtab_addr : Z;
  bind_now : bool;
  dyn_got : option Z;
  init_fn : option Z;
  init_array_fn : option slice;
  fini_fn : option Z;
  fini_array_fn : option slice;
  pltrel : option slice;
  dynrel : option slice;
  rela_count : option Z;
  needed_libs : list Z;
  version_idx : option Z;
  verneed : option (Z * Z);
  verdef : option (Z * Z);
  rpath_off : option Z;
  runpath_off : option Z;
}.

(** [Option::map] with a body that can panic. *)
Definition map_opt {A B} (f : A -> outcome B) (o : option A) : outcome (option B) :=
  match o with Some a => b ← f a; Ok (Some b) | None => Ok None end.

(** [NonNull::new] *)
Definition NonNull_new (p : Z) : option Z := if p =? 0 then None else Some p.
#[global] Arguments NonNull_new : simpl never.

(** [off.checked_add(base).unwrap_unchecked()] *)
Definition checked_add_unchecked (off base : Z) : outcome Z :=
  if off + base <? U64_LIM then Ok (off + base) else Fault.

Section dynamic.
Context `{Config}.

(** What follows the loop in [ElfDynamic::new]. *)
Definition dyn_finish (dynamic_ptr : Z) (segments : ElfSegments) (s : dyn_vars) : outcome ElfDynamic :=
  let base := base segments in
  hash_off ← match v_hash_off s with
             | Some h => Ok h
             | None => Err (parse_dynamic_error "dynamic section does not have DT_GNU_HASH")
             end;
  pltrel ← map_opt (fun off => sz ← unwrap (v_pltrel_size s); get_slice RELA_SIZE segments off sz)
             (v_pltrel_off s);
  dynrel ← map_opt (fun off => sz ← unwrap (v_rela_size s); get_slice RELA_SIZE segments off sz)
             (v_rela_off s);
  init_fn ← map_opt (get_ptr segments) (v_init_off s);
  init_array_fn ← map_opt (fun off => sz ← unwrap (v_init_array_size s); get_slice 8 segments off sz)
             (v_init_array_off s);
  fini_fn ← map_opt (get_ptr segments) (v_fini_off s);
  fini_array_fn ← map_opt (fun off => sz ← unwrap (v_fini_array_size s); get_slice 8 segments off sz)
             (v_fini_array_off s);
  verneed ← map_opt (fun off => a ← checked_add_unchecked off base;
                                n ← unwrap_unchecked (v_verneed_num s); Ok (a, n)) (v_verneed_off s);
  verdef ← map_opt (fun off => a ← checked_add_unchecked off base;
                               n ← unwrap_unchecked (v_verdef_num s); Ok (a, n)) (v_verdef_off s);
  version_idx ← map_opt (fun off => checked_add_unchecked off base) (v_version_ids_off s);
  hashtab ← uadd hash_off base;
  symtab ← uadd (v_symtab_off s) base;
  strtab ← uadd (v_strtab_off s) base;
  got ← map_opt (fun off => uadd base off) (v_got_off s);
  Ok {| dyn_ptr := dynamic_ptr;
        hashtab_addr := hashtab;
        symtab_addr := symtab;
        strtab_addr := strtab;
        bind_now := negb (Z.land (v_flags s) DF_BIND_NOW =? 0);
        dyn_got := NonNull_new (default 0 got);
        init_fn := init_fn;
        init_array_fn := init_array_fn;
        fini_fn := fini_fn;
        fini_array_fn := fini_array_fn;
        pltrel := pltrel;
        dynrel := dynrel;
        rela_count := v_rela_count s;
        needed_libs := v_needed_libs s;
        version_idx := version_idx;
        verneed := verneed;
        verdef := verdef;
        rpath_off := v_rpath_off s;
        runpath_off := v_runpath_off s |}.

Definition ElfDynamic_new (m : memory) (dynamic_ptr : Z) (segments : ElfSegments) :
    outcome ElfDynamic :=
  s ← dyn_scan (S (size m)) m dynamic_ptr dyn_init;
  dyn_finish dynamic_ptr segments s.
End dynamic.

(** ** The section as a list of entries *)

Fixpoint dyn_array (m : memory) (p : Z) (ds : list Dyn) : Prop :=
  match ds with
  | [] => exists d, read_dyn m p = Ok d /\ d_tag d = DT_NULL
  | d :: ds' => read_dyn m p = Ok d /\ d_tag d <> DT_NULL /\ dyn_array m (p + DYN_SIZE) ds'
  end.

(** The value of the last entry with a tag, and of every entry with it. *)
Definition all_vals (t : Z) (ds : list Dyn) : list Z := d_un <$> filter (fun d => d_tag d = t) ds.
Definition last_val (t : Z) (ds : list Dyn) : option Z := last (all_vals t ds).

(** The tags whose value is stored as a [NonZeroUsize]. *)
Definition nonzero_tags : list Z :=
  [DT_PLTGOT; DT_NEEDED; DT_PLTRELSZ; DT_JMPREL; DT_RELA; DT_RELASZ; DT_RELACOUNT; DT_INIT; DT_FINI;
   DT_INIT_ARRAY; DT_INIT_ARRAYSZ; DT_FINI_ARRAY; DT_FINI_ARRAYSZ; DT_VERSYM; DT_VERNEED;
   DT_VERNEEDNUM; DT_VERDEF; DT_VERDEFNUM; DT_RPATH; DT_RUNPATH].
Definition value_ok (d : Dyn) : Prop := d_tag d ∈ nonzero_tags -> d_un d <> 0.

Definition vars_of (ds : list Dyn) : dyn_vars := {|
  v_symtab_off := default 0 (last_val DT_SYMTAB ds);
  v_strtab_off := default 0 (last_val DT_STRTAB ds);
  v_hash_off := last_val DT_GNU_HASH ds;
  v_got_off := last_val DT_PLTGOT ds;
  v_pltrel_size := last_val DT_PLTRELSZ ds;
  v_pltrel_off := last_val DT_JMPREL ds;
  v_rela_off := last_val DT_RELA ds;
  v_rela_size := last_val DT_RELASZ ds;
  v_rela_count := last_val DT_RELACOUNT ds;
  v_init_off := last_val DT_INIT ds;
  v_fini_off := last_val DT_FINI ds;
  v_init_array_off := last_val DT_INIT_ARRAY ds;
  v_init_array_size := last_val DT_INIT_ARRAYSZ ds;
  v_fini_array_off := last_val DT_FINI_ARRAY ds;
  v_fini_array_size := last_val DT_FINI_ARRAYSZ ds;
  v_version_ids_off := last_val DT_VERSYM ds;
  v_verneed_off := last_val DT_VERNEED ds;
  v_verneed_num := last_val DT_VERNEEDNUM ds;
  v_verdef_off := last_val DT_VERDEF ds;
  v_verdef_num := last_val DT_VERDEFNUM ds;
  v_rpath_off := last_val DT_RPATH ds;
  v_runpath_off := last_val DT_RUNPATH ds;
  v_flags := default 0 (last_val DT_FLAGS ds);
  v_needed_libs := all_vals DT_NEEDED ds;
|}.

Lemma all_vals_snoc t ds d :
  all_vals t (ds ++ [d]) = if d_tag d =? t then all_vals t ds ++ [d_un d] else all_vals t ds.
Proof.
  unfold all_vals. rewrite filter_app, fmap_app. simpl.
  destruct (Z.eqb_spec (d_tag d) t) as [Heq|Hne].
  - rewrite filter_cons_True by done. done.
  - rewrite filter_cons_False by done. by rewrite filter_nil, app_nil_r.
Qed.

Lemma last_val_snoc t ds d :
  last_val t (ds ++ [d]) = if d_tag d =? t then Some (d_un d) else last_val t ds.
Proof.
  unfold last_val. rewrite all_vals_snoc. destruct (d_tag d =? t); [|done]. apply last_snoc.
Qed.

(** One round of the loop is one more entry of the list. *)
Lemma dyn_step_snoc ds d :
  value_ok d -> dyn_step (vars_of ds) d = Ok (vars_of (ds ++ [d])).
Proof.
  intros Hv. destruct d as [t v]. unfold value_ok in Hv. simpl in Hv.
  unfold vars_of. rewrite !last_val_snoc, all_vals_snoc. cbn [d_tag d_un].
  unfold dyn_step, new_unchecked. cbn [d_tag d_un].
  repeat lazymatch goal with
  | |- (if t =? ?c then _ else _) = _ =>
      destruct (Z.eqb_spec t c) as [->|];
      [ lazymatch goal with
        | |- Ok _ = _ => idtac
        | _ => rewrite (proj2 (Z.eqb_neq v 0)) by (apply Hv, (bool_decide_unpack _); vm_compute; exact I)
        end; vm_compute; reflexivity | ]
  end.
  reflexivity.
Qed.

Lemma read_dyn_mapped m p d : read_dyn m p = Ok d -> is_Some (m !! p).
Proof.
  unfold read_dyn, read_u64, load_le. intros H. inv_bind H.
  destruct (load_bytes m p 8) as [l|] eqn:Hl; [|done].
  replace p with (p + Z.of_nat 0) by lia. apply (load_bytes_mapped m p 8); [eauto|lia].
Qed.

Lemma dyn_array_mapped m p ds :
  dyn_array m p ds -> forall i, (i <= length ds)%nat -> is_Some (m !! (p + DYN_SIZE * Z.of_nat i)).
Proof.
  revert p. induction ds as [|d ds IH]; intros p Hds i Hi; simpl in *.
  - destruct Hds as (d & Hd & _). replace i with 0%nat by lia. rewrite Z.mul_0_r, Z.add_0_r.
    by eapply read_dyn_mapped.
  - destruct Hds as (Hd & _ & Hds). destruct i as [|i].
    + rewrite Z.mul_0_r, Z.add_0_r. by eapply read_dyn_mapped.
    + replace (p + DYN_SIZE * Z.of_nat (S i)) with (p + DYN_SIZE + DYN_SIZE * Z.of_nat i) by lia.
      apply IH; [done|lia].
Qed.

Lemma dyn_array_short m p ds : dyn_array m p ds -> (length ds < size m)%nat.
Proof.
  intros Hds. apply (stride_walk_bound m p DYN_SIZE (S (length ds))); [done|].
  intros i Hi. apply (dyn_array_mapped m p ds); [done|lia].
Qed.

Lemma dyn_scan_array m ds : forall fuel p done,
  dyn_array m p ds -> Forall value_ok ds -> (length ds < fuel)%nat ->
  dyn_scan fuel m p (vars_of done) = Ok (vars_of (done ++ ds)).
Proof.
  induction ds as [|d ds IH]; intros fuel p done Hds Hok Hf; destruct fuel as [|fuel];
    cbn [dyn_array length dyn_scan] in *; try lia.
  - destruct Hds as (d & -> & Ht). rewrite bind_Ok, Ht, app_nil_r. done.
  - destruct Hds as (-> & Ht & Hds). apply Forall_cons in Hok as [Hd Hok].
    rewrite bind_Ok, (proj2 (Z.eqb_neq _ _) Ht), dyn_step_snoc, bind_Ok by done.
    rewrite IH; [|done..|lia]. by rewrite <- app_assoc.
Qed.

(** The scan of a well-formed section collects the last value of each tag. *)
Lemma ElfDynamic_new_scan `{Config} m p segments ds :
  dyn_array m p ds -> Forall value_ok ds ->
  ElfDynamic_new m p segments = dyn_finish p segments (vars_of ds).
Proof.
  intros Hds Hok. unfold ElfDynamic_new. change dyn_init with (vars_of []).
  pose proof (dyn_array_short _ _ _ Hds). rewrite (dyn_scan_array m ds); [done..|lia].
Qed.

(** ** Well-formed sections *)

(** An address, and an array with its size in bytes, inside the object. *)
Definition ptr_wf (segs : ElfSegments) (off : option Z) : Prop :=
  forall v, off = Some v -> in_segments segs v 0.
Definition array_wf (segs : ElfSegments) (off sz : option Z) : Prop :=
  forall v, off = Some v -> exists n, sz = Some n /\ in_segments segs v n.
(** A table counted in entries. *)
Definition table_wf (segs : ElfSegments) (off num : option Z) : Prop :=
  forall v, off = Some v -> is_Some num /\ base segs + v < U64_LIM.

Record dyn_wf (segs : ElfSegments) (ds : list Dyn) : Prop := {
  wf_hash : forall h, last_val DT_GNU_HASH ds = Some h -> 0 <= h + base segs < U64_LIM;
  wf_sym : 0 <= default 0 (last_val DT_SYMTAB ds) + base segs < U64_LIM;
  wf_str : 0 <= default 0 (last_val DT_STRTAB ds) + base segs < U64_LIM;
  wf_got : forall v, last_val DT_PLTGOT ds = Some v -> 0 < base segs + v < U64_LIM;
  wf_plt : array_wf segs (last_val DT_JMPREL ds) (last_val DT_PLTRELSZ ds);
  wf_rela : array_wf segs (last_val DT_RELA ds) (last_val DT_RELASZ ds);
  wf_init : ptr_wf segs (last_val DT_INIT ds);
  wf_fini : ptr_wf segs (last_val DT_FINI ds);
  wf_ia : array_wf segs (last_val DT_INIT_ARRAY ds) (last_val DT_INIT_ARRAYSZ ds);
  wf_fa : array_wf segs (last_val DT_FINI_ARRAY ds) (last_val DT_FINI_ARRAYSZ ds);
  wf_versym : forall v, last_val DT_VERSYM ds = Some v -> base segs + v < U64_LIM;
  wf_verneed : table_wf segs (last_val DT_VERNEED ds) (last_val DT_VERNEEDNUM ds);
  wf_verdef : table_wf segs (last_val DT_VERDEF ds) (last_val DT_VERDEFNUM ds);
}.

(** The slice of an array tag and its size tag; the pair of a table tag. *)
Definition spec_slice (segs : ElfSegments) (size : Z) (ds : list Dyn) (off sz : Z) : option slice :=
  (fun v => mk_slice (base segs + v) (default 0 (last_val sz ds) / size)) <$> last_val off ds.
Definition spec_table (segs : ElfSegments) (ds : list Dyn) (off num : Z) : option (Z * Z) :=
  (fun v => (base segs + v, default 0 (last_val num ds))) <$> last_val off ds.

(** What the section describes: every field is the mapped address of the last entry
    with its tag. *)
Definition dynamic_of (segs : ElfSegments) (p h : Z) (ds : list Dyn) : ElfDynamic := {|
  dyn_ptr := p;
  hashtab_addr := h + base segs;
  symtab_addr := default 0 (last_val DT_SYMTAB ds) + base segs;
  strtab_addr := default 0 (last_val DT_STRTAB ds) + base segs;
  bind_now := Z.testbit (default 0 (last_val DT_FLAGS ds)) 3;
  dyn_got := Z.add (base segs) <$> last_val DT_PLTGOT ds;
  init_fn := Z.add (base segs) <$> last_val DT_INIT ds;
  init_array_fn := spec_slice segs 8 ds DT_INIT_ARRAY DT_INIT_ARRAYSZ;
  fini_fn := Z.add (base segs) <$> last_val DT_FINI ds;
  fini_array_fn := spec_slice segs 8 ds DT_FINI_ARRAY DT_FINI_ARRAYSZ;
  pltrel := spec_slice segs 24 ds DT_JMPREL DT_PLTRELSZ;
  dynrel := spec_slice segs 24 ds DT_RELA DT_RELASZ;
  rela_count := last_val DT_RELACOUNT ds;
  needed_libs := all_vals DT_NEEDED ds;
  version_idx := Z.add (base segs) <$> last_val DT_VERSYM ds;
  verneed := spec_table segs ds DT_VERNEED DT_VERNEEDNUM;
  verdef := spec_table segs ds DT_VERDEF DT_VERDEFNUM;
  rpath_off := last_val DT_RPATH ds;
  runpath_off := last_val DT_RUNPATH ds |}.

Lemma bind_now_bit f : negb (Z.land f DF_BIND_NOW =? 0) = Z.testbit f 3.
Proof.
  unfold DF_BIND_NOW. destruct (Z.testbit f 3) eqn:Hb.
  - destruct (Z.eqb_spec (Z.land f 8) 0) as [He|]; [|done].
    apply (f_equal (fun z => Z.testbit z 3)) in He. rewrite Z.land_spec, Hb in He. done.
  - destruct (Z.eqb_spec (Z.land f 8) 0) as [|Hne]; [done|]. exfalso. apply Hne, Z.bits_inj'.
    intros n Hn. rewrite Z.land_spec, Z.bits_0. change 8 with (2 ^ 3). rewrite Z.pow2_bits_eqb by lia.
    destruct (Z.eqb_spec 3 n) as [<-|]; [by rewrite Hb|apply andb_false_r].
Qed.

Section finish.
Context `{Config} (segs : ElfSegments) (Hs : segments_ok segs).

Lemma finish_ptr off : ptr_wf segs off -> map_opt (get_ptr segs) off = Ok (Z.add (base segs) <$> off).
Proof. intros Hwf. destruct off as [v|]; simpl; [|done]. by rewrite get_ptr_ok by auto. Qed.

Lemma finish_array size off sz :
  array_wf segs off sz ->
  map_opt (fun o => s ← unwrap sz; get_slice size segs o s) off =
    Ok ((fun v => mk_slice (base segs + v) (default 0 sz / size)) <$> off).
Proof.
  intros Hwf. destruct off as [v|]; simpl; [|done]. destruct (Hwf v eq_refl) as (n & -> & Hin). simpl.
  by rewrite get_slice_ok.
Qed.

Lemma finish_addr v : base segs + v < U64_LIM ->
  checked_add_unchecked v (base segs) = Ok (base segs + v).
Proof.
  intros Hv. unfold checked_add_unchecked. rewrite (proj2 (Z.ltb_lt _ _)) by lia. f_equal. lia.
Qed.

Lemma finish_table off num :
  table_wf segs off num ->
  map_opt (fun o => a ← checked_add_unchecked o (base segs); n ← unwrap_unchecked num; Ok (a, n)) off =
    Ok ((fun v => (base segs + v, default 0 num)) <$> off).
Proof.
  intros Hwf. destruct off as [v|]; simpl; [|done]. destruct (Hwf v eq_refl) as ([n ->] & Hv).
  by rewrite finish_addr.
Qed.

(** The run behind the theorem below. *)
Lemma ElfDynamic_new_dynamic_of (m : memory) (p h : Z) (ds : list Dyn) :
  dyn_array m p ds -> Forall value_ok ds -> last_val DT_GNU_HASH ds = Some h -> dyn_wf segs ds ->
  ElfDynamic_new m p segs = Ok (dynamic_of segs p h ds).
Proof.
  unfold dynamic_of. intros Hds Hok Hh [Whash Wsym Wstr Wgot Wplt Wrela Wi Wf Wia Wfa Wvs Wvn Wvd].
  rewrite (ElfDynamic_new_scan m p segs ds) by done. unfold dyn_finish, vars_of; cbn.
  rewrite Hh. rewrite bind_Ok.
  rewrite (finish_array RELA_SIZE _ _ Wplt), bind_Ok, (finish_array RELA_SIZE _ _ Wrela), bind_Ok.
  rewrite (finish_ptr _ Wi), bind_Ok, (finish_array 8 _ _ Wia), bind_Ok.
  rewrite (finish_ptr _ Wf), bind_Ok, (finish_array 8 _ _ Wfa), bind_Ok.
  rewrite (finish_table _ _ Wvn), bind_Ok, (finish_table _ _ Wvd), bind_Ok.
  assert (map_opt (fun off => checked_add_unchecked off (base segs)) (last_val DT_VERSYM ds)
          = Ok (Z.add (base segs) <$> last_val DT_VERSYM ds)) as ->.
  { destruct (last_val DT_VERSYM ds) as [v|]; simpl; [|done]. by rewrite finish_addr by auto. }
  rewrite bind_Ok, (uadd_ok _ _ (Whash _ Hh)), bind_Ok, (uadd_ok _ _ Wsym), bind_Ok, (uadd_ok _ _ Wstr), bind_Ok.
  assert (Hg : exists got, map_opt (fun off => uadd (base segs) off) (last_val DT_PLTGOT ds) = Ok got /\
          NonNull_new (default 0 got) = Z.add (base segs) <$> last_val DT_PLTGOT ds).
  { destruct (last_val DT_PLTGOT ds) as [v|]; simpl; [|by eauto].
    specialize (Wgot v eq_refl). rewrite uadd_ok by lia. simpl. eexists. split; [done|].
    unfold NonNull_new. simpl. by rewrite (proj2 (Z.eqb_neq _ _)) by lia. }
  destruct Hg as (got & -> & Hg). by rewrite bind_Ok, Hg, bind_now_bit.
Qed.

(** C21: loading the dynamic section of a well-formed object succeeds, in both
    profiles, and every field of the result is the mapped address (link-time
    address plus load base) of the last entry with its tag: tables with their
    lengths in elements, the needed libraries in order, [bind_now] from
    [DF_BIND_NOW]. *)
Theorem ElfDynamic_new_fields (m : memory) (p h : Z) (ds : list Dyn) :
  dyn_array m p ds -> Forall value_ok ds -> last_val DT_GNU_HASH ds = Some h -> dyn_wf segs ds ->
  ElfDynamic_new m p segs = Ok (dynamic_of segs p h ds).
Proof. exact (ElfDynamic_new_dynamic_of m p h ds). Qed.
End finish.

(** An object without [DT_GNU_HASH] is refused with the parse error, before any
    other entry is looked at. *)
Theorem ElfDynamic_new_no_hash `{Config} (m : memory) (p : Z) (segs : ElfSegments) (ds : list Dyn) :
  dyn_array m p ds -> Forall value_ok ds -> last_val DT_GNU_HASH ds = None ->
  ElfDynamic_new m p segs = Err (ParseDynamicError "dynamic section does not have DT_GNU_HASH").
Proof.
  intros Hds Hok Hh. rewrite (ElfDynamic_new_scan m p segs ds) by done.
  unfold dyn_finish, vars_of; cbn. by rewrite Hh.
Qed.

(** ** Termination *)

Lemma dyn_step_no_fuel s d : dyn_step s d <> OutOfFuel.
Proof.
  unfold dyn_step, new_unchecked. destruct s.
  repeat (case_match; try done).
Qed.

Lemma dyn_scan_no_fuel m p n :
  (forall i, (i < n)%nat -> is_Some (m !! (p + DYN_SIZE * Z.of_nat i))) ->
  forall fuel s, (size m < n + fuel)%nat -> dyn_scan fuel m (p + DYN_SIZE * Z.of_nat n) s <> OutOfFuel.
Proof.
  intros Hall fuel. revert n Hall. induction fuel as [|fuel IH]; intros n Hall s Hf.
  - pose proof (stride_walk_bound m p DYN_SIZE n ltac:(done) Hall). lia.
  - cbn [dyn_scan]. destruct (read_dyn m _) as [d| | | |] eqn:Hd; try done.
    + rewrite bind_Ok. destruct (d_tag d =? DT_NULL); [done|].
      destruct (dyn_step s d) as [s'| | | |] eqn:Hs; try done; [|by eapply dyn_step_no_fuel in Hs].
      rewrite bind_Ok.
      replace (p + DYN_SIZE * Z.of_nat n + DYN_SIZE) with (p + DYN_SIZE * Z.of_nat (S n)) by lia.
      apply IH; [|lia]. intros i Hi. destruct (decide (i = n)) as [->|]; [|apply Hall; lia].
      by eapply read_dyn_mapped.
    + unfold read_dyn, read_u64, load_le in Hd. by repeat case_match.
Qed.

Lemma map_opt_no_fuel {A B} (f : A -> outcome B) o :
  (forall a, f a <> OutOfFuel) -> map_opt f o <> OutOfFuel.
Proof. intros Hf. destruct o as [a|]; simpl; [|done]. by apply bind_no_fuel. Qed.

Lemma unwrap_no_fuel {A} (o : option A) : unwrap o <> OutOfFuel.
Proof. by destruct o. Qed.
Lemma unwrap_unchecked_no_fuel {A} (o : option A) : unwrap_unchecked o <> OutOfFuel.
Proof. by destruct o. Qed.

Lemma get_ptr_no_fuel `{Config} s v : get_ptr s v <> OutOfFuel.
Proof.
  unfold get_ptr, debug_check, usub, uadd, checked, rust_assert.
  repeat (case_match; simpl in *; try done).
Qed.

Lemma get_slice_no_fuel `{Config} size s v n : get_slice size s v n <> OutOfFuel.
Proof.
  unfold get_slice. apply bind_no_fuel; [|intros; apply bind_no_fuel; [apply get_ptr_no_fuel|done]].
  unfold debug_check, usub, uadd, checked, rust_assert. repeat (case_match; simpl in *; try done).
Qed.

(** Shows that a loop-free computation does not run out of fuel. *)
Ltac no_fuel :=
  repeat first
    [ progress intros | discriminate
    | apply checked_no_fuel | apply unwrap_no_fuel | apply unwrap_unchecked_no_fuel
    | apply get_ptr_no_fuel | apply get_slice_no_fuel
    | apply map_opt_no_fuel | apply bind_no_fuel | case_match ].

(** Parsing a dynamic section terminates whatever the memory holds: a section
    without [DT_NULL] runs off the mapped memory and faults, it does not loop. *)
Theorem ElfDynamic_new_terminates `{Config} (m : memory) (p : Z) (segs : ElfSegments) :
  ElfDynamic_new m p segs <> OutOfFuel.
Proof.
  apply bind_no_fuel.
  - pose proof (dyn_scan_no_fuel m p 0 ltac:(lia) (S (size m)) dyn_init ltac:(lia)) as Hd.
    by rewrite Z.mul_0_r, Z.add_0_r in Hd.
  - intros s. unfold dyn_finish, checked_add_unchecked. no_fuel.
Qed.

(** ** Examples *)

Definition demo_segments : ElfSegments := mk_segments 8192 0 8192 (fun _ _ => ret tt).
Definition demo_dyns : list Dyn :=
  [mk_dyn DT_NEEDED 1; mk_dyn DT_GNU_HASH 64; mk_dyn DT_STRTAB 128; mk_dyn DT_SYMTAB 256;
   mk_dyn DT_RELA 512; mk_dyn DT_RELASZ 48; mk_dyn DT_FLAGS 8; mk_dyn DT_NEEDED 9].
Definition dyn_bytes (ds : list Dyn) : bytes := mjoin ((fun d => pack [(8%nat, d_tag d); (8%nat, d_un d)]) <$> ds).
Definition demo_dyn_memory (ds : list Dyn) : memory := image [(9000, dyn_bytes (ds ++ [mk_dyn DT_NULL 0]))].

Lemma demo_dyn_ok : Forall value_ok demo_dyns.
Proof. repeat constructor; intros _; done. Qed.

Lemma demo_segments_ok : segments_ok demo_segments.
Proof. unfold segments_ok, range_ok; simpl. lia. Qed.

Lemma ElfDynamic_new_fields_witness :
  exists dyn, @ElfDynamic_new dev_config (demo_dyn_memory demo_dyns) 9000 demo_segments = Ok dyn /\
    symtab_addr dyn = 8448 /\ dynrel dyn = Some (mk_slice 8704 2) /\ needed_libs dyn = [1; 9] /\
    bind_now dyn = true.
Proof.
  eexists. split.
  - apply (@ElfDynamic_new_fields dev_config demo_segments demo_segments_ok _ _ 64 demo_dyns).
    + simpl. split_and!; try (by vm_compute). exists (mk_dyn DT_NULL 0). by vm_compute.
    + exact demo_dyn_ok.
    + done.
    + constructor; unfold ptr_wf, array_wf, table_wf;
        try (intros v Hv; vm_compute in Hv; (discriminate || injection Hv as <-)).
      1-3: split; [discriminate|reflexivity].
      exists 48. split; [reflexivity|]. unfold in_segments; simpl. lia.
  - by vm_compute.
Defined.

Lemma ElfDynamic_new_no_hash_witness :
  @ElfDynamic_new dev_config (demo_dyn_memory [mk_dyn DT_STRTAB 128]) 9000 demo_segments =
    Err (ParseDynamicError "dynamic section does not have DT_GNU_HASH").
Proof.
  apply (@ElfDynamic_new_no_hash dev_config _ _ _ [mk_dyn DT_STRTAB 128]).
  - simpl. split_and!; try (by vm_compute). exists (mk_dyn DT_NULL 0). by vm_compute.
  - repeat constructor; intros _; done.
  - done.
Defined.
