(* ===== verification/Symbol.v ===== *)
(** * Symbol: the symbol table and its GNU hash

    Models [src/src/symbol.rs]: the parsed [.gnu.hash] section, [SymbolTable] and
    its lookups, and [SymbolInfo].  The tables are raw memory: each lookup reads
    the words it needs. *)

From S2P Require Import Prelude Machine Arch StrTab Version Mmap Segment Dynamic.
#[local] Open Scope Z_scope.

(** ** The hash section *)

Record ElfGnuHeader := mk_gnu_header { nbucket : Z; symbias : Z; nbloom : Z; nshift : Z }.

Record ElfGnuHash := mk_gnu_hash {
  header : ElfGnuHeader;
  blooms : Z;
  buckets : Z;
  chains : Z;
}.

Definition parse (m : memory) (ptr : Z) : outcome ElfGnuHash :=
  nbucket ← read_u32 m ptr;
  symbias ← read_u32 m (ptr + 4);
  nbloom ← read_u32 m (ptr + 8);
  nshift ← read_u32 m (ptr + 12);
  let bloom_size := nbloom * 8 in
  let bucket_size := nbucket * 4 in
  let blooms := padd ptr 16 in
  let buckets := padd blooms bloom_size in
  let chains := padd buckets bucket_size in
  Ok (mk_gnu_hash (mk_gnu_header nbucket symbias nbloom nshift) blooms buckets chains).

Definition gnu_hash_step (hash byte : Z) : Z := ((hash * 33) mod U32_LIM + byte) mod U32_LIM.
Definition gnu_hash (name : bytes) : Z := fold_left gnu_hash_step name 5381.

(** Element [i] of the three tables. *)
Definition read_bloom (m : memory) (ht : ElfGnuHash) (i : Z) : outcome Z := read_u64 m (padd (blooms ht) (8 * i)).
Definition read_bucket (m : memory) (ht : ElfGnuHash) (i : Z) : outcome Z := read_u32 m (padd (buckets ht) (4 * i)).

Section count.
Context `{Config} (m : memory).

(** The [while] over the last chain. *)
Fixpoint count_chain (fuel : nat) (hashval nsym : Z) : outcome Z :=
  match fuel with
  | O => OutOfFuel
  | S fuel' =>
      c ← read_u32 m hashval;
      if Z.land c 1 =? 0 then nsym ← uadd nsym 1; count_chain fuel' (hashval + 4) nsym
      else Ok nsym
  end.

Definition gnu_count_syms (ht : ElfGnuHash) : outcome Z :=
  nsym ← fold_outcome (fun nsym i => b ← read_bucket m ht i; Ok (Z.max nsym b))
           (seqZ 0 (nbucket (header ht))) 0;
  nsym ← (if 0 <? nsym then
            i ← usub nsym (symbias (header ht));
            count_chain (S (size m)) (padd (chains ht) (4 * i)) nsym
          else Ok nsym);
  uadd nsym 1.
End count.

(** ** The symbol table *)

Record SymbolTable := mk_symtab {
  hashtab : ElfGnuHash;
  symtab : Z;
  strtab : ElfStringTable;
  version : option ELFVersion;   (** [None] without the feature *)
}.

Record SymbolInfo := mk_syminfo {
  si_name : bytes;
  si_cname : option bytes;
  si_version : option SymbolVersion;
}.

Definition from_str (name : bytes) : SymbolInfo := mk_syminfo name None None.

Section symbols.
Context `{Config} (m : memory).

Definition new_with_version (name version : bytes) : outcome SymbolInfo :=
  v ← SymbolVersion_new version; Ok (mk_syminfo name None (Some v)).

Definition SymbolTable_new (dynamic : ElfDynamic) : outcome SymbolTable :=
  hashtab ← parse m (hashtab_addr dynamic);
  let strtab := mk_strtab (strtab_addr dynamic) in
  version ← (if feature_version then
               ELFVersion_new m strtab (version_idx dynamic) (verneed dynamic) (verdef dynamic)
             else Ok None);
  Ok (mk_symtab hashtab (symtab_addr dynamic) strtab version).

(** The test on a symbol whose chain word agrees with the hash. *)
Definition candidate (st : SymbolTable) (info : SymbolInfo) (dynsym_idx : Z) (sym_name : bytes) :
    outcome bool :=
  if bool_decide (sym_name = si_name info) then
    if feature_version then check_match m (version st) dynsym_idx (si_version info) else Ok true
  else Ok false.

(** The [loop] over one chain. *)
Fixpoint lookup_chain (fuel : nat) (st : SymbolTable) (info : SymbolInfo) (hash : Z)
    (cur_chain cur_symbol_ptr dynsym_idx : Z) : outcome (option ElfSymbol) :=
  match fuel with
  | O => OutOfFuel
  | S fuel' =>
      chain_hash ← read_u32 m cur_chain;
      found ← (if Z.lor hash 1 =? Z.lor chain_hash 1 then
                 cur_symbol ← read_symbol m cur_symbol_ptr;
                 sym_name ← get_str m (strtab st) (st_name cur_symbol);
                 ok ← candidate st info dynsym_idx sym_name;
                 Ok (if ok : bool then Some cur_symbol else None)
               else Ok None);
      match found with
      | Some cur_symbol => Ok (Some cur_symbol)
      | None =>
          if negb (Z.land chain_hash 1 =? 0) then Ok None
          else
            dynsym_idx ← uadd dynsym_idx 1;
            lookup_chain fuel' st info hash (cur_chain + 4) (cur_symbol_ptr + SYM_SIZE) dynsym_idx
      end
  end.

Definition lookup (st : SymbolTable) (info : SymbolInfo) : outcome (option ElfSymbol) :=
  let ht := hashtab st in
  let hash := gnu_hash (si_name info) in
  let fofs := hash / 64 in
  let fmask := Z.shiftl 1 (hash mod 64) in
  bloom_mask ← u32_sub (nbloom (header ht)) 1;
  let bloom_idx := Z.land fofs bloom_mask in
  filter ← read_bloom m ht bloom_idx;
  if Z.land filter fmask =? 0 then Ok None
  else
    hs ← ushr 32 hash (nshift (header ht));
    let filter2 := Z.shiftr filter (hs mod 64) in
    if Z.land filter2 1 =? 0 then Ok None
    else
      let table_start_idx := symbias (header ht) in
      b ← urem hash (nbucket (header ht));
      chain_start_idx ← read_bucket m ht b;
      if chain_start_idx =? 0 then Ok None
      else
        i ← usub chain_start_idx table_start_idx;
        lookup_chain (S (size m)) st info hash (padd (chains ht) (4 * i))
          (padd (symtab st) (SYM_SIZE * chain_start_idx)) chain_start_idx.

Definition lookup_filter (st : SymbolTable) (info : SymbolInfo) : outcome (option ElfSymbol) :=
  r ← lookup st info;
  Ok (match r with
      | Some sym => if negb (is_undef sym) && is_ok_bind sym && is_ok_type sym then Some sym else None
      | None => None
      end).

Definition symbol_idx (st : SymbolTable) (idx : Z) : outcome (ElfSymbol * SymbolInfo) :=
  symbol ← read_symbol m (padd (symtab st) (SYM_SIZE * idx));
  cname ← get_cstr m (strtab st) (st_name symbol);
  let name := convert_cstr cname in
  version ← (if feature_version then get_requirement m (version st) idx else Ok None);
  Ok (symbol, mk_syminfo name (Some cname) version).

Definition count_syms (st : SymbolTable) : outcome Z := gnu_count_syms m (hashtab st).
End symbols.

(** ** Well-formed tables

    The exported symbols in table order, and what the section says about them. *)

Record gsym := mk_gsym { gs_name : bytes; gs_sym : ElfSymbol }.
Definition gs_hash (s : gsym) : Z := gnu_hash (gs_name s).
Definition bucket_of (ht : ElfGnuHash) (s : gsym) : Z := gs_hash s mod nbucket (header ht).

Definition bloom_word (ht : ElfGnuHash) (h : Z) : Z := Z.land (h / 64) (nbloom (header ht) - 1).

(** Placement, and the values of the header. *)
Record gnu_placed (st : SymbolTable) (n : nat) : Prop := {
  gp_nbucket : 0 < nbucket (header (hashtab st)) < U32_LIM;
  gp_nbloom : 0 < nbloom (header (hashtab st)) <= U32_LIM;
  gp_nshift : 0 <= nshift (header (hashtab st)) < 32;
  gp_symbias : 0 < symbias (header (hashtab st));
  gp_chains : 0 <= chains (hashtab st) /\ chains (hashtab st) + 4 * Z.of_nat n < U64_LIM;
  gp_symtab : 0 <= symtab st /\
    symtab st + SYM_SIZE * (symbias (header (hashtab st)) + Z.of_nat n) < U64_LIM;
}.

(** The contents of the section: chain words carry the hash and mark the last
    symbol of each bucket, symbols are sorted by bucket, each bucket holds its
    first symbol, and the filter has both bits of every symbol. *)
Record gnu_table (m : memory) (st : SymbolTable) (syms : list gsym) : Prop := {
  gt_placed : gnu_placed st (length syms);
  gt_sym : forall i s, syms !! i = Some s ->
    read_symbol m (symtab st + SYM_SIZE * (symbias (header (hashtab st)) + Z.of_nat i)) = Ok (gs_sym s) /\
    str_at m (strtab st) (st_name (gs_sym s)) (gs_name s);
  gt_chain : forall i s, syms !! i = Some s -> exists c,
    read_u32 m (chains (hashtab st) + 4 * Z.of_nat i) = Ok c /\
    Z.lor c 1 = Z.lor (gs_hash s) 1 /\
    (Z.land c 1 = 0 <-> exists s', syms !! S i = Some s' /\ bucket_of (hashtab st) s' = bucket_of (hashtab st) s);
  gt_sorted : forall i j s s', (i <= j)%nat -> syms !! i = Some s -> syms !! j = Some s' ->
    bucket_of (hashtab st) s <= bucket_of (hashtab st) s';
  gt_bucket : forall b, 0 <= b < nbucket (header (hashtab st)) ->
    read_bucket m (hashtab st) b =
      Ok (match find_from (fun _ s => bucket_of (hashtab st) s =? b) 0 syms with
          | Some (i, _) => symbias (header (hashtab st)) + Z.of_nat i
          | None => 0
          end);
  gt_bloom : forall i, 0 <= i < nbloom (header (hashtab st)) -> exists w, read_bloom m (hashtab st) i = Ok w;
  gt_bloom_bits : forall i s w, syms !! i = Some s ->
    read_bloom m (hashtab st) (bloom_word (hashtab st) (gs_hash s)) = Ok w ->
    Z.testbit w (gs_hash s mod 64) = true /\
    Z.testbit w (Z.shiftr (gs_hash s) (nshift (header (hashtab st))) mod 64) = true;
}.

Lemma gnu_hash_range name : 0 <= gnu_hash name < U32_LIM.
Proof.
  unfold gnu_hash. assert (Hg : forall l h, 0 <= h < U32_LIM -> 0 <= fold_left gnu_hash_step l h < U32_LIM).
  { induction l as [|b l IH]; intros h Hh; simpl; [done|]. apply IH. unfold gnu_hash_step.
    by apply Z.mod_pos_bound. }
  by apply Hg.
Qed.

Lemma read_u32_mapped m a v : read_u32 m a = Ok v -> is_Some (m !! a).
Proof.
  unfold read_u32, load_le. intros H. destruct (load_bytes m a 4) as [l|] eqn:Hl; [|done].
  replace a with (a + Z.of_nat 0) by lia. apply (load_bytes_mapped m a 4); [eauto|lia].
Qed.

Section lookup_proofs.
Context `{Config} (m : memory) (st : SymbolTable) (syms : list gsym) (Htab : gnu_table m st syms).
Let ht := hashtab st.
Let bias := symbias (header ht).

Lemma syms_short : (length syms <= size m)%nat.
Proof.
  apply (stride_walk_bound m (chains ht) 4); [lia|]. intros i Hi.
  destruct (lookup_lt_is_Some_2 syms i Hi) as [s Hs].
  destruct (gt_chain _ _ _ Htab i s Hs) as (c & Hc & _). by eapply read_u32_mapped.
Qed.

Section one.
Context (info : SymbolInfo) (vm : nat -> bool).
Context (Hvm : forall i s, syms !! i = Some s -> gs_name s = si_name info ->
  candidate m st info (bias + Z.of_nat i) (gs_name s) = Ok (vm i)).

(** The reference: the first exported symbol with the name and a version that
    matches. *)
Definition matches (i : nat) (s : gsym) : bool := bool_decide (gs_name s = si_name info) && vm i.
Definition lookup_spec : option ElfSymbol := (gs_sym ∘ snd) <$> find_from matches 0 syms.

Lemma candidate_matches i s :
  syms !! i = Some s -> candidate m st info (bias + Z.of_nat i) (gs_name s) = Ok (matches i s).
Proof.
  intros Hs. unfold matches. destruct (decide (gs_name s = si_name info)) as [He|Hne].
  - rewrite bool_decide_true by done. by rewrite (Hvm i s).
  - rewrite bool_decide_false by done. unfold candidate. by rewrite bool_decide_false.
Qed.

Lemma matches_bucket i s :
  matches i s = true -> bucket_of ht s = gnu_hash (si_name info) mod nbucket (header ht).
Proof.
  unfold matches, bucket_of, gs_hash. intros [He%bool_decide_eq_true _]%andb_true_iff. by rewrite He.
Qed.

(** The word of a chain decides: a symbol is compared exactly when it can match. *)
Lemma chain_round i s :
  syms !! i = Some s -> exists c,
    read_u32 m (chains ht + 4 * Z.of_nat i) = Ok c /\
    (if Z.lor (gnu_hash (si_name info)) 1 =? Z.lor c 1 then
       cur_symbol ← read_symbol m (symtab st + SYM_SIZE * (bias + Z.of_nat i));
       sym_name ← get_str m (strtab st) (st_name cur_symbol);
       ok ← candidate m st info (bias + Z.of_nat i) sym_name;
       Ok (if ok : bool then Some cur_symbol else None)
     else Ok None) = Ok (if matches i s then Some (gs_sym s) else None) /\
    negb (Z.land c 1 =? 0) =
      match syms !! S i with Some s' => negb (bucket_of ht s' =? bucket_of ht s) | None => true end.
Proof.
  intros Hs. destruct (gt_chain _ _ _ Htab i s Hs) as (c & Hc & Hh & Hend). exists c. split; [done|]. split.
  - destruct (gt_sym _ _ _ Htab i s Hs) as [Hsym Hstr]. destruct (Z.eqb_spec (Z.lor (gnu_hash (si_name info)) 1) (Z.lor c 1)) as [He|Hne].
    + fold ht in Hsym. fold bias in Hsym. rewrite Hsym, bind_Ok, (get_str_at _ _ _ _ Hstr), bind_Ok, candidate_matches by done.
      done.
    + assert (matches i s = false) as ->; [|done].
      unfold matches. rewrite bool_decide_false; [done|]. intros He. apply Hne. rewrite Hh.
      unfold gs_hash. by rewrite He.
  - destruct (syms !! S i) as [s'|] eqn:Hs'.
    + destruct (Z.eqb_spec (bucket_of ht s') (bucket_of ht s)) as [He|Hne].
      * rewrite (proj2 Hend); [done|]. eauto.
      * destruct (Z.eqb_spec (Z.land c 1) 0) as [H0|]; [|done].
        destruct (proj1 Hend H0) as (s2 & Hs2 & Hb). simplify_eq.
    + destruct (Z.eqb_spec (Z.land c 1) 0) as [H0|]; [|done].
      destruct (proj1 Hend H0) as (s2 & Hs2 & _). simplify_eq.
Qed.

Lemma lookup_chain_walk fuel : forall i s,
  syms !! i = Some s -> bucket_of ht s = gnu_hash (si_name info) mod nbucket (header ht) ->
  (length syms <= i + fuel)%nat ->
  lookup_chain m fuel st info (gnu_hash (si_name info)) (chains ht + 4 * Z.of_nat i)
    (symtab st + SYM_SIZE * (bias + Z.of_nat i)) (bias + Z.of_nat i) =
    Ok ((gs_sym ∘ snd) <$> find_from matches i (drop i syms)).
Proof.
  induction fuel as [|fuel IH]; intros i s Hs Hb Hf.
  { pose proof (lookup_lt_Some _ _ _ Hs). lia. }
  cbn [lookup_chain]. destruct (chain_round i s Hs) as (c & -> & Hround & Hend).
  rewrite bind_Ok, Hround, bind_Ok. rewrite (drop_S _ _ _ Hs). cbn [find_from].
  destruct (matches i s); [done|]. rewrite Hend.
  destruct (syms !! S i) as [s'|] eqn:Hs'.
  - destruct (Z.eqb_spec (bucket_of ht s') (bucket_of ht s)) as [He|Hne]; cbn [negb].
    + pose proof (gp_symtab _ _ (gt_placed _ _ _ Htab)) as [Hp0 Hp].
      pose proof (gp_symbias _ _ (gt_placed _ _ _ Htab)). pose proof (lookup_lt_Some _ _ _ Hs').
      fold ht in Hp, H0. fold bias in Hp, H0. unfold SYM_SIZE in Hp |- *.
      rewrite uadd_ok, bind_Ok by lia.
      replace (chains ht + 4 * Z.of_nat i + 4) with (chains ht + 4 * Z.of_nat (S i)) by lia.
      replace (symtab st + 24 * (bias + Z.of_nat i) + 24)
        with (symtab st + 24 * (bias + Z.of_nat (S i))) by lia.
      replace (bias + Z.of_nat i + 1) with (bias + Z.of_nat (S i)) by lia.
      apply (IH (S i) s'); [done|by rewrite He|lia].
    + assert (find_from matches (S i) (drop (S i) syms) = None) as ->; [|done].
      apply find_from_None. intros j x Hx. rewrite lookup_drop in Hx.
      destruct (matches (S i + j) x) eqn:Hm; [|done]. apply matches_bucket in Hm.
      pose proof (gt_sorted _ _ _ Htab i (S i) s s' ltac:(lia) Hs Hs') as H1.
      pose proof (gt_sorted _ _ _ Htab (S i) (S i + j) s' x ltac:(lia) Hs' Hx) as H2.
      fold ht in H1, H2. lia.
  - cbn [negb]. rewrite drop_ge; [done|]. by apply lookup_ge_None.
Qed.

Lemma lookup_linear : lookup m st info = Ok lookup_spec.
Proof.
  pose proof (gnu_hash_range (si_name info)) as Hr. pose proof (gt_placed _ _ _ Htab) as Hpl.
  destruct Hpl as [Hnb Hnbl Hns Hbi [Hc0 Hc1] [Hy0 Hy1]].
  unfold lookup, lookup_spec. fold ht in Hnb, Hnbl, Hns, Hbi, Hc0, Hc1, Hy0, Hy1 |- *. fold bias in Hbi, Hy1 |- *.
  rewrite u32_sub_ok, bind_Ok by lia. fold (bloom_word ht (gnu_hash (si_name info))).
  destruct (gt_bloom _ _ _ Htab (bloom_word ht (gnu_hash (si_name info)))) as [w Hw].
  { unfold bloom_word. fold ht.
    pose proof (land_le_r (gnu_hash (si_name info) / 64) (nbloom (header ht) - 1)). lia. }
  fold ht in Hw. rewrite Hw, bind_Ok.
  assert (Hbloom : forall i s, syms !! i = Some s -> matches i s = true ->
    Z.testbit w (gnu_hash (si_name info) mod 64) = true /\
    Z.testbit w (Z.shiftr (gnu_hash (si_name info)) (nshift (header ht)) mod 64) = true).
  { intros i s Hs [He%bool_decide_eq_true _]%andb_true_iff.
    pose proof (gt_bloom_bits _ _ _ Htab i s w Hs) as Hbits. unfold gs_hash in Hbits. rewrite He in Hbits.
    exact (Hbits Hw). }
  assert (Hnone : (forall i s, syms !! i = Some s -> matches i s = true -> False) ->
    find_from matches 0 syms = None).
  { intros Hall. apply find_from_None. intros j x Hx. simpl.
    destruct (matches j x) eqn:Hm; [|done]. destruct (Hall j x Hx Hm). }
  rewrite land_bit_eqb by (apply Z.mod_pos_bound; lia).
  destruct (Z.testbit w (gnu_hash (si_name info) mod 64)) eqn:Hb1; simpl negb; cbv iota;
    [|by rewrite Hnone by (intros i s Hs Hm; by destruct (Hbloom i s Hs Hm))].
  rewrite ushr_ok, bind_Ok by lia. rewrite land_one_eqb, Z.shiftr_spec, Z.add_0_l by lia.
  destruct (Z.testbit w (Z.shiftr _ _ mod 64)) eqn:Hb2; simpl negb; cbv iota;
    [|by rewrite Hnone by (intros i s Hs Hm; by destruct (Hbloom i s Hs Hm))].
  rewrite urem_ok, bind_Ok by lia.
  rewrite (gt_bucket _ _ _ Htab) by (apply Z.mod_pos_bound; fold ht; lia). fold ht bias. rewrite bind_Ok.
  destruct (find_from (fun _ s => bucket_of ht s =? _) 0 syms) as [[i s]|] eqn:Hfind; cycle 1.
  { change (0 =? 0) with true. cbv iota.
    assert (find_from matches 0 syms = None) as ->; [|done].
    apply find_from_None. intros j x Hx. destruct (matches (0 + j) x) eqn:Hm; [|done].
    apply matches_bucket in Hm. apply find_from_None with (j := j) (x := x) in Hfind; [|done]. lia. }
  apply find_from_Some in Hfind as (j & -> & Hs & Hb & Hmin). rewrite Nat.add_0_l in *.
  rewrite (proj2 (Z.eqb_neq _ _)) by lia. pose proof (lookup_lt_Some _ _ _ Hs).
  unfold SYM_SIZE in Hy1 |- *. rewrite usub_ok, bind_Ok by lia.
  replace (bias + Z.of_nat j - bias) with (Z.of_nat j) by lia. rewrite !padd_small by lia.
  rewrite (lookup_chain_walk) with (s := s); [|done|by apply Z.eqb_eq in Hb|].
  - rewrite (find_from_drop matches j 0 syms); [done|]. intros k x Hk Hx. simpl.
    destruct (matches k x) eqn:Hm; [|done]. apply matches_bucket in Hm.
    specialize (Hmin k x Hk Hx). simpl in Hmin. fold ht in Hm. lia.
  - pose proof syms_short. lia.
Qed.

(** C19: on a well-formed table the Bloom filter, the bucket and the chain find
    exactly what a linear search finds: the first exported symbol with the
    requested name (and a matching version), or nothing; in both profiles
    and without a fault. *)
Theorem lookup_is_linear_search : lookup m st info = Ok lookup_spec.
Proof. apply lookup_linear. Qed.

Lemma lookup_filter_typed :
  (forall i s, syms !! i = Some s -> 0 <= sym_st_info (gs_sym s) < U8_LIM) ->
  lookup_filter m st info =
    Ok (match lookup_spec with
        | Some sym => if decide (usable sym) then Some sym else None
        | None => None
        end).
Proof.
  intros Hty. unfold lookup_filter. rewrite lookup_linear, bind_Ok.
  destruct lookup_spec as [sym|] eqn:Hl; [|done].
  assert (Hi : 0 <= sym_st_info sym < U8_LIM).
  { unfold lookup_spec in Hl. destruct (find_from matches 0 syms) as [[i s]|] eqn:Hf; [|done].
    simpl in Hl. simplify_eq. apply find_from_Some in Hf as (j & -> & Hs & _). by apply (Hty (0 + j)%nat). }
  rewrite (usable_bool _ Hi). by case_decide; [rewrite bool_decide_true|rewrite bool_decide_false].
Qed.

Lemma lookup_filter_result :
  mem_ok m ->
  lookup_filter m st info =
    Ok (match lookup_spec with
        | Some sym => if decide (usable sym) then Some sym else None
        | None => None
        end).
Proof.
  intros Hm. apply lookup_filter_typed. intros i s Hs. destruct (gt_sym _ _ _ Htab _ s Hs) as [Hr _].
  by eapply read_symbol_info.
Qed.

(** The lookup relocations use returns the first exported symbol with the name
    and a matching version when that symbol is a defined global, weak or
    unique symbol of a linkable type, and nothing otherwise: a later symbol
    of the same name is not tried. *)
Theorem lookup_filter_spec :
  mem_ok m ->
  lookup_filter m st info =
    Ok (match lookup_spec with
        | Some sym => if decide (usable sym) then Some sym else None
        | None => None
        end).
Proof. apply lookup_filter_result. Qed.
End one.

(** *** Counting *)

Definition first_of (b : Z) : option (nat * gsym) := find_from (fun _ s => bucket_of ht s =? b) 0 syms.

Lemma count_chain_walk b fuel : forall i s,
  syms !! i = Some s -> bucket_of ht s = b ->
  (forall j x, syms !! j = Some x -> bucket_of ht x <= b) ->
  (length syms <= i + fuel)%nat ->
  count_chain m fuel (chains ht + 4 * Z.of_nat i) (bias + Z.of_nat i) = Ok (bias + Z.of_nat (length syms) - 1).
Proof.
  induction fuel as [|fuel IH]; intros i s Hs Hb Hmax Hf; pose proof (lookup_lt_Some _ _ _ Hs); [lia|].
  cbn [count_chain]. destruct (gt_chain _ _ _ Htab i s Hs) as (c & Hc & _ & Hend).
  fold ht in Hc, Hend. rewrite Hc, bind_Ok.
  pose proof (gp_symtab _ _ (gt_placed _ _ _ Htab)) as [Hp0 Hp].
  pose proof (gp_symbias _ _ (gt_placed _ _ _ Htab)) as Hbi. fold ht in Hp, Hbi. fold bias in Hp, Hbi.
  unfold SYM_SIZE in Hp. destruct (Z.eqb_spec (Z.land c 1) 0) as [Hz|Hnz].
  - destruct (proj1 Hend Hz) as (s' & Hs' & Hb'). pose proof (lookup_lt_Some _ _ _ Hs').
    rewrite uadd_ok, bind_Ok by lia.
    replace (chains ht + 4 * Z.of_nat i + 4) with (chains ht + 4 * Z.of_nat (S i)) by lia.
    replace (bias + Z.of_nat i + 1) with (bias + Z.of_nat (S i)) by lia.
    apply (IH (S i) s'); [done|by rewrite Hb'|done|lia].
  - destruct (syms !! S i) as [s'|] eqn:Hs'.
    + exfalso. apply Hnz, Hend. exists s'. split; [done|].
      pose proof (gt_sorted _ _ _ Htab i (S i) s s' ltac:(lia) Hs Hs') as H1. fold ht in H1.
      specialize (Hmax (S i) s' Hs'). lia.
    + apply lookup_ge_None in Hs'. f_equal. lia.
Qed.

Lemma fold_max_hits (f : Z -> Z) (l : list Z) (top : Z) : forall s,
  s <= top -> (forall i, i ∈ l -> f i <= top) -> (s = top \/ exists i, i ∈ l /\ f i = top) ->
  fold_left (fun n i => Z.max n (f i)) l s = top.
Proof.
  induction l as [|x l IH]; intros s Hs Hl Hex; simpl.
  - destruct Hex as [|(i & Hi & _)]; [done|]. by apply not_elem_of_nil in Hi.
  - pose proof (Hl x (list_elem_of_here _ _)). apply IH; [lia| |].
    + intros i Hi. apply Hl. by right.
    + destruct Hex as [->|(i & Hi & Hf)]; [left; lia|].
      apply elem_of_cons in Hi as [->|Hi]; [left; lia|right; eauto].
Qed.

Definition bucket_value (b : Z) : Z :=
  match first_of b with Some (i, _) => bias + Z.of_nat i | None => 0 end.

Lemma bucket_fold top :
  0 <= top -> (forall b, 0 <= b < nbucket (header ht) -> bucket_value b <= top) ->
  (top = 0 \/ exists b, 0 <= b < nbucket (header ht) /\ bucket_value b = top) ->
  fold_outcome (fun nsym i => b ← read_bucket m ht i; Ok (Z.max nsym b)) (seqZ 0 (nbucket (header ht))) 0 =
    Ok top.
Proof.
  intros H0 Hle Hex. rewrite (fold_outcome_pure _ (fun n i => Z.max n (bucket_value i))).
  - f_equal. apply fold_max_hits; [done|..].
    + intros i Hi%elem_of_seqZ. apply Hle. lia.
    + destruct Hex as [->|(b & Hb & Hv)]; [by left|right]. exists b. split; [|done].
      apply elem_of_seqZ. lia.
  - intros n b Hb%elem_of_seqZ. pose proof (gt_bucket _ _ _ Htab b) as Hr. fold ht in Hr.
    rewrite Hr by lia. done.
Qed.

(** [count_syms] is the number of symbol table entries up to the last exported
    one; for an object that exports nothing it is 1, whatever the number of
    undefined symbols in front. *)
Theorem count_syms_exact :
  count_syms m st = Ok (if decide (syms = []) then 1 else bias + Z.of_nat (length syms)).
Proof.
  unfold count_syms, gnu_count_syms. fold ht. fold bias.
  pose proof (gp_symtab _ _ (gt_placed _ _ _ Htab)) as [Hp0 Hp].
  pose proof (gp_chains _ _ (gt_placed _ _ _ Htab)) as [Hc0 Hc].
  pose proof (gp_symbias _ _ (gt_placed _ _ _ Htab)) as Hbi. fold ht in Hp, Hbi, Hc0, Hc. fold bias in Hp, Hbi.
  unfold SYM_SIZE in Hp. destruct (decide (syms = [])) as [He|Hne].
  { rewrite (bucket_fold 0); [done..| |by left]. intros b _. unfold bucket_value, first_of. by rewrite He. }
  destruct (last syms) as [sl|] eqn:Hlast; [|by apply last_None in Hlast].
  rewrite last_lookup in Hlast. set (b := bucket_of ht sl).
  assert (Hmax : forall j x, syms !! j = Some x -> bucket_of ht x <= b).
  { intros j x Hx. pose proof (lookup_lt_Some _ _ _ Hx).
    pose proof (gt_sorted _ _ _ Htab j (pred (length syms)) x sl ltac:(lia) Hx Hlast) as H1. by fold ht in H1. }
  assert (Hb : 0 <= b < nbucket (header ht)).
  { apply Z.mod_pos_bound. apply (gp_nbucket _ _ (gt_placed _ _ _ Htab)). }
  destruct (first_of b) as [[f sf]|] eqn:Hf; cycle 1.
  { apply find_from_None with (j := pred (length syms)) (x := sl) in Hf; [|done]. unfold b in Hf. lia. }
  assert (Hvb : bucket_value b = bias + Z.of_nat f) by (unfold bucket_value; by rewrite Hf).
  apply find_from_Some in Hf as (j & -> & Hs & Hsb & Hmin). rewrite Nat.add_0_l in *.
  apply Z.eqb_eq in Hsb. pose proof (lookup_lt_Some _ _ _ Hs).
  rewrite (bucket_fold (bias + Z.of_nat j)), bind_Ok; [|lia| |by eauto].
  - rewrite (proj2 (Z.ltb_lt _ _)) by lia. rewrite usub_ok, bind_Ok by lia.
    replace (bias + Z.of_nat j - bias) with (Z.of_nat j) by lia. rewrite padd_small by lia.
    rewrite (count_chain_walk b) with (s := sf); [|done..|pose proof syms_short; lia].
    rewrite bind_Ok, uadd_ok by lia. f_equal. lia.
  - intros b' Hb'. unfold bucket_value. destruct (first_of b') as [[f' s']|] eqn:Hf'; [|lia].
    apply find_from_Some in Hf' as (j' & -> & Hs' & Hsb' & Hmin'). rewrite Nat.add_0_l in *.
    apply Z.eqb_eq in Hsb'. destruct (decide (j' <= j)%nat); [lia|].
    pose proof (gt_sorted _ _ _ Htab j j' sf s' ltac:(lia) Hs Hs') as H1. fold ht in H1.
    pose proof (Hmax j' s' Hs'). assert (b' = b) as -> by lia.
    specialize (Hmin' j sf ltac:(lia) Hs). simpl in Hmin'. lia.
Qed.

(** *** Symbols by index *)

Lemma symbol_idx_info i s req :
  syms !! i = Some s ->
  (if feature_version then get_requirement m (version st) (bias + Z.of_nat i) else Ok None) = Ok req ->
  symbol_idx m st (bias + Z.of_nat i) = Ok (gs_sym s, mk_syminfo (gs_name s) (Some (gs_name s)) req).
Proof.
  intros Hs Hreq. destruct (gt_sym _ _ _ Htab i s Hs) as [Hsym Hstr].
  pose proof (gp_symtab _ _ (gt_placed _ _ _ Htab)) as [Hp0 Hp].
  pose proof (gp_symbias _ _ (gt_placed _ _ _ Htab)) as Hbi. pose proof (lookup_lt_Some _ _ _ Hs).
  fold ht in Hp, Hbi, Hsym. fold bias in Hp, Hbi, Hsym.
  unfold symbol_idx. unfold SYM_SIZE in *. rewrite padd_small by lia. rewrite Hsym, bind_Ok.
  unfold get_cstr. rewrite (cstr_from_ptr_at _ _ _ Hstr), bind_Ok. by rewrite Hreq.
Qed.

(** C31: reading an exported symbol by index and looking its information up again
    gives the symbol back, when exported names are unique: the name, and the
    version requirement read for the index, identify it. *)
Theorem symbol_idx_lookup_roundtrip (i : nat) (s : gsym) (req : option SymbolVersion) :
  NoDup (gs_name <$> syms) -> syms !! i = Some s ->
  (if feature_version then get_requirement m (version st) (bias + Z.of_nat i) else Ok None) = Ok req ->
  exists info,
    symbol_idx m st (bias + Z.of_nat i) = Ok (gs_sym s, info) /\ si_name info = gs_name s /\
    lookup m st info = Ok (Some (gs_sym s)).
Proof.
  intros Hnd Hs Hreq. eexists. split; [by apply symbol_idx_info|]. split; [done|].
  assert (Huniq : forall j x, syms !! j = Some x -> gs_name x = gs_name s -> j = i).
  { intros j x Hx He. eapply (NoDup_lookup _ j i (gs_name s) Hnd); rewrite list_lookup_fmap.
    - by rewrite Hx; simpl; rewrite He.
    - by rewrite Hs. }
  rewrite (lookup_linear _ (fun _ => true)).
  - unfold lookup_spec. match goal with |- context [find_from ?P 0 syms] =>
      assert (find_from P 0 syms = Some (i, s)) as ->; [|done] end.
    apply find_from_Some. exists i. split_and!; [done|done|unfold matches; simpl; by rewrite bool_decide_true|].
    intros j x Hj Hx. unfold matches; simpl. rewrite bool_decide_false; [done|].
    intros He. specialize (Huniq j x Hx He). lia.
  - intros j x Hx He. simpl in He. pose proof (Huniq j x Hx He) as ->. simplify_eq. unfold candidate. simpl.
    rewrite bool_decide_true by done. destruct feature_version; [|done].
    by apply get_requirement_matches.
Qed.
End lookup_proofs.

(** ** Any table *)

Section any_table.
Context `{Config} (m : memory) (st : SymbolTable) (info : SymbolInfo).

Lemma lookup_chain_sound fuel hash : forall c p i sym,
  lookup_chain m fuel st info hash c p i = Ok (Some sym) ->
  exists p', read_symbol m p' = Ok sym /\ str_at m (strtab st) (st_name sym) (si_name info) /\
    0 <= (p' - p) /\ (p' - p) mod SYM_SIZE = 0.
Proof.
  induction fuel as [|fuel IH]; intros c p i sym Hl; [done|]. cbn [lookup_chain] in Hl.
  inv_bind Hl. inv_bind Hl. destruct a0 as [cur|].
  - simplify_eq. case_match; [|simplify_eq]. inv_bind Ha0. inv_bind Ha0. inv_bind Ha0.
    match goal with Hc : candidate _ _ _ _ ?n = Ok ?b |- _ =>
      rename Hc into Hcand; destruct b; simplify_eq; unfold candidate in Hcand;
      destruct (decide (n = si_name info)) as [Hn|]; [|by rewrite bool_decide_false in Hcand] end.
    exists p. split_and!; [done| |lia|by rewrite Z.sub_diag]. rewrite <- Hn. by apply get_str_inv.
  - case_match; [done|]. inv_bind Hl. destruct (IH _ _ _ _ Hl) as (p' & Hp & Hn & Hle & Hmod).
    exists p'. split_and!; [done|done|unfold SYM_SIZE in *; lia|unfold SYM_SIZE in *; zlia].
Qed.


Lemma check_match_no_fuel gv i v : check_match m gv i v <> OutOfFuel.
Proof.
  unfold check_match, VersionIndexTable_get, get_version_at, read_u16. destruct v; [|done].
  repeat (apply bind_no_fuel; [|intros]); try apply unwrap_no_fuel; try apply load_le_no_fuel;
    try apply unwrap_unchecked_no_fuel; done.
Qed.

Lemma candidate_no_fuel i name : candidate m st info i name <> OutOfFuel.
Proof. unfold candidate. repeat case_match; try done. apply check_match_no_fuel. Qed.

Lemma read_symbol_no_fuel p : read_symbol m p <> OutOfFuel.
Proof. unfold read_symbol. repeat (apply bind_no_fuel; [apply load_le_no_fuel|intros]). done. Qed.

Lemma lookup_chain_no_fuel hash c n :
  (forall i, (i < n)%nat -> is_Some (m !! (c + 4 * Z.of_nat i))) ->
  forall fuel p i, (size m < n + fuel)%nat ->
    lookup_chain m fuel st info hash (c + 4 * Z.of_nat n) p i <> OutOfFuel.
Proof.
  intros Hall fuel. revert n Hall. induction fuel as [|fuel IH]; intros n Hall p i Hf.
  { pose proof (stride_walk_bound m c 4 n ltac:(lia) Hall). lia. }
  cbn [lookup_chain]. destruct (read_u32 m (c + 4 * Z.of_nat n)) as [w| | | |] eqn:Hw; try done;
    [|by apply load_le_no_fuel in Hw].
  rewrite bind_Ok. apply bind_no_fuel.
  - case_match; [|done]. apply bind_no_fuel; [apply read_symbol_no_fuel|intros].
    apply bind_no_fuel; [apply get_str_total|intros]. apply bind_no_fuel; [apply candidate_no_fuel|done].
  - intros [r|]; [done|]. case_match; [done|]. apply bind_no_fuel; [apply checked_no_fuel|intros i'].
    replace (c + 4 * Z.of_nat n + 4) with (c + 4 * Z.of_nat (S n)) by lia. apply IH; [|lia].
    intros j Hj. destruct (decide (j = n)) as [->|]; [|apply Hall; lia]. by eapply read_u32_mapped.
Qed.

(** C32: a lookup terminates on every table, also on a chain without an end mark,
    which it follows out of the mapped memory. *)
Theorem lookup_terminates : lookup m st info <> OutOfFuel.
Proof.
  unfold lookup, u32_sub, usub, ushr, urem, read_bloom, read_bucket, read_u64, read_u32.
  apply bind_no_fuel; [apply checked_no_fuel|intros bm]. apply bind_no_fuel; [apply load_le_no_fuel|intros f].
  case_match; [done|]. apply bind_no_fuel; [by repeat case_match|intros hs]. case_match; [done|].
  apply bind_no_fuel; [by case_match|intros b]. apply bind_no_fuel; [apply load_le_no_fuel|intros start].
  case_match; [done|]. apply bind_no_fuel; [apply checked_no_fuel|intros i].
  pose proof (fun p k => lookup_chain_no_fuel (gnu_hash (si_name info)) (padd (chains (hashtab st)) (4 * i)) 0
    ltac:(lia) (S (size m)) p k ltac:(lia)) as Hlc.
  rewrite Z.mul_0_r, Z.add_0_r in Hlc. apply Hlc.
Qed.
Lemma count_chain_no_fuel c n :
  (forall i, (i < n)%nat -> is_Some (m !! (c + 4 * Z.of_nat i))) ->
  forall fuel k, (size m < n + fuel)%nat -> count_chain m fuel (c + 4 * Z.of_nat n) k <> OutOfFuel.
Proof.
  intros Hall fuel. revert n Hall. induction fuel as [|fuel IH]; intros n Hall k Hf.
  { pose proof (stride_walk_bound m c 4 n ltac:(lia) Hall). lia. }
  cbn [count_chain]. destruct (read_u32 m (c + 4 * Z.of_nat n)) as [w| | | |] eqn:Hw; try done;
    [|by apply load_le_no_fuel in Hw].
  rewrite bind_Ok. case_match; [|done]. apply bind_no_fuel; [apply checked_no_fuel|intros k'].
  replace (c + 4 * Z.of_nat n + 4) with (c + 4 * Z.of_nat (S n)) by lia. apply IH; [|lia].
  intros j Hj. destruct (decide (j = n)) as [->|]; [|apply Hall; lia]. by eapply read_u32_mapped.
Qed.

(** Counting terminates on every table too. *)
Theorem count_syms_terminates : count_syms m st <> OutOfFuel.
Proof.
  unfold count_syms, gnu_count_syms. apply bind_no_fuel.
  - generalize 0 at 2. generalize (seqZ 0 (nbucket (header (hashtab st)))). intros l.
    induction l as [|i l IH]; intros k; [done|]. cbn [fold_outcome]. apply bind_no_fuel; [|intros; apply IH].
    apply bind_no_fuel; [apply load_le_no_fuel|done].
  - intros n. apply bind_no_fuel; [|intros; apply checked_no_fuel]. case_match; [|done].
    apply bind_no_fuel; [apply checked_no_fuel|intros i].
    pose proof (count_chain_no_fuel (padd (chains (hashtab st)) (4 * i)) 0 ltac:(lia) (S (size m)) n ltac:(lia)) as Hc.
    rewrite Z.mul_0_r, Z.add_0_r in Hc. exact Hc.
Qed.
End any_table.

(** ** A concrete table

    Two buckets: [gamma], a local symbol, in the first; [alpha] and [foo] in the
    second. *)

Definition demo_syms : list gsym :=
  [mk_gsym (bytes_of "gamma") (mk_symbol 1 1 0 7 64 0);
   mk_gsym (bytes_of "alpha") (mk_symbol 7 18 0 7 4660 8);
   mk_gsym (bytes_of "foo") (mk_symbol 13 33 0 8 22136 4)].

Definition symbol_bytes (s : ElfSymbol) : bytes :=
  pack [(4%nat, sym_st_name s); (1%nat, sym_st_info s); (1%nat, sym_st_other s); (2%nat, sym_st_shndx s);
        (8%nat, sym_st_value s); (8%nat, sym_st_size s)].
Definition demo_bits (h : Z) : Z := Z.lor (Z.shiftl 1 (h mod 64)) (Z.shiftl 1 (Z.shiftr h 5 mod 64)).
Definition demo_chains : list Z :=
  (fun p => if snd p : bool then Z.lor (fst p) 1 else Z.ldiff (fst p) 1) <$>
    zip (gs_hash <$> demo_syms) [true; false; true].
Definition demo_symbol_memory : memory := image
  [(1000, pack [(4%nat, 2); (4%nat, 1); (4%nat, 1); (4%nat, 5);
                (8%nat, foldr (fun s acc => Z.lor (demo_bits (gs_hash s)) acc) 0 demo_syms);
                (4%nat, 1); (4%nat, 2)]);
   (1032, pack ((fun c => (4%nat, c)) <$> demo_chains));
   (2024, mjoin (symbol_bytes ∘ gs_sym <$> demo_syms));
   (3000, [0] ++ mjoin ((fun s => gs_name s ++ [0]) <$> demo_syms))].
Definition demo_symtab : SymbolTable :=
  mk_symtab (mk_gnu_hash (mk_gnu_header 2 1 1 5) 1016 1024 1032) 2000 (mk_strtab 3000) None.

Example demo_parse : parse demo_symbol_memory 1000 = Ok (hashtab demo_symtab).
Proof. by vm_compute. Qed.

Lemma demo_table : gnu_table demo_symbol_memory demo_symtab demo_syms.
Proof.
  assert (Hall : forall i s, demo_syms !! i = Some s ->
            (i = 0%nat \/ i = 1%nat \/ i = 2%nat) /\ Some s = demo_syms !! i).
  { intros i s Hs. pose proof (lookup_lt_Some _ _ _ Hs) as Hl. simpl in Hl. split; [lia|done]. }
  constructor.
  - constructor; simpl; unfold SYM_SIZE; lia.
  - intros i s (Hi & Hs)%Hall. destruct Hi as [-> | [-> | ->]]; simpl in Hs; simplify_eq;
      (split; [by vm_compute|apply cstr_at_check; by vm_compute]).
  - intros i s (Hi & Hs)%Hall. destruct Hi as [-> | [-> | ->]]; simpl in Hs; simplify_eq.
    + eexists. split; [by vm_compute|]. split; [by vm_compute|]. split; [intros Hc; by vm_compute in Hc|].
      intros (s' & Hs' & Hb). simpl in Hs'. by simplify_eq.
    + eexists. split; [by vm_compute|]. split; [by vm_compute|]. split; intros _; [|by vm_compute].
      eexists. split; [reflexivity|by vm_compute].
    + eexists. split; [by vm_compute|]. split; [by vm_compute|]. split; [intros Hc; by vm_compute in Hc|].
      intros (s' & Hs' & Hb). discriminate.
  - intros i j s s' Hij (Hi & Hs)%Hall (Hj & Hs')%Hall.
    destruct Hi as [-> | [-> | ->]], Hj as [-> | [-> | ->]]; try lia; simpl in Hs, Hs'; simplify_eq;
      by vm_compute.
  - simpl. intros b Hb. assert (b = 0 \/ b = 1) as [-> | ->] by lia; by vm_compute.
  - simpl. intros i Hi. assert (i = 0) as -> by lia. eexists. by vm_compute.
  - intros i s w (Hi & Hs)%Hall Hw. destruct Hi as [-> | [-> | ->]]; injection Hs as ->;
      vm_compute in Hw; injection Hw as <-; by vm_compute.
Qed.

Lemma demo_candidate (info : SymbolInfo) i s :
  demo_syms !! i = Some s -> gs_name s = si_name info ->
  @candidate default_config demo_symbol_memory demo_symtab info (1 + Z.of_nat i) (gs_name s) = Ok true.
Proof. intros _ He. unfold candidate. by rewrite bool_decide_true. Qed.

Lemma lookup_is_linear_search_witness :
  @lookup default_config demo_symbol_memory demo_symtab (from_str (bytes_of "foo")) =
    Ok (Some (mk_symbol 13 33 0 8 22136 4)).
Proof.
  exact (@lookup_is_linear_search default_config _ _ _ demo_table (from_str (bytes_of "foo"))
           (fun _ => true) (demo_candidate _)).
Defined.

Lemma demo_mem_ok : mem_ok demo_symbol_memory.
Proof. unfold mem_ok. apply (bool_decide_unpack _). by vm_compute. Qed.

Lemma lookup_filter_spec_witness :
  @lookup_filter default_config demo_symbol_memory demo_symtab (from_str (bytes_of "gamma")) = Ok None.
Proof.
  exact (@lookup_filter_spec default_config _ _ _ demo_table (from_str (bytes_of "gamma"))
           (fun _ => true) (demo_candidate _) demo_mem_ok).
Defined.

Lemma count_syms_exact_witness : @count_syms default_config demo_symbol_memory demo_symtab = Ok 4.
Proof. exact (@count_syms_exact default_config _ _ _ demo_table). Defined.

Lemma symbol_idx_lookup_roundtrip_witness :
  exists info,
    @symbol_idx default_config demo_symbol_memory demo_symtab 2 = Ok (mk_symbol 7 18 0 7 4660 8, info) /\
    si_name info = bytes_of "alpha" /\
    @lookup default_config demo_symbol_memory demo_symtab info = Ok (Some (mk_symbol 7 18 0 7 4660 8)).
Proof.
  apply (@symbol_idx_lookup_roundtrip default_config _ _ _ demo_table 1
           (mk_gsym (bytes_of "alpha") (mk_symbol 7 18 0 7 4660 8)) None).
  - apply (bool_decide_unpack _). by vm_compute.
  - reflexivity.
  - reflexivity.
Defined.

