(* ===== verification/Object.v ===== *)
(** * Object: where the bytes of an ELF file come from

    Models [src/src/object]: the trait [ElfObject] as a class, [ElfBinary] (bytes in
    memory) and [ElfFile] in its two implementations (libc, raw system calls), and
    the contract the loader uses: an object that serves a byte string.

    A read fills a buffer front to back; it answers its result and the bytes it
    has stored, which on an error are a prefix.  What an implementation keeps
    between reads (the kernel's file position) is part of the world. *)

From S2P Require Import Prelude Machine.
#[local] Open Scope Z_scope.

(** [io_read]: the computation of a read. *)
Definition io_read : Type := world -> (outcome unit * bytes) * world.

Class ElfObject (T : Type) := {
  file_name : T -> bytes;
  obj_read : T -> Z -> Z -> io_read;   (** length of the buffer, offset *)
  as_fd : T -> option Z;
  obj_drop : T -> M unit;
}.

(** [CString::new(s).unwrap()]: an interior NUL panics. *)
Definition CString_new (s : bytes) : outcome bytes :=
  if bool_decide (0 ∈ s) then Panic else Ok s.

(** A read whose buffer is [len] bytes of the address space at [p]. *)
Definition read_mem `{ElfObject T} (o : T) (p len offset : Z) : M unit := fun w =>
  let '((r, bs), w1) := obj_read o len offset w in
  match write_bytes p bs w1 with
  | (Ok _, w2) => (r, w2)
  | f => f
  end.

Definition slice_of (data : bytes) (off len : Z) : bytes := take (Z.to_nat len) (drop (Z.to_nat off) data).

(** ** binary.rs *)

Record ElfBinary := mk_binary { bin_name : bytes; bin_bytes : bytes }.

Definition ElfBinary_new (name data : bytes) : outcome ElfBinary :=
  name ← CString_new name; Ok (mk_binary name data).

Definition ElfBinary_read `{Config} (b : ElfBinary) (len offset : Z) : io_read := fun w =>
  ((e ← uadd offset len;
    if (offset <=? e) && (e <=? Z.of_nat (length (bin_bytes b))) then Ok tt else Panic,
    if (offset + len <=? Z.of_nat (length (bin_bytes b))) then slice_of (bin_bytes b) offset len else []), w).

#[export] Instance ElfBinary_object `{Config} : ElfObject ElfBinary := {
  file_name b := bin_name b;
  obj_read := ElfBinary_read;
  as_fd _ := None;
  obj_drop _ := ret tt;
}.

(** ** The kernel's files *)

Class Files := {
  sys_open : world -> bytes -> Z;
  sys_lseek : world -> Z -> Z -> Z;
  sys_read : world -> Z -> Z -> Z * bytes;   (** the result, and the bytes stored *)
  sys_close : world -> Z -> Z;
  errno_string : Z -> string;
}.

Record ElfFile := mk_file { f_name : bytes; f_fd : Z }.

Definition from_owned_fd (path : bytes) (raw_fd : Z) : outcome ElfFile :=
  name ← CString_new path; Ok (mk_file name raw_fd).

(** ** file.rs, feature [use-libc] *)

Module LibcFile.
Section libc_file.
Context `{Files}.

Definition from_path (path : bytes) : M ElfFile :=
  let! name := lift (CString_new path) in
  fun w =>
    let fd := sys_open w name in
    let w := push_event (EvOpen name fd) w in
    if fd =? -1 then (Err (io_error "open failed"), w) else (Ok (mk_file name fd), w).

Definition lseek (fd offset : Z) : M unit := fun w =>
  let off := sys_lseek w fd offset in
  let w := push_event (EvLseek fd offset off) w in
  if (off =? -1) || negb (off mod U64_LIM =? offset) then (Err (io_error "lseek failed"), w)
  else (Ok tt, w).

(** [remaining] is [bytes.len()]; a full round stores at least one byte. *)
Fixpoint read_exact (fuel : nat) (fd remaining : Z) : io_read := fun w =>
  match fuel with
  | O => ((OutOfFuel, []), w)
  | S fuel' =>
      if remaining =? 0 then ((Ok tt, []), w)
      else
        let '(result, bs) := sys_read w fd remaining in
        let w := push_event (EvRead fd remaining result) w in
        if result <? 0 then ((Err (io_error "read error"), bs), w)
        else if result =? 0 then ((Err (io_error "failed to fill buffer"), bs), w)
        else if remaining <? result then ((Panic, bs), w)
        else
          let '((r, rest), w) := read_exact fuel' fd (remaining - result) w in
          ((r, bs ++ rest), w)
  end.

Definition read (f : ElfFile) (len offset : Z) : io_read := fun w =>
  match lseek (f_fd f) offset w with
  | (Ok _, w) => read_exact (S (Z.to_nat len)) (f_fd f) len w
  | (r, w) => ((r, []), w)
  end.

(** [Drop for ElfFile]: the result of [close] is ignored. *)
Definition drop_file (f : ElfFile) : M unit := emit (EvClose (f_fd f)).

Definition object : ElfObject ElfFile := {|
  file_name := f_name;
  obj_read := read;
  as_fd f := Some (f_fd f);
  obj_drop := drop_file;
|}.

End libc_file.
End LibcFile.

(** ** file.rs, feature [use-syscall]

    A system call answers a negative error number or its result. *)

Module SyscallFile.
Section syscall_file.
Context `{Files}.

Definition from_path (path : bytes) : M ElfFile :=
  let! name := lift (CString_new path) in
  fun w =>
    let fd := sys_open w name in
    let w := push_event (EvOpen name fd) w in
    if fd <? 0 then (Err (io_error (errno_string fd)), w) else (Ok (mk_file name fd), w).

(** One [lseek] and one [read]; a short read fails the assertion. *)
Definition read (f : ElfFile) (len offset : Z) : io_read := fun w =>
  let off := sys_lseek w (f_fd f) offset in
  let w := push_event (EvLseek (f_fd f) offset off) w in
  if off <? 0 then ((Err (io_error (errno_string off)), []), w)
  else
    let '(size, bs) := sys_read w (f_fd f) len in
    let w := push_event (EvRead (f_fd f) len size) w in
    if size <? 0 then ((Err (io_error (errno_string size)), bs), w)
    else ((rust_assert (size =? len), bs), w).

(** [Drop for ElfFile]: a failing [close] panics. *)
Definition drop_file (f : ElfFile) : M unit := fun w =>
  ((if sys_close w (f_fd f) <? 0 then Panic else Ok tt), push_event (EvClose (f_fd f)) w).

Definition object : ElfObject ElfFile := {|
  file_name := f_name;
  obj_read := read;
  as_fd f := Some (f_fd f);
  obj_drop := drop_file;
|}.

End syscall_file.
End SyscallFile.

(** ** The contract *)

(** The object serves [data]: a read inside it succeeds and yields its bytes,
    without touching the memory. *)
Class Serves `{ElfObject T} (o : T) (data : bytes) := {
  serves_size : Z.of_nat (length data) < 2 ^ 63;
  serves_read : forall off len w, 0 <= off -> 0 <= len -> off + len <= Z.of_nat (length data) ->
    exists w', obj_read o len off w = ((Ok tt, slice_of data off len), w') /\ mem w' = mem w;
}.

Lemma length_slice_of data off len :
  0 <= off -> 0 <= len -> off + len <= Z.of_nat (length data) ->
  length (slice_of data off len) = Z.to_nat len.
Proof. intros. unfold slice_of. rewrite length_take, length_drop. lia. Qed.

Lemma slice_of_lookup data off len i :
  0 <= off -> 0 <= len -> (i < Z.to_nat len)%nat ->
  slice_of data off len !! i = data !! (Z.to_nat off + i)%nat.
Proof. intros. unfold slice_of. rewrite lookup_take_lt by done. apply lookup_drop. Qed.

Lemma slice_of_app data off a b :
  0 <= off -> 0 <= a -> 0 <= b ->
  slice_of data off a ++ slice_of data (off + a) b = slice_of data off (a + b).
Proof.
  intros. unfold slice_of. rewrite !Z2Nat.inj_add by done. rewrite <- drop_drop.
  apply take_take_drop.
Qed.

(** Reading into the address space maps and unmaps nothing. *)
Lemma read_mem_same_dom `{ElfObject T} (o : T) p len off w :
  (forall len off w, mem (obj_read o len off w).2 = mem w) ->
  same_dom (mem w) (mem (read_mem o p len off w).2).
Proof.
  intros Hm. unfold read_mem. pose proof (Hm len off w) as Hm1. destruct (obj_read o len off w) as [[r bs] w1].
  simpl in Hm1. rewrite <- Hm1. destruct (write_bytes p bs w1) as [[[]| | | |] w2] eqn:E; cbn [snd].
  { apply write_bytes_inv in E as [-> Hd]. by apply store_bytes_same_dom. }
  all: unfold write_bytes in E; destruct (load_bytes (mem w1) p (length bs)); by simplify_eq.
Qed.

#[export] Instance ElfBinary_serves `{Config} name data :
  TCEq (bool_decide (Z.of_nat (length data) < 2 ^ 63)) true -> Serves (mk_binary name data) data.
Proof.
  intros Hs%TCEq_eq%bool_decide_eq_true. constructor; [done|]. intros off len w Ho Hl He. exists w. split; [|done].
  simpl. unfold ElfBinary_read. simpl. rewrite uadd_ok by lia. simpl.
  by rewrite !(proj2 (Z.leb_le _ _)) by lia.
Qed.

(** ** Files

    The documented behaviour of [lseek] and [read] on a regular file: seeking sets
    the position; a read before the end stores between one byte and what is asked
    for, and advances the position by as much; at the end it answers 0. *)

Class FileLaws (F : Files) (contents : Z -> bytes) (pos : world -> Z -> Z) := {
  seek_law : forall w fd off, 0 <= off < 2 ^ 63 ->
    sys_lseek w fd off = off /\ pos (push_event (EvLseek fd off off) w) fd = off;
  read_law : forall w fd n, 0 < n -> 0 <= pos w fd < Z.of_nat (length (contents fd)) ->
    exists r, sys_read w fd n = (r, slice_of (contents fd) (pos w fd) r) /\
      0 < r <= n /\ pos w fd + r <= Z.of_nat (length (contents fd)) /\
      pos (push_event (EvRead fd n r) w) fd = pos w fd + r;
  read_end_law : forall w fd n, 0 < n -> Z.of_nat (length (contents fd)) <= pos w fd ->
    sys_read w fd n = (0, []);
}.

Section file_laws.
Context `{F : Files} (contents : Z -> bytes) (pos : world -> Z -> Z) `{!FileLaws F contents pos}.

Lemma read_exact_fills fuel : forall fd len w,
  0 <= len -> 0 <= pos w fd -> pos w fd + len <= Z.of_nat (length (contents fd)) ->
  (Z.to_nat len < fuel)%nat ->
  exists w', LibcFile.read_exact fuel fd len w = ((Ok tt, slice_of (contents fd) (pos w fd) len), w') /\
    mem w' = mem w.
Proof.
  induction fuel as [|fuel IH]; intros fd len w Hl Hp He Hf; [lia|]. cbn [LibcFile.read_exact].
  destruct (Z.eqb_spec len 0) as [->|Hne]; [by exists w|].
  destruct (read_law w fd len) as (r & -> & Hr & Hend & Hpos); [lia..|].
  rewrite (proj2 (Z.ltb_ge _ _)), (proj2 (Z.eqb_neq _ _)), (proj2 (Z.ltb_ge _ _)) by lia.
  destruct (IH fd (len - r) (push_event (EvRead fd len r) w)) as (w' & -> & Hm); [lia..|].
  exists w'. split; [|done]. rewrite Hpos, slice_of_app by lia. by replace (r + (len - r)) with len by lia.
Qed.

Lemma read_exact_short fuel : forall fd len w,
  0 <= pos w fd -> Z.of_nat (length (contents fd)) < pos w fd + len -> 0 < len ->
  (Z.to_nat len < fuel)%nat ->
  exists bs w', LibcFile.read_exact fuel fd len w = ((Err (io_error "failed to fill buffer"), bs), w').
Proof.
  induction fuel as [|fuel IH]; intros fd len w Hp Hs Hl Hf; [lia|]. cbn [LibcFile.read_exact].
  rewrite (proj2 (Z.eqb_neq len 0)) by lia.
  destruct (decide (pos w fd < Z.of_nat (length (contents fd)))).
  - destruct (read_law w fd len) as (r & -> & Hr & Hend & Hpos); [lia..|].
    rewrite (proj2 (Z.ltb_ge _ _)), (proj2 (Z.eqb_neq _ _)), (proj2 (Z.ltb_ge _ _)) by lia.
    destruct (IH fd (len - r) (push_event (EvRead fd len r) w)) as (bs & w' & ->); [lia..|]. eauto.
  - rewrite read_end_law by lia. simpl. eauto.
Qed.

#[global] Instance ElfFile_serves name fd :
  TCEq (bool_decide (Z.of_nat (length (contents fd)) < 2 ^ 63)) true ->
  Serves (H := LibcFile.object) (mk_file name fd) (contents fd).
Proof.
  intros Hs%TCEq_eq%bool_decide_eq_true. constructor; [done|]. intros off len w Ho Hl He. simpl.
  unfold LibcFile.read, LibcFile.lseek. cbn [f_fd]. cbv zeta.
  destruct (seek_law w fd off ltac:(lia)) as [-> Hp].
  rewrite (proj2 (Z.eqb_neq _ _)), (Z.mod_small off), Z.eqb_refl by lia. cbn [orb negb].
  destruct (read_exact_fills (S (Z.to_nat len)) fd len (push_event (EvLseek fd off off) w)) as (w' & Hr & Hm);
    [lia..|]. rewrite Hp in Hr. eauto.
Qed.

(** C34: reading from a file through libc is exact however the kernel splits the
    transfer: inside the file the buffer gets exactly the requested bytes, and
    past its end the read fails with an error instead of a short buffer. *)
Theorem ElfFile_read_exact (f : ElfFile) (off len : Z) (w : world) :
  0 <= off < 2 ^ 63 -> 0 < len ->
  (off + len <= Z.of_nat (length (contents (f_fd f))) ->
     exists w', LibcFile.read f len off w = ((Ok tt, slice_of (contents (f_fd f)) off len), w')) /\
  (Z.of_nat (length (contents (f_fd f))) < off + len ->
     exists bs w', LibcFile.read f len off w = ((Err (IOError "failed to fill buffer"), bs), w')).
Proof.
  intros Ho Hl. unfold LibcFile.read, LibcFile.lseek. cbv zeta.
  destruct (seek_law w (f_fd f) off ltac:(lia)) as [-> Hp].
  rewrite (proj2 (Z.eqb_neq _ _)), (Z.mod_small off), Z.eqb_refl by lia. cbn [orb negb]. split; intros He.
  - destruct (read_exact_fills (S (Z.to_nat len)) (f_fd f) len (push_event (EvLseek (f_fd f) off off) w))
      as (w' & Hr & Hm); [lia..|]. rewrite Hp in Hr. eauto.
  - apply read_exact_short; lia.
Qed.
End file_laws.

(** Reading a file leaves the memory as it is. *)
Lemma read_exact_mem `{Files} fuel : forall fd n w, mem (LibcFile.read_exact fuel fd n w).2 = mem w.
Proof.
  induction fuel as [|fuel IH]; intros fd n w; cbn [LibcFile.read_exact]; [done|].
  destruct (n =? 0); [done|]. destruct (sys_read w fd n) as [r bs]. cbv zeta.
  destruct (r <? 0); [done|]. destruct (r =? 0); [done|]. destruct (n <? r); [done|].
  specialize (IH fd (n - r) (push_event (EvRead fd n r) w)).
  by destruct (LibcFile.read_exact fuel fd (n - r) _) as [[o rest] w2].
Qed.

Lemma LibcFile_read_mem `{Files} f len off w : mem (LibcFile.read f len off w).2 = mem w.
Proof.
  unfold LibcFile.read, LibcFile.lseek. cbv zeta. destruct ((_ =? -1) || _); [done|]. by rewrite read_exact_mem.
Qed.

(** The read loop ends on every kernel: each round that goes on has stored at
    least one byte. *)
Theorem read_exact_terminates `{Files} (f : ElfFile) (len off : Z) (w : world) :
  (LibcFile.read f len off w).1.1 <> OutOfFuel.
Proof.
  assert (Hloop : forall fuel fd n w, (Z.to_nat n < fuel)%nat ->
            (LibcFile.read_exact fuel fd n w).1.1 <> OutOfFuel).
  { induction fuel as [|fuel IH]; intros fd n w' Hf; [lia|]. cbn [LibcFile.read_exact].
    destruct (Z.eqb_spec n 0); [done|]. destruct (sys_read w' fd n) as [r bs].
    destruct (Z.ltb_spec r 0); [done|]. destruct (Z.eqb_spec r 0); [done|].
    destruct (Z.ltb_spec n r); [done|].
    pose proof (IH fd (n - r) (push_event (EvRead fd n r) w') ltac:(lia)) as Hi.
    destruct (LibcFile.read_exact fuel fd (n - r) _) as [[o rest] w2]. done. }
  unfold LibcFile.read, LibcFile.lseek. cbv zeta. destruct (_ || _); [done|]. apply Hloop. lia.
Qed.

(** With raw system calls a transfer that the kernel splits is not continued:
    the read panics although the file holds all the requested bytes. *)
Theorem syscall_short_read_panics `{Files} (f : ElfFile) (len off r : Z) (bs : bytes) (w : world) :
  sys_lseek w (f_fd f) off = off -> 0 <= off ->
  sys_read (push_event (EvLseek (f_fd f) off off) w) (f_fd f) len = (r, bs) -> 0 <= r < len ->
  exists w', SyscallFile.read f len off w = ((Panic, bs), w').
Proof.
  intros Hs Ho Hr Hlt. unfold SyscallFile.read. rewrite Hs, (proj2 (Z.ltb_ge _ _)), Hr by lia.
  rewrite (proj2 (Z.ltb_ge _ _)), (proj2 (Z.eqb_neq _ _)) by lia. eauto.
Qed.

(** ** A concrete file

    A kernel that keeps the position in the log and transfers at most three bytes
    at a time. *)

Definition log_pos (fd : Z) (l : list event) : Z :=
  fold_left (fun p e => match e with
    | EvLseek fd' _ res => if fd' =? fd then res else p
    | EvRead fd' _ res => if fd' =? fd then p + res else p
    | _ => p
    end) l 0.
Definition world_pos (w : world) (fd : Z) : Z := log_pos fd (log w).

Definition demo_files (contents : Z -> bytes) : Files := {|
  sys_open _ _ := 3;
  sys_lseek _ _ off := off;
  sys_read w fd n :=
    let p := world_pos w fd in
    let r := Z.max 0 (Z.min (Z.min n 3) (Z.of_nat (length (contents fd)) - p)) in
    (r, slice_of (contents fd) p r);
  sys_close _ _ := 0;
  errno_string _ := "errno"%string;
|}.

#[export] Instance demo_file_laws contents : FileLaws (demo_files contents) contents world_pos.
Proof.
  constructor.
  - intros w fd off _. split; [done|]. unfold world_pos, log_pos. simpl. rewrite fold_left_app. simpl.
    by rewrite Z.eqb_refl.
  - intros w fd n Hn Hp. eexists. split; [reflexivity|]. split_and!; [lia..|].
    unfold world_pos at 1, log_pos. simpl. rewrite fold_left_app. simpl. by rewrite Z.eqb_refl.
  - intros w fd n Hn Hp. simpl. rewrite Z.max_l by lia. done.
Qed.

Definition demo_contents : Z -> bytes := fun _ => bytes_of "0123456789".

Lemma ElfFile_read_exact_witness :
  (exists w', @LibcFile.read (demo_files demo_contents) (mk_file [] 3) 7 2 empty_world =
     ((Ok tt, bytes_of "2345678"), w')) /\
  (exists bs w', @LibcFile.read (demo_files demo_contents) (mk_file [] 3) 9 2 empty_world =
     ((Err (IOError "failed to fill buffer"), bs), w')).
Proof.
  split.
  - apply (ElfFile_read_exact (F := demo_files demo_contents) demo_contents world_pos (mk_file [] 3) 2 7);
      simpl; lia.
  - apply (ElfFile_read_exact (F := demo_files demo_contents) demo_contents world_pos (mk_file [] 3) 2 9);
      simpl; lia.
Defined.

Lemma syscall_short_read_panics_witness :
  exists w', @SyscallFile.read (demo_files demo_contents) (mk_file [] 3) 7 2 empty_world =
    ((Panic, bytes_of "234"), w').
Proof.
  apply (@syscall_short_read_panics (demo_files demo_contents) (mk_file [] 3) 7 2 3 (bytes_of "234"));
    [reflexivity|lia|vm_compute; reflexivity|lia].
Defined.
