(* ===== verification/UserData.v ===== *)
(** * UserData: user values attached to an object

    [UserData] of [src/src/format/mod.rs]: a small association list from byte keys to
    boxed values, and the map it implements. *)

From S2P Require Import Prelude Machine.
#[local] Open Scope Z_scope.

Record DataItem := mk_item { item_key : Z; item_value : option any }.
Record UserData := mk_user_data { ud_data : list DataItem }.

Definition user_data_empty : UserData := mk_user_data [].

(** The first item with the key gets the value and gives up its old one; without
    such an item one is appended. *)
Fixpoint insert_items (key value : any) (l : list DataItem) : list DataItem * option any :=
  match l with
  | [] => ([mk_item key (Some value)], None)
  | item :: l' =>
      if item_key item =? key then (mk_item (item_key item) (Some value) :: l', item_value item)
      else let '(l'', old) := insert_items key value l' in (item :: l'', old)
  end.

Definition user_data_insert (d : UserData) (key value : any) : UserData * option any :=
  let '(l, old) := insert_items key value (ud_data d) in (mk_user_data l, old).

Definition user_data_get (d : UserData) (key : Z) : option any :=
  find_map (fun item => if item_key item =? key then item_value item else None) (ud_data d).

(** ** The map it implements *)

(** No item is left empty, and no key occurs twice. *)
Definition user_data_ok (d : UserData) : Prop :=
  Forall (fun item => is_Some (item_value item)) (ud_data d) /\ NoDup (item_key <$> ud_data d).

Definition user_data_map (d : UserData) : gmap Z any :=
  list_to_map ((fun item => (item_key item, default 0 (item_value item))) <$> ud_data d).

Lemma user_data_get_map d k : user_data_ok d -> user_data_get d k = user_data_map d !! k.
Proof.
  destruct d as [l]. intros [Hs Hn]. unfold user_data_get, user_data_map; simpl in *.
  induction l as [|[k' v] l IH]; simpl in *; [done|].
  apply Forall_cons in Hs as [[v' Hv] Hs]. apply NoDup_cons in Hn as [Hk Hn]. simpl in Hv; subst v. simpl.
  destruct (Z.eqb_spec k' k) as [->|Hne]; [by rewrite lookup_insert_eq|].
  rewrite lookup_insert_ne by done. by apply IH.
Qed.

Lemma insert_items_keys k v l :
  item_key <$> (insert_items k v l).1 = if decide (k ∈ item_key <$> l) then item_key <$> l else (item_key <$> l) ++ [k].
Proof.
  induction l as [|[k' v'] l IH]; cbn [insert_items item_key]; [done|]. rewrite fmap_cons. cbn [item_key].
  destruct (Z.eqb_spec k' k) as [->|Hne]; cbn [fst].
  - rewrite fmap_cons, decide_True by (by left). done.
  - destruct (insert_items k v l) as [l'' old] eqn:Hi. cbn [fst] in *. rewrite fmap_cons, IH. cbn [item_key].
    destruct (decide (k ∈ item_key <$> l)).
    + by rewrite decide_True by (by right).
    + rewrite decide_False; [done|]. intros [->|]%elem_of_cons; done.
Qed.

(** [UserData] is a map: inserting answers the value the key had and rebinds
    that key only, and the association list keeps one entry per key. *)
Theorem user_data_insert_map (d : UserData) (k v : Z) :
  user_data_ok d ->
  let '(d', old) := user_data_insert d k v in
  user_data_ok d' /\ old = user_data_get d k /\ user_data_get d' k = Some v /\
  forall k', k' <> k -> user_data_get d' k' = user_data_get d k'.
Proof.
  destruct d as [l]. intros [Hs Hn]. unfold user_data_insert; simpl in *.
  pose proof (insert_items_keys k v l) as Hkeys.
  destruct (insert_items k v l) as [l' old] eqn:Hi. simpl in Hkeys. split.
  - split; simpl.
    + clear Hkeys Hn. revert l' old Hi. induction l as [|[k' v'] l IH]; intros l' old Hi; simpl in *; simplify_eq.
      { by repeat constructor. }
      apply Forall_cons in Hs as [Hv Hs]. destruct (k' =? k); simplify_eq; [constructor; [done|done]|].
      destruct (insert_items k v l) as [l'' o]; simplify_eq. constructor; [done|]. by eapply IH.
    + rewrite Hkeys. case_decide as Hin; [done|]. apply NoDup_app. split_and!; [done| |apply NoDup_singleton].
      intros x Hx ->%list_elem_of_singleton. done.
  - clear Hkeys. unfold user_data_get; simpl. revert l' old Hi.
    induction l as [|[k' v'] l IH]; intros l' old Hi; simpl in *.
    { simplify_eq. simpl. rewrite Z.eqb_refl. split_and!; [done|done|]. intros k' Hne.
      by rewrite (proj2 (Z.eqb_neq _ _)). }
    apply Forall_cons in Hs as [[x Hx] Hs]. apply NoDup_cons in Hn as [_ Hn]. simpl in Hx. subst v'.
    destruct (Z.eqb_spec k' k) as [->|Hne]; simplify_eq; simpl.
    + rewrite Z.eqb_refl. split_and!; [done|done|]. intros k'' Hk. by rewrite (proj2 (Z.eqb_neq k k'')) by done.
    + destruct (insert_items k v l) as [l'' o]; simplify_eq. simpl. rewrite (proj2 (Z.eqb_neq k' k)) by done.
      destruct (IH Hs Hn _ _ eq_refl) as (H1 & H2 & H3). split_and!; [done|done|]. intros k'' Hk.
      destruct (k' =? k''); [done|]. by apply H3.
Qed.

Lemma user_data_insert_map_witness :
  let d := mk_user_data [mk_item 1 (Some 10); mk_item 2 (Some 20)] in
  let '(d', old) := user_data_insert d 2 99 in
  user_data_ok d' /\ old = Some 20 /\ user_data_get d' 2 = Some 99 /\
  forall k', k' <> 2 -> user_data_get d' k' = user_data_get d k'.
Proof.
  apply (user_data_insert_map (mk_user_data [mk_item 1 (Some 10); mk_item 2 (Some 20)]) 2 99).
  split; [by repeat constructor|]. apply (bool_decide_unpack _). by vm_compute.
Defined.
