(* ===== verification/Loader.v ===== *)
(** * Loader: from an ELF file to a mapped object

    Models [src/src/loader.rs]: the ELF header and its validation, the ranges the
    segments are mapped at, the parsing of program headers into a [Builder], the
    buffers, and [Loader::load_impl].

    The [async] twins ([mmap_segment_async], [load_async_impl]) are in [Async.v]. *)

From S2P Require Import Prelude Machine Arch Mmap Segment Dynamic Object UserData.
#[local] Open Scope Z_scope.

(** ** The header *)

Record ElfHeader := mk_ehdr {
  e_ident : bytes;
  e_type : Z;
  e_machine : Z;
  e_version : Z;
  e_entry : Z;
  e_phoff_field : Z;
  e_shoff : Z;
  e_flags : Z;
  e_ehsize : Z;
  e_phentsize_field : Z;
  e_phnum_field : Z;
  e_shentsize : Z;
  e_shnum : Z;
  e_shstrndx : Z;
}.

Definition read_bytes (m : memory) (p : Z) (n : nat) : outcome bytes :=
  unwrap_unchecked (load_bytes m p n).

Definition read_ehdr_at (m : memory) (p : Z) : outcome ElfHeader :=
  ident ← read_bytes m p 16; ty ← read_u16 m (p + 16); machine ← read_u16 m (p + 18);
  version ← read_u32 m (p + 20); entry ← read_u64 m (p + 24); phoff ← read_u64 m (p + 32);
  shoff ← read_u64 m (p + 40); flags ← read_u32 m (p + 48); ehsize ← read_u16 m (p + 52);
  phentsize ← read_u16 m (p + 54); phnum ← read_u16 m (p + 56); shentsize ← read_u16 m (p + 58);
  shnum ← read_u16 m (p + 60); shstrndx ← read_u16 m (p + 62);
  Ok (mk_ehdr ident ty machine version entry phoff shoff flags ehsize phentsize phnum shentsize shnum
        shstrndx).

Definition is_dylib (h : ElfHeader) : bool := e_type h =? ET_DYN.

Definition vaildate `{Arch} (h : ElfHeader) : outcome unit :=
  if negb (bool_decide (take 4 (e_ident h) = ELFMAGIC)) then Err (parse_ehdr_error "invalid ELF magic")
  else
    class ← unwrap (e_ident h !! EI_CLASS);
    if negb (class =? E_CLASS) then Err (parse_ehdr_error "file class mismatch")
    else
      ver ← unwrap (e_ident h !! EI_VERSION);
      if negb (ver =? EV_CURRENT) then Err (parse_ehdr_error "invalid ELF version")
      else if negb (e_machine h =? EM_ARCH) then Err (parse_ehdr_error "file arch mismatch")
      else Ok tt.

Definition e_phnum (h : ElfHeader) : Z := e_phnum_field h.
Definition e_phentsize (h : ElfHeader) : Z := e_phentsize_field h.
Definition e_phoff (h : ElfHeader) : Z := e_phoff_field h.

Definition phdr_range `{Config} (h : ElfHeader) : outcome (Z * Z) :=
  phdrs_size ← umul (e_phentsize h) (e_phnum h);
  let phdr_start := e_phoff h in
  phdr_end ← uadd phdr_start phdrs_size;
  Ok (phdr_start, phdr_end).

(** The header at the start of a buffer of [len] bytes. *)
Definition ElfHeader_new `{Config} `{Arch} (data : memory) (len : Z) : outcome ElfHeader :=
  _ ← debug_assert (EHDR_SIZE <=? len);
  ehdr ← read_ehdr_at data 0;
  _ ← vaildate ehdr;
  Ok ehdr.

(** ** What to map where *)

Record MmapRange := mk_range { rg_len : Z; rg_offset : Z }.
Record MmapParam := mk_param {
  pm_addr : option Z;
  pm_len : Z;
  pm_prot : Z;
  pm_flags : Z;
  pm_range : MmapRange;
}.

(** The [let mut] variables of [create_segments]. *)
Record extent := mk_extent { min_vaddr : Z; max_vaddr : Z; min_off : Z; min_filesz : Z; min_prot : Z }.

Section params.
Context `{Config}.

Definition extent_step (s : extent) (phdr : ElfPhdr) : outcome extent :=
  if p_type phdr =? PT_LOAD then
    let vaddr_start := p_vaddr phdr in
    vaddr_end ← uadd (p_vaddr phdr) (p_memsz phdr);
    let s := if vaddr_start <? min_vaddr s then
               mk_extent vaddr_start (max_vaddr s) (p_offset phdr) (p_filesz phdr) (p_flags phdr)
             else s in
    Ok (if max_vaddr s <? vaddr_end then
          mk_extent (min_vaddr s) vaddr_end (min_off s) (min_filesz s) (min_prot s)
        else s)
  else Ok s.

Definition create_segments (phdrs : list ElfPhdr) (is_dylib : bool) : outcome (MmapParam * Z) :=
  s ← fold_outcome extent_step phdrs (mk_extent (U64_LIM - 1) 0 0 0 0);
  max_vaddr ← page_round_up (max_vaddr s);
  let min_vaddr := Z.land (min_vaddr s) MASK in
  total_size ← usub max_vaddr min_vaddr;
  let prot := map_prot (min_prot s) in
  Ok (mk_param (if is_dylib then None else Some min_vaddr) total_size prot MAP_PRIVATE
        (mk_range (min_filesz s) (min_off s)),
      min_vaddr).

Definition load_segment (segments : ElfSegments) (phdr : ElfPhdr) : outcome (option MmapParam) :=
  let addr_min := seg_offset segments in
  let base := base segments in
  let min_vaddr := Z.land (p_vaddr phdr) MASK in
  top ← uadd (p_vaddr phdr) (p_memsz phdr);
  max_vaddr ← page_round_up top;
  memsz ← usub max_vaddr min_vaddr;
  let prot := map_prot (p_flags phdr) in
  real_addr ← uadd min_vaddr base;
  let offset := Z.land (p_offset phdr) MASK in
  align_len ← usub (p_offset phdr) offset;
  filesz ← uadd (p_filesz phdr) align_len;
  Ok (if negb (addr_min =? min_vaddr) then
        Some (mk_param (Some real_addr) memsz prot (Z.lor MAP_PRIVATE MAP_FIXED) (mk_range filesz offset))
      else None).
End params.

(** ** The builder *)

Record InitParams := mk_init_params { argc : Z; argv : Z; envp : Z }.

Record Builder := mk_builder {
  phdr_mmap : option slice;
  b_name : bytes;
  b_lazy_bind : option bool;
  b_ehdr : ElfHeader;
  b_relro : option ELFRelro;
  b_dynamic : option ElfDynamic;
  b_user_data : UserData;
  b_segments : ElfSegments;
  b_init_params : option InitParams;
  b_interp : option bytes;
}.

Definition Builder_new (segments : ElfSegments) (name : bytes) (lazy_bind : option bool) (ehdr : ElfHeader)
    (init_params : option InitParams) : Builder :=
  mk_builder None name lazy_bind ehdr None None user_data_empty segments init_params None.

(** A user hook: it may update the user data, or fail with a custom error. *)
Definition Hook : Type := bytes -> ElfPhdr -> ElfSegments -> UserData -> M (UserData + any).

(** ** Buffers

    The stack buffer starts uninitialised: it is a memory of its own, addressed by
    offset, in which only written bytes exist. *)
Record ElfBuf := mk_buf { stack_buf : memory; heap_buf : bytes }.

Definition MAX_BUF_SIZE := 736.   (** [EHDR_SIZE + 12 * PHDR_SIZE] *)
Definition ElfBuf_new : ElfBuf := mk_buf ∅ [].

Definition get_phdrs_from_stack `{Config} (b : ElfBuf) (phdr_start phdr_end : Z) :
    outcome (option (list ElfPhdr)) :=
  if phdr_end <=? MAX_BUF_SIZE then
    n ← usub phdr_end phdr_start;
    phdrs ← read_array read_phdr_at PHDR_SIZE (stack_buf b) phdr_start (Z.to_nat (n / PHDR_SIZE));
    Ok (Some phdrs)
  else Ok None.

Definition get_phdrs_from_heap (b : ElfBuf) : outcome (list ElfPhdr) :=
  read_array read_phdr_at PHDR_SIZE (store_bytes ∅ 0 (heap_buf b)) 0
    (Z.to_nat (Z.of_nat (length (heap_buf b)) / PHDR_SIZE)).

(** [Vec::resize(n, 0)] *)
Definition vec_resize (v : bytes) (n : nat) : bytes := take n v ++ replicate (n - length v) 0.

(** [object.read(buf, off)?] into a buffer of [len] bytes; after an error nothing
    reads the buffer again before it is refilled. *)
Definition read_buf `{ElfObject T} (o : T) (len off : Z) : M bytes := fun w =>
  let '((r, bs), w') := obj_read o len off w in
  (match r with Ok _ => Ok bs | Err e => Err e | Panic => Panic | Fault => Fault | OutOfFuel => OutOfFuel end, w').

Section loader.
Context `{Config} `{Arch} `{Mmap} `{ElfObject T}.

Definition mmap_segment (param : MmapParam) (object : T) : M Z :=
  let! '(ptr, need_copy) :=
    mmap (pm_addr param) (pm_len param) (pm_prot param) (pm_flags param) (rg_offset (pm_range param))
      (as_fd object) false in
  if need_copy : bool then
    read_mem object ptr (rg_len (pm_range param)) (rg_offset (pm_range param)) ;;
    mprotect ptr (pm_len param) (pm_prot param) ;;
    ret ptr
  else ret ptr.

Definition fill_bss (segments : ElfSegments) (phdr : ElfPhdr) : M unit :=
  if negb (p_filesz phdr =? p_memsz phdr) then
    let prot := map_prot (p_flags phdr) in
    let! top := lift (uadd (p_vaddr phdr) (p_memsz phdr)) in
    let! max_vaddr := lift (page_round_up top) in
    let! zero_start := lift (uadd (p_vaddr phdr) (p_filesz phdr)) in
    let! zero_end := lift (page_round_up zero_start) in
    let! p := lift (get_mut_ptr segments zero_start) in
    let! n := lift (usub zero_end zero_start) in
    write_bytes p (replicate (Z.to_nat n) 0) ;;
    if zero_end <? max_vaddr then
      let! zero_mmap_addr := lift (uadd (base segments) zero_end) in
      let! zero_mmap_len := lift (usub max_vaddr zero_end) in
      mmap_anonymous zero_mmap_addr zero_mmap_len prot (Z.lor MAP_PRIVATE MAP_FIXED) ;;
      ret tt
    else ret tt
  else ret tt.

Definition exec_hook (b : Builder) (hook : Hook) (phdr : ElfPhdr) : M Builder :=
  let! r := hook (b_name b) phdr (b_segments b) (b_user_data b) in
  match r with
  | inl ud =>
      ret (mk_builder (phdr_mmap b) (b_name b) (b_lazy_bind b) (b_ehdr b) (b_relro b) (b_dynamic b) ud
             (b_segments b) (b_init_params b) (b_interp b))
  | inr err =>
      let! name := lift (to_str_unwrap (b_name b)) in
      throw (parse_phdr_error
               ("failed to execute the hook function on dylib: " ++ string_of_bytes name) err)
  end.

Definition parse_other_phdr (b : Builder) (phdr : ElfPhdr) : M Builder :=
  let segs := b_segments b in
  let t := p_type phdr in
  if t =? PT_DYNAMIC then
    let! p := lift (get_ptr segs (p_paddr phdr)) in
    let! dynamic := reads (fun m => ElfDynamic_new m p segs) in
    ret (mk_builder (phdr_mmap b) (b_name b) (b_lazy_bind b) (b_ehdr b) (b_relro b) (Some dynamic)
           (b_user_data b) segs (b_init_params b) (b_interp b))
  else if t =? PT_GNU_RELRO then
    let! relro := lift (ELFRelro_new phdr (base segs)) in
    ret (mk_builder (phdr_mmap b) (b_name b) (b_lazy_bind b) (b_ehdr b) (Some relro) (b_dynamic b)
           (b_user_data b) segs (b_init_params b) (b_interp b))
  else if t =? PT_PHDR then
    let! s := lift (get_slice PHDR_SIZE segs (p_vaddr phdr) (p_memsz phdr)) in
    ret (mk_builder (Some s) (b_name b) (b_lazy_bind b) (b_ehdr b) (b_relro b) (b_dynamic b)
           (b_user_data b) segs (b_init_params b) (b_interp b))
  else if t =? PT_INTERP then
    let! p := lift (get_ptr segs (p_vaddr phdr)) in
    let! s := reads (fun m => s ← cstr_from_ptr m p; to_str_unwrap s) in
    ret (mk_builder (phdr_mmap b) (b_name b) (b_lazy_bind b) (b_ehdr b) (b_relro b) (b_dynamic b)
           (b_user_data b) segs (b_init_params b) (Some s))
  else ret b.

Definition prepare_ehdr (buf : ElfBuf) (object : T) : M (ElfHeader * ElfBuf) :=
  let! bs := read_buf object MAX_BUF_SIZE 0 in
  let buf := mk_buf (store_bytes (stack_buf buf) 0 bs) (heap_buf buf) in
  let! ehdr := lift (ElfHeader_new (stack_buf buf) MAX_BUF_SIZE) in
  ret (ehdr, buf).

(** Fills the heap buffer and reads it as program headers. *)
Definition fill_heap (buf : ElfBuf) (object : T) (phdr_start phdr_end : Z) : M (list ElfPhdr * ElfBuf) :=
  let! n := lift (usub phdr_end phdr_start) in
  let! bs := read_buf object n phdr_start in
  let v := vec_resize (heap_buf buf) (Z.to_nat n) in
  let buf := mk_buf (stack_buf buf) (bs ++ drop (length bs) v) in
  let! phdrs := lift (get_phdrs_from_heap buf) in
  ret (phdrs, buf).

Definition prepare_phdr (buf : ElfBuf) (ehdr : ElfHeader) (object : T) : M (list ElfPhdr * ElfBuf) :=
  let! '(phdr_start, phdr_end) := lift (phdr_range ehdr) in
  let! stack := lift (get_phdrs_from_stack buf phdr_start phdr_end) in
  match stack with
  | Some phdrs => ret (phdrs, buf)
  | None => fill_heap buf object phdr_start phdr_end
  end.

(** One round of the loop over the program headers. *)
Definition load_phdr (hook : option Hook) (object : T) (builder : Builder) (phdr : ElfPhdr) : M Builder :=
  let! builder := match hook with Some hook => exec_hook builder hook phdr | None => ret builder end in
  if p_type phdr =? PT_LOAD then
    let! param := lift (load_segment (b_segments builder) phdr) in
    match param with
    | Some param =>
        mmap_segment param object ;;
        fill_bss (b_segments builder) phdr ;;
        ret builder
    | None => ret builder
    end
  else parse_other_phdr builder phdr.

Fixpoint load_phdrs (hook : option Hook) (object : T) (builder : Builder) (phdrs : list ElfPhdr) :
    M Builder :=
  match phdrs with
  | [] => ret builder
  | phdr :: phdrs' =>
      let! builder := load_phdr hook object builder phdr in
      load_phdrs hook object builder phdrs'
  end.
End loader.

(** ** The loader *)

Record Loader := mk_loader {
  init_params : option InitParams;
  ld_buf : ElfBuf;
  ld_hook : option Hook;
}.

Definition Loader_new : Loader := mk_loader None ElfBuf_new None.
Definition set_init_params (l : Loader) (argc argv envp : Z) : Loader :=
  mk_loader (Some (mk_init_params argc argv envp)) (ld_buf l) (ld_hook l).
Definition set_hook (l : Loader) (hook : Hook) : Loader := mk_loader (init_params l) (ld_buf l) (Some hook).
Definition set_buf (l : Loader) (b : ElfBuf) : Loader := mk_loader (init_params l) b (ld_hook l).

Section load.
Context `{Config} `{Arch} `{Mmap} `{ElfObject T}.

Definition read_ehdr (l : Loader) (object : T) : M (ElfHeader * Loader) :=
  let! bs := read_buf object EHDR_SIZE 0 in
  let buf := mk_buf (store_bytes (stack_buf (ld_buf l)) 0 bs) (heap_buf (ld_buf l)) in
  let! ehdr := lift (ElfHeader_new (stack_buf buf) EHDR_SIZE) in
  ret (ehdr, set_buf l buf).

Definition read_phdr (l : Loader) (object : T) (ehdr : ElfHeader) : M (list ElfPhdr * Loader) :=
  let! '(phdr_start, phdr_end) := lift (phdr_range ehdr) in
  let! '(phdrs, buf) := fill_heap (ld_buf l) object phdr_start phdr_end in
  ret (phdrs, set_buf l buf).

(** The object is dropped when the function ends; the builder, with the mapping,
    when it ends without handing it over. *)
Definition load_impl (l : Loader) (ehdr : ElfHeader) (object : T) (lazy_bind : option bool) :
    M (Builder * list ElfPhdr * Loader) :=
  finally
    (let! '(phdrs, buf) := prepare_phdr (ld_buf l) ehdr object in
     let! '(param, min_vaddr) := lift (create_segments phdrs (is_dylib ehdr)) in
     let! memory := mmap_segment param object in
     let segments := mk_segments memory min_vaddr (pm_len param) munmap in
     on_unwind
       (let builder := Builder_new segments (file_name object) lazy_bind ehdr (init_params l) in
        let! builder := load_phdrs (ld_hook l) object builder phdrs in
        ret (builder, phdrs, set_buf l buf))
       (drop_segments segments))
    (obj_drop object).
End load.

(** ** Validation *)

(** C39: A header is accepted exactly when its magic, class, version and machine are
    those of the running CPU; every other header is refused with a parse error,
    and none panics. *)
Theorem vaildate_exact `{Arch} (h : ElfHeader) :
  length (e_ident h) = 16%nat ->
  (vaildate h = Ok tt <->
     take 4 (e_ident h) = ELFMAGIC /\ e_ident h !! EI_CLASS = Some ELFCLASS64 /\
     e_ident h !! EI_VERSION = Some EV_CURRENT /\ e_machine h = EM_ARCH) /\
  (vaildate h = Ok tt \/ exists msg, vaildate h = Err (ParseEhdrError msg)).
Proof.
  intros Hl. unfold vaildate.
  destruct (decide (take 4 (e_ident h) = ELFMAGIC)) as [Hm|Hm]; cycle 1.
  { rewrite bool_decide_false by done. simpl. split; [split; naive_solver|]. right; eauto. }
  rewrite bool_decide_true by done. cbn [negb].
  destruct (lookup_lt_is_Some_2 (e_ident h) EI_CLASS) as [c Hc]; [unfold EI_CLASS; lia|].
  destruct (lookup_lt_is_Some_2 (e_ident h) EI_VERSION) as [v Hv]; [unfold EI_VERSION; lia|].
  rewrite Hc, Hv. simpl. unfold E_CLASS.
  destruct (Z.eqb_spec c ELFCLASS64) as [->|]; simpl; [|split; [split; naive_solver|eauto]].
  destruct (Z.eqb_spec v EV_CURRENT) as [->|]; simpl; [|split; [split; naive_solver|eauto]].
  destruct (Z.eqb_spec (e_machine h) EM_ARCH) as [He|]; simpl; [|split; [split; naive_solver|eauto]].
  split; [split; naive_solver|]. by left.
Qed.

(** ** The extent of the image *)

Definition is_load (p : ElfPhdr) : Prop := p_type p = PT_LOAD.
#[export] Instance is_load_dec p : Decision (is_load p).
Proof. unfold is_load. apply _. Defined.

(** A segment whose addresses leave room for rounding up to a page. *)
Definition load_ok (p : ElfPhdr) : Prop :=
  0 <= p_vaddr p /\ 0 <= p_filesz p <= p_memsz p /\ 0 < p_memsz p /\ p_vaddr p + p_memsz p + 4096 < U64_LIM /\
  0 <= p_offset p.

Definition page_down (x : Z) : Z := x - x mod 4096.
Definition page_up (x : Z) : Z := x + 4095 - (x + 4095) mod 4096.

Lemma page_down_facts x : page_down x mod 4096 = 0 /\ page_down x <= x < page_down x + 4096.
Proof. unfold page_down. zlia. Qed.
Lemma page_down_nonneg x : 0 <= x -> 0 <= page_down x.
Proof. unfold page_down. zlia. Qed.
Lemma page_up_facts x : page_up x mod 4096 = 0 /\ x <= page_up x < x + 4096.
Proof. unfold page_up. zlia. Qed.

Lemma page_round_up_spec `{Config} x : 0 <= x -> x + 4096 < U64_LIM -> page_round_up x = Ok (page_up x).
Proof. apply page_round_up_ok. Qed.
Lemma land_MASK_down x : 0 <= x < U64_LIM -> Z.land x MASK = page_down x.
Proof. apply land_MASK. Qed.

(** What the scan over the headers has found: the lowest segment and the highest
    end. *)
Record extent_of (s : extent) (ps : list ElfPhdr) : Prop := {
  ex_low : exists p, p ∈ ps /\ is_load p /\ min_vaddr s = p_vaddr p /\ min_off s = p_offset p /\
    min_filesz s = p_filesz p /\ min_prot s = p_flags p;
  ex_high : exists p, p ∈ ps /\ is_load p /\ max_vaddr s = p_vaddr p + p_memsz p;
  ex_all : forall p, p ∈ ps -> is_load p -> min_vaddr s <= p_vaddr p /\ p_vaddr p + p_memsz p <= max_vaddr s;
}.

Definition extent_init := mk_extent (U64_LIM - 1) 0 0 0 0.

Section extent.
Context `{Config}.

Definition extent_inv (s : extent) (ps : list ElfPhdr) : Prop :=
  if decide (Exists is_load ps) then extent_of s ps else s = extent_init.

Lemma extent_step_inv s ps p :
  (is_load p -> load_ok p) -> extent_inv s ps ->
  exists s', extent_step s p = Ok s' /\ extent_inv s' (ps ++ [p]).
Proof.
  intros Hp Hinv. unfold extent_step.
  destruct (Z.eqb_spec (p_type p) PT_LOAD) as [Hl|Hl]; cycle 1.
  { exists s. split; [done|]. unfold extent_inv in *.
    assert (Hin : forall q, q ∈ ps ++ [p] -> is_load q -> q ∈ ps).
    { intros q [Hq|Hq%list_elem_of_singleton]%elem_of_app Hld; [done|]. subst q. done. }
    destruct (decide (Exists is_load ps)) as [He|Hne].
    - rewrite decide_True by (apply Exists_app; by left). destruct Hinv as [Hlo Hhi Hall]. split.
      + destruct Hlo as (q & Hq & ?). exists q. split; [apply elem_of_app; by left|done].
      + destruct Hhi as (q & Hq & ?). exists q. split; [apply elem_of_app; by left|done].
      + intros q Hq Hld. apply Hall; auto.
    - rewrite decide_False; [done|]. intros [?|Hx]%Exists_app; [done|].
      by apply Exists_cons in Hx as [?|?%Exists_nil]. }
  destruct (Hp Hl) as (Hv & Hf & Hm & Hb & _). rewrite uadd_ok by lia. rewrite bind_Ok.
  eexists. split; [reflexivity|]. unfold extent_inv in *.
  rewrite (decide_True (P := Exists is_load (ps ++ [p]))) by (apply Exists_app; right; by constructor).
  assert (Hldp : is_load p) by exact Hl.
  assert (Hpin : p ∈ ps ++ [p]) by (apply elem_of_app; right; by constructor).
  destruct (decide (Exists is_load ps)) as [He|Hne].
  - destruct Hinv as [(q1 & Hq1 & Hld1 & E1 & E2 & E3 & E4) (q2 & Hq2 & Hld2 & E5) Hall].
    assert (Hin : forall q, q ∈ ps -> q ∈ ps ++ [p]) by (intros; apply elem_of_app; by left).
    destruct (Z.ltb_spec (p_vaddr p) (min_vaddr s)); cbn [max_vaddr min_vaddr min_off min_filesz min_prot];
      destruct (Z.ltb_spec (max_vaddr s) (p_vaddr p + p_memsz p));
      (split; cbn [max_vaddr min_vaddr min_off min_filesz min_prot];
       [first [solve [exists p; split_and!; auto] | solve [exists q1; split_and!; auto]]
       |first [solve [exists p; split_and!; auto] | solve [exists q2; split_and!; auto]]
       |intros q [Hq|Hq%list_elem_of_singleton]%elem_of_app Hld;
        [destruct (Hall q Hq Hld); lia|subst q; lia]]).
  - subst s. cbn [max_vaddr min_vaddr min_off min_filesz min_prot extent_init].
    destruct (Z.ltb_spec (p_vaddr p) (U64_LIM - 1)); [|lia]. cbn [max_vaddr min_vaddr min_off min_filesz min_prot].
    destruct (Z.ltb_spec 0 (p_vaddr p + p_memsz p)); [|lia]. split; cbn; [by exists p|by exists p|].
    intros q [Hq|Hq%list_elem_of_singleton]%elem_of_app Hld; [|subst q; lia].
    destruct Hne. apply Exists_exists. eauto.
Qed.

Lemma extent_fold_inv l : forall s ps,
  Forall (fun p => is_load p -> load_ok p) l -> extent_inv s ps ->
  exists s', fold_outcome extent_step l s = Ok s' /\ extent_inv s' (ps ++ l).
Proof.
  induction l as [|p l IH]; intros s ps Hall Hinv; cbn [fold_outcome].
  - exists s. by rewrite app_nil_r.
  - apply Forall_cons in Hall as [Hp Hall]. destruct (extent_step_inv s ps p Hp Hinv) as (s1 & -> & H1).
    rewrite bind_Ok. destruct (IH s1 _ Hall H1) as (s' & -> & H'). exists s'. split; [done|].
    by rewrite <- app_assoc in H'.
Qed.

Lemma extent_scan phdrs :
  Forall (fun p => is_load p -> load_ok p) phdrs -> Exists is_load phdrs ->
  exists s, fold_outcome extent_step phdrs extent_init = Ok s /\ extent_of s phdrs.
Proof.
  intros Hall Hex. destruct (extent_fold_inv phdrs extent_init []) as (s & Hs & Hinv); [done| |].
  - unfold extent_inv. rewrite decide_False; [done|]. by intros ?%Exists_nil.
  - exists s. split; [done|]. unfold extent_inv in Hinv. simpl in Hinv. by rewrite decide_True in Hinv.
Qed.

(** The first mapping: whole pages from the lowest segment to the highest end. *)
Lemma create_segments_extent phdrs dylib :
  Forall (fun p => is_load p -> load_ok p) phdrs -> Exists is_load phdrs ->
  exists s, extent_of s phdrs /\
    create_segments phdrs dylib =
      Ok (mk_param (if dylib then None else Some (page_down (min_vaddr s)))
            (page_up (max_vaddr s) - page_down (min_vaddr s)) (map_prot (min_prot s)) MAP_PRIVATE
            (mk_range (min_filesz s) (min_off s)),
          page_down (min_vaddr s)).
Proof.
  intros Hall Hex. destruct (extent_scan phdrs Hall Hex) as (s & Hs & Hext). exists s. split; [done|].
  unfold create_segments. fold extent_init. rewrite Hs, bind_Ok. rewrite Forall_forall in Hall.
  destruct Hext as [(p & Hp & Hld & E & _) (q & Hq & Hldq & Eq) Hb].
  destruct (Hall p Hp Hld) as (? & ? & ? & ? & _). destruct (Hall q Hq Hldq) as (? & ? & ? & ? & _).
  destruct (Hb q Hq Hldq) as [? ?].
  rewrite page_round_up_spec, bind_Ok by lia. rewrite land_MASK_down by lia.
  pose proof (page_down_facts (min_vaddr s)). pose proof (page_up_facts (max_vaddr s)).
  pose proof (page_down_nonneg (min_vaddr s)). by rewrite usub_ok by lia.
Qed.

(** C29: the first mapping covers every loadable segment with whole pages and no
    page more than needed: it begins in the page of the lowest segment, whose
    file range and protection it has, and ends in the page of the highest end;
    an executable asks for its link address, a library for any. *)
Theorem create_segments_covers (phdrs : list ElfPhdr) (dylib : bool) :
  Forall (fun p => is_load p -> load_ok p) phdrs -> Exists is_load phdrs ->
  exists param lo hi low high,
    create_segments phdrs dylib = Ok (param, lo) /\
    pm_addr param = (if dylib then None else Some lo) /\ pm_len param = hi - lo /\
    lo mod 4096 = 0 /\ hi mod 4096 = 0 /\
    (forall p, p ∈ phdrs -> is_load p -> lo <= p_vaddr p /\ p_vaddr p + p_memsz p <= hi) /\
    (low ∈ phdrs /\ is_load low /\ p_vaddr low < lo + 4096 /\
     pm_range param = mk_range (p_filesz low) (p_offset low) /\ pm_prot param = map_prot (p_flags low)) /\
    (high ∈ phdrs /\ is_load high /\ hi - 4096 < p_vaddr high + p_memsz high).
Proof.
  intros Hall Hex. destruct (create_segments_extent phdrs dylib Hall Hex) as (s & Hext & Hc).
  destruct Hext as [(p & Hp & Hld & E1 & E2 & E3 & E4) (q & Hq & Hldq & Eq) Hb].
  pose proof (page_down_facts (min_vaddr s)). pose proof (page_up_facts (max_vaddr s)).
  eexists _, (page_down (min_vaddr s)), (page_up (max_vaddr s)), p, q.
  split; [exact Hc|]. cbn [pm_addr pm_len pm_range pm_prot]. split_and!; try done; try lia.
  - intros x Hx Hldx. destruct (Hb x Hx Hldx). lia.
  - by rewrite E2, E3.
  - by rewrite E4.
Qed.

(** Without a loadable segment the size underflows: the dev profile panics, the
    release profile maps one page for an object that has none. *)
Lemma create_segments_no_load phdrs dylib :
  ~ Exists is_load phdrs ->
  create_segments phdrs dylib =
    if debug_assertions then Panic
    else Ok (mk_param (if dylib then None else Some (U64_LIM - 4096)) 4096 0 MAP_PRIVATE (mk_range 0 0),
             U64_LIM - 4096).
Proof.
  intros Hne. destruct (extent_fold_inv phdrs extent_init []) as (s & Hs & Hinv).
  - apply Forall_forall. intros p Hp Hld. destruct Hne. apply Exists_exists. eauto.
  - unfold extent_inv. rewrite decide_False; [done|]. by intros ?%Exists_nil.
  - unfold create_segments. fold extent_init. rewrite Hs, bind_Ok. unfold extent_inv in Hinv. simpl in Hinv.
    rewrite decide_False in Hinv by done. subst s. unfold extent_init. cbn [min_vaddr max_vaddr min_off min_filesz min_prot].
    rewrite page_round_up_spec, bind_Ok by lia. unfold usub, checked. destruct debug_assertions; by vm_compute.
Qed.
End extent.

(** ** Reading the headers *)

Lemma load_bytes_shift m1 m2 a1 a2 n :
  (forall i, 0 <= i < Z.of_nat n -> m1 !! (a1 + i) = m2 !! (a2 + i)) ->
  load_bytes m1 a1 n = load_bytes m2 a2 n.
Proof.
  revert a1 a2. induction n as [|n IH]; intros a1 a2 Hall; simpl; [done|].
  pose proof (Hall 0 ltac:(lia)) as H0. rewrite !Z.add_0_r in H0. rewrite H0.
  rewrite (IH (a1 + 1) (a2 + 1)); [done|]. intros i Hi. rewrite <- !Z.add_assoc. apply Hall. lia.
Qed.

Lemma load_le_shift m1 m2 a1 a2 k1 k2 n :
  (forall i, k1 <= i < k2 -> m1 !! (a1 + i) = m2 !! (a2 + i)) ->
  forall o, k1 <= o -> o + Z.of_nat n <= k2 -> load_le m1 (a1 + o) n = load_le m2 (a2 + o) n.
Proof.
  intros Hall o H1 H2. unfold load_le. rewrite (load_bytes_shift m1 m2 (a1 + o) (a2 + o)); [done|].
  intros i Hi. rewrite <- !Z.add_assoc. apply Hall. lia.
Qed.

Lemma read_phdr_shift m1 m2 a1 a2 :
  (forall i, 0 <= i < PHDR_SIZE -> m1 !! (a1 + i) = m2 !! (a2 + i)) ->
  read_phdr_at m1 a1 = read_phdr_at m2 a2.
Proof.
  unfold PHDR_SIZE. intros Hall. unfold read_phdr_at, read_u32, read_u64.
  pose proof (load_le_shift m1 m2 a1 a2 0 56) as Hs.
  pose proof (Hs 4%nat Hall 0 ltac:(lia) ltac:(lia)) as H0. rewrite !Z.add_0_r in H0. rewrite H0.
  rewrite (Hs 4%nat Hall 4), (Hs 8%nat Hall 8), (Hs 8%nat Hall 16), (Hs 8%nat Hall 24), (Hs 8%nat Hall 32),
    (Hs 8%nat Hall 40), (Hs 8%nat Hall 48) by lia. done.
Qed.

Lemma read_phdrs_shift m1 m2 n : forall a1 a2,
  (forall i, 0 <= i < PHDR_SIZE * Z.of_nat n -> m1 !! (a1 + i) = m2 !! (a2 + i)) ->
  read_array read_phdr_at PHDR_SIZE m1 a1 n = read_array read_phdr_at PHDR_SIZE m2 a2 n.
Proof.
  unfold PHDR_SIZE. induction n as [|n IH]; intros a1 a2 Hall; simpl; [done|].
  rewrite (read_phdr_shift m1 m2 a1 a2) by (unfold PHDR_SIZE; intros i Hi; apply Hall; lia).
  rewrite (IH (a1 + 56) (a2 + 56)); [done|]. intros i Hi. rewrite <- !Z.add_assoc. apply Hall. lia.
Qed.

Lemma load_le_mapped m a n : mapped_range m a (Z.of_nat n) -> is_ok (load_le m a n) = true.
Proof.
  intros Hm. unfold load_le. destruct (proj2 (load_bytes_mapped m a n)) as [bs ->]; [|done].
  intros i Hi. apply Hm. lia.
Qed.

Lemma is_ok_inv {A} (o : outcome A) : is_ok o = true -> exists a, o = Ok a.
Proof. destruct o; try done. eauto. Qed.

Lemma read_phdr_mapped m a : mapped_range m a PHDR_SIZE -> exists p, read_phdr_at m a = Ok p.
Proof.
  unfold PHDR_SIZE. intros Hm. unfold read_phdr_at, read_u32, read_u64.
  assert (Hl : forall o n, 0 <= o -> o + Z.of_nat n <= 56 -> exists v, load_le m (a + o) n = Ok v).
  { intros o n H1 H2. apply is_ok_inv, load_le_mapped. intros i Hi. apply Hm. lia. }
  destruct (Hl 0 4%nat) as [v0 H0]; [lia..|]. rewrite Z.add_0_r in H0. rewrite H0.
  destruct (Hl 4 4%nat) as [v1 ->]; [lia..|]. destruct (Hl 8 8%nat) as [v2 ->]; [lia..|].
  destruct (Hl 16 8%nat) as [v3 ->]; [lia..|]. destruct (Hl 24 8%nat) as [v4 ->]; [lia..|].
  destruct (Hl 32 8%nat) as [v5 ->]; [lia..|]. destruct (Hl 40 8%nat) as [v6 ->]; [lia..|].
  destruct (Hl 48 8%nat) as [v7 ->]; [lia..|]. simpl. eauto.
Qed.

Lemma read_phdrs_mapped m n : forall a,
  mapped_range m a (PHDR_SIZE * Z.of_nat n) -> exists ps, read_array read_phdr_at PHDR_SIZE m a n = Ok ps.
Proof.
  induction n as [|n IH]; intros a Hm; simpl; [eauto|].
  destruct (read_phdr_mapped m a) as [p ->]; [intros i Hi; apply Hm; unfold PHDR_SIZE in *; lia|].
  destruct (IH (a + PHDR_SIZE)) as [ps ->]; [intros i Hi; apply Hm; unfold PHDR_SIZE in *; lia|]. simpl. eauto.
Qed.

Section headers.
Context `{Config} `{Arch} `{EO : ElfObject T} (o : T) (data : bytes) `{!Serves o data}.

Lemma read_buf_serves off len w :
  0 <= off -> 0 <= len -> off + len <= Z.of_nat (length data) ->
  exists w', read_buf o len off w = (Ok (slice_of data off len), w') /\ mem w' = mem w.
Proof.
  intros Ho Hl He. unfold read_buf. destruct (serves_read off len w Ho Hl He) as (w' & -> & ?). eauto.
Qed.

(** The run behind the theorem below. *)
Lemma prepare_phdr_reads (buf buf1 : ElfBuf) (h : ElfHeader) (w w1 : world) :
  MAX_BUF_SIZE <= Z.of_nat (length data) ->
  prepare_ehdr buf o w = (Ok (h, buf1), w1) ->
  0 <= e_phoff h -> 0 <= e_phnum h -> e_phentsize h = PHDR_SIZE ->
  e_phoff h + PHDR_SIZE * e_phnum h <= Z.of_nat (length data) ->
  exists ps buf2 w2, prepare_phdr buf1 h o w1 = (Ok (ps, buf2), w2) /\
    read_array read_phdr_at PHDR_SIZE (store_bytes ∅ 0 data) (e_phoff h) (Z.to_nat (e_phnum h)) = Ok ps /\
    mem w2 = mem w1.
Proof.
  intros Hmax Hprep Hoff Hnum Hent Hend.
  pose proof (serves_size (o := o) (data := data)) as Hsize.
  unfold prepare_ehdr in Hprep. destruct (read_buf_serves 0 MAX_BUF_SIZE w) as (w0 & Hr & _); [unfold MAX_BUF_SIZE in *; lia..|].
  rewrite (bind_run _ _ _ _ _ Hr) in Hprep. apply lift_bind_inv in Hprep as (h' & _ & Hret).
  injection Hret as <- <- <-.
  set (n := Z.to_nat (e_phnum h')).
  destruct (read_phdrs_mapped (store_bytes ∅ 0 data) n (e_phoff h')) as [ps Hps].
  { intros i Hi. unfold PHDR_SIZE in *. rewrite store_bytes_lookup, decide_True by lia.
    apply lookup_lt_is_Some_2. lia. }
  exists ps. unfold prepare_phdr, phdr_range. rewrite Hent. unfold MAX_BUF_SIZE, PHDR_SIZE in *.
  rewrite umul_ok, bind_Ok by lia. rewrite uadd_ok, bind_Ok by lia.
  unfold bind at 1, lift at 1. unfold get_phdrs_from_stack, MAX_BUF_SIZE, PHDR_SIZE.
  assert (Hdiv : (56 * e_phnum h') / 56 = e_phnum h') by (rewrite Z.mul_comm; apply Z.div_mul; lia).
  destruct (Z.leb_spec (e_phoff h' + 56 * e_phnum h') 736) as [Hle|Hgt].
  - rewrite usub_ok, bind_Ok by lia. replace (e_phoff h' + 56 * e_phnum h' - e_phoff h') with (56 * e_phnum h') by lia.
    rewrite Hdiv. fold n. cbn [stack_buf].
    rewrite (read_phdrs_shift _ (store_bytes ∅ 0 data) n (e_phoff h') (e_phoff h')).
    + change PHDR_SIZE with 56. rewrite Hps. by do 2 eexists.
    + intros i Hi. unfold PHDR_SIZE in Hi. rewrite !store_bytes_lookup, length_slice_of by lia.
      rewrite !decide_True by lia. rewrite slice_of_lookup by lia. f_equal.
  - unfold bind at 1, lift at 1. unfold fill_heap.
    replace (usub (e_phoff h' + 56 * e_phnum h') (e_phoff h')) with (Ok (56 * e_phnum h') : outcome Z)
      by (rewrite usub_ok by lia; f_equal; lia).
    unfold bind at 1, lift at 1.
    destruct (read_buf_serves (e_phoff h') (56 * e_phnum h') w0) as (w2 & Hr2 & Hm2); [lia..|].
    rewrite (bind_run _ _ _ _ _ Hr2).
    assert (Hlen : length (slice_of data (e_phoff h') (56 * e_phnum h')) = Z.to_nat (56 * e_phnum h'))
      by (apply length_slice_of; lia).
    rewrite (drop_ge (vec_resize _ _)), app_nil_r; cycle 1.
    { unfold vec_resize. rewrite length_app, length_take, length_replicate. lia. }
    unfold get_phdrs_from_heap. cbn [heap_buf]. rewrite Hlen, Z2Nat.id by lia. unfold PHDR_SIZE at 1 2. rewrite Hdiv.
    fold n. rewrite (read_phdrs_shift _ (store_bytes ∅ 0 data) n 0 (e_phoff h')).
    + change PHDR_SIZE with 56. rewrite Hps. by do 2 eexists.
    + intros i Hi. unfold PHDR_SIZE in Hi. rewrite !store_bytes_lookup, Hlen.
      rewrite !decide_True by lia. rewrite slice_of_lookup by lia. f_equal. lia.
Qed.

(** Once the header is read, the program headers are those of the file, in both
    places they can come from: the prefix of the file that was read with the
    header, or a second read into the heap. *)
Theorem prepare_phdr_from_file (buf buf1 : ElfBuf) (h : ElfHeader) (w w1 : world) :
  MAX_BUF_SIZE <= Z.of_nat (length data) ->
  prepare_ehdr buf o w = (Ok (h, buf1), w1) ->
  0 <= e_phoff h -> 0 <= e_phnum h -> e_phentsize h = PHDR_SIZE ->
  e_phoff h + PHDR_SIZE * e_phnum h <= Z.of_nat (length data) ->
  exists ps buf2 w2, prepare_phdr buf1 h o w1 = (Ok (ps, buf2), w2) /\
    read_array read_phdr_at PHDR_SIZE (store_bytes ∅ 0 data) (e_phoff h) (Z.to_nat (e_phnum h)) = Ok ps.
Proof. intros. destruct (prepare_phdr_reads buf buf1 h w w1) as (ps & buf2 & w2 & ? & ? & _); eauto. Qed.
End headers.

(** The header is read together with the following bytes, 736 in all; an image
    in memory that is shorter than that panics even if it is a complete ELF file. *)
Theorem small_binary_panics `{Config} `{Arch} (name data : bytes) (buf : ElfBuf) (w : world) :
  Z.of_nat (length data) < 736 ->
  prepare_ehdr buf (mk_binary name data) w = (Panic, w).
Proof.
  intros Hl. unfold prepare_ehdr, read_buf, bind. cbn [obj_read ElfBinary_object].
  unfold ElfBinary_read, MAX_BUF_SIZE. cbn [bin_bytes].
  rewrite (uadd_ok 0 736), bind_Ok by lia. change (0 + 736) with 736. change (0 <=? 736) with true. cbn [andb].
  by rewrite (proj2 (Z.leb_gt _ _)) by lia.
Qed.

(** ** A concrete object

    Two loadable segments: the headers, and a data segment whose last sixteen file
    bytes are followed by zeros on the same page and on the next. *)

Definition ehdr_bytes (machine phoff phnum : Z) : bytes :=
  ELFMAGIC ++ [2; 1; 1; 0] ++ replicate 8 0 ++
  pack [(2%nat, 3); (2%nat, machine); (4%nat, 1); (8%nat, 0); (8%nat, phoff); (8%nat, 0); (4%nat, 0);
        (2%nat, 64); (2%nat, 56); (2%nat, phnum); (2%nat, 0); (2%nat, 0); (2%nat, 0)].
Definition phdr_bytes (p : ElfPhdr) : bytes :=
  pack [(4%nat, p_type p); (4%nat, p_flags p); (8%nat, p_offset p); (8%nat, p_vaddr p); (8%nat, p_paddr p);
        (8%nat, p_filesz p); (8%nat, p_memsz p); (8%nat, p_align p)].
Definition demo_phdrs : list ElfPhdr :=
  [mk_phdr PT_LOAD 4 0 0 0 176 176 4096; mk_phdr PT_LOAD 6 4000 8096 8096 80 100 4096].
Definition demo_elf : bytes :=
  ehdr_bytes 62 64 2 ++ mjoin (phdr_bytes <$> demo_phdrs) ++ replicate 3824 7 ++ replicate 80 9.
Definition demo_ehdr : ElfHeader :=
  mk_ehdr (ELFMAGIC ++ [2; 1; 1; 0] ++ replicate 8 0) 3 62 1 0 64 0 0 64 56 2 0 0 0.
Definition demo_arch : Arch := x86_64 0.

Lemma vaildate_exact_witness :
  @vaildate demo_arch demo_ehdr = Ok tt.
Proof. apply (@vaildate_exact demo_arch demo_ehdr); [reflexivity|]. split_and!; reflexivity. Defined.

Lemma demo_load_ok : Forall (fun p => is_load p -> load_ok p) demo_phdrs.
Proof. repeat constructor; simpl; lia. Qed.

Lemma create_segments_covers_witness :
  exists param lo hi low high,
    @create_segments dev_config demo_phdrs true = Ok (param, lo) /\
    pm_addr param = None /\ pm_len param = hi - lo /\ lo mod 4096 = 0 /\ hi mod 4096 = 0 /\
    (forall p, p ∈ demo_phdrs -> is_load p -> lo <= p_vaddr p /\ p_vaddr p + p_memsz p <= hi) /\
    (low ∈ demo_phdrs /\ is_load low /\ p_vaddr low < lo + 4096 /\
     pm_range param = mk_range (p_filesz low) (p_offset low) /\ pm_prot param = map_prot (p_flags low)) /\
    (high ∈ demo_phdrs /\ is_load high /\ hi - 4096 < p_vaddr high + p_memsz high).
Proof.
  apply (@create_segments_covers dev_config demo_phdrs true demo_load_ok). by constructor.
Defined.

Lemma small_binary_panics_witness :
  @prepare_ehdr dev_config demo_arch ElfBinary (@ElfBinary_object dev_config) ElfBuf_new (mk_binary [] (take 176 demo_elf)) empty_world =
    (Panic, empty_world).
Proof.
  apply (@small_binary_panics dev_config demo_arch [] (take 176 demo_elf)). vm_compute. reflexivity.
Defined.

Lemma demo_elf_length : Z.of_nat (length demo_elf) = 4080.
Proof. vm_compute. reflexivity. Qed.

Lemma demo_binary_serves : Serves (H := @ElfBinary_object dev_config) (mk_binary [] demo_elf) demo_elf.
Proof. apply ElfBinary_serves. rewrite demo_elf_length. reflexivity. Qed.

Lemma prepare_phdr_from_file_witness :
  exists h buf1 w1 ps buf2 w2,
    @prepare_ehdr dev_config demo_arch ElfBinary (@ElfBinary_object dev_config) ElfBuf_new (mk_binary [] demo_elf) empty_world = (Ok (h, buf1), w1) /\
    @prepare_phdr dev_config ElfBinary (@ElfBinary_object dev_config) buf1 h (mk_binary [] demo_elf) w1 = (Ok (ps, buf2), w2) /\
    read_array read_phdr_at PHDR_SIZE (store_bytes ∅ 0 demo_elf) (e_phoff h) (Z.to_nat (e_phnum h)) = Ok ps.
Proof.
  destruct (@prepare_ehdr dev_config demo_arch ElfBinary (@ElfBinary_object dev_config) ElfBuf_new (mk_binary [] demo_elf) empty_world)
    as [r w1] eqn:E.
  assert (Hr : (@prepare_ehdr dev_config demo_arch ElfBinary (@ElfBinary_object dev_config) ElfBuf_new (mk_binary [] demo_elf) empty_world).1
    = Ok (demo_ehdr, mk_buf (store_bytes ∅ 0 (take 736 demo_elf)) [])) by (vm_compute; reflexivity).
  rewrite E in Hr. cbn [fst] in Hr. subst r.
  destruct (@prepare_phdr_from_file dev_config demo_arch ElfBinary _ (mk_binary [] demo_elf) demo_elf demo_binary_serves
              ElfBuf_new _ _ _ _ ltac:(rewrite demo_elf_length; done) E) as (ps & buf2 & w2 & Hp & Hps);
    [done|done|done|rewrite demo_elf_length; done|].
  eexists demo_ehdr, _, w1, ps, buf2, w2. split; [reflexivity|]. split; [exact Hp|exact Hps].
Defined.
