(* ===== verification/Image.v ===== *)
(** * Image: what a loaded object looks like in memory

    The theorems about the loop of [Loader::load_impl] ([src/src/loader.rs]): where a
    segment is mapped, that its file bytes and zeros are in place, that the
    segments do not disturb each other, and that a well-formed file loads.  They
    are proved from the contracts of [Mmap.v] and [Object.v]. *)

From S2P Require Import Prelude Machine Arch Mmap Segment Dynamic Object UserData Loader.
#[local] Open Scope Z_scope.

(** ** One segment *)

Definition seg_lo (p : ElfPhdr) : Z := page_down (p_vaddr p).
Definition seg_hi (p : ElfPhdr) : Z := page_up (p_vaddr p + p_memsz p).

(** A segment inside the object's mapping, whose place in the file agrees with its
    place in memory page by page. *)
Record seg_wf (s : ElfSegments) (p : ElfPhdr) : Prop := {
  sw_load : load_ok p;
  sw_congr : p_vaddr p mod 4096 = p_offset p mod 4096;
  sw_file : p_offset p + p_filesz p + 4096 < U64_LIM;
  sw_in : seg_offset s <= seg_lo p /\ seg_hi p <= seg_offset s + seg_len s;
}.

(** The memory shows the segment: its file bytes, then zeros. *)
Definition shows (m : memory) (b : Z) (data : bytes) (p : ElfPhdr) : Prop :=
  forall i, 0 <= i < p_memsz p ->
    m !! (b + p_vaddr p + i) = if i <? p_filesz p then data !! Z.to_nat (p_offset p + i) else Some 0.

Lemma page_up_mono x y : x <= y -> page_up x <= page_up y.
Proof. unfold page_up. zlia. Qed.

Lemma fixed_flags : Z.land MAP_FIXED (Z.lor MAP_PRIVATE MAP_FIXED) <> 0 /\
  Z.land MAP_ANONYMOUS (Z.lor MAP_PRIVATE MAP_FIXED) = 0 /\ Z.land MAP_ANONYMOUS MAP_PRIVATE = 0.
Proof. split_and!; done. Qed.

Lemma load_segment_result `{Config} (s : ElfSegments) (p : ElfPhdr) :
  segments_ok s -> seg_wf s p ->
  load_segment s p =
    Ok (if decide (seg_lo p = seg_offset s) then None
        else Some (mk_param (Some (base s + seg_lo p)) (seg_hi p - seg_lo p) (map_prot (p_flags p))
                     (Z.lor MAP_PRIVATE MAP_FIXED)
                     (mk_range (p_filesz p + p_vaddr p mod 4096) (p_offset p - p_vaddr p mod 4096)))).
Proof.
  intros Hs [(Hv & Hf & Hm & Hb & Ho) Hc Hfile [Hin1 Hin2]]. unfold load_segment.
  pose proof (base_ok s Hs) as Hbase. pose proof Hs as ([Hp1 Hp2] & Ho1 & Hl). unfold seg_lo, seg_hi in *.
  pose proof (page_down_facts (p_vaddr p)). pose proof (page_down_nonneg (p_vaddr p) Hv).
  pose proof (page_up_facts (p_vaddr p + p_memsz p)).
  rewrite !land_MASK_down by lia. rewrite (uadd_ok (p_vaddr p) (p_memsz p)), bind_Ok by lia.
  rewrite page_round_up_spec, bind_Ok by lia. rewrite (usub_ok (page_up _)), bind_Ok by lia.
  rewrite (uadd_ok (page_down _)), bind_Ok by lia.
  pose proof (page_down_nonneg (p_offset p) Ho). pose proof (page_down_facts (p_offset p)).
  assert (Halign : p_offset p - page_down (p_offset p) = p_vaddr p mod 4096) by (unfold page_down; lia).
  pose proof (Z.mod_pos_bound (p_vaddr p) 4096 ltac:(lia)).
  rewrite usub_ok, bind_Ok by lia. rewrite Halign, uadd_ok, bind_Ok by lia.
  f_equal. replace (p_offset p - p_vaddr p mod 4096) with (page_down (p_offset p)) by lia.
  rewrite (Z.add_comm (page_down (p_vaddr p)) (base s)).
  destruct (decide (page_down (p_vaddr p) = seg_offset s)) as [->|Hne]; [by rewrite Z.eqb_refl|].
  by rewrite (proj2 (Z.eqb_neq _ _)) by congruence.
Qed.

(** A segment is mapped at whole pages so that each of its bytes keeps its
    address and its file offset; the segment in the first page of the image was
    mapped with it and is skipped. *)
Theorem load_segment_pages `{Config} (s : ElfSegments) (p : ElfPhdr) :
  segments_ok s -> seg_wf s p ->
  load_segment s p =
    Ok (if decide (seg_lo p = seg_offset s) then None
        else Some (mk_param (Some (base s + seg_lo p)) (seg_hi p - seg_lo p) (map_prot (p_flags p))
                     (Z.lor MAP_PRIVATE MAP_FIXED)
                     (mk_range (p_filesz p + p_vaddr p mod 4096) (p_offset p - p_vaddr p mod 4096)))).
Proof. apply load_segment_result. Qed.

(** ** Parsing the other headers

    What the file says at a link address: its bytes lie in the file range of a
    segment that is in memory already. *)

Definition in_file (S : list ElfPhdr) (a n off : Z) : Prop :=
  exists q, q ∈ S /\ p_vaddr q <= a /\ a + n <= p_vaddr q + p_filesz q /\ p_filesz q <= p_memsz q /\
    0 <= p_offset q /\ off = p_offset q + (a - p_vaddr q).

Section parsing.
Context (data : bytes).

(** What else is asked of the dynamic section, given the segments in memory. *)
Context (Q : list ElfPhdr -> list Dyn -> Prop).

Notation file_memory := (store_bytes ∅ 0 data).

Definition dyn_in_file (S : list ElfPhdr) (a : Z) (ds : list Dyn) : Prop :=
  exists off, in_file S a (DYN_SIZE * (Z.of_nat (length ds) + 1)) off /\ dyn_array file_memory off ds.

Definition str_in_file (S : list ElfPhdr) (a : Z) (s : bytes) : Prop :=
  exists off, in_file S a (Z.of_nat (length s) + 1) off /\ cstr_at file_memory off s.

(** Link addresses inside an image of [len] bytes from [lo]. *)
Definition link_in (lo len v : Z) : Prop := lo <= v < lo + len.
Definition link_ptr (lo len : Z) (o : option Z) : Prop := forall v, o = Some v -> link_in lo len v.
Definition link_array (lo len : Z) (off sz : option Z) : Prop :=
  forall v, off = Some v -> link_in lo len v /\ exists n, sz = Some n /\ 0 <= n /\ v + n <= lo + len.
Definition link_table (lo len : Z) (off num : option Z) : Prop :=
  forall v, off = Some v -> link_in lo len v /\ is_Some num.

(** A dynamic section whose addresses stay inside the image. *)
Record dyn_link_wf (lo len : Z) (ds : list Dyn) : Prop := {
  dl_hash : link_ptr lo len (last_val DT_GNU_HASH ds);
  dl_sym : link_in lo len (default 0 (last_val DT_SYMTAB ds));
  dl_str : link_in lo len (default 0 (last_val DT_STRTAB ds));
  dl_got : link_ptr lo len (last_val DT_PLTGOT ds);
  dl_plt : link_array lo len (last_val DT_JMPREL ds) (last_val DT_PLTRELSZ ds);
  dl_rela : link_array lo len (last_val DT_RELA ds) (last_val DT_RELASZ ds);
  dl_init : link_ptr lo len (last_val DT_INIT ds);
  dl_fini : link_ptr lo len (last_val DT_FINI ds);
  dl_ia : link_array lo len (last_val DT_INIT_ARRAY ds) (last_val DT_INIT_ARRAYSZ ds);
  dl_fa : link_array lo len (last_val DT_FINI_ARRAY ds) (last_val DT_FINI_ARRAYSZ ds);
  dl_versym : link_ptr lo len (last_val DT_VERSYM ds);
  dl_verneed : link_table lo len (last_val DT_VERNEED ds) (last_val DT_VERNEEDNUM ds);
  dl_verdef : link_table lo len (last_val DT_VERDEF ds) (last_val DT_VERDEFNUM ds);
}.

Lemma dyn_link_wf_loaded segs ds :
  segments_ok segs -> dyn_link_wf (seg_offset segs) (seg_len segs) ds -> dyn_wf segs ds.
Proof.
  intros Hs [Hh Hsy Hst Hg Hp Hr Hi Hf Hia Hfa Hvs Hvn Hvd].
  pose proof (base_ok segs Hs) as Hb. pose proof Hs as ([Hp1 Hp2] & Ho & Hl).
  unfold link_ptr, link_array, link_table, link_in in *.
  constructor; unfold ptr_wf, array_wf, table_wf, in_segments; try lia.
  - intros h Hv. specialize (Hh h Hv). lia.
  - intros v Hv. specialize (Hg v Hv). lia.
  - intros v Hv. destruct (Hp v Hv) as (? & n & ? & ? & ?). exists n. split; [done|lia].
  - intros v Hv. destruct (Hr v Hv) as (? & n & ? & ? & ?). exists n. split; [done|lia].
  - intros v Hv. specialize (Hi v Hv). lia.
  - intros v Hv. specialize (Hf v Hv). lia.
  - intros v Hv. destruct (Hia v Hv) as (? & n & ? & ? & ?). exists n. split; [done|lia].
  - intros v Hv. destruct (Hfa v Hv) as (? & n & ? & ? & ?). exists n. split; [done|lia].
  - intros v Hv. specialize (Hvs v Hv). lia.
  - intros v Hv. destruct (Hvn v Hv). split; [done|lia].
  - intros v Hv. destruct (Hvd v Hv). split; [done|lia].
Qed.

(** What an entry that is not loadable must be like, when the segments [S] are in
    memory. *)
Definition note_ok (lo len : Z) (S : list ElfPhdr) (p : ElfPhdr) : Prop :=
  (p_type p = PT_DYNAMIC -> link_in lo len (p_paddr p) /\ exists ds,
     dyn_in_file S (p_paddr p) ds /\ Forall value_ok ds /\ is_Some (last_val DT_GNU_HASH ds) /\
     dyn_link_wf lo len ds /\ Q S ds) /\
  (p_type p = PT_GNU_RELRO -> link_in lo len (p_vaddr p)) /\
  (p_type p = PT_PHDR -> link_in lo len (p_vaddr p) /\ 0 <= p_memsz p /\ p_vaddr p + p_memsz p <= lo + len) /\
  (p_type p = PT_INTERP -> link_in lo len (p_vaddr p) /\ exists s, str_in_file S (p_vaddr p) s /\ utf8_valid s = true).

(** What the builder records of such an entry. *)
Inductive notes `{Mmap} (segs : ElfSegments) (S : list ElfPhdr) (p : ElfPhdr) (b : Builder) : Builder -> Prop :=
  | notes_dynamic h ds :
      p_type p = PT_DYNAMIC -> dyn_in_file S (p_paddr p) ds -> last_val DT_GNU_HASH ds = Some h -> Q S ds ->
      notes segs S p b
        (mk_builder (phdr_mmap b) (b_name b) (b_lazy_bind b) (b_ehdr b) (b_relro b)
           (Some (dynamic_of segs (base segs + p_paddr p) h ds)) (b_user_data b) (b_segments b) (b_init_params b)
           (b_interp b))
  | notes_relro :
      p_type p = PT_GNU_RELRO ->
      notes segs S p b
        (mk_builder (phdr_mmap b) (b_name b) (b_lazy_bind b) (b_ehdr b)
           (Some (mk_relro (base segs + p_vaddr p) (p_memsz p) mprotect)) (b_dynamic b) (b_user_data b) (b_segments b)
           (b_init_params b) (b_interp b))
  | notes_phdr :
      p_type p = PT_PHDR ->
      notes segs S p b
        (mk_builder (Some (mk_slice (base segs + p_vaddr p) (p_memsz p / PHDR_SIZE))) (b_name b) (b_lazy_bind b)
           (b_ehdr b) (b_relro b) (b_dynamic b) (b_user_data b) (b_segments b) (b_init_params b) (b_interp b))
  | notes_interp s :
      p_type p = PT_INTERP -> str_in_file S (p_vaddr p) s ->
      notes segs S p b
        (mk_builder (phdr_mmap b) (b_name b) (b_lazy_bind b) (b_ehdr b) (b_relro b) (b_dynamic b) (b_user_data b)
           (b_segments b) (b_init_params b) (Some s))
  | notes_other :
      p_type p ∉ [PT_DYNAMIC; PT_GNU_RELRO; PT_PHDR; PT_INTERP] -> notes segs S p b b.

(** Moving what was read in the file to the memory. *)
Lemma file_lookup i : 0 <= i -> file_memory !! i = data !! Z.to_nat i.
Proof.
  intros Hi. rewrite store_bytes_lookup, Z.sub_0_r, Z.add_0_l. case_decide; [done|].
  rewrite lookup_ge_None_2; [done|]. lia.
Qed.

Lemma shows_in_file m b S a n off :
  Forall (shows m b data) S -> in_file S a n off ->
  0 <= off /\ forall i, 0 <= i < n -> m !! (b + a + i) = file_memory !! (off + i).
Proof.
  intros Hsh (q & Hq & Ha & He & Hm & Ho & ->). split; [lia|]. intros i Hi. rewrite Forall_forall in Hsh.
  replace (b + a + i) with (b + p_vaddr q + (a - p_vaddr q + i)) by lia. rewrite (Hsh q Hq) by lia.
  rewrite (proj2 (Z.ltb_lt _ _)), file_lookup by lia. f_equal. lia.
Qed.

Lemma read_dyn_shift m1 m2 a1 a2 :
  (forall i, 0 <= i < DYN_SIZE -> m1 !! (a1 + i) = m2 !! (a2 + i)) -> read_dyn m1 a1 = read_dyn m2 a2.
Proof.
  unfold DYN_SIZE. intros Hall. unfold read_dyn, read_u64.
  pose proof (load_le_shift m1 m2 a1 a2 0 16 8 Hall 0 ltac:(lia) ltac:(lia)) as H0. rewrite !Z.add_0_r in H0.
  rewrite H0. by rewrite (load_le_shift m1 m2 a1 a2 0 16 8 Hall 8) by lia.
Qed.

Lemma dyn_array_shift m1 m2 ds : forall a1 a2,
  (forall i, 0 <= i < DYN_SIZE * (Z.of_nat (length ds) + 1) -> m1 !! (a1 + i) = m2 !! (a2 + i)) ->
  dyn_array m1 a1 ds -> dyn_array m2 a2 ds.
Proof.
  unfold DYN_SIZE. induction ds as [|d ds IH]; intros a1 a2 Hall Hd; cbn [dyn_array] in *.
  - destruct Hd as (d & Hd & Ht). exists d. split; [|done]. rewrite <- Hd. symmetry. apply read_dyn_shift.
    unfold DYN_SIZE. intros i Hi. apply Hall. simpl. lia.
  - cbn [length] in Hall. destruct Hd as (Hd & Ht & Hrest). split_and!; [|done|].
    + rewrite <- Hd. symmetry. apply read_dyn_shift. unfold DYN_SIZE. intros i Hi. apply Hall. lia.
    + apply (IH (a1 + DYN_SIZE)); [|done]. unfold DYN_SIZE. intros i Hi. rewrite <- !Z.add_assoc. apply Hall. lia.
Qed.

Lemma cstr_at_shift m1 m2 a1 a2 s :
  (forall i, 0 <= i < Z.of_nat (length s) + 1 -> m1 !! (a1 + i) = m2 !! (a2 + i)) ->
  cstr_at m1 a1 s -> cstr_at m2 a2 s.
Proof.
  intros Hall (Hl & Hz & Hnz). split_and!; [|rewrite <- Hz; symmetry; apply Hall; lia|done].
  rewrite <- Hl. symmetry. apply load_bytes_shift. intros i Hi. apply Hall. lia.
Qed.

Context `{Config} `{Mmap}.

(** A well-formed entry is parsed, and changes nothing but the builder. *)
Lemma parse_other_runs segs S p b w :
  segments_ok segs -> note_ok (seg_offset segs) (seg_len segs) S p -> b_segments b = segs ->
  Forall (shows (mem w) (base segs) data) S ->
  exists b', parse_other_phdr b p w = (Ok b', w) /\ notes segs S p b b'.
Proof.
  intros Hs (Hdyn & Hrelro & Hphdr & Hinterp) Hb Hsh. unfold parse_other_phdr. rewrite Hb.
  pose proof (base_ok segs Hs) as Hbase. pose proof Hs as ([Hp1 Hp2] & Ho & Hl). unfold link_in in *.
  destruct (Z.eqb_spec (p_type p) PT_DYNAMIC) as [Ht|Hn1].
  { destruct (Hdyn Ht) as (Hin & ds & Hds & Hv & [h Hh] & Hwf & HQ). eexists. split; [|by apply notes_dynamic].
    unfold bind, lift, reads. rewrite get_ptr_ok by (try done; unfold in_segments; lia).
    destruct Hds as (off & Hf & Harr). destruct (shows_in_file _ _ _ _ _ _ Hsh Hf) as [_ Hshift].
    rewrite (ElfDynamic_new_dynamic_of segs Hs _ _ h ds); [by destruct b; simpl in *; subst| |done|done|by apply dyn_link_wf_loaded].
    apply (dyn_array_shift file_memory _ ds off); [|done]. intros i Hi. by rewrite Hshift. }
  destruct (Z.eqb_spec (p_type p) PT_GNU_RELRO) as [Ht|Hn2].
  { specialize (Hrelro Ht). eexists. split; [|by apply notes_relro].
    unfold bind, lift, ELFRelro_new. rewrite uadd_ok by lia. by destruct b; simpl in *; subst. }
  destruct (Z.eqb_spec (p_type p) PT_PHDR) as [Ht|Hn3].
  { destruct (Hphdr Ht) as (? & ? & ?). eexists. split; [|by apply notes_phdr].
    unfold bind, lift. rewrite get_slice_ok by (try done; unfold in_segments; lia). by destruct b; simpl in *; subst. }
  destruct (Z.eqb_spec (p_type p) PT_INTERP) as [Ht|Hn4].
  { destruct (Hinterp Ht) as (? & s & Hstr & Hu). eexists. split; [|by eapply notes_interp].
    unfold bind, lift, reads. rewrite get_ptr_ok by (try done; unfold in_segments; lia).
    destruct Hstr as (off & Hf & Hc). destruct (shows_in_file _ _ _ _ _ _ Hsh Hf) as [_ Hshift].
    rewrite (cstr_from_ptr_at _ _ s); cycle 1.
    { apply (cstr_at_shift file_memory _ off); [|done]. intros i Hi. by rewrite Hshift. }
    rewrite bind_Ok. unfold to_str_unwrap. rewrite Hu. by destruct b; simpl in *; subst. }
  exists b. split; [done|]. apply notes_other. rewrite !not_elem_of_cons. split_and!; try done. by apply not_elem_of_nil.
Qed.
End parsing.

Section mapping.
Context `{Config} `{Mm : Mmap} (file : Z -> Z -> Z) `{!MmapLaws Mm file}.

(** Zero filling: the rest of the segment's pages become zero, the rest of the
    memory is untouched. *)
Lemma fill_bss_zeros (s : ElfSegments) (p : ElfPhdr) (w w' : world) :
  segments_ok s -> seg_wf s p -> fill_bss s p w = (Ok tt, w') ->
  (p_filesz p = p_memsz p /\ w' = w) \/
  (same_outside (mem w) (mem w') (base s + p_vaddr p + p_filesz p) (seg_hi p - (p_vaddr p + p_filesz p)) /\
   forall i, p_vaddr p + p_filesz p <= i < seg_hi p -> mem w' !! (base s + i) = Some 0).
Proof.
  intros Hs [(Hv & Hf & Hm & Hb & Ho) Hc Hfile [Hin1 Hin2]] Hrun. unfold fill_bss in Hrun.
  destruct (Z.eqb_spec (p_filesz p) (p_memsz p)) as [He|Hne]; cbn [negb] in Hrun;
    [left; by injection Hrun as <-|right].
  pose proof (base_ok s Hs) as Hbase. pose proof Hs as ([Hp1 Hp2] & Ho1 & Hl). unfold seg_lo, seg_hi in *.
  pose proof (page_down_facts (p_vaddr p)). pose proof (page_down_nonneg (p_vaddr p) Hv).
  pose proof (page_up_facts (p_vaddr p + p_memsz p)).
  pose proof (page_up_facts (p_vaddr p + p_filesz p)).
  pose proof (page_up_mono (p_vaddr p + p_filesz p) (p_vaddr p + p_memsz p) ltac:(lia)).
  apply lift_bind_inv in Hrun as (top & Htop & Hrun). rewrite uadd_ok in Htop by lia. injection Htop as <-.
  apply lift_bind_inv in Hrun as (hi' & Hhi & Hrun). rewrite page_round_up_spec in Hhi by lia. injection Hhi as <-.
  apply lift_bind_inv in Hrun as (zs & Hzs & Hrun). rewrite uadd_ok in Hzs by lia. injection Hzs as <-.
  apply lift_bind_inv in Hrun as (ze' & Hze & Hrun). rewrite page_round_up_spec in Hze by lia. injection Hze as <-.
  apply lift_bind_inv in Hrun as (zp & Hzp & Hrun).
  unfold get_mut_ptr in Hzp. rewrite get_ptr_ok in Hzp by (try done; unfold in_segments; lia). injection Hzp as <-.
  apply lift_bind_inv in Hrun as (zn & Hzn & Hrun). rewrite usub_ok in Hzn by lia. injection Hzn as <-.
  generalize dependent (page_up (p_vaddr p + p_filesz p)). intros ze Hrun Hze Hmono.
  generalize dependent (page_up (p_vaddr p + p_memsz p)). intros hi Hin2 Hhi Hrun Hmono.
  apply bind_run_inv in Hrun as ([] & w1 & Hw & Hrun).
  apply write_bytes_inv in Hw as [-> Hmap]. rewrite length_replicate in Hmap.
  assert (Hz1 : forall i, p_vaddr p + p_filesz p <= i < ze ->
    store_bytes (mem w) (base s + (p_vaddr p + p_filesz p)) (replicate (Z.to_nat (ze - (p_vaddr p + p_filesz p))) 0)
      !! (base s + i) = Some 0).
  { intros i Hi. rewrite store_bytes_lookup, length_replicate, decide_True by lia.
    apply lookup_replicate_2. lia. }
  assert (Ho1' : same_outside (mem w) (store_bytes (mem w) (base s + (p_vaddr p + p_filesz p))
      (replicate (Z.to_nat (ze - (p_vaddr p + p_filesz p))) 0))
      (base s + p_vaddr p + p_filesz p) (hi - (p_vaddr p + p_filesz p))).
  { intros i Hi. apply store_bytes_out. rewrite length_replicate. lia. }
  destruct (Z.ltb_spec ze hi) as [Hlt|Hge]; cycle 1.
  { injection Hrun as <-. simpl. split; [done|]. intros i Hi. apply Hz1. lia. }
  apply lift_bind_inv in Hrun as (za & Hza & Hrun). rewrite uadd_ok in Hza by lia. injection Hza as <-.
  apply lift_bind_inv in Hrun as (zl & Hzl & Hrun). rewrite usub_ok in Hzl by lia. injection Hzl as <-.
  apply bind_run_inv in Hrun as (q & w2 & Han & [= <-]).
  destruct (mmap_anonymous_law _ _ _ _ _ _ _ (proj1 fixed_flags) Han) as (-> & Hout & Hzero).
  simpl in Hout. split.
  - intros i Hi. rewrite Hout by lia. by apply Ho1'.
  - intros i Hi. destruct (decide (i < ze)).
    + rewrite Hout by lia. apply Hz1. lia.
    + apply Hzero. lia.
Qed.

Context `{EO : ElfObject T} (o : T) (data : bytes) `{!Serves o data}.
Hypothesis Hfile : forall fd j b, as_fd o = Some fd -> data !! j = Some b -> file fd (Z.of_nat j) = b.

Lemma read_mem_serves p len off w w' :
  0 <= off -> 0 <= len -> off + len <= Z.of_nat (length data) ->
  read_mem o p len off w = (Ok tt, w') -> mem w' = store_bytes (mem w) p (slice_of data off len).
Proof.
  intros Ho Hl He. unfold read_mem. destruct (serves_read off len w Ho Hl He) as (w1 & -> & Hm).
  destruct (write_bytes p _ w1) as [[] w2] eqn:Hw; intros [= <-]. 
  destruct a. apply write_bytes_inv in Hw as [-> _]. simpl. by rewrite Hm.
Qed.

(** A request that is answered with mapped pages: without an address, fixed, or with a
    hint. *)
Definition request_maps (param : MmapParam) : Prop :=
  pm_addr param = None \/ Z.land MAP_FIXED (pm_flags param) <> 0 \/
  Z.land MAP_FIXED (pm_flags param) = 0 /\ exists room limit, MmapAnswers Mm room limit (pm_addr param).

(** A mapped file range shows the file, by the kernel's doing or by a copy. *)
Lemma mmap_segment_shows param w p w' :
  Z.land MAP_ANONYMOUS (pm_flags param) = 0 ->
  request_maps param ->
  (forall a, pm_addr param = Some a -> range_ok a (pm_len param) /\
     (Z.land MAP_FIXED (pm_flags param) <> 0 -> mapped_range (mem w) a (pm_len param))) ->
  0 <= rg_offset (pm_range param) -> 0 <= rg_len (pm_range param) <= pm_len param ->
  rg_offset (pm_range param) + rg_len (pm_range param) <= Z.of_nat (length data) ->
  mmap_segment param o w = (Ok p, w') ->
  (forall a, pm_addr param = Some a -> Z.land MAP_FIXED (pm_flags param) <> 0 -> p = a) /\ range_ok p (pm_len param) /\
  mapped_range (mem w') p (pm_len param) /\ same_outside (mem w) (mem w') p (pm_len param) /\
  forall i, 0 <= i < rg_len (pm_range param) ->
    mem w' !! (p + i) = data !! Z.to_nat (rg_offset (pm_range param) + i).
Proof.
  intros Hanon Hfix Hpre Ho Hl He Hrun. unfold mmap_segment in Hrun.
  apply bind_run_inv in Hrun as ([q nc] & w1 & Hmm & Hrun).
  destruct (mmap_law _ _ _ _ _ _ _ _ _ _ _ Hanon
    ltac:(intros a Ha Hf; by apply Hpre) Hmm) as (Hat & Hrange & Hmap' & Hout & Hshow).
  assert (Hmap : mapped_range (mem w1) q (pm_len param)).
  { destruct Hfix as [Hn|[Hf|(Hf & room & limit & Hans)]]; [by apply Hmap'; left|by apply Hmap'; right|].
    by apply (mmap_answer_maps _ _ _ _ _ _ _ _ _ _ Hf Hanon Hmm). }
  specialize (Hrange ltac:(intros a Ha; by apply Hpre)). destruct nc.
  - apply bind_run_inv in Hrun as ([] & w2 & Hrd & Hrun). apply bind_run_inv in Hrun as ([] & w3 & Hpr & [= <- <-]).
    apply mprotect_law in Hpr. apply read_mem_serves in Hrd; [|lia..].
    assert (Hlen : length (slice_of data (rg_offset (pm_range param)) (rg_len (pm_range param)))
                   = Z.to_nat (rg_len (pm_range param))) by (apply length_slice_of; lia).
    rewrite Hpr, Hrd. split_and!; [done|done| | |].
    + intros i Hi. rewrite store_bytes_lookup. case_decide; [|by apply Hmap].
      apply lookup_lt_is_Some_2. lia.
    + intros i Hi. rewrite store_bytes_out by lia. by apply Hout.
    + intros i Hi. rewrite store_bytes_lookup, decide_True by lia.
      rewrite slice_of_lookup by lia. f_equal. lia.
  - injection Hrun as <- <-. split_and!; try done. intros i Hi.
    destruct (Hshow eq_refl) as (fd & Hfd & Hs). rewrite Hs by lia.
    destruct (lookup_lt_is_Some_2 data (Z.to_nat (rg_offset (pm_range param) + i))) as [b Hb]; [lia|].
    rewrite Hb. f_equal. rewrite <- (Hfile fd _ b Hfd Hb). f_equal. lia.
Qed.

(** Loading one segment shows it, and touches nothing outside its pages. *)
Lemma load_one_shows s p param w w' :
  segments_ok s -> seg_wf s p -> p_offset p + p_filesz p <= Z.of_nat (length data) ->
  mapped_range (mem w) (memory_ptr s) (seg_len s) ->
  load_segment s p = Ok (Some param) ->
  (mmap_segment param o ;; fill_bss s p) w = (Ok tt, w') ->
  mapped_range (mem w') (memory_ptr s) (seg_len s) /\ shows (mem w') (base s) data p /\
  same_outside (mem w) (mem w') (base s + seg_lo p) (seg_hi p - seg_lo p).
Proof.
  intros Hs Hwf Hd Hmapped Hls Hrun. rewrite load_segment_result in Hls by done.
  destruct (decide (seg_lo p = seg_offset s)); [done|]. injection Hls as <-.
  apply bind_run_inv in Hrun as (q & w1 & Hmm & Hbss).
  pose proof (base_ok s Hs) as Hbase. pose proof Hs as ([Hp1 Hp2] & Ho1 & Hl).
  pose proof Hwf as [(Hv & Hf & Hm & Hb & Ho) Hc Hfl [Hin1 Hin2]].
  pose proof (page_down_facts (p_vaddr p)) as Hd1. pose proof (page_up_facts (p_vaddr p + p_memsz p)) as Hu1.
  fold (seg_lo p) in Hd1. fold (seg_hi p) in Hu1.
  assert (Hmod : p_vaddr p mod 4096 = p_vaddr p - seg_lo p) by (unfold seg_lo, page_down; lia).
  assert (0 <= seg_lo p) by (apply page_down_nonneg; lia).
  assert (seg_lo p <= seg_hi p) by lia.
  apply mmap_segment_shows in Hmm; cbn [pm_flags pm_addr pm_len pm_range rg_len rg_offset] in *;
    [| apply fixed_flags | right; left; apply fixed_flags | | | | ]; cycle 1.
  { intros a [= <-]. split; [unfold range_ok; lia|]. intros _ i Hi. apply Hmapped. lia. }
  { rewrite Hc. pose proof (Z.mod_le (p_offset p) 4096). lia. }
  { lia. }
  { lia. }
  destruct Hmm as (Hat & Hr & Hmap & Hout & Hshow). specialize (Hat _ eq_refl (proj1 fixed_flags)). subst q.
  apply fill_bss_zeros in Hbss; [|done..].
  assert (Hfile1 : forall i, 0 <= i < p_filesz p ->
    mem w1 !! (base s + p_vaddr p + i) = data !! Z.to_nat (p_offset p + i)).
  { intros i Hi. replace (base s + p_vaddr p + i) with (base s + seg_lo p + (p_vaddr p mod 4096 + i)) by lia.
    rewrite Hshow by lia. f_equal. lia. }
  destruct Hbss as [[He ->]|[Hout2 Hz]].
  - split_and!; [| |done].
    + intros i Hi. destruct (decide (base s + seg_lo p <= i < base s + seg_hi p)); [apply Hmap; lia|].
      rewrite Hout by lia. apply Hmapped. lia.
    + intros i Hi. rewrite (proj2 (Z.ltb_lt _ _)) by lia. apply Hfile1. lia.
  - split_and!.
    + intros i Hi. destruct (decide (base s + (p_vaddr p + p_filesz p) <= i < base s + seg_hi p)).
      { replace i with (base s + (i - base s)) by lia. rewrite Hz by lia. eauto. }
      rewrite Hout2 by lia. destruct (decide (base s + seg_lo p <= i < base s + seg_hi p)); [apply Hmap; lia|].
      rewrite Hout by lia. apply Hmapped. lia.
    + intros i Hi. destruct (Z.ltb_spec i (p_filesz p)).
      * rewrite Hout2 by lia. apply Hfile1. lia.
      * rewrite <- (Z.add_assoc (base s)). apply Hz. lia.
    + intros i Hi. rewrite Hout2 by lia. apply Hout. lia.
Qed.

(** *** All segments *)

Lemma parse_other_keeps b p w b' w' :
  parse_other_phdr b p w = (Ok b', w') -> w' = w /\ b_segments b' = b_segments b.
Proof.
  unfold parse_other_phdr, bind, lift, reads, ret. repeat case_match; intros; simplify_eq; done.
Qed.

Lemma shows_outside m m' b p lo n :
  shows m b data p -> same_outside m m' lo n ->
  (b + seg_hi p <= lo \/ lo + n <= b + seg_lo p) -> shows m' b data p.
Proof.
  intros Hs Ho Hd i Hi. rewrite Ho; [by apply Hs|].
  pose proof (page_down_facts (p_vaddr p)) as Hd1. pose proof (page_up_facts (p_vaddr p + p_memsz p)) as Hu1.
  fold (seg_lo p) in Hd1. fold (seg_hi p) in Hu1. lia.
Qed.

(** Loadable segments that share no page. *)
Definition apart (p q : ElfPhdr) : Prop :=
  is_load p -> is_load q -> seg_hi p <= seg_lo q \/ seg_hi q <= seg_lo p.

Definition file_ok (p : ElfPhdr) : Prop := p_offset p + p_filesz p <= Z.of_nat (length data).

Lemma load_phdrs_shows s l : forall b w b' w' (S : list ElfPhdr),
  segments_ok s -> b_segments b = s ->
  Forall (fun p => is_load p -> seg_wf s p /\ file_ok p) l ->
  ForallOrdPairs apart l ->
  (forall q p, q ∈ S -> p ∈ l -> is_load p -> seg_lo p <> seg_offset s ->
     seg_hi p <= seg_lo q \/ seg_hi q <= seg_lo p) ->
  mapped_range (mem w) (memory_ptr s) (seg_len s) ->
  Forall (shows (mem w) (base s) data) S ->
  load_phdrs None o b l w = (Ok b', w') ->
  b_segments b' = s /\ mapped_range (mem w') (memory_ptr s) (seg_len s) /\
  Forall (shows (mem w') (base s) data) S /\
  Forall (fun p => is_load p -> seg_lo p <> seg_offset s -> shows (mem w') (base s) data p) l /\
  same_outside (mem w) (mem w') (memory_ptr s) (seg_len s).
Proof.
  induction l as [|p l IH]; intros b w b' w' S Hs Hb Hwf Hap HS Hmap Hsh Hrun; simpl in Hrun.
  { injection Hrun as <- <-. split_and!; done. }
  apply bind_run_inv in Hrun as (b1 & w1 & Hone & Hrun).
  apply Forall_cons in Hwf as [Hp Hwf]. inversion Hap as [|? ? Hap1 Hap2]; subst.
  assert (HS' : forall q p0, q ∈ S -> p0 ∈ l -> is_load p0 -> seg_lo p0 <> seg_offset (b_segments b) ->
     seg_hi p0 <= seg_lo q \/ seg_hi q <= seg_lo p0) by (intros q p0 Hq Hp0; apply HS; [done|by right]).
  unfold load_phdr in Hone. change (ret b w) with (Ok b, w) in Hone. unfold bind at 1, ret at 1 in Hone.
  destruct (Z.eqb_spec (p_type p) PT_LOAD) as [Hl|Hl]; cycle 1.
  { apply parse_other_keeps in Hone as [-> Hseg].
    destruct (IH _ _ _ _ S Hs Hseg Hwf Hap2 HS' Hmap Hsh Hrun) as (H1 & H2 & H3 & H4 & H5).
    split_and!; [done|done|done| |done]. constructor; [|done]. intros Hld. done. }
  destruct (Hp Hl) as [Hpw Hpf]. apply lift_bind_inv in Hone as (param & Hls & Hone).
  destruct param as [param|]; cycle 1.
  { injection Hone as <- <-.
    destruct (IH _ _ _ _ S Hs eq_refl Hwf Hap2 HS' Hmap Hsh Hrun) as (H1 & H2 & H3 & H4 & H5).
    split_and!; [done|done|done| |done]. constructor; [|done]. intros _ Hne.
    rewrite load_segment_result in Hls by done. by rewrite decide_False in Hls by done. }
  assert (Hne : seg_lo p <> seg_offset (b_segments b)).
  { intros He. rewrite load_segment_result in Hls by done. by rewrite decide_True in Hls by done. }
  apply bind_run_inv in Hone as (q & w2 & Hmm & Hone). apply bind_run_inv in Hone as ([] & w3 & Hbss & Hret).
  injection Hret as <- <-.
  destruct (load_one_shows (b_segments b) p param w w3 Hs Hpw Hpf Hmap Hls) as (Hmap1 & Hsh1 & Hout1).
  { unfold bind. by rewrite Hmm. }
  destruct (IH b w3 b' w' (p :: S) Hs eq_refl Hwf Hap2) as (H1 & H2 & H3 & H4 & H5); [| |  |done|].
  - intros x p0 [->|Hx]%elem_of_cons Hp0 Hld0 Hne0; [|by apply HS'].
    rewrite Forall_forall in Hap1. destruct (Hap1 p0 Hp0 Hl Hld0); [by right|by left].
  - done.
  - constructor; [done|]. apply Forall_forall. intros x Hx. rewrite Forall_forall in Hsh.
    apply (shows_outside (mem w) _ _ _ _ _ (Hsh x Hx) Hout1).
    destruct (HS x p Hx (list_elem_of_here _ _) Hl Hne); lia.
  - apply Forall_cons in H3 as [H3 H3']. split_and!; [done|done|done|by constructor|].
    pose proof (sw_in _ _ Hpw). pose proof (base_ok _ Hs). intros i Hi. rewrite H5, Hout1 by lia. done.
Qed.

(** The lowest segment is mapped with the image; it is shown when it starts a page
    and has no zero part. *)
Definition low_ok (ps : list ElfPhdr) : Prop :=
  forall p, p ∈ ps -> is_load p -> (forall q, q ∈ ps -> is_load q -> p_vaddr p <= p_vaddr q) ->
    p_vaddr p mod 4096 = 0 /\ p_filesz p = p_memsz p.

Record image_wf (ps : list ElfPhdr) : Prop := {
  iw_load : Forall (fun p => is_load p -> load_ok p /\ p_vaddr p mod 4096 = p_offset p mod 4096 /\ file_ok p) ps;
  iw_some : Exists is_load ps;
  iw_apart : ForallOrdPairs apart ps;
  iw_low : low_ok ps;
}.

Lemma page_down_mono x y : x <= y -> page_down x <= page_down y.
Proof. unfold page_down. zlia. Qed.

Lemma apart_in ps p q :
  ForallOrdPairs apart ps -> p ∈ ps -> q ∈ ps -> is_load p -> is_load q -> p <> q ->
  seg_hi p <= seg_lo q \/ seg_hi q <= seg_lo p.
Proof.
  intros Hap Hp Hq Hlp Hlq Hne.
  apply list_elem_of_In in Hp, Hq. destruct (ForallOrdPairs_In Hap p q Hp Hq) as [?|[H1|H1]]; [done| |].
  - by apply H1.
  - destruct (H1 Hlq Hlp); auto.
Qed.

Context `{Arch}.

Lemma load_phdrs_segments hook l : forall b w b' w',
  load_phdrs hook o b l w = (Ok b', w') -> b_segments b' = b_segments b.
Proof.
  induction l as [|p l IH]; intros b w b' w' Hrun; simpl in Hrun; [by injection Hrun as <- <-|].
  apply bind_run_inv in Hrun as (b1 & w1 & Hone & Hrun). apply IH in Hrun as ->.
  apply bind_run_inv in Hone as (b2 & w2 & Hhook & Hone).
  assert (b_segments b2 = b_segments b) as <-.
  { destruct hook as [hk|]; [|by injection Hhook as <- <-]. unfold exec_hook in Hhook.
    apply bind_run_inv in Hhook as ([ud|err] & w3 & _ & Hr); [by injection Hr as <- <-|].
    by apply lift_bind_inv in Hr as (nm & _ & [=]). }
  destruct (p_type p =? PT_LOAD).
  - apply lift_bind_inv in Hone as ([param|] & _ & Hone); [|by injection Hone as <- <-].
    apply bind_run_inv in Hone as (q & w3 & _ & Hone). apply bind_run_inv in Hone as ([] & w4 & _ & Hone).
    by injection Hone as <- <-.
  - by apply parse_other_keeps in Hone as [_ ->].
Qed.

(** The image holds the segments it was computed from. *)
Lemma segments_inside_file ps param lo s :
  Z.of_nat (length data) < 2 ^ 63 -> image_wf ps -> create_segments ps true = Ok (param, lo) ->
  seg_offset s = lo -> seg_len s = pm_len param ->
  Forall (fun p => is_load p -> seg_wf s p /\ file_ok p) ps.
Proof.
  intros Hsize [Hall Hex Hap Hlow] Hc Hso Hsl.
  assert (Hall' : Forall (fun p => is_load p -> load_ok p) ps).
  { eapply Forall_impl; [exact Hall|]. simpl. intros p Hp Hld. by destruct (Hp Hld). }
  destruct (create_segments_extent ps true Hall' Hex) as (e & [_ _ Hb] & Hc'). rewrite Hc' in Hc.
  injection Hc as <- <-. cbn [pm_len] in *. rewrite Forall_forall in Hall |- *.
  intros p Hp Hldp. destruct (Hall p Hp Hldp) as (Hok & Hcp & Hfp). destruct (Hb p Hp Hldp).
  split; [|done]. constructor; [done|done| |].
  - unfold file_ok in Hfp. lia.
  - rewrite Hso, Hsl. unfold seg_lo, seg_hi.
    pose proof (page_down_mono (min_vaddr e) (p_vaddr p)).
    pose proof (page_up_mono (p_vaddr p + p_memsz p) (max_vaddr e)). lia.
Qed.

Lemma segments_inside ps param lo s :
  image_wf ps -> create_segments ps true = Ok (param, lo) ->
  seg_offset s = lo -> seg_len s = pm_len param ->
  Forall (fun p => is_load p -> seg_wf s p /\ file_ok p) ps.
Proof. apply segments_inside_file. exact (serves_size (o := o)). Qed.

(** The first request, for a library and for an executable: the latter asks for its
    address. *)
Definition first_addr (dy : bool) (lo : Z) : option Z := if dy then None else Some lo.
Definition first_param (dy : bool) (param : MmapParam) (lo : Z) : MmapParam :=
  mk_param (first_addr dy lo) (pm_len param) (pm_prot param) (pm_flags param) (pm_range param).

Lemma create_segments_kind ps dy param lo :
  create_segments ps true = Ok (param, lo) ->
  create_segments ps dy = Ok (first_param dy param lo, lo) /\ pm_addr param = None /\ pm_flags param = MAP_PRIVATE.
Proof.
  unfold create_segments. intros Hc. repeat inv_bind Hc. injection Hc as <- <-.
  rewrite Ha, bind_Ok, Ha0, bind_Ok. cbv zeta. rewrite Ha1, bind_Ok. by destruct dy.
Qed.

Lemma create_segments_layout ps dy param lo :
  create_segments ps dy = Ok (param, lo) ->
  exists param0, create_segments ps true = Ok (param0, lo) /\ param = first_param dy param0 lo.
Proof.
  unfold create_segments. intros Hc. repeat inv_bind Hc. injection Hc as <- <-.
  rewrite Ha, bind_Ok, Ha0, bind_Ok. cbv zeta. rewrite Ha1, bind_Ok. eexists. split; [done|]. by destruct dy.
Qed.

(** What the first mapping shows. *)
Lemma mmap_segment_placed param w p w' :
  Z.land MAP_FIXED (pm_flags param) = 0 ->
  mmap_segment param o w = (Ok p, w') -> placed Mm (mem w) p (pm_len param).
Proof.
  intros Hf Hrun. unfold mmap_segment in Hrun. apply bind_run_inv in Hrun as ([q nc] & w1 & Hmm & Hrun).
  assert (Hq : placed Mm (mem w) q (pm_len param)) by (do 9 eexists; split_and!; [done|exact Hf|exact Hmm]).
  destruct nc; [|by injection Hrun as <- _].
  apply bind_run_inv in Hrun as ([] & w2 & _ & Hrun). apply bind_run_inv in Hrun as ([] & w3 & _ & [= <- _]). done.
Qed.

Lemma first_mapping dy room limit ps param lo w m w' :
  MmapAnswers Mm room limit (first_addr dy lo) -> (dy = false -> 0 < lo) ->
  image_wf ps -> create_segments ps true = Ok (param, lo) ->
  mmap_segment (first_param dy param lo) o w = (Ok m, w') -> lo <= m ->
  let s := mk_segments m lo (pm_len param) munmap in
  segments_ok s /\ mapped_range (mem w') m (pm_len param) /\
  Forall (fun p => is_load p -> seg_wf s p /\ file_ok p) ps /\
  same_outside (mem w) (mem w') m (pm_len param) /\ placed Mm (mem w) m (pm_len param) /\
  exists low, low ∈ ps /\ is_load low /\ seg_lo low = lo /\ shows (mem w') (base s) data low.
Proof.
  intros Hans Hdy Hwf Hc Hmm Hle s. pose proof (segments_inside ps param lo s Hwf Hc eq_refl eq_refl) as Hinside.
  destruct Hwf as [Hall Hex Hap Hlow].
  assert (Hall' : Forall (fun p => is_load p -> load_ok p) ps).
  { eapply Forall_impl; [exact Hall|]. simpl. intros p Hp Hld. by destruct (Hp Hld). }
  destruct (create_segments_extent ps true Hall' Hex) as (e & [(low & Hin & Hld & E1 & E2 & E3 & E4)
    (high & Hinh & Hldh & Eh) Hb] & Hc'). rewrite Hc' in Hc. injection Hc as <- <-. cbn [pm_len] in *.
  rewrite Forall_forall in Hall. destruct (Hall low Hin Hld) as ((Hv & Hf & Hm & Hbd & Ho) & Hcg & Hfo).
  destruct (Hall high Hinh Hldh) as ((Hv' & Hf' & Hm' & Hbd' & Ho') & _ & _).
  destruct (Hlow low Hin Hld) as [Hal Hnob].
  { intros q Hq Hldq. destruct (Hb q Hq Hldq). lia. }
  destruct (Hb low Hin Hld) as [_ Hbl].
  pose proof (page_down_facts (min_vaddr e)). pose proof (page_up_facts (max_vaddr e)).
  pose proof (page_down_nonneg (min_vaddr e) ltac:(lia)).
  assert (Hpl : placed Mm (mem w) m (page_up (max_vaddr e) - page_down (min_vaddr e))) by by apply mmap_segment_placed in Hmm.
  apply mmap_segment_shows in Hmm; cbn [first_param pm_flags pm_addr pm_len pm_range rg_len rg_offset] in *;
    [|done|right; right; split; [done|by exists room, limit]| |lia|lia|unfold file_ok in Hfo; lia].
  2: { intros a Ha. split; [|done]. destruct dy; [done|]. injection Ha as <-. specialize (Hdy eq_refl). unfold range_ok. lia. }
  destruct Hmm as (_ & Hr & Hmap & Hout & Hshow).
  assert (Hso : segments_ok s) by (unfold segments_ok, range_ok in *; simpl; lia).
  pose proof (base_ok s Hso) as Hbase. cbn [memory_ptr seg_offset s] in Hbase.
  assert (Hlo : page_down (min_vaddr e) = p_vaddr low) by (unfold page_down; rewrite E1; lia).
  split; [done|]. split; [done|]. split; [done|]. split; [done|]. split; [done|].
  exists low. split_and!; [done|done|unfold seg_lo; by rewrite <- E1|].
  intros i Hi. rewrite (proj2 (Z.ltb_lt _ _)) by lia. rewrite Hbase, Hlo, E2 in *.
  replace (m - p_vaddr low + p_vaddr low + i) with (m + i) by lia. apply Hshow. lia.
Qed.

(** What a library that has loaded looks like. *)
Lemma load_impl_shows room limit l ehdr lazy w b ps l' w' :
  MmapAnswers Mm room limit (first_addr (is_dylib ehdr) (seg_offset (b_segments b))) ->
  (is_dylib ehdr = false -> 0 < seg_offset (b_segments b)) ->
  ld_hook l = None ->
  (forall w, mem (obj_drop o w).2 = mem w) ->
  load_impl l ehdr o lazy w = (Ok (b, ps, l'), w') ->
  image_wf ps -> seg_offset (b_segments b) <= memory_ptr (b_segments b) ->
  forall p, p ∈ ps -> is_load p -> shows (mem w') (base (b_segments b)) data p.
Proof.
  intros Hans Hdy Hhook Hdrop Hrun Hwf Hle p Hp Hld. unfold load_impl in Hrun.
  apply finally_inv in Hrun as (w1 & Hrun & ->). rewrite Hdrop.
  apply bind_run_inv in Hrun as ([ps' buf] & w2 & _ & Hrun).
  apply lift_bind_inv in Hrun as ([param lo] & Hc & Hrun).
  apply bind_run_inv in Hrun as (m & w3 & Hmm & Hrun). apply on_unwind_inv in Hrun.
  apply bind_run_inv in Hrun as (b' & w4 & Hld' & Hret). injection Hret as <- <- <- <-.
  rewrite Hhook in Hld'. apply create_segments_layout in Hc as (param0 & Hc & ->).
  pose proof (load_phdrs_segments _ _ _ _ _ _ Hld') as Hseg. cbn [b_segments Builder_new first_param pm_len] in Hseg, Hld'.
  rewrite Hseg in Hle, Hans, Hdy |- *. cbn [seg_offset memory_ptr] in Hle, Hans, Hdy. rename param0 into param.
  destruct (first_mapping (is_dylib ehdr) room limit ps' param lo w2 m w3 Hans Hdy Hwf Hc Hmm Hle) as (Hso & Hmap & Hall & _ & _ & low & Hin & Hldl & Hlo & Hsh).
  pose proof (iw_apart _ Hwf) as Hap.
  destruct (load_phdrs_shows (mk_segments m lo (pm_len param) munmap) ps'
    (Builder_new (mk_segments m lo (pm_len param) munmap) (file_name o) lazy ehdr (init_params l)) w3 b' w4 [low] Hso eq_refl Hall Hap)
    as (_ & _ & Hlow & Hrest & _); [|exact Hmap| |exact Hld'|].
  - intros q x Hq Hx Hldx Hne. apply list_elem_of_singleton in Hq as ->. apply (apart_in ps' x low Hap); try done.
    intros ->. by apply Hne.
  - by repeat constructor.
  - rewrite Forall_forall in Hrest. destruct (decide (seg_lo p = lo)) as [He|Hne]; [|by apply Hrest].
    assert (p = low) as ->; [|by apply Forall_cons in Hlow as [? _]].
    destruct (decide (p = low)) as [|Hne]; [done|]. exfalso.
    rewrite Forall_forall in Hall. destruct (Hall p Hp Hld) as [[(? & ? & ? & _) _ _ _] _].
    destruct (Hall low Hin Hldl) as [[(? & ? & ? & _) _ _ _] _].
    pose proof (page_down_facts (p_vaddr p)) as F1. pose proof (page_up_facts (p_vaddr p + p_memsz p)) as F2.
    pose proof (page_down_facts (p_vaddr low)) as F3. pose proof (page_up_facts (p_vaddr low + p_memsz low)) as F4.
    fold (seg_lo p) in F1. fold (seg_hi p) in F2. fold (seg_lo low) in F3. fold (seg_hi low) in F4.
    destruct (apart_in ps' p low Hap Hp Hin Hld Hldl Hne); lia.
Qed.

(** A library that loads without an error is in memory as its program headers
    say: at load base plus link address, every loadable segment holds its bytes
    of the file followed by zeros up to its memory size, whichever of mapping
    and copying brought them there. *)
Theorem load_impl_image room limit `{!MmapGrants Mm room limit} l ehdr lazy w b ps l' w' :
  ld_hook l = None -> is_dylib ehdr = true ->
  (forall w, mem (obj_drop o w).2 = mem w) ->
  load_impl l ehdr o lazy w = (Ok (b, ps, l'), w') ->
  image_wf ps -> seg_offset (b_segments b) <= memory_ptr (b_segments b) ->
  forall p, p ∈ ps -> is_load p -> shows (mem w') (base (b_segments b)) data p.
Proof.
  intros Hhook Hdy. apply (load_impl_shows room limit l ehdr lazy w b ps l' w'); rewrite ?Hdy; [exact (free_answers Mm file room limit)|done..].
Qed.
End mapping.

(** ** A well-formed file loads *)

Section progress.
Context `{Config} `{Mm : Mmap} (file : Z -> Z -> Z) `{!MmapLaws Mm file}.
Context (room limit : Z) `{!MmapGrants Mm room limit}.
Context (Q : list ElfPhdr -> list Dyn -> Prop).
Context `{EO : ElfObject T} (o : T) (data : bytes) `{!Serves o data}.
Hypothesis Hfile : forall fd j b, as_fd o = Some fd -> data !! j = Some b -> file fd (Z.of_nat j) = b.

Lemma page_aligned x : (page_down x) mod 4096 = 0 /\ (page_up x) mod 4096 = 0.
Proof. unfold page_down, page_up. zlia. Qed.

Lemma mmap_segment_returns param w p nc w1 :
  mmap (pm_addr param) (pm_len param) (pm_prot param) (pm_flags param) (rg_offset (pm_range param)) (as_fd o) false w =
    (Ok (p, nc), w1) -> mapped_range (mem w1) p (pm_len param) -> 0 <= rg_offset (pm_range param) ->
  0 <= rg_len (pm_range param) <= pm_len param ->
  rg_offset (pm_range param) + rg_len (pm_range param) <= Z.of_nat (length data) ->
  exists w', mmap_segment param o w = (Ok p, w').
Proof.
  intros Hm Hmap Ho Hl He. unfold mmap_segment. rewrite (bind_run _ _ _ _ _ Hm). destruct nc; [|by exists w1].
  destruct (serves_read (rg_offset (pm_range param)) (rg_len (pm_range param)) w1) as (w2 & Hr & Hm2); [lia..|].
  assert (Hrm : exists w3, read_mem o p (rg_len (pm_range param)) (rg_offset (pm_range param)) w1 = (Ok tt, w3)).
  { unfold read_mem. rewrite Hr, write_bytes_run; [by eexists|]. rewrite Hm2, length_slice_of by lia.
    intros i Hi. apply Hmap. lia. }
  destruct Hrm as (w3 & Hrm). rewrite (bind_run _ _ _ _ _ Hrm).
  destruct (mprotect_grant p (pm_len param) (pm_prot param) w3) as (w4 & Hpr).
  rewrite (bind_run _ _ _ _ _ Hpr). by exists w4.
Qed.

Lemma mmap_segment_runs param w :
  Z.land MAP_ANONYMOUS (pm_flags param) = 0 ->
  sound_request limit (mem w) (pm_addr param) (pm_len param) (pm_flags param) (rg_offset (pm_range param)) ->
  0 <= rg_len (pm_range param) <= pm_len param ->
  rg_offset (pm_range param) + rg_len (pm_range param) <= Z.of_nat (length data) ->
  exists p w', mmap_segment param o w = (Ok p, w') /\ p mod 4096 = 0 /\ (pm_addr param = None -> room <= p).
Proof.
  intros Hanon Hs Hl He.
  destruct (mmap_grant (pm_addr param) (pm_len param) (pm_prot param) (pm_flags param) (rg_offset (pm_range param))
              (as_fd o) w Hanon Hs) as (p & nc & w1 & Hm & Hp & Hroom).
  destruct Hs as (_ & _ & Ho & _ & Ha).
  destruct (mmap_law _ _ _ _ _ _ _ _ _ _ _ Hanon ltac:(intros a Hx _; rewrite Hx in Ha; apply Ha) Hm)
    as (_ & _ & Hmap & _). specialize (Hmap ltac:(destruct (pm_addr param); [right; apply Ha|by left])).
  destruct (mmap_segment_returns param w p nc w1 Hm Hmap) as [w' Hrun]; [done..|]. by exists p, w'.
Qed.

Lemma fill_bss_runs s p w :
  segments_ok s -> seg_wf s p -> base s mod 4096 = 0 -> mapped_range (mem w) (memory_ptr s) (seg_len s) ->
  exists w', fill_bss s p w = (Ok tt, w').
Proof.
  intros Hs [(Hv & Hf & Hm & Hb & Ho) Hc Hfl [Hin1 Hin2]] Hbm Hmap. unfold fill_bss.
  destruct (Z.eqb_spec (p_filesz p) (p_memsz p)) as [He|Hne]; cbn [negb]; [by eexists|].
  pose proof (base_ok s Hs) as Hbase. pose proof Hs as ([Hp1 Hp2] & Ho1 & Hl). unfold seg_lo, seg_hi in *.
  pose proof (page_down_facts (p_vaddr p)). pose proof (page_up_facts (p_vaddr p + p_memsz p)).
  pose proof (page_up_facts (p_vaddr p + p_filesz p)).
  pose proof (page_up_mono (p_vaddr p + p_filesz p) (p_vaddr p + p_memsz p) ltac:(lia)).
  destruct (page_aligned (p_vaddr p + p_filesz p)) as [_ Hal]. destruct (page_aligned (p_vaddr p + p_memsz p)) as [_ Hal2].
  unfold bind, lift. rewrite (uadd_ok (p_vaddr p) (p_memsz p)) by lia. rewrite page_round_up_spec by lia.
  rewrite (uadd_ok (p_vaddr p)) by lia. rewrite page_round_up_spec by lia.
  unfold get_mut_ptr. rewrite get_ptr_ok by (try done; unfold in_segments; lia). rewrite usub_ok by lia.
  rewrite write_bytes_run by (rewrite length_replicate; intros i Hi; apply Hmap; lia).
  destruct (Z.ltb_spec (page_up (p_vaddr p + p_filesz p)) (page_up (p_vaddr p + p_memsz p))); [|by eexists].
  rewrite uadd_ok by lia. rewrite usub_ok by lia.
  match goal with |- context [mmap_anonymous ?a ?l ?pr ?fl ?v] =>
    destruct (mmap_anonymous_grant (limit := limit) a l pr fl v) as (q & w' & ->); [|by eexists] end.
  split; [lia|]. split; [zlia|]. split; [done|]. split; [done|]. split; [apply fixed_flags|]. split; [zlia|].
  split; [unfold range_ok; lia|]. intros i Hi. simpl. rewrite store_bytes_lookup, length_replicate. case_decide.
  - apply lookup_lt_is_Some_2. rewrite length_replicate. lia.
  - apply Hmap. lia.
Qed.

(** One segment. *)
Lemma load_one_runs s p param w :
  segments_ok s -> seg_wf s p -> file_ok data p -> base s mod 4096 = 0 ->
  mapped_range (mem w) (memory_ptr s) (seg_len s) -> load_segment s p = Ok (Some param) ->
  exists w', (mmap_segment param o ;; fill_bss s p) w = (Ok tt, w').
Proof.
  intros Hs Hpw Hpf Hbm Hmap Hls. rewrite load_segment_result in Hls by done.
  destruct (decide (seg_lo p = seg_offset s)); [done|]. injection Hls as <-. unfold file_ok in Hpf.
  pose proof (base_ok s Hs) as Hbase. pose proof Hs as ([Hp1 Hp2] & Ho1 & Hl).
  pose proof Hpw as [(Hv & Hf & Hm & Hb & Ho) Hc Hfl [Hin1 Hin2]].
  pose proof (page_down_facts (p_vaddr p)) as Hd1. pose proof (page_up_facts (p_vaddr p + p_memsz p)) as Hu1.
  fold (seg_lo p) in Hd1. fold (seg_hi p) in Hu1.
  assert (Hmod : p_vaddr p mod 4096 = p_vaddr p - seg_lo p) by (unfold seg_lo, page_down; lia).
  pose proof (page_down_nonneg (p_vaddr p) Hv) as Hlo0. fold (seg_lo p) in Hlo0.
  assert (Hoff : 0 <= p_offset p - p_vaddr p mod 4096) by (rewrite Hc; pose proof (Z.mod_le (p_offset p) 4096); lia).
  set (param := mk_param (Some (base s + seg_lo p)) (seg_hi p - seg_lo p) (map_prot (p_flags p))
      (Z.lor MAP_PRIVATE MAP_FIXED) (mk_range (p_filesz p + p_vaddr p mod 4096) (p_offset p - p_vaddr p mod 4096))).
  destruct (mmap_segment_runs param w) as (q & w1 & Hmm & _ & _); unfold param in *; clear param; cbn [pm_flags pm_addr pm_len pm_range rg_len rg_offset] in *;
    [apply fixed_flags| |lia|lia|].
  - split; [lia|]. split; [zlia|]. split; [done|]. split; [rewrite Hc; zlia|].
    split; [apply fixed_flags|]. split; [zlia|]. split; [unfold range_ok; lia|].
    intros i Hi. apply Hmap. lia.
  - pose proof Hmm as Hshow. apply (mmap_segment_shows file o data Hfile) in Hshow;
      cbn [pm_flags pm_addr pm_len pm_range rg_len rg_offset] in *;
      [|apply fixed_flags|right; left; apply fixed_flags| |done|lia|lia]; cycle 1.
    { intros a [= <-]. split; [unfold range_ok; lia|]. intros _ i Hi. apply Hmap. lia. }
    destruct Hshow as (_ & _ & Hmap1 & Hout1 & _).
    destruct (fill_bss_runs s p w1 Hs Hpw Hbm) as (w2 & Hbss).
    { intros i Hi. destruct (decide (q <= i < q + (seg_hi p - seg_lo p))); [by apply Hmap1|].
      rewrite Hout1 by done. by apply Hmap. }
    exists w2. by rewrite (bind_run _ _ _ _ _ Hmm).
Qed.

Lemma load_phdr_plain b p w :
  load_phdr None o b p w =
    (if p_type p =? PT_LOAD then
       let! param := lift (load_segment (b_segments b) p) in
       match param with
       | Some param => mmap_segment param o ;; fill_bss (b_segments b) p ;; ret b
       | None => ret b
       end
     else parse_other_phdr b p) w.
Proof. done. Qed.

(** What the headers make of the builder, each with the segments before it. *)
Inductive builds (segs : ElfSegments) : list ElfPhdr -> Builder -> list ElfPhdr -> Builder -> Prop :=
  | builds_nil S b : builds segs S b [] b
  | builds_load S b p l b' : is_load p -> builds segs (p :: S) b l b' -> builds segs S b (p :: l) b'
  | builds_note S b p l b1 b' :
      ~ is_load p -> notes data Q segs S p b b1 -> builds segs S b1 l b' -> builds segs S b (p :: l) b'.

Fixpoint headers_ok (lo len : Z) (S l : list ElfPhdr) : Prop :=
  match l with
  | [] => True
  | p :: l' =>
      if decide (is_load p) then headers_ok lo len (p :: S) l'
      else note_ok data Q lo len S p /\ headers_ok lo len S l'
  end.

Lemma notes_segments segs S p b b' : notes data Q segs S p b b' -> b_segments b' = b_segments b.
Proof. by destruct 1. Qed.

Lemma load_phdrs_runs s l : forall b w S,
  segments_ok s -> base s mod 4096 = 0 -> b_segments b = s ->
  Forall (fun p => is_load p -> seg_wf s p /\ file_ok data p) l ->
  ForallOrdPairs apart l ->
  (forall q p, q ∈ S -> p ∈ l -> is_load p -> seg_lo p <> seg_offset s ->
     seg_hi p <= seg_lo q \/ seg_hi q <= seg_lo p) ->
  (forall p, p ∈ l -> is_load p -> seg_lo p = seg_offset s -> p ∈ S) ->
  mapped_range (mem w) (memory_ptr s) (seg_len s) ->
  Forall (shows (mem w) (base s) data) S ->
  headers_ok (seg_offset s) (seg_len s) S l ->
  exists b' w', load_phdrs None o b l w = (Ok b', w') /\ builds s S b l b'.
Proof.
  induction l as [|p l IH]; intros b w S Hs Hbm Hb Hwf Hap HS Hlow Hmap Hsh Hok; cbn [load_phdrs headers_ok] in *.
  { do 2 eexists. split; [done|constructor]. }
  apply Forall_cons in Hwf as [Hp Hwf]. inversion Hap as [|? ? Hap1 Hap2]; subst.
  assert (HS' : forall q p0, q ∈ S -> p0 ∈ l -> is_load p0 -> seg_lo p0 <> seg_offset (b_segments b) ->
     seg_hi p0 <= seg_lo q \/ seg_hi q <= seg_lo p0) by (intros q p0 Hq Hp0; apply HS; [done|by right]).
  destruct (decide (is_load p)) as [Hl|Hl]; cycle 1.
  { destruct Hok as [Hn Hok]. destruct (parse_other_runs data Q (b_segments b) S p b w Hs Hn eq_refl Hsh) as (b1 & Hrun & Hnote).
    pose proof (notes_segments _ _ _ _ _ Hnote) as Hseg.
    destruct (IH b1 w S) as (b' & w' & Hrest & Hbs); try done.
    { intros q Hq. apply Hlow. by right. }
    exists b', w'. split; [|by eapply builds_note].
    assert (Hone : load_phdr None o b p w = (Ok b1, w)).
    { rewrite load_phdr_plain. unfold is_load in Hl. by rewrite (proj2 (Z.eqb_neq _ _) Hl). }
    by rewrite (bind_run _ _ _ _ _ Hone). }
  destruct (Hp Hl) as [Hpw Hpf].
  assert (Hstep : exists w1, load_phdr None o b p w = (Ok b, w1) /\
            mapped_range (mem w1) (memory_ptr (b_segments b)) (seg_len (b_segments b)) /\
            Forall (shows (mem w1) (base (b_segments b)) data) (p :: S)).
  { rewrite load_phdr_plain. unfold is_load in Hl. rewrite (proj2 (Z.eqb_eq _ _) Hl).
    pose proof (load_segment_result _ _ Hs Hpw) as Hls. unfold bind at 1, lift. rewrite Hls.
    destruct (decide (seg_lo p = seg_offset (b_segments b))) as [He|Hne].
    { exists w. split_and!; [done|done|]. constructor; [|done]. rewrite Forall_forall in Hsh. apply Hsh, Hlow; [by left|done|done]. }
    destruct (load_one_runs _ _ _ _ Hs Hpw Hpf Hbm Hmap Hls) as (w1 & Hrun).
    destruct (load_one_shows file o data Hfile _ _ _ _ _ Hs Hpw Hpf Hmap Hls Hrun) as (Hmap1 & Hsh1 & Hout1).
    exists w1. split_and!; [|done|].
    - unfold bind in Hrun |- *. destruct (mmap_segment _ o w) as [[q| | | |] w2]; try done. by rewrite Hrun.
    - constructor; [done|]. apply Forall_forall. intros x Hx. rewrite Forall_forall in Hsh.
      apply (shows_outside data (mem w) _ _ _ _ _ (Hsh x Hx) Hout1). destruct (HS x p Hx (list_elem_of_here _ _) Hl Hne); lia. }
  destruct Hstep as (w1 & Hone & Hmap1 & Hsh1).
  destruct (IH b w1 (p :: S)) as (b' & w' & Hrest & Hbs); try done.
  { intros x p0 [->|Hx]%elem_of_cons Hp0 Hld0 Hne0; [|by apply HS'].
    rewrite Forall_forall in Hap1. destruct (Hap1 p0 Hp0 Hl Hld0); [by right|by left]. }
  { intros x Hx Hldx Hlox. right. apply Hlow; [by right|done|done]. }
  exists b', w'. split; [|by apply builds_load]. by rewrite (bind_run _ _ _ _ _ Hone).
Qed.

(** The request for the whole image is sound. *)
Lemma first_request ps param lo :
  image_wf data ps -> create_segments ps true = Ok (param, lo) ->
  pm_addr param = None /\ pm_flags param = MAP_PRIVATE /\ lo mod 4096 = 0 /\ lo + pm_len param < U64_LIM /\
  0 < pm_len param /\ pm_len param mod 4096 = 0 /\ 0 <= rg_offset (pm_range param) /\ rg_offset (pm_range param) mod 4096 = 0 /\
  0 <= rg_len (pm_range param) <= pm_len param /\
  rg_offset (pm_range param) + rg_len (pm_range param) <= Z.of_nat (length data).
Proof.
  intros [Hall Hex Hap Hlow] Hc.
  assert (Hall' : Forall (fun p => is_load p -> load_ok p) ps).
  { eapply Forall_impl; [exact Hall|]. simpl. intros p Hp Hld. by destruct (Hp Hld). }
  destruct (create_segments_extent ps true Hall' Hex) as (e & [(low & Hin & Hld & E1 & E2 & E3 & E4)
    (high & Hinh & Hldh & Eh) Hb] & Hc'). rewrite Hc' in Hc. injection Hc as <- <-.
  cbn [pm_len pm_addr pm_flags pm_range rg_len rg_offset] in *.
  rewrite Forall_forall in Hall. destruct (Hall low Hin Hld) as ((Hv & Hf & Hm & Hbd & Ho) & Hcg & Hfo).
  destruct (Hlow low Hin Hld) as [Hal Hnob]; [intros q Hq Hldq; destruct (Hb q Hq Hldq); lia|].
  destruct (Hb low Hin Hld) as [_ Hbl]. unfold file_ok in Hfo. destruct (Hall high Hinh Hldh) as ((_ & _ & _ & Hbd' & _) & _ & _).
  pose proof (page_down_facts (min_vaddr e)). pose proof (page_up_facts (max_vaddr e)).
  split; [done|]. split; [done|]. split; [lia|]. split; [lia|]. split; [lia|]. split; [zlia|]. split; [lia|]. split; [congruence|lia].
Qed.

Lemma first_segment_runs dy ps param lo w :
  MmapAnswers Mm room limit (first_addr dy lo) -> (dy = false -> 0 < lo) ->
  image_wf data ps -> create_segments ps true = Ok (param, lo) -> lo <= room -> pm_len param <= limit ->
  exists m w', mmap_segment (first_param dy param lo) o w = (Ok m, w') /\ m mod 4096 = 0 /\ lo <= m /\
    (dy = true -> room <= m) /\ (dy = false -> free_range (mem w) lo (pm_len param) -> m = lo).
Proof.
  intros Hans Hdy Hwf Hc Hroom Hlim.
  destruct (first_request ps param lo Hwf Hc) as (Haddr & Hfl & Hlom & Hend & Hl & Hlm & Ho & Hom & Hlen & He).
  assert (Hf : Z.land MAP_FIXED (pm_flags param) = 0) by by rewrite Hfl. assert (Ha : Z.land MAP_ANONYMOUS (pm_flags param) = 0) by by rewrite Hfl.
  destruct (mmap_answer (addr := first_addr dy lo) (pm_len param) (pm_prot param) (pm_flags param) (rg_offset (pm_range param)) (as_fd o) w Hf Ha
    Hl Hlim Hlm Ho Hom) as (m & nc & w1 & Hm & Hmal & Hat & Hfree).
  { intros a Hx. destruct dy; [done|]. injection Hx as <-. specialize (Hdy eq_refl). unfold range_ok. split; [done|lia]. }
  destruct (mmap_segment_returns (first_param dy param lo) w m nc w1 Hm) as [w' Hrun]; [|done..|].
  { by apply (mmap_answer_maps _ _ _ _ _ _ _ _ _ _ Hf Ha Hm). }
  exists m, w'. split; [done|]. split; [done|]. split; [|split].
  - destruct dy; destruct Hat as [Hat|?]; [done|lia|injection Hat as ->; lia|lia].
  - intros ->. by destruct Hat.
  - intros ->. by apply Hfree.
Qed.

(** The segments in the first page: the one that comes with the image. *)
Definition first_segs (lo : Z) (ps : list ElfPhdr) : list ElfPhdr :=
  filter (fun p => p_type p = PT_LOAD /\ seg_lo p = lo) ps.

Lemma first_segs_low segs ps low :
  Forall (fun p => is_load p -> seg_wf segs p /\ file_ok data p) ps -> ForallOrdPairs apart ps ->
  low ∈ ps -> is_load low -> forall p, p ∈ first_segs (seg_lo low) ps -> p = low.
Proof.
  intros Hall Hap Hin Hld p [[Hl He] Hp]%list_elem_of_filter. destruct (decide (p = low)) as [|Hne]; [done|].
  rewrite Forall_forall in Hall. destruct (Hall p Hp Hl) as [[(? & ? & ? & _) _ _ _] _].
  destruct (Hall low Hin Hld) as [[(? & ? & ? & _) _ _ _] _].
  pose proof (page_up_facts (p_vaddr p + p_memsz p)) as F2. pose proof (page_up_facts (p_vaddr low + p_memsz low)) as F4.
  pose proof (page_down_facts (p_vaddr p)) as F1. pose proof (page_down_facts (p_vaddr low)) as F3.
  fold (seg_lo p) in F1. fold (seg_hi p) in F2. fold (seg_lo low) in F3. fold (seg_hi low) in F4.
  destruct (apart_in ps p low Hap Hp Hin Hl Hld Hne); lia.
Qed.

Context `{Arch}.

(** The run behind the theorem below. *)
Lemma load_impl_runs l ehdr lazy w ps buf w1 param lo :
  MmapAnswers Mm room limit (first_addr (is_dylib ehdr) lo) -> (is_dylib ehdr = false -> 0 < lo) ->
  ld_hook l = None ->
  (forall w, exists w', obj_drop o w = (Ok tt, w') /\ mem w' = mem w) ->
  prepare_phdr (ld_buf l) ehdr o w = (Ok (ps, buf), w1) ->
  image_wf data ps -> create_segments ps true = Ok (param, lo) -> lo <= room -> pm_len param <= limit ->
  headers_ok lo (pm_len param) (first_segs lo ps) ps ->
  exists b w', load_impl l ehdr o lazy w = (Ok (b, ps, set_buf l buf), w') /\
    segments_ok (b_segments b) /\ memory_ptr (b_segments b) mod 4096 = 0 /\
    seg_offset (b_segments b) = lo /\ lo <= memory_ptr (b_segments b) /\ seg_len (b_segments b) = pm_len param /\
    (forall p, p ∈ ps -> is_load p -> shows (mem w') (base (b_segments b)) data p) /\
    builds (b_segments b) (first_segs lo ps)
      (Builder_new (b_segments b) (file_name o) lazy ehdr (init_params l)) ps b /\
    same_outside (mem w1) (mem w') (memory_ptr (b_segments b)) (seg_len (b_segments b)) /\
    placed Mm (mem w1) (memory_ptr (b_segments b)) (seg_len (b_segments b)) /\
    mapped_range (mem w') (memory_ptr (b_segments b)) (seg_len (b_segments b)) /\
    (is_dylib ehdr = false -> free_range (mem w1) lo (pm_len param) -> memory_ptr (b_segments b) = lo).
Proof.
  intros Hans Hdy Hhook Hdrop Hprep Hwf Hc Hroom Hlim Hok.
  destruct (first_request ps param lo Hwf Hc) as (Haddr & Hfl & Hlom & _).
  destruct (first_segment_runs (is_dylib ehdr) ps param lo w1 Hans Hdy Hwf Hc Hroom Hlim) as (m & w2 & Hmm & Hmal & Hle & _ & Hfree).
  set (segs := mk_segments m lo (pm_len param) munmap).
  destruct (first_mapping file o data Hfile (is_dylib ehdr) room limit ps param lo w1 m w2 Hans Hdy Hwf Hc Hmm Hle)
    as (Hso & Hmap & Hall & Hout1 & Havoid & low & Hin & Hldl & Hlo & Hsh). fold segs in Hso, Hall, Hsh.
  pose proof (iw_apart _ _ Hwf) as Hap.
  assert (Hbm : base segs mod 4096 = 0) by (rewrite (base_ok segs Hso); simpl; zlia).
  assert (Hfirst : Forall (shows (mem w2) (base segs) data) (first_segs lo ps)).
  { apply Forall_forall. intros p Hp. rewrite <- Hlo in Hp.
    apply (first_segs_low segs ps low Hall Hap Hin Hldl) in Hp as ->. done. }
  assert (Hfap : forall q p, q ∈ first_segs lo ps -> p ∈ ps -> is_load p -> seg_lo p <> seg_offset segs ->
    seg_hi p <= seg_lo q \/ seg_hi q <= seg_lo p).
  { intros q p Hq Hp Hldp Hne. rewrite <- Hlo in Hq. apply (first_segs_low segs ps low Hall Hap Hin Hldl) in Hq as ->.
    apply (apart_in ps p low Hap); try done. intros ->. by apply Hne. }
  destruct (load_phdrs_runs segs ps (Builder_new segs (file_name o) lazy ehdr (init_params l)) w2 (first_segs lo ps))
    as (b & w3 & Hrun & Hb); try done.
  { intros p Hp Hldp He. apply list_elem_of_filter. done. }
  destruct (load_phdrs_shows file o data Hfile segs ps (Builder_new segs (file_name o) lazy ehdr (init_params l)) w2 b w3
    (first_segs lo ps) Hso eq_refl Hall Hap Hfap Hmap Hfirst Hrun) as (_ & Hmap2 & _ & _ & Hout2).
  pose proof (load_phdrs_segments _ _ _ _ _ _ _ Hrun) as Hseg. cbn [b_segments Builder_new] in Hseg.
  destruct (Hdrop w3) as (w4 & Hd & Hm4). exists b, w4.
  assert (Hload : load_impl l ehdr o lazy w = (Ok (b, ps, set_buf l buf), w4)).
  { unfold load_impl. eapply finally_run; [|exact Hd]. rewrite (bind_run _ _ _ _ _ Hprep).
    rewrite (proj1 (create_segments_kind ps (is_dylib ehdr) param lo Hc)). unfold bind at 1, lift at 1.
    rewrite (bind_run _ _ _ _ _ Hmm). apply on_unwind_run. cbn [first_param pm_len]. fold segs.
    rewrite Hhook. by rewrite (bind_run _ _ _ _ _ Hrun). }
  split; [done|]. rewrite Hseg. split_and!; [done|done|done|done|done| |done| |done|by unfold mapped_range; rewrite Hm4|done].
  2: { intros i Hi. rewrite Hm4, Hout2, Hout1 by done. done. }
  intros p Hp Hld. rewrite <- Hseg.
  apply (load_impl_shows file o data Hfile room limit l ehdr lazy w b ps (set_buf l buf) w4); rewrite ?Hseg; try done.
  - intros v. destruct (Hdrop v) as (v' & Hv & Hmv). by rewrite Hv.
Qed.

(** C12: a well-formed file loads, be it a library or an executable.  If the platform
    refuses no sound request, a file whose headers fit together is loaded without an
    error and without a panic: every loadable segment is in memory at load base plus
    link address, file bytes and zeros, and the builder records what the other headers
    say, each at its place in memory.  An executable is at its link address, if nothing
    was mapped there. *)
Theorem load_impl_loads l ehdr lazy w ps buf w1 param lo :
  MmapAnswers Mm room limit (first_addr (is_dylib ehdr) lo) -> (is_dylib ehdr = false -> 0 < lo) ->
  ld_hook l = None ->
  (forall w, exists w', obj_drop o w = (Ok tt, w') /\ mem w' = mem w) ->
  prepare_phdr (ld_buf l) ehdr o w = (Ok (ps, buf), w1) ->
  image_wf data ps -> create_segments ps true = Ok (param, lo) -> lo <= room -> pm_len param <= limit ->
  headers_ok lo (pm_len param) (first_segs lo ps) ps ->
  exists b w', load_impl l ehdr o lazy w = (Ok (b, ps, set_buf l buf), w') /\
    segments_ok (b_segments b) /\ memory_ptr (b_segments b) mod 4096 = 0 /\
    seg_offset (b_segments b) = lo /\ lo <= memory_ptr (b_segments b) /\ seg_len (b_segments b) = pm_len param /\
    (forall p, p ∈ ps -> is_load p -> shows (mem w') (base (b_segments b)) data p) /\
    builds (b_segments b) (first_segs lo ps)
      (Builder_new (b_segments b) (file_name o) lazy ehdr (init_params l)) ps b /\
    (is_dylib ehdr = false -> free_range (mem w1) lo (pm_len param) -> base (b_segments b) = 0).
Proof.
  intros. destruct (load_impl_runs l ehdr lazy w ps buf w1 param lo)
    as (b & w' & ? & Hs & ? & Ho & ? & ? & ? & ? & _ & _ & _ & Hfree); [done..|].
  exists b, w'. split_and!; try done. intros Hdy Hf. rewrite (base_ok _ Hs), Ho, (Hfree Hdy Hf). lia.
Qed.
End progress.

(** ** A load that fails early *)

Section early_failure.
Context `{Config} `{Arch} `{Mm : Mmap} (file : Z -> Z -> Z) `{!MmapLaws Mm file} `{EO : ElfObject T} (o : T).

Lemma create_segments_dylib ps param lo :
  create_segments ps true = Ok (param, lo) -> pm_addr param = None /\ pm_flags param = MAP_PRIVATE.
Proof.
  intros Hc. unfold create_segments in Hc. repeat inv_bind Hc.
  repeat match type of Hc with context [let '(_, _) := ?x in _] => destruct x end. repeat inv_bind Hc.
  by injection Hc as <- _.
Qed.

(** [mmap_segment] gets a mapping at [p] that it has to fill, and the read fails. *)
Definition copy_fails (param : MmapParam) (w : world) (p : Z) (e : Error) (w' : world) : Prop :=
  exists w1,
    mmap (pm_addr param) (pm_len param) (pm_prot param) (pm_flags param) (rg_offset (pm_range param))
      (as_fd o) false w = (Ok (p, true), w1) /\
    read_mem o p (rg_len (pm_range param)) (rg_offset (pm_range param)) w1 = (Err e, w').

(** C37: the reservation leaks.  The first request of a load reserves the address
    range of the whole library, and nothing owns it until [mmap_segment] has
    returned: when the copy of the first segment fails, [load_impl] gives the error,
    the object is dropped, and the whole range stays mapped. *)
Theorem load_impl_first_copy_leaks l ehdr lazy w ps buf w1 param lo p e w3 w4 :
  is_dylib ehdr = true ->
  (forall p len off w, same_dom (mem w) (mem (read_mem o p len off w).2)) ->
  prepare_phdr (ld_buf l) ehdr o w = (Ok (ps, buf), w1) ->
  create_segments ps true = Ok (param, lo) ->
  copy_fails param w1 p e w3 ->
  obj_drop o w3 = (Ok tt, w4) -> mem w4 = mem w3 ->
  load_impl l ehdr o lazy w = (Err e, w4) /\ mapped_range (mem w4) p (pm_len param).
Proof.
  intros Hdy Hdom Hp Hc (w2 & Hm & Hr) Hd Hm4. destruct (create_segments_dylib _ _ _ Hc) as [Ha Hf]. split.
  - assert (Hseg : mmap_segment param o w1 = (Err e, w3)).
    { unfold mmap_segment. rewrite (bind_run _ _ _ _ _ Hm). unfold bind. by rewrite Hr. }
    unfold load_impl, finally. rewrite (bind_run _ _ _ _ _ Hp), Hdy, Hc. unfold bind at 1, lift at 1.
    unfold bind at 1. rewrite Hseg. unfold run_drop. by rewrite Hd.
  - rewrite Hm4. intros i Hi. specialize (Hdom p (rg_len (pm_range param)) (rg_offset (pm_range param)) w2).
    rewrite Hr in Hdom. apply Hdom.
    apply (mmap_law (I := Mm)) in Hm as (_ & _ & Hmap & _); [|by rewrite Hf|by rewrite Ha].
    apply Hmap; [by left|done].
Qed.
End early_failure.


(** ** Examples *)

Lemma load_segment_pages_witness :
  @load_segment dev_config (mk_segments 65536 0 12288 (fun _ _ => ret tt)) (mk_phdr PT_LOAD 6 4000 8096 8096 80 100 4096) =
    Ok (Some (mk_param (Some 69632) 8192 3 18 (mk_range 4080 0))).
Proof.
  exact (@load_segment_pages dev_config (mk_segments 65536 0 12288 (fun _ _ => ret tt))
           (mk_phdr PT_LOAD 6 4000 8096 8096 80 100 4096)
           ltac:(unfold segments_ok, range_ok; simpl; lia)
           ltac:(constructor; try (vm_compute; done); simpl; unfold load_ok; simpl; lia)).
Defined.

(** Loading the example of [Loader.v] from a file, with the kernel of [Mmap.v]
    mapping the file. *)
Definition demo_file_object : ElfObject ElfFile := @LibcFile.object (demo_files (fun _ => demo_elf)).
Definition demo_loader : Loader := mk_loader None (mk_buf (image [(0, take 176 demo_elf)]) []) None.

Lemma demo_image_wf : image_wf demo_elf demo_phdrs.
Proof.
  constructor.
  - unfold file_ok. rewrite demo_elf_length. repeat constructor; simpl; lia.
  - by constructor.
  - apply FOP_cons; [|apply FOP_cons; constructor]. apply Forall_cons. split; [|constructor].
    intros _ _. left. vm_compute. done.
  - intros p Hp _ Hmin. unfold demo_phdrs in Hp. apply elem_of_cons in Hp as [->|Hp]; [done|].
    apply list_elem_of_singleton in Hp as ->.
    specialize (Hmin _ (list_elem_of_here _ _) eq_refl). simpl in Hmin. lia.
Qed.

Lemma demo_file_serves : Serves (H := demo_file_object) (mk_file [] 3) demo_elf.
Proof.
  apply (ElfFile_serves (F := demo_files (fun _ => demo_elf)) (fun _ => demo_elf) world_pos [] 3).
  rewrite demo_elf_length. reflexivity.
Qed.

Lemma demo_file_agrees fd j b :
  Some 3 = Some fd -> demo_elf !! j = Some b -> demo_file demo_elf fd (Z.of_nat j) = b.
Proof. intros _ Hx. unfold demo_file. by rewrite Nat2Z.id, Hx. Qed.

Lemma demo_prepare :
  @prepare_phdr dev_config ElfFile demo_file_object (ld_buf demo_loader) demo_ehdr (mk_file [] 3) empty_world =
    (Ok (demo_phdrs, ld_buf demo_loader), empty_world).
Proof.
  assert (Hr : (@prepare_phdr dev_config ElfFile demo_file_object (ld_buf demo_loader) demo_ehdr (mk_file [] 3) empty_world).1
    = Ok (demo_phdrs, ld_buf demo_loader)) by (vm_compute; reflexivity).
  assert (Hw : (@prepare_phdr dev_config ElfFile demo_file_object (ld_buf demo_loader) demo_ehdr (mk_file [] 3) empty_world).2
    = empty_world) by (vm_compute; reflexivity).
  rewrite (surjective_pairing (prepare_phdr _ _ _ _)), Hr, Hw. reflexivity.
Qed.

Definition demo_load : outcome (Builder * list ElfPhdr * Loader) * world :=
  @load_impl dev_config (@Libc.MmapImpl (demo_kernel demo_elf)) ElfFile demo_file_object demo_loader
    demo_ehdr (mk_file [] 3) None empty_world.

Definition demo_param : MmapParam := mk_param None 12288 1 MAP_PRIVATE (mk_range 176 0).

Lemma demo_create : @create_segments dev_config demo_phdrs true = Ok (demo_param, 0).
Proof. vm_compute. reflexivity. Qed.

Lemma demo_load_runs :
  exists b w', demo_load = (Ok (b, demo_phdrs, demo_loader), w') /\
    seg_offset (b_segments b) = 0 /\ 0 <= memory_ptr (b_segments b).
Proof.
  destruct (@load_impl_runs dev_config (@Libc.MmapImpl (demo_kernel demo_elf)) (demo_file demo_elf) _ 65536 (2 ^ 47) _ (fun _ _ => True)
           ElfFile demo_file_object (mk_file [] 3) demo_elf demo_file_serves demo_file_agrees
           demo_loader demo_ehdr None empty_world demo_phdrs (ld_buf demo_loader) empty_world demo_param 0)
    as (b & w' & Hrun & _ & _ & Ho & Hm & _ & _);
    [exact (free_answers _ (demo_file demo_elf) _ _)|done|reflexivity| |exact demo_prepare|exact demo_image_wf|exact demo_create|done|done| |].
  - intros w. by eexists.
  - vm_compute. exact I.
  - exists b, w'. split; [exact Hrun|split; [exact Ho|exact Hm]].
Qed.

Lemma load_impl_loads_witness :
  exists b w', demo_load = (Ok (b, demo_phdrs, demo_loader), w') /\
    segments_ok (b_segments b) /\ memory_ptr (b_segments b) mod 4096 = 0 /\
    seg_offset (b_segments b) = 0 /\ 0 <= memory_ptr (b_segments b) /\ seg_len (b_segments b) = 12288 /\
    (forall p, p ∈ demo_phdrs -> is_load p -> shows (mem w') (base (b_segments b)) demo_elf p) /\
    @builds (@Libc.MmapImpl (demo_kernel demo_elf)) (fun _ _ => True) demo_elf (b_segments b) (first_segs 0 demo_phdrs)
      (Builder_new (b_segments b) [] None demo_ehdr None) demo_phdrs b /\
    (is_dylib demo_ehdr = false -> free_range (mem empty_world) 0 12288 -> base (b_segments b) = 0).
Proof.
  apply (@load_impl_loads dev_config (@Libc.MmapImpl (demo_kernel demo_elf)) (demo_file demo_elf) _ 65536 (2 ^ 47) _ (fun _ _ => True)
           ElfFile demo_file_object (mk_file [] 3) demo_elf demo_file_serves demo_file_agrees
           demo_loader demo_ehdr None empty_world demo_phdrs (ld_buf demo_loader) empty_world demo_param 0);
    [exact (free_answers _ (demo_file demo_elf) _ _)|done|reflexivity| |exact demo_prepare|exact demo_image_wf|exact demo_create|done|done|].
  - intros w. by eexists.
  - vm_compute. exact I.
Defined.

Lemma load_impl_image_witness :
  exists b l' w', demo_load = (Ok (b, demo_phdrs, l'), w') /\
    shows (mem w') (base (b_segments b)) demo_elf (mk_phdr PT_LOAD 6 4000 8096 8096 80 100 4096).
Proof.
  destruct demo_load_runs as (b & w' & Hrun & Ho & Hm). exists b, demo_loader, w'. split; [exact Hrun|].
  refine (@load_impl_image dev_config (@Libc.MmapImpl (demo_kernel demo_elf)) (demo_file demo_elf) _
           ElfFile demo_file_object (mk_file [] 3) demo_elf demo_file_serves demo_file_agrees
           65536 (2 ^ 47) _ demo_loader demo_ehdr None empty_world b demo_phdrs demo_loader w' eq_refl eq_refl _ Hrun demo_image_wf _ _ _ _).
  - intros w. reflexivity.
  - rewrite Ho. exact Hm.
  - right. left.
  - reflexivity.
Defined.

(** A file of 100 bytes: the copy of its first segment, 176 bytes long, fails. *)
Definition demo_short_object : ElfObject ElfFile := @LibcFile.object (demo_files (fun _ => take 100 demo_elf)).
Definition demo_blocks : Allocator :=
  {| sys_alloc _ len _ := if len <? 2 ^ 40 then Some (mk_mapping 65536 (fun _ => 0)) else None |}.

#[export] Instance demo_blocks_laws : AllocatorLaws demo_blocks.
Proof.
  constructor. intros w len align r Hr. simpl in Hr. destruct (len <? 2 ^ 40) eqn:Hl; [|done].
  injection Hr as <-. unfold range_ok. simpl. lia.
Qed.

Lemma demo_short_prepare :
  @prepare_phdr dev_config ElfFile demo_short_object (ld_buf demo_loader) demo_ehdr (mk_file [] 3) empty_world =
    (Ok (demo_phdrs, ld_buf demo_loader), empty_world).
Proof.
  assert (Hr : (@prepare_phdr dev_config ElfFile demo_short_object (ld_buf demo_loader) demo_ehdr (mk_file [] 3) empty_world).1
    = Ok (demo_phdrs, ld_buf demo_loader)) by (vm_compute; reflexivity).
  assert (Hw : (@prepare_phdr dev_config ElfFile demo_short_object (ld_buf demo_loader) demo_ehdr (mk_file [] 3) empty_world).2
    = empty_world) by (vm_compute; reflexivity).
  rewrite (surjective_pairing (prepare_phdr _ _ _ _)), Hr, Hw. reflexivity.
Qed.

Lemma demo_short_read :
  exists w3, forall w2, w2 = (@mmap (@NoMmap.MmapImpl demo_blocks) None 12288 1 MAP_PRIVATE 0 (Some 3) false empty_world).2 ->
    @read_mem ElfFile demo_short_object (mk_file [] 3) 65536 176 0 w2 =
      (Err (IOError "failed to fill buffer"), w3).
Proof.
  eexists. intros w2 ->.
  assert (Hr : (@read_mem ElfFile demo_short_object (mk_file [] 3) 65536 176 0
    (@mmap (@NoMmap.MmapImpl demo_blocks) None 12288 1 MAP_PRIVATE 0 (Some 3) false empty_world).2).1 =
      Err (IOError "failed to fill buffer")) by (vm_compute; reflexivity).
  rewrite (surjective_pairing (read_mem _ _ _ _ _)), Hr. reflexivity.
Qed.

Lemma load_impl_first_copy_leaks_witness :
  exists w4, @load_impl dev_config (@NoMmap.MmapImpl demo_blocks) ElfFile demo_short_object demo_loader demo_ehdr
      (mk_file [] 3) None empty_world = (Err (IOError "failed to fill buffer"), w4) /\
    mapped_range (mem w4) 65536 12288.
Proof.
  destruct demo_short_read as [w3 Hr].
  eexists. eapply (@load_impl_first_copy_leaks dev_config (@NoMmap.MmapImpl demo_blocks) (fun _ _ => 0) _
    ElfFile demo_short_object (mk_file [] 3) demo_loader demo_ehdr None empty_world demo_phdrs (ld_buf demo_loader)
    empty_world demo_param 0 65536); [reflexivity| |exact demo_short_prepare|exact demo_create| |reflexivity|reflexivity].
  - intros p len off w. apply read_mem_same_dom. intros l a w'. apply LibcFile_read_mem.
  - eexists. split; [reflexivity|exact (Hr _ eq_refl)].
Defined.
