(* ===== verification/Core.v ===== *)
(** * Core: the shared core of a loaded object

    [CoreComponent], [CoreComponentInner] and [ElfInit] of [src/src/format/mod.rs]: the
    record every handle of an object shares through an [Arc], its life cycle
    (clone, downgrade, upgrade, drop with the [fini] functions), and the calls of
    the [init] functions. *)

From S2P Require Import Prelude Machine Arch StrTab Version Mmap Segment Dynamic Symbol UserData Loader.
#[local] Open Scope Z_scope.

(** A lazy scope is a boxed closure: called with a name, it may look symbols up in
    the memory and call native resolvers; dropping it drops what it captured. *)
Record LazyScope := mk_lazy { ls_call : bytes -> M (option Z); ls_drop : M unit }.

(** Drop of an [Option<LazyScope>]. *)
Definition drop_lazy (o : option LazyScope) : M unit :=
  match o with Some s => ls_drop s | None => ret tt end.

Record CoreComponentInner := mk_inner {
  cc_name : bytes;
  symbols : option SymbolTable;
  cc_dynamic : option Z;
  cc_pltrel : option Z;
  cc_phdrs : slice;
  cc_fini_fn : option Z;
  cc_fini_array_fn : option slice;
  cc_needed_libs : list bytes;
  user_data : UserData;
  lazy_scope : option LazyScope;
  segments : ElfSegments;
}.

(** A handle: the address of the [Arc]'s contents, and the contents.  The field
    [is_init], which changes while handles are shared, is in the world's cell. *)
Record CoreComponent := mk_core { arc_ptr : Z; inner : CoreComponentInner }.

Record CoreComponentRef := mk_core_ref { weak_of : CoreComponent }.

(** [&\[\]]: an empty slice has an aligned address at which nothing is mapped. *)
Definition empty_slice : slice := mk_slice 8 0.

(** ** Arc *)

(** The allocator chooses the address of a new [Arc]. *)
Class ArcAlloc := { arc_address : world -> Z }.

(** The allocator gives no address that is in use. *)
Class ArcFresh (A : ArcAlloc) : Prop := { arc_fresh : forall w, arcs w !! arc_address w = None }.

Definition arc_new `{ArcAlloc} (is_init : bool) (i : CoreComponentInner) : M CoreComponent := fun w =>
  let p := arc_address w in
  (Ok (mk_core p i), set_arcs (<[p := mk_cell 1 0 is_init]> (arcs w)) w).

Definition strong_count (c : CoreComponent) : M Z := fun w =>
  (c ← unwrap_unchecked (arcs w !! arc_ptr c); Ok (strong c), w).

Definition weak_count (c : CoreComponent) : M Z := fun w =>
  (c ← unwrap_unchecked (arcs w !! arc_ptr c); Ok (weak c), w).

(** A change of the counts of the allocation at [p], which a handle keeps there. *)
Definition update_cell (p : Z) (f : arc_cell -> arc_cell) : M unit := fun w =>
  match arcs w !! p with
  | Some cell => (Ok tt, set_arcs (<[p := f cell]> (arcs w)) w)
  | None => (Fault, w)
  end.

Definition add_strong (n : Z) (c : arc_cell) : arc_cell := mk_cell (strong c + n) (weak c) (cell_init c).
Definition add_weak (n : Z) (c : arc_cell) : arc_cell := mk_cell (strong c) (weak c + n) (cell_init c).

(** The allocation goes with its last handle. *)
Definition release (p : Z) : M unit := fun w =>
  match arcs w !! p with
  | Some cell =>
      (Ok tt, if (strong cell =? 0) && (weak cell =? 0) then set_arcs (delete p (arcs w)) w else w)
  | None => (Fault, w)
  end.

(** [Clone for Arc] *)
Definition core_clone (c : CoreComponent) : M CoreComponent :=
  update_cell (arc_ptr c) (add_strong 1) ;; ret c.

(** [Arc::downgrade] *)
Definition downgrade (c : CoreComponent) : M CoreComponentRef :=
  update_cell (arc_ptr c) (add_weak 1) ;; ret (mk_core_ref c).

(** [Weak::upgrade]: a new strong handle while one is left. *)
Definition upgrade (r : CoreComponentRef) : M (option CoreComponent) := fun w =>
  let p := arc_ptr (weak_of r) in
  match arcs w !! p with
  | Some cell =>
      if strong cell =? 0 then (Ok None, w)
      else (Ok (Some (weak_of r)), set_arcs (<[p := add_strong 1 cell]> (arcs w)) w)
  | None => (Fault, w)
  end.

(** [Drop for Weak] *)
Definition drop_weak (r : CoreComponentRef) : M unit :=
  update_cell (arc_ptr (weak_of r)) (add_weak (-1)) ;; release (arc_ptr (weak_of r)).

(** [Arc::get_mut]: only the sole handle, with no weak one, may change the contents. *)
Definition is_unique (c : CoreComponent) : M bool := fun w =>
  (cell ← unwrap_unchecked (arcs w !! arc_ptr c); Ok ((strong cell =? 1) && (weak cell =? 0)), w).

Definition is_init (c : CoreComponent) : M bool := fun w =>
  (cell ← unwrap_unchecked (arcs w !! arc_ptr c); Ok (cell_init cell), w).

Definition set_init (c : CoreComponent) : M unit :=
  update_cell (arc_ptr c) (fun cell => mk_cell (strong cell) (weak cell) true).

(** ** Calls of init and fini functions *)

Definition read_fn (m : memory) (p : Z) : outcome Z := read_u64 m p.

(** [fini_fn.iter().chain(fini_array_fn.unwrap_or(&\[\]).iter())] *)
Definition fn_list (m : memory) (f : option Z) (array : option slice) : outcome (list Z) :=
  fs ← read_slice read_fn 8 m (default empty_slice array);
  Ok (match f with Some f => f :: fs | None => fs end).

Record ElfInit := mk_init {
  init_param : option InitParams;
  i_init_fn : option Z;
  i_init_array_fn : option slice;
}.

Section core.
Context `{Native}.

Definition call_fn (args : list Z) (f : Z) : M unit := invoke f args ;; ret tt.

Definition call_init (i : ElfInit) : M unit :=
  let! fs := reads (fun m => fn_list m (i_init_fn i) (i_init_array_fn i)) in
  match init_param i with
  | Some ps => for_each fs (call_fn [argc ps mod U32_LIM; argv ps; envp ps])
  | None => for_each fs (call_fn [])
  end.

(** [Drop for CoreComponentInner], then the drops of its fields [lazy_scope] and
    [segments]. *)
Definition drop_inner (init : bool) (i : CoreComponentInner) : M unit :=
  finally
    (finally
       (if init then
          let! fs := reads (fun m => fn_list m (cc_fini_fn i) (cc_fini_array_fn i)) in
          for_each fs (call_fn [])
        else ret tt)
       (drop_lazy (lazy_scope i)))
    (drop_segments (segments i)).

(** [Drop for Arc]: the last strong handle drops the contents, then the weak handle
    all strong ones share. *)
Definition drop_core (c : CoreComponent) : M unit :=
  update_cell (arc_ptr c) (add_strong (-1)) ;;
  let! cell := (fun w => (unwrap_unchecked (arcs w !! arc_ptr c), w)) in
  if strong cell =? 0 then finally (drop_inner (cell_init cell) (inner c)) (release (arc_ptr c)) else ret tt.
End core.

(** A run of calls logs each of them, in order. *)
Section calls.
Context `{Native}.

Lemma for_each_calls args fs w w' :
  for_each fs (call_fn args) w = (Ok tt, w') ->
  log w' = log w ++ ((fun f => EvCall f args) <$> fs) /\ arcs w' = arcs w.
Proof.
  revert w. induction fs as [|f fs IH]; intros w Hrun; simpl in Hrun.
  { injection Hrun as <-. by rewrite app_nil_r. }
  apply bind_run_inv in Hrun as ([] & w1 & Hf & Hrun). apply bind_run_inv in Hf as (v & w2 & Hinv & Hret).
  injection Hret as <-. unfold invoke in Hinv. destruct (native_call w f args) as [[v' m']|]; [|done].
  injection Hinv as _ <-. destruct (IH _ Hrun) as [-> ->]. simpl. by rewrite <- app_assoc.
Qed.
End calls.

(** ** Accessors *)

Definition core_user_data (c : CoreComponent) : UserData := user_data (inner c).
Definition core_name (c : CoreComponent) : outcome bytes := to_str_unwrap (cc_name (inner c)).
Definition core_cname (c : CoreComponent) : bytes := cc_name (inner c).

(** [name.split('/').last().unwrap()] *)
Fixpoint last_component (acc s : bytes) : bytes :=
  match s with
  | [] => acc
  | b :: s' => if b =? 47 then last_component [] s' else last_component (acc ++ [b]) s'
  end.
Definition shortname (c : CoreComponent) : outcome bytes :=
  n ← core_name c; Ok (last_component [] n).

Definition core_base (c : CoreComponent) : Z := base (segments (inner c)).
Definition map_len (c : CoreComponent) : Z := seg_len (segments (inner c)).
Definition core_phdrs (c : CoreComponent) : slice := cc_phdrs (inner c).
Definition core_dynamic (c : CoreComponent) : option Z := cc_dynamic (inner c).
Definition core_needed_libs (c : CoreComponent) : list bytes := cc_needed_libs (inner c).
Definition core_symtab (c : CoreComponent) : option SymbolTable := symbols (inner c).

Definition set_lazy_scope (c : CoreComponent) (s : option LazyScope) : CoreComponent :=
  let i := inner c in
  mk_core (arc_ptr c)
    (mk_inner (cc_name i) (symbols i) (cc_dynamic i) (cc_pltrel i) (cc_phdrs i) (cc_fini_fn i)
       (cc_fini_array_fn i) (cc_needed_libs i) (user_data i) s (segments i)).

(** [from_raw]: an object mapped by someone else. *)
Definition from_raw `{Config} `{ArcAlloc} (name : bytes) (base : Z) (dynamic : ElfDynamic) (phdrs : slice)
    (segs : ElfSegments) (ud : UserData) : M CoreComponent :=
  let segs := mk_segments (memory_ptr segs) ((memory_ptr segs - base) mod U64_LIM) (seg_len segs) (seg_munmap segs) in
  let! symbols := reads (fun m => SymbolTable_new m dynamic) in
  arc_new true
    (mk_inner name (Some symbols) (NonNull_new (dyn_ptr dynamic)) None phdrs None None [] ud None segs).

(** [user_data_mut] needs the sole handle: the value behind the reference, and the
    object once the reference has written a new one. *)
Definition set_user_data (c : CoreComponent) (u : UserData) : CoreComponent :=
  let i := inner c in
  mk_core (arc_ptr c)
    (mk_inner (cc_name i) (symbols i) (cc_dynamic i) (cc_pltrel i) (cc_phdrs i) (cc_fini_fn i)
       (cc_fini_array_fn i) (cc_needed_libs i) u (lazy_scope i) (segments i)).

Definition core_user_data_mut (c : CoreComponent) : M (option (UserData * (UserData -> CoreComponent))) :=
  let! b := is_unique c in
  ret (if b : bool then Some (user_data (inner c), set_user_data c) else None).

(** ** Finalisation *)

Section finalisation.
Context `{Native}.

(** Functions that return, return one after the other. *)
Lemma calls_return args fs : forall w,
  (forall f v, f ∈ fs -> is_Some (native_call v f args)) -> exists w', for_each fs (call_fn args) w = (Ok tt, w') /\
    forall K, native_keeps K -> K (mem w) -> K (mem w').
Proof.
  induction fs as [|f fs IH]; intros w Hall; cbn [for_each]; [by eexists|].
  destruct (Hall f w (list_elem_of_here _ _)) as [[x m] Hx].
  destruct (IH (push_event (EvCall f args) (set_mem m w))) as (w' & Hw' & Hk); [intros g v Hg; apply Hall; by right|].
  exists w'. split; [rewrite <- Hw'; unfold bind at 1, call_fn, bind, invoke; by rewrite Hx|].
  intros K HK Hw. apply Hk; [done|]. by apply (HK w f args x).
Qed.

End finalisation.

(** ** Example *)

Definition demo_native : Native := {| native_call w f args := Some (0, mem w) |}.
Definition demo_inner : CoreComponentInner :=
  mk_inner (bytes_of "liba.so") None None None empty_slice (Some 700) None [] user_data_empty None
    (mk_segments 65536 0 4096 (fun p n => emit (EvMunmap p n true))).
Definition demo_core : CoreComponent := mk_core 900 demo_inner.
Definition demo_drop_world : world := mk_world ∅ [EvCall 700 []; EvMunmap 65536 4096 true] 0 ∅.

