(* ===== verification/Lifecycle.v ===== *)
(** * Lifecycle: the handles of one object

    The abstract life cycle of the [Arc] behind [CoreComponent] and its refinement:
    the numbers of strong and of weak handles, the flag [is_init], and how often the
    object was finalised.  Whatever the program does with the handles, the object
    is finalised and unmapped exactly once, when the last strong handle goes, and
    its allocation is freed when the last handle of either kind goes. *)

From S2P Require Import Prelude Machine Arch Mmap Segment Symbol UserData Loader Core.
#[local] Open Scope Z_scope.

(** ** The abstract machine *)

Inductive op :=
  | OpClone      (** [Clone for CoreComponent] *)
  | OpDowngrade  (** [CoreComponent::downgrade] *)
  | OpUpgrade    (** [CoreComponentRef::upgrade], keeping what it answers *)
  | OpDrop       (** a [CoreComponent] goes out of scope *)
  | OpDropWeak   (** a [CoreComponentRef] goes out of scope *)
  | OpSetInit.   (** [set_init], at the end of a relocation *)

Record life := mk_life { handles : Z; weaks : Z; initialised : bool; finalised : nat }.

(** An object as [arc_new] makes it. *)
Definition born (b : bool) : life := mk_life 1 0 b 0.

(** An operation needs the handle it works on. *)
Inductive life_step : life -> op -> life -> Prop :=
  | life_clone n k b f : 0 < n -> life_step (mk_life n k b f) OpClone (mk_life (n + 1) k b f)
  | life_downgrade n k b f : 0 < n -> life_step (mk_life n k b f) OpDowngrade (mk_life n (k + 1) b f)
  | life_upgrade n k b f : 0 < n -> 0 < k -> life_step (mk_life n k b f) OpUpgrade (mk_life (n + 1) k b f)
  | life_upgrade_dead k b f : 0 < k -> life_step (mk_life 0 k b f) OpUpgrade (mk_life 0 k b f)
  | life_drop n k b f : 1 < n -> life_step (mk_life n k b f) OpDrop (mk_life (n - 1) k b f)
  | life_drop_last k b f : life_step (mk_life 1 k b f) OpDrop (mk_life 0 k b (S f))
  | life_drop_weak n k b f : 0 < k -> life_step (mk_life n k b f) OpDropWeak (mk_life n (k - 1) b f)
  | life_init n k b f : 0 < n -> life_step (mk_life n k b f) OpSetInit (mk_life n k true f).

Inductive life_run : life -> list op -> life -> Prop :=
  | run_nil s : life_run s [] s
  | run_cons s o s' os s'' : life_step s o s' -> life_run s' os s'' -> life_run s (o :: os) s''.

Definition life_inv (s : life) : Prop :=
  0 <= handles s /\ 0 <= weaks s /\ finalised s = if decide (handles s = 0) then 1%nat else 0%nat.

Lemma born_inv b : life_inv (born b).
Proof. by split_and!. Qed.

Lemma life_step_inv s o s' : life_step s o s' -> life_inv s -> life_inv s'.
Proof.
  unfold life_inv. destruct 1; simpl; intros (? & ? & Hf); repeat case_decide; try lia;
    split_and!; try done; lia.
Qed.

Lemma life_run_inv s os s' : life_run s os s' -> life_inv s -> life_inv s'.
Proof. induction 1; eauto using life_step_inv. Qed.

(** ** The implementation *)

Section lifecycle.
Context `{Native} (c : CoreComponent).
Notation p := (arc_ptr c).

Definition run_op (o : op) : M unit :=
  match o with
  | OpClone => core_clone c ;; ret tt
  | OpDowngrade => downgrade c ;; ret tt
  | OpUpgrade => upgrade (mk_core_ref c) ;; ret tt
  | OpDrop => drop_core c
  | OpDropWeak => drop_weak (mk_core_ref c)
  | OpSetInit => set_init c
  end.

Definition run_ops (os : list op) : M unit := for_each os run_op.

Definition cell_of (s : life) : arc_cell := mk_cell (handles s) (weaks s) (initialised s).

(** The allocation in a state: freed when no handle is left. *)
Definition with_life (w : world) (s : life) : world :=
  set_arcs (if decide (handles s = 0 /\ weaks s = 0) then delete p (arcs w) else <[p := cell_of s]> (arcs w)) w.

(** The world before the finalisation is [w]; the finalisation takes it to
    [wf init] and leaves the allocation to the reference counting. *)
Variables (w : world) (wf : bool -> world).
Hypothesis finalise : forall b k,
  drop_inner b (inner c) (set_arcs (<[p := mk_cell 0 k b]> (arcs w)) w) =
    (Ok tt, set_arcs (<[p := mk_cell 0 k b]> (arcs (wf b))) (wf b)).

Definition world_of (s : life) : world :=
  if decide (0 < handles s) then with_life w s else with_life (wf (initialised s)) s.

Lemma with_life_cell v s :
  0 <= handles s -> 0 <= weaks s -> 0 < handles s \/ 0 < weaks s ->
  with_life v s = set_arcs (<[p := cell_of s]> (arcs v)) v.
Proof. intros. unfold with_life. by rewrite decide_False by lia. Qed.

Lemma update_cell_run v cell f :
  update_cell p f (set_arcs (<[p := cell]> (arcs v)) v) = (Ok tt, set_arcs (<[p := f cell]> (arcs v)) v).
Proof. unfold update_cell. simpl. rewrite lookup_insert_eq. simpl. by rewrite insert_insert_eq. Qed.

Lemma release_run v n k b :
  release p (set_arcs (<[p := mk_cell n k b]> (arcs v)) v) =
    (Ok tt, set_arcs (if decide (n = 0 /\ k = 0) then delete p (arcs v) else <[p := mk_cell n k b]> (arcs v)) v).
Proof.
  unfold release. simpl. rewrite lookup_insert_eq. simpl.
  destruct (Z.eqb_spec n 0), (Z.eqb_spec k 0); simpl;
    first [rewrite decide_True by done | rewrite decide_False by lia]; try done.
  by rewrite delete_insert_eq.
Qed.

Lemma world_alive s : 0 < handles s -> 0 <= weaks s -> world_of s = set_arcs (<[p := cell_of s]> (arcs w)) w.
Proof. intros. unfold world_of. rewrite decide_True by done. apply with_life_cell; lia. Qed.

(** Each operation of the code implements its abstract step. *)
Lemma world_of_step s o s' : life_inv s -> life_step s o s' -> run_op o (world_of s) = (Ok tt, world_of s').
Proof.
  intros (Hn & Hk & _) Hs. destruct Hs as [n k b f H0|n k b f H0|n k b f H0 H1|k b f H0|n k b f H0|k b f|n k b f H0|n k b f H0];
    cbn [handles weaks] in Hn, Hk; cbn [run_op].
  - rewrite !world_alive by (simpl; lia). unfold core_clone, bind. by rewrite update_cell_run.
  - rewrite !world_alive by (simpl; lia). unfold downgrade, bind. by rewrite update_cell_run.
  - rewrite !world_alive by (simpl; lia). unfold upgrade, bind. simpl. rewrite lookup_insert_eq. simpl.
    rewrite (proj2 (Z.eqb_neq _ _)) by lia. by rewrite insert_insert_eq.
  - unfold world_of. simpl. rewrite with_life_cell by (simpl; lia). unfold upgrade, bind. simpl.
    by rewrite lookup_insert_eq.
  - rewrite !world_alive by (simpl; lia). unfold drop_core, bind. rewrite update_cell_run. cbv beta iota.
    simpl. rewrite lookup_insert_eq. simpl. by rewrite (proj2 (Z.eqb_neq _ _)) by lia.
  - rewrite world_alive by (simpl; lia). unfold drop_core, bind. rewrite update_cell_run. cbv beta iota.
    cbn [arcs set_arcs]. rewrite lookup_insert_eq. cbn [unwrap_unchecked cell_of add_strong strong weak cell_init handles weaks initialised].
    change (1 + -1) with 0. rewrite Z.eqb_refl. eapply finally_run; [apply finalise|]. apply release_run.
  - unfold world_of. cbn [handles weaks initialised]. unfold drop_weak, bind.
    assert (Hgen : forall v, update_cell p (add_weak (-1)) (with_life v (mk_life n k b f)) =
              (Ok tt, set_arcs (<[p := mk_cell n (k - 1) b]> (arcs v)) v)).
    { intros v. rewrite with_life_cell by (simpl; lia). by rewrite update_cell_run. }
    case_decide; rewrite Hgen; apply release_run.
  - rewrite !world_alive by (simpl; lia). unfold set_init. by rewrite update_cell_run.
Qed.

Lemma world_of_run os : forall s s',
  life_inv s -> life_run s os s' -> run_ops os (world_of s) = (Ok tt, world_of s').
Proof.
  unfold run_ops. induction os as [|o os IH]; intros s s' Hi Hr; inversion Hr; subst; simpl; [done|].
  rewrite (bind_run _ _ _ _ _ (world_of_step _ _ _ Hi ltac:(eassumption))). eauto using life_step_inv.
Qed.

(** C24: the reference counting implements the abstract life cycle: every sequence of
    clones, downgrades, upgrades, drops and initialisations runs without a fault
    to the world of its abstract state.  So the object is finalised once, when
    the last strong handle goes and not before; from then on no weak handle can
    be upgraded; and the allocation is freed with the last handle. *)
Theorem last_drop_finalises (os : list op) (b : bool) (s : life) :
  life_run (born b) os s ->
  run_ops os (world_of (born b)) = (Ok tt, world_of s) /\
  (0 < handles s -> world_of s = set_arcs (<[p := cell_of s]> (arcs w)) w) /\
  (handles s = 0 -> world_of s = with_life (wf (initialised s)) s /\
     (0 < weaks s -> upgrade (mk_core_ref c) (world_of s) = (Ok None, world_of s)) /\
     (weaks s = 0 -> arcs (world_of s) !! p = None)).
Proof.
  intros Hrun. split; [by apply world_of_run; [apply born_inv|]|].
  destruct (life_run_inv _ _ _ Hrun (born_inv b)) as (Hn & Hk & _).
  split; [intros; by apply world_alive|]. intros Hz. unfold world_of. rewrite decide_False by lia.
  split; [done|]. unfold with_life. rewrite Hz. split; intros Hw.
  - rewrite decide_False by lia. unfold upgrade. simpl. rewrite lookup_insert_eq. simpl. by rewrite Hz.
  - rewrite decide_True by done. apply lookup_delete_eq.
Qed.

(** What a program observes of the counts is the state: [strong_count],
    [weak_count], and that the contents may be changed in place exactly when
    the handle is the only one. *)
Theorem counts_observed (s : life) :
  0 < handles s -> 0 <= weaks s ->
  strong_count c (world_of s) = (Ok (handles s), world_of s) /\
  weak_count c (world_of s) = (Ok (weaks s), world_of s) /\
  core_user_data_mut c (world_of s) =
    (Ok (if decide (handles s = 1 /\ weaks s = 0) then Some (user_data (inner c), set_user_data c) else None),
     world_of s).
Proof.
  intros Hn Hk. rewrite world_alive by done. unfold strong_count, weak_count, core_user_data_mut, is_unique, bind.
  simpl. rewrite lookup_insert_eq. simpl. split_and!; [done|done|].
  destruct (Z.eqb_spec (handles s) 1), (Z.eqb_spec (weaks s) 0); simpl;
    first [rewrite decide_True by done | rewrite decide_False by lia]; done.
Qed.
End lifecycle.

(** ** Example *)

Definition demo_life : list op := [OpClone; OpDowngrade; OpSetInit; OpDrop; OpUpgrade; OpDrop; OpDrop; OpUpgrade].

Lemma demo_life_run : life_run (born false) demo_life (mk_life 0 1 true 1).
Proof.
  eapply run_cons; [apply life_clone; lia|]. eapply run_cons; [apply life_downgrade; lia|].
  eapply run_cons; [apply life_init; lia|]. eapply run_cons; [apply life_drop; lia|].
  eapply run_cons; [apply life_upgrade; lia|]. eapply run_cons; [apply life_drop; lia|].
  eapply run_cons; [apply life_drop_last|]. eapply run_cons; [apply life_upgrade_dead; lia|].
  apply run_nil.
Qed.

Definition demo_after (b : bool) : world :=
  if b then demo_drop_world else mk_world ∅ [EvMunmap 65536 4096 true] 0 ∅.

Lemma last_drop_finalises_witness :
  @run_ops demo_native demo_core demo_life (world_of demo_core empty_world demo_after (born false)) =
    (Ok tt, set_arcs {[900 := mk_cell 0 1 true]} demo_drop_world).
Proof.
  apply (@last_drop_finalises demo_native demo_core empty_world demo_after) with (b := false) (s := mk_life 0 1 true 1).
  - intros [] k; reflexivity.
  - exact demo_life_run.
Defined.

Lemma counts_observed_witness :
  @core_user_data_mut demo_core (world_of demo_core empty_world demo_after (mk_life 1 1 true 0)) =
    (Ok None, world_of demo_core empty_world demo_after (mk_life 1 1 true 0)).
Proof. apply (counts_observed demo_core empty_world demo_after (mk_life 1 1 true 0)); simpl; lia. Defined.
