(* ===== verification/Relocation.v ===== *)
(** * Relocation: binding an object to its scope

    Models [src/src/relocation.rs]: symbol resolution ([find_symdef], [SymDef]), the
    three relocation passes of [ElfRelocation], lazy binding ([dl_fixup] and the
    static [GLOBAL_SCOPE]) and [relocate_impl], which runs them, protects RELRO
    and calls the initialisers.

    The relocation tables are shared slices: a pass decodes its table where it
    starts. *)

From S2P Require Import Prelude Machine Arch StrTab Version Mmap Segment Dynamic Symbol UserData Loader Core.
#[local] Open Scope Z_scope.

(** ** Symbols *)

Record SymDef := mk_symdef { sd_sym : option ElfSymbol; sd_base : Z }.

Record RelocateHelper := mk_helper { rh_base : Z; rh_symtab : SymbolTable }.

(** The user's closures: [pre_find], and [deal_unknown] with its custom error. *)
Definition PreFind : Type := bytes -> M (option Z).
Definition DealUnknown : Type := ElfRela -> CoreComponent -> M (unit + any).

(** A function pointer stored in [GLOBAL_SCOPE], called with a name. *)
Class ScopeFn := { scope_call : Z -> bytes -> M (option Z) }.

Definition set_global_scope (f : Z) : M unit := fun w =>
  (Ok tt, mk_world (mem w) (log w) f (arcs w)).

(** [iter().find_map(..)] with a body that can fail. *)
Fixpoint find_map_outcome {A B} (f : A -> outcome (option B)) (l : list A) : outcome (option B) :=
  match l with
  | [] => Ok None
  | x :: l' => r ← f x; match r with Some y => Ok (Some y) | None => find_map_outcome f l' end
  end.

Lemma find_map_outcome_pure {A B} (f : A -> outcome (option B)) (g : A -> option B) (l : list A) :
  (forall x, x ∈ l -> f x = Ok (g x)) -> find_map_outcome f l = Ok (find_map g l).
Proof.
  induction l as [|x l IH]; intros Hall; simpl; [done|]. rewrite (Hall x) by (by left). simpl.
  destruct (g x); [done|]. apply IH. intros y Hy. apply Hall. by right.
Qed.

(** [o.or_else(|| f)] *)
Definition or_else {A} (o : option A) (f : M (option A)) : M (option A) :=
  match o with Some a => ret (Some a) | None => f end.

Section resolve.
Context `{Config} `{Native}.

(** [SymDef::convert]: an [IFUNC] symbol is resolved by calling it. *)
Definition convert (d : SymDef) : M Z :=
  match sd_sym d with
  | Some sym =>
      let! addr := lift (uadd (sd_base d) (st_value sym)) in
      if negb (st_type sym =? STT_GNU_IFUNC) then ret addr else invoke addr []
  | None => ret 0
  end.

Definition find_symdef (m : memory) (core : CoreComponent) (libs : list RelocateHelper)
    (dynsym : ElfSymbol) (syminfo : SymbolInfo) : outcome (option SymDef) :=
  if is_local dynsym then Ok (Some (mk_symdef (Some dynsym) (core_base core)))
  else
    r ← find_map_outcome (fun lib : RelocateHelper =>
          s ← lookup_filter m (rh_symtab lib) syminfo;
          Ok (option_map (fun sym => mk_symdef (Some sym) (rh_base lib)) s)) libs;
    match r with
    | Some d => Ok (Some d)
    | None =>
        if is_weak dynsym && is_undef dynsym then
          _ ← rust_assert (st_value dynsym =? 0);
          Ok (Some (mk_symdef None (core_base core)))
        else Ok None
    end.

(** The resolution of one relocation: [pre_find] first, then the scope. *)
Definition resolve (core : CoreComponent) (scope : list RelocateHelper) (pre_find : PreFind)
    (dynsym : ElfSymbol) (syminfo : SymbolInfo) : M (option Z) :=
  let! p := pre_find (si_name syminfo) in
  or_else p
    (let! d := reads (fun m => find_symdef m core scope dynsym syminfo) in
     match d with Some d => let! v := convert d in ret (Some v) | None => ret None end).

Definition write_val (base offset val : Z) : M unit :=
  let! rel_addr := lift (uadd base offset) in write_usize rel_addr val.

(** [reloc_error] *)
Definition reloc_error (m : memory) (r_type r_sym : Z) (custom_err : any) (lib : CoreComponent) :
    outcome Error :=
  n ← shortname lib;
  let head := ("file: " ++ string_of_bytes n ++ ", relocation type: " ++ pretty r_type)%string in
  if r_sym =? 0 then Ok (relocate_error (head ++ ", no symbol") custom_err)
  else
    symtab ← unwrap (core_symtab lib);
    s ← symbol_idx m symtab r_sym;
    Ok (relocate_error (head ++ ", symbol name: " ++ string_of_bytes (si_name s.2)) custom_err).

(** [deal_unknown(&rela, &core).map_err(|err| reloc_error(..))?] *)
Definition unknown (deal_unknown : DealUnknown) (core : CoreComponent) (rela : ElfRela) : M unit :=
  let! r := deal_unknown rela core in
  match r with
  | inl _ => ret tt
  | inr err =>
      let! e := reads (fun m => reloc_error m (r_type rela) (r_symbol rela) err core) in throw e
  end.
End resolve.

(** ** ElfRelocation *)

Record ElfRelocation := mk_relocation { rl_relative : slice; rl_pltrel : slice; rl_dynrel : slice }.

Definition sl_end (size : Z) (s : slice) : Z := padd (sl_ptr s) (size * sl_len s).
Definition sl_is_empty (s : slice) : bool := sl_len s =? 0.

(** [&s\[..n\]] and [&s\[n..\]] *)
Definition slice_to (n : Z) (s : slice) : outcome slice :=
  if n <=? sl_len s then Ok (mk_slice (sl_ptr s) n) else Panic.
Definition slice_from (size n : Z) (s : slice) : outcome slice :=
  if n <=? sl_len s then Ok (mk_slice (padd (sl_ptr s) (size * n)) (sl_len s - n)) else Panic.

Definition ElfRelocation_new `{Config} (pltrel dynrel : option slice) (rela_count : option Z) :
    outcome ElfRelocation :=
  let nrelative := default 0 rela_count in
  let old_dynrel := default empty_slice dynrel in
  relative ← slice_to nrelative old_dynrel;
  temp_dynrel ← slice_from RELA_SIZE nrelative old_dynrel;
  let pltrel := default empty_slice pltrel in
  dynrel ← (if sl_end RELA_SIZE old_dynrel =? sl_end RELA_SIZE pltrel then
              n ← usub (sl_len temp_dynrel) (sl_len pltrel);
              slice_to n temp_dynrel
            else Ok temp_dynrel);
  Ok (mk_relocation relative pltrel dynrel).

Definition is_empty (r : ElfRelocation) : bool :=
  sl_is_empty (rl_relative r) && sl_is_empty (rl_dynrel r) && sl_is_empty (rl_pltrel r).

Definition read_relas (s : slice) : M (list ElfRela) := reads (fun m => read_slice read_rela RELA_SIZE m s).

Section passes.
Context `{Config} `{Arch} `{Native}.

Definition relocate_relative (r : ElfRelocation) (base : Z) : M unit :=
  let! relas := read_relas (rl_relative r) in
  lift (rust_assert (match relas with rela :: _ => r_type rela =? REL_RELATIVE | [] => true end)) ;;
  for_each relas (fun rela =>
    lift (debug_assert (r_type rela =? REL_RELATIVE)) ;;
    let! v := lift (uadd base (r_addend rela)) in
    write_val base (r_offset rela) v).

Definition relocate_pltrel (r : ElfRelocation) (core : CoreComponent) (symtab : SymbolTable)
    (scope : list RelocateHelper) (pre_find : PreFind) (deal_unknown : DealUnknown) : M unit :=
  let base := core_base core in
  let! relas := read_relas (rl_pltrel r) in
  for_each relas (fun rela =>
    if r_type rela =? REL_JUMP_SLOT then
      let! '(dynsym, syminfo) := reads (fun m => symbol_idx m symtab (r_symbol rela)) in
      let! symbol := resolve core scope pre_find dynsym syminfo in
      match symbol with
      | Some symbol => write_val base (r_offset rela) symbol
      | None => unknown deal_unknown core rela
      end
    else if r_type rela =? REL_IRELATIVE then
      let! ifunc := lift (uadd base (r_addend rela)) in
      let! v := invoke ifunc [] in
      write_val base (r_offset rela) v
    else unknown deal_unknown core rela).

Definition relocate_pltrel_lazy (r : ElfRelocation) (core : CoreComponent) (got : Z) : M unit :=
  let base := core_base core in
  let! relas := read_relas (rl_pltrel r) in
  for_each relas (fun rela =>
    if r_type rela =? REL_JUMP_SLOT then
      let! ptr := lift (uadd base (r_offset rela)) in
      let! origin_val := reads (fun m => read_u64 m ptr) in
      let! new_val := lift (uadd origin_val base) in
      write_usize ptr new_val
    else if r_type rela =? REL_IRELATIVE then
      let! ifunc := lift (uadd base (r_addend rela)) in
      let! v := invoke ifunc [] in
      write_val base (r_offset rela) v
    else lift Panic) ;;
  if negb (sl_is_empty (rl_pltrel r)) then prepare_lazy_bind got (arc_ptr core) else ret tt.

(** The [match] of [relocate_dynrel]: [true] stands for [continue]. *)
Definition dynrel_symbolic (core : CoreComponent) (symtab : SymbolTable) (scope : list RelocateHelper)
    (pre_find : PreFind) (rela : ElfRela) : M bool :=
  let base := core_base core in
  let t := r_type rela in
  if (t =? REL_GOT) || (t =? REL_SYMBOLIC) then
    let! '(dynsym, syminfo) := reads (fun m => symbol_idx m symtab (r_symbol rela)) in
    let! symbol := resolve core scope pre_find dynsym syminfo in
    match symbol with
    | Some symbol => write_val base (r_offset rela) symbol ;; ret true
    | None => ret false
    end
  else if t =? REL_DTPOFF then
    let! '(dynsym, syminfo) := reads (fun m => symbol_idx m symtab (r_symbol rela)) in
    let! symdef := reads (fun m => find_symdef m core scope dynsym syminfo) in
    match symdef with
    | Some symdef =>
        let! sym := lift (unwrap (sd_sym symdef)) in
        let! v := lift (uadd (st_value sym) (r_addend rela)) in
        let tls_val := (v - TLS_DTV_OFFSET) mod U64_LIM in
        write_val base (r_offset rela) tls_val ;; ret true
    | None => ret false
    end
  else if t =? REL_COPY then
    let! '(dynsym, syminfo) := reads (fun m => symbol_idx m symtab (r_symbol rela)) in
    let! symbol := reads (fun m => find_symdef m core scope dynsym syminfo) in
    match symbol with
    | Some symbol =>
        let! sym := lift (unwrap (sd_sym symbol)) in
        let len := st_size sym in
        let! dest := lift (get_slice_mut 1 (segments (inner core)) (r_offset rela) len) in
        let! src := lift (get_slice 1 (segments (inner core)) (st_value sym) len) in
        let! bs := reads (fun m => read_bytes m (sl_ptr src) (Z.to_nat (sl_len src))) in
        write_bytes (sl_ptr dest) bs ;; ret true
    | None => ret false
    end
  else ret false.

Definition relocate_dynrel_one (core : CoreComponent) (symtab : SymbolTable) (scope : list RelocateHelper)
    (pre_find : PreFind) (deal_unknown : DealUnknown) (rela : ElfRela) : M unit :=
  let! done := dynrel_symbolic core symtab scope pre_find rela in
  if done : bool then ret tt
  else if r_type rela =? REL_RELATIVE then
    let! v := lift (uadd (core_base core) (r_addend rela)) in
    write_val (core_base core) (r_offset rela) v
  else if r_type rela =? REL_NONE then ret tt
  else unknown deal_unknown core rela.

Definition relocate_dynrel (r : ElfRelocation) (core : CoreComponent) (symtab : SymbolTable)
    (scope : list RelocateHelper) (pre_find : PreFind) (deal_unknown : DealUnknown) : M unit :=
  let! relas := read_relas (rl_dynrel r) in
  for_each relas (relocate_dynrel_one core symtab scope pre_find deal_unknown).
End passes.

(** ** The object before relocation *)

(** [ElfCommonPart] of [format/mod.rs]. *)
Record ElfCommonPart := mk_common {
  c_entry : Z;
  c_got : option Z;
  c_relocation : ElfRelocation;
  c_relro : option ELFRelro;
  c_init : ElfInit;
  c_lazy : bool;
  c_rpath : option bytes;
  c_runpath : option bytes;
  c_interp : option bytes;
  c_core : CoreComponent;
}.

Section relocate.
Context `{Config} `{Arch} `{Native}.

(** The passes of [relocate_impl], up to the calls of the initialisers. *)
Definition relocate_tables (common : ElfCommonPart) (scope : list RelocateHelper) (pre_find : PreFind)
    (deal_unknown : DealUnknown) (local_lazy_scope : option LazyScope) : M CoreComponent :=
  let core := c_core common in
  let! symtab := lift (unwrap (core_symtab core)) in
  let relocation := c_relocation common in
  let base := core_base core in
  relocate_relative relocation base ;;
  relocate_dynrel relocation core symtab scope pre_find deal_unknown ;;
  if c_lazy common then
    let! got := lift (unwrap (c_got common)) in
    relocate_pltrel_lazy relocation core got ;;
    let! gscope := (fun w => (Ok (GLOBAL_SCOPE w), w)) in
    lift (rust_assert (sl_is_empty (rl_pltrel relocation) || bool_decide (is_Some local_lazy_scope) ||
                       negb (gscope =? 0))) ;;
    ret (set_lazy_scope core local_lazy_scope)
  else
    relocate_pltrel relocation core symtab scope pre_find deal_unknown ;;
    match c_relro common with Some r => relro r | None => ret tt end ;;
    ret core.

Definition relocate_body (common : ElfCommonPart) (scope : list RelocateHelper) (pre_find : PreFind)
    (deal_unknown : DealUnknown) (local_lazy_scope : option LazyScope) : M CoreComponent :=
  let! core := on_unwind (relocate_tables common scope pre_find deal_unknown local_lazy_scope)
                 (drop_lazy local_lazy_scope) in
  call_init (c_init common) ;;
  set_init core ;;
  (if c_lazy common then ret tt else drop_lazy local_lazy_scope) ;;
  ret core.

(** [local_lazy_scope] is dropped when the function ends, unless it was moved into
    the object; [common] when it ends without handing the core over. *)
Definition relocate_impl (common : ElfCommonPart) (scope : list RelocateHelper) (pre_find : PreFind)
    (deal_unknown : DealUnknown) (local_lazy_scope : option LazyScope) : M CoreComponent :=
  on_unwind (relocate_body common scope pre_find deal_unknown local_lazy_scope)
    (drop_core (c_core common)).

(** The target of [dl_runtime_resolve]: binds the slot of PLT entry [rela_idx]. *)
Definition dl_fixup `{ScopeFn} (dylib : CoreComponentInner) (rela_idx : Z) : M Z :=
  let! pltrel := lift (unwrap (cc_pltrel dylib)) in
  let! rela := reads (fun m => read_rela m (padd pltrel (RELA_SIZE * rela_idx))) in
  lift (rust_assert ((r_type rela =? REL_JUMP_SLOT) && negb (r_symbol rela =? 0))) ;;
  let! symtab := lift (unwrap (symbols dylib)) in
  let! s := reads (fun m => symbol_idx m symtab (r_symbol rela)) in
  let name := si_name s.2 in
  let! scope := (fun w => (Ok (GLOBAL_SCOPE w), w)) in
  let local := let! f := lift (unwrap (lazy_scope dylib)) in ls_call f name in
  let! symbol :=
    if scope =? 0 then local
    else let! r := scope_call scope name in or_else r local in
  let! symbol := lift (unwrap symbol) in
  let! ptr := lift (uadd (base (segments dylib)) (r_offset rela)) in
  write_usize ptr symbol ;;
  ret symbol.
End relocate.

(** ** Writing slots

    A write is an address and the bytes stored there; [word] is the write of one
    machine word. *)

Notation write := (Z * bytes)%type (only parsing).
Definition word (a v : Z) : write := (a, le_split 8 v).

Definition apply_writes (m : memory) (ws : list write) : memory :=
  fold_left (fun m s => store_bytes m s.1 s.2) ws m.

Definition wr_end (s : write) : Z := s.1 + Z.of_nat (length s.2).

(** The writes do not overlap. *)
Definition slots_apart (ws : list write) : Prop := ForallOrdPairs (fun s t => wr_end s <= t.1 \/ wr_end t <= s.1) ws.

Definition outside_slots (ws : list write) (a : Z) : Prop := Forall (fun s => ~ (s.1 <= a < wr_end s)) ws.

Definition write_mapped (m : memory) (s : write) : Prop := forall i, s.1 <= i < wr_end s -> is_Some (m !! i).
Definition slot_mapped (m : memory) (a : Z) : Prop := forall i, a <= i < a + 8 -> is_Some (m !! i).

(** Two memories that differ in the slots only. *)
Definition same_but (ws : list write) (m m' : memory) : Prop :=
  same_dom m m' /\ forall a, outside_slots ws a -> m' !! a = m !! a.

Lemma wr_end_word a v : wr_end (word a v) = a + 8.
Proof. unfold wr_end, word. cbn [fst snd]. by rewrite length_le_split. Qed.

Lemma write_mapped_word m a v : slot_mapped m a -> write_mapped m (word a v).
Proof. intros Hm i. rewrite wr_end_word. apply Hm. Qed.

Lemma slot_mapped_word m a v : write_mapped m (word a v) -> slot_mapped m a.
Proof. intros Hm i Hi. apply Hm. by rewrite wr_end_word. Qed.

Lemma apply_writes_cons m s ws : apply_writes m (s :: ws) = apply_writes (store_bytes m s.1 s.2) ws.
Proof. done. Qed.

Lemma apply_writes_outside ws m a : outside_slots ws a -> apply_writes m ws !! a = m !! a.
Proof.
  revert m. induction ws as [|s ws IH]; intros m Ho; [done|].
  apply Forall_cons in Ho as [Hp Ho]. rewrite apply_writes_cons, IH by done. by apply store_bytes_out.
Qed.

Lemma load_le_split8 m a v : 0 <= v < U64_LIM -> load_le (store_bytes m a (le_split 8 v)) a 8 = Ok v.
Proof.
  intros Hv. unfold load_le. pose proof (load_store_eq m a (le_split 8 v)) as Hl.
  rewrite length_le_split in Hl. rewrite Hl, le_combine_split. by rewrite Z.mod_small.
Qed.

Lemma apply_writes_read ws m a bs :
  slots_apart ws -> (a, bs) ∈ ws -> load_bytes (apply_writes m ws) a (length bs) = Some bs.
Proof.
  revert m. induction ws as [|s ws IH]; intros m Hap Hin; [by apply not_elem_of_nil in Hin|].
  inversion Hap as [|? ? Hap1 Hap2]; subst. apply elem_of_cons in Hin as [<-|Hin]; [|by apply IH].
  rewrite apply_writes_cons. cbn [fst snd]. rewrite <- (load_store_eq m a bs). apply load_bytes_agree.
  intros i Hi. apply apply_writes_outside. eapply Forall_impl; [exact Hap1|]. unfold wr_end. simpl. lia.
Qed.

(** Writes that do not overlap are all there afterwards, and nothing else is. *)
Lemma writes_done ws m :
  slots_apart ws ->
  (forall a bs, (a, bs) ∈ ws -> load_bytes (apply_writes m ws) a (length bs) = Some bs) /\
  (forall a, outside_slots ws a -> apply_writes m ws !! a = m !! a).
Proof. intros Hap. split; [intros; by apply apply_writes_read|intros; by apply apply_writes_outside]. Qed.

(** A word that was written is read back. *)
Lemma read_word_mod m a v :
  load_bytes m a (length (word a v).2) = Some (word a v).2 -> read_u64 m a = Ok (v mod U64_LIM).
Proof. unfold word, read_u64, load_le. cbn [snd]. rewrite length_le_split. intros ->. by rewrite le_combine_split. Qed.

Lemma read_word m a v :
  0 <= v < U64_LIM -> load_bytes m a (length (word a v).2) = Some (word a v).2 -> read_u64 m a = Ok v.
Proof. intros Hv Hl. rewrite (read_word_mod m a v Hl). by rewrite Z.mod_small. Qed.

Lemma apply_writes_word ws m a v :
  slots_apart ws -> word a v ∈ ws -> 0 <= v < U64_LIM -> read_u64 (apply_writes m ws) a = Ok v.
Proof. intros Hap Hin Hv. by apply read_word, apply_writes_read. Qed.

Lemma same_but_refl ws m : same_but ws m m.
Proof. by split. Qed.

Lemma same_but_write ws m m' s :
  same_but ws m m' -> s ∈ ws -> write_mapped m s -> same_but ws m (store_bytes m' s.1 s.2).
Proof.
  intros [Hd Ho] Hin Hm. split.
  - etransitivity; [exact Hd|]. apply store_bytes_same_dom. intros i Hi. by apply Hd, Hm.
  - intros x Hx. rewrite store_bytes_out; [by apply Ho|].
    unfold outside_slots in Hx. rewrite Forall_forall in Hx. exact (Hx _ Hin).
Qed.

Lemma write_usize_run a v w :
  slot_mapped (mem w) a -> write_usize a v w = (Ok tt, set_mem (store_bytes (mem w) a (le_split 8 v)) w).
Proof. intros Hm. apply write_bytes_run. rewrite length_le_split. exact Hm. Qed.

Lemma write_val_run `{Config} base off v w :
  0 <= base + off < U64_LIM -> slot_mapped (mem w) (base + off) ->
  write_val base off v w = (Ok tt, set_mem (store_bytes (mem w) (base + off) (le_split 8 v)) w).
Proof. intros Ha Hm. unfold write_val, bind, lift. rewrite uadd_ok by done. by apply write_usize_run. Qed.

(** The world after a pass has changed the memory and called [es]. *)
Definition after (m : memory) (es : list event) (w : world) : world :=
  mk_world m (log w ++ es) (GLOBAL_SCOPE w) (arcs w).

Lemma after_nil m w : after m [] w = set_mem m w.
Proof. unfold after. by rewrite app_nil_r. Qed.

(** The memory an entry leaves. *)
Definition written (m : memory) (o : option write) : memory :=
  match o with Some s => store_bytes m s.1 s.2 | None => m end.

Lemma apply_writes_step {A} (wr : A -> option write) m pre x :
  apply_writes m (omap wr (pre ++ [x])) = written (apply_writes m (omap wr pre)) (wr x).
Proof.
  rewrite omap_app. unfold apply_writes, written. rewrite fold_left_app. cbn [omap list_omap].
  by destruct (wr x).
Qed.

(** A pass whose every entry makes one write, or none, and makes its calls,
    writes them all and makes the calls in order.  The entry may read the memory:
    it runs in the memory the entries before it have left, which differs from the
    initial one in the slots of the pass. *)
Lemma for_each_effects {A} (f : A -> M unit) (wr : A -> option write) (ev : A -> list event) (l : list A) (w : world) :
  Forall (write_mapped (mem w)) (omap wr l) ->
  (forall pre x post m' es, l = pre ++ x :: post -> m' = apply_writes (mem w) (omap wr pre) ->
     same_but (omap wr l) (mem w) m' ->
     f x (after m' es w) = (Ok tt, after (written m' (wr x)) (es ++ ev x) w)) ->
  for_each l f w = (Ok tt, after (apply_writes (mem w) (omap wr l)) (l ≫= ev) w).
Proof.
  intros Hmap Hf.
  assert (Hgen : forall l' pre, l = pre ++ l' -> same_but (omap wr l) (mem w) (apply_writes (mem w) (omap wr pre)) ->
            for_each l' f (after (apply_writes (mem w) (omap wr pre)) (pre ≫= ev) w) =
              (Ok tt, after (apply_writes (mem w) (omap wr l)) (l ≫= ev) w)).
  { induction l' as [|x l' IH]; intros pre Hl Hsb; [by rewrite Hl, app_nil_r|]. cbn [for_each].
    rewrite (bind_run _ _ _ _ _ (Hf pre x l' _ _ Hl eq_refl Hsb)).
    assert (Hl' : l = (pre ++ [x]) ++ l') by by rewrite <- app_assoc.
    pose proof (IH (pre ++ [x]) Hl') as IH'. rewrite apply_writes_step, bind_app in IH'.
    cbn [mbind list_bind] in IH'. rewrite app_nil_r in IH'. apply IH'.
    destruct (wr x) as [s|] eqn:Hw; [|done].
    assert (Hws : s ∈ omap wr l).
    { apply list_elem_of_omap. exists x. split; [|done]. rewrite Hl. apply elem_of_app. right. by left. }
    apply same_but_write; [done|done|]. rewrite Forall_forall in Hmap. exact (Hmap _ Hws). }
  specialize (Hgen l [] eq_refl (same_but_refl _ _)). cbn in Hgen. rewrite after_nil in Hgen.
  by destruct w.
Qed.

(** A pass that calls nothing. *)
Lemma for_each_writes {A} (f : A -> M unit) (wr : A -> option write) (l : list A) (w : world) :
  Forall (write_mapped (mem w)) (omap wr l) ->
  (forall pre x post m' w', l = pre ++ x :: post -> m' = apply_writes (mem w) (omap wr pre) ->
     same_but (omap wr l) (mem w) m' -> mem w' = m' ->
     f x w' = (Ok tt, set_mem (written m' (wr x)) w')) ->
  for_each l f w = (Ok tt, set_mem (apply_writes (mem w) (omap wr l)) w).
Proof.
  intros Hmap Hf. rewrite (for_each_effects f wr (fun _ => [])); [|done|].
  - rewrite <- after_nil. do 2 f_equal. clear. induction l as [|x l IH]; [done|]. exact IH.
  - intros pre x post m' es Hl Hm Hsb. rewrite app_nil_r.
    exact (Hf pre x post m' (after m' es w) Hl Hm Hsb eq_refl).
Qed.

(** ** The passes *)

Lemma read_relas_run s w relas :
  read_slice read_rela RELA_SIZE (mem w) s = Ok relas -> read_relas s w = (Ok relas, w).
Proof. unfold read_relas, reads. by intros ->. Qed.

(** The word a relocation stores its value in. *)
Definition slot (base : Z) (rela : ElfRela) : Z := base + r_offset rela.

Lemma omap_some {A B} (g : A -> B) (l : list A) : omap (fun x => Some (g x)) l = g <$> l.
Proof. induction l as [|x l IH]; [done|]. rewrite fmap_cons, <- IH. done. Qed.

(** One word per element of a list. *)
Lemma words_written {A} (sl val : A -> Z) (l : list A) (m : memory) :
  let m' := apply_writes m (omap (fun x => Some (word (sl x) (val x))) l) in
  slots_apart ((fun x => word (sl x) (val x)) <$> l) -> (forall x, x ∈ l -> 0 <= val x < U64_LIM) ->
  (forall x, x ∈ l -> read_u64 m' (sl x) = Ok (val x)) /\
  (forall a, (forall x, x ∈ l -> ~ (sl x <= a < sl x + 8)) -> m' !! a = m !! a).
Proof.
  intros m' Hap Hv. unfold m'. rewrite omap_some. split.
  - intros x Hx. apply apply_writes_word; [done| |by apply Hv].
    apply (list_elem_of_fmap_2 (fun x => word (sl x) (val x))). done.
  - intros a Ha. apply apply_writes_outside, Forall_fmap, Forall_forall.
    intros x Hx. unfold compose. rewrite wr_end_word. by apply Ha.
Qed.

Lemma words_mapped {A} (sl val : A -> Z) (l : list A) (m : memory) :
  (forall x, x ∈ l -> slot_mapped m (sl x)) ->
  Forall (write_mapped m) (omap (fun x => Some (word (sl x) (val x))) l).
Proof.
  intros Hm. rewrite omap_some. apply Forall_fmap, Forall_forall. intros x Hx. by apply write_mapped_word, Hm.
Qed.

Lemma ForallOrdPairs_app_inv {A} (R : A -> A -> Prop) l1 l2 :
  ForallOrdPairs R (l1 ++ l2) -> ForallOrdPairs R l1 /\ ForallOrdPairs R l2.
Proof.
  induction l1 as [|x l1 IH]; cbn; intros Hl; [split; [constructor|done]|]. inversion Hl as [|? ? Hx Hr]; subst.
  destruct (IH Hr). apply Forall_app in Hx as [Hx _]. split; [by constructor|done].
Qed.

Lemma ForallOrdPairs_app_cross {A} (R : A -> A -> Prop) l1 l2 :
  ForallOrdPairs R (l1 ++ l2) -> forall x y, x ∈ l1 -> y ∈ l2 -> R x y.
Proof.
  induction l1 as [|z l1 IH]; intros Hp x y Hx Hy; [by apply not_elem_of_nil in Hx|].
  inversion Hp as [|? ? H1 H2]; subst. apply elem_of_cons in Hx as [->|Hx]; [|by eapply IH].
  rewrite Forall_forall in H1. apply H1, elem_of_app. by right.
Qed.

Section pass_facts.
Context `{Config} `{Arch}.

(** What the relative pass stores. *)
Definition relative_write (base : Z) (rela : ElfRela) : write := word (slot base rela) (base + r_addend rela).

Lemma relocate_relative_runs (r : ElfRelocation) (base : Z) (w : world) (relas : list ElfRela) :
  read_slice read_rela RELA_SIZE (mem w) (rl_relative r) = Ok relas ->
  Forall (fun rela => r_type rela = REL_RELATIVE /\ 0 <= slot base rela < U64_LIM /\
                      0 <= base + r_addend rela < U64_LIM /\ slot_mapped (mem w) (slot base rela)) relas ->
  relocate_relative r base w = (Ok tt, set_mem (apply_writes (mem w) (relative_write base <$> relas)) w).
Proof.
  intros Hr Hall. unfold relocate_relative. rewrite (bind_run _ _ _ _ _ (read_relas_run _ _ _ Hr)).
  rewrite Forall_forall in Hall. unfold bind at 1, lift at 1.
  assert (rust_assert (match relas with rela :: _ => r_type rela =? REL_RELATIVE | [] => true end) = Ok tt) as ->.
  { destruct relas as [|x l]; [done|]. destruct (Hall x (list_elem_of_here _ _)) as (-> & _).
    by rewrite Z.eqb_refl. }
  rewrite <- omap_some. apply (for_each_writes _ (fun rela => Some (relative_write base rela))).
  - apply (words_mapped (slot base) (fun rela => base + r_addend rela)). intros x Hx. by apply Hall.
  - intros pre x post m' w1 Hl _ [Hd _] <-.
    destruct (Hall x ltac:(rewrite Hl; apply elem_of_app; right; by left)) as (Ht & Hs & Hv & Hm).
    unfold bind at 1, lift at 1. rewrite debug_assert_ok by (by rewrite Ht, Z.eqb_refl).
    unfold bind, lift. rewrite uadd_ok by done. rewrite write_val_run; [done|done|].
    intros i Hi. apply Hd, Hm. exact Hi.
Qed.

(** The relative pass adds the load base to every addend: afterwards each slot
    of the table holds base + addend and no other byte of the memory has
    changed. *)
Theorem relocate_relative_applies (r : ElfRelocation) (base : Z) (w : world) (relas : list ElfRela) :
  read_slice read_rela RELA_SIZE (mem w) (rl_relative r) = Ok relas ->
  Forall (fun rela => r_type rela = REL_RELATIVE /\ 0 <= slot base rela < U64_LIM /\
                      0 <= base + r_addend rela < U64_LIM /\ slot_mapped (mem w) (slot base rela)) relas ->
  slots_apart ((fun rela => word (slot base rela) (base + r_addend rela)) <$> relas) ->
  exists m', relocate_relative r base w = (Ok tt, set_mem m' w) /\
    (forall rela, rela ∈ relas -> read_u64 m' (slot base rela) = Ok (base + r_addend rela)) /\
    (forall a, (forall rela, rela ∈ relas -> ~ (slot base rela <= a < slot base rela + 8)) ->
       m' !! a = mem w !! a).
Proof.
  intros Hr Hall Hap. eexists. split; [by apply (relocate_relative_runs r base w relas)|]. rewrite <- omap_some.
  rewrite Forall_forall in Hall.
  apply (words_written (slot base) (fun rela => base + r_addend rela)); [done|]. intros x Hx. by apply Hall.
Qed.

Context `{Native}.

Lemma uadd_slot base rela : 0 <= slot base rela < U64_LIM -> uadd base (r_offset rela) = Ok (slot base rela).
Proof. apply uadd_ok. Qed.

(** What the lazy pass writes: each word moved by the load base. *)
Definition rebase_write (base : Z) (orig : ElfRela -> Z) (rela : ElfRela) : write := word (slot base rela) (orig rela + base).

Lemma relocate_pltrel_lazy_run (r : ElfRelocation) (core : CoreComponent) (got : Z) (w : world)
    (relas : list ElfRela) (orig : ElfRela -> Z) :
  let base := core_base core in
  read_slice read_rela RELA_SIZE (mem w) (rl_pltrel r) = Ok relas ->
  Forall (fun rela => r_type rela = REL_JUMP_SLOT /\ 0 <= slot base rela < U64_LIM /\
                      read_u64 (mem w) (slot base rela) = Ok (orig rela) /\
                      0 <= orig rela + base < U64_LIM /\ slot_mapped (mem w) (slot base rela)) relas ->
  slots_apart (rebase_write base orig <$> relas) ->
  relocate_pltrel_lazy r core got w =
    (if negb (sl_is_empty (rl_pltrel r)) then prepare_lazy_bind got (arc_ptr core) else ret tt)
      (set_mem (apply_writes (mem w) (rebase_write base orig <$> relas)) w).
Proof.
  intros base Hr Hall Hap. unfold relocate_pltrel_lazy. rewrite (bind_run _ _ _ _ _ (read_relas_run _ _ _ Hr)).
  rewrite Forall_forall in Hall. fold base. set (g := rebase_write base orig) in *.
  match goal with |- context [for_each relas ?f] =>
    assert (Hrun : for_each relas f w = (Ok tt, set_mem (apply_writes (mem w) (omap (fun x => Some (g x)) relas)) w)) end.
  { apply for_each_writes.
    - apply words_mapped. intros x Hx. by apply Hall.
    - intros pre x post m' w1 Hl Hm' [Hd _] <-.
      destruct (Hall x ltac:(rewrite Hl; apply elem_of_app; right; by left)) as (Ht & Hs & Ho & Hv & Hm).
      rewrite Ht, Z.eqb_refl. unfold bind, lift, reads. rewrite uadd_slot by done.
      assert (read_u64 (mem w1) (slot base x) = Ok (orig x)) as ->.
      { rewrite <- Ho. apply load_le_agree. intros i Hi. rewrite Hm', omap_some. apply apply_writes_outside.
        apply Forall_fmap, Forall_forall. intros y Hy. simpl.
        rewrite Hl, fmap_app, fmap_cons in Hap.
        assert (Hyx : wr_end (g y) <= (g x).1 \/ wr_end (g x) <= (g y).1).
        { apply (ForallOrdPairs_app_cross _ _ _ Hap); [by apply list_elem_of_fmap; exists y|by left]. }
        unfold compose, g, rebase_write in *. rewrite !wr_end_word in *. simpl in *. lia. }
      rewrite uadd_ok by done. rewrite write_usize_run; [done|]. intros i Hi. apply Hd, Hm. exact Hi. }
  rewrite (bind_run _ _ _ _ _ Hrun). rewrite omap_some. done.
Qed.

(** Preparing lazy binding keeps every PLT slot pointing into the object: each
    [JUMP_SLOT] word is moved by the load base, then the first GOT words are
    set up for the resolver. *)
Theorem relocate_pltrel_lazy_rebases (r : ElfRelocation) (core : CoreComponent) (got : Z) (w : world)
    (relas : list ElfRela) (orig : ElfRela -> Z) :
  let base := core_base core in
  read_slice read_rela RELA_SIZE (mem w) (rl_pltrel r) = Ok relas -> relas <> [] ->
  Forall (fun rela => r_type rela = REL_JUMP_SLOT /\ 0 <= slot base rela < U64_LIM /\
                      read_u64 (mem w) (slot base rela) = Ok (orig rela) /\
                      0 <= orig rela + base < U64_LIM /\ slot_mapped (mem w) (slot base rela)) relas ->
  slots_apart ((fun rela => word (slot base rela) (orig rela + base)) <$> relas) ->
  exists m', relocate_pltrel_lazy r core got w = prepare_lazy_bind got (arc_ptr core) (set_mem m' w) /\
    (forall rela, rela ∈ relas -> read_u64 m' (slot base rela) = Ok (orig rela + base)) /\
    (forall a, (forall rela, rela ∈ relas -> ~ (slot base rela <= a < slot base rela + 8)) ->
       m' !! a = mem w !! a).
Proof.
  intros base Hr Hne Hall Hap. rewrite (relocate_pltrel_lazy_run r core got w relas orig) by done.
  assert (sl_is_empty (rl_pltrel r) = false) as ->.
  { unfold sl_is_empty. apply Z.eqb_neq. intros Hz. unfold read_slice in Hr. rewrite Hz in Hr. simpl in Hr. congruence. }
  simpl negb. cbv iota. eexists. split; [done|]. rewrite <- omap_some. rewrite Forall_forall in Hall.
  apply (words_written (slot base) (fun rela => orig rela + base)); [done|]. intros x Hx. by apply Hall.
Qed.

(** *** Resolution *)

(** C22: symbol resolution follows the scope order: a local symbol binds to the
    object itself; otherwise the first library of the scope that defines the
    symbol usably provides it; if none does, a weak undefined symbol resolves
    to the null symbol and any other stays unresolved. *)
Theorem find_symdef_order (m : memory) (core : CoreComponent) (libs : list RelocateHelper)
    (dynsym : ElfSymbol) (info : SymbolInfo) (found : RelocateHelper -> option ElfSymbol) :
  (forall lib, lib ∈ libs -> lookup_filter m (rh_symtab lib) info = Ok (found lib)) ->
  (is_local dynsym = true ->
     find_symdef m core libs dynsym info = Ok (Some (mk_symdef (Some dynsym) (core_base core)))) /\
  (forall i lib sym, is_local dynsym = false -> libs !! i = Some lib -> found lib = Some sym ->
     (forall j lib', (j < i)%nat -> libs !! j = Some lib' -> found lib' = None) ->
     find_symdef m core libs dynsym info = Ok (Some (mk_symdef (Some sym) (rh_base lib)))) /\
  (is_local dynsym = false -> (forall lib, lib ∈ libs -> found lib = None) -> st_value dynsym = 0 ->
     find_symdef m core libs dynsym info =
       Ok (if is_weak dynsym && is_undef dynsym then Some (mk_symdef None (core_base core)) else None)).
Proof.
  intros Hlk.
  assert (Hfind : find_map_outcome (fun lib : RelocateHelper =>
            s ← lookup_filter m (rh_symtab lib) info;
            Ok (option_map (fun sym => mk_symdef (Some sym) (rh_base lib)) s)) libs =
          Ok (find_map (fun lib => option_map (fun sym => mk_symdef (Some sym) (rh_base lib)) (found lib)) libs)).
  { apply find_map_outcome_pure. intros lib Hlib. by rewrite (Hlk lib Hlib). }
  split_and!.
  - intros Hl. unfold find_symdef. by rewrite Hl.
  - intros i lib sym Hloc Hi Hsym Hmin. unfold find_symdef. rewrite Hloc, Hfind, bind_Ok.
    assert (find_map (fun lib => option_map (fun sym => mk_symdef (Some sym) (rh_base lib)) (found lib)) libs =
            Some (mk_symdef (Some sym) (rh_base lib))) as ->; [|done].
    clear Hfind Hlk. revert i Hi Hmin. induction libs as [|l libs IH]; intros i Hi Hmin; [done|]. simpl.
    destruct i as [|i]; simpl in Hi; [simplify_eq; by rewrite Hsym|].
    rewrite (Hmin 0%nat l) by (done || lia). simpl. apply (IH i Hi). intros j l' Hj Hl'.
    apply (Hmin (S j)); [lia|done].
  - intros Hloc Hnone Hz. unfold find_symdef. rewrite Hloc, Hfind, bind_Ok.
    assert (find_map (fun lib => option_map (fun sym => mk_symdef (Some sym) (rh_base lib)) (found lib)) libs = None)
      as ->.
    { apply find_map_None, Forall_forall. intros l Hl. by rewrite Hnone. }
    destruct (is_weak dynsym && is_undef dynsym); [|done]. by rewrite Hz.
Qed.

(** *** Dynamic relocations *)

Lemma arch_distinct `{!ArchOk _} :
  ((REL_RELATIVE =? REL_GOT) = false /\ (REL_RELATIVE =? REL_SYMBOLIC) = false /\
   (REL_RELATIVE =? REL_DTPOFF) = false /\ (REL_RELATIVE =? REL_COPY) = false) /\
  ((REL_NONE =? REL_GOT) = false /\ (REL_NONE =? REL_SYMBOLIC) = false /\
   (REL_NONE =? REL_DTPOFF) = false /\ (REL_NONE =? REL_COPY) = false /\ (REL_NONE =? REL_RELATIVE) = false) /\
  ((REL_DTPOFF =? REL_GOT) = false /\ (REL_DTPOFF =? REL_SYMBOLIC) = false) /\
  ((REL_COPY =? REL_GOT) = false /\ (REL_COPY =? REL_SYMBOLIC) = false /\ (REL_COPY =? REL_DTPOFF) = false).
Proof.
  pose proof rel_types_distinct as Hn. unfold rel_types in Hn.
  rewrite !NoDup_cons, !not_elem_of_cons in Hn. rewrite !Z.eqb_neq.
  repeat match goal with Hc : _ /\ _ |- _ => destruct Hc end. split_and!; congruence.
Qed.

(** The two branches of the PLT pass are disjoint. *)
Lemma irelative_not_jump `{!ArchOk _} : (REL_IRELATIVE =? REL_JUMP_SLOT) = false.
Proof.
  pose proof rel_types_distinct as Hn. unfold rel_types in Hn.
  rewrite !NoDup_cons, !not_elem_of_cons in Hn. rewrite Z.eqb_neq.
  repeat match goal with Hc : _ /\ _ |- _ => destruct Hc end. congruence.
Qed.

Section binding.
Context (core : CoreComponent) (symtab : SymbolTable) (scope : list RelocateHelper)
        (pre_find : PreFind) (deal_unknown : DealUnknown) (w : world).

(** Something holds in every memory a pass with the slots [ws] can meet: what it
    reads lies outside the slots. *)
Definition stable (ws : list write) (P : memory -> Prop) : Prop := forall m', same_but ws (mem w) m' -> P m'.

Definition lookup_stable (ws : list write) (rela : ElfRela) (dynsym : ElfSymbol) (info : SymbolInfo) : Prop :=
  stable ws (fun m => symbol_idx m symtab (r_symbol rela) = Ok (dynsym, info)).

Definition scope_stable (ws : list write) (dynsym : ElfSymbol) (info : SymbolInfo) (d : SymDef) : Prop :=
  stable ws (fun m => find_symdef m core scope dynsym info = Ok (Some d)).

(** A native function at [f] that answers [v] and leaves the memory as it is. *)
Definition answers (ws : list write) (f v : Z) : Prop :=
  stable ws (fun m => forall es, native_call (after m es w) f [] = Some (v, m)).

(** The value of a symbol and the calls made for it: what [pre_find] answers or,
    when it knows nothing, the definition in the scope: base + value, the answer
    of its resolver for an [IFUNC], null for an undefined weak symbol. *)
Inductive symbol_value (ws : list write) (dynsym : ElfSymbol) (info : SymbolInfo) : Z -> list event -> Prop :=
  | value_pre v :
      (forall w', pre_find (si_name info) w' = (Ok (Some v), w')) -> symbol_value ws dynsym info v []
  | value_def sym b :
      (forall w', pre_find (si_name info) w' = (Ok None, w')) ->
      scope_stable ws dynsym info (mk_symdef (Some sym) b) ->
      st_type sym <> STT_GNU_IFUNC -> 0 <= b + st_value sym < U64_LIM ->
      symbol_value ws dynsym info (b + st_value sym) []
  | value_ifunc sym b v :
      (forall w', pre_find (si_name info) w' = (Ok None, w')) ->
      scope_stable ws dynsym info (mk_symdef (Some sym) b) ->
      st_type sym = STT_GNU_IFUNC -> 0 <= b + st_value sym < U64_LIM ->
      answers ws (b + st_value sym) v ->
      symbol_value ws dynsym info v [EvCall (b + st_value sym) []]
  | value_weak b :
      (forall w', pre_find (si_name info) w' = (Ok None, w')) ->
      scope_stable ws dynsym info (mk_symdef None b) ->
      symbol_value ws dynsym info 0 [].

Lemma invoke_answers ws f v m es :
  answers ws f v -> same_but ws (mem w) m -> invoke f [] (after m es w) = (Ok v, after m (es ++ [EvCall f []]) w).
Proof.
  intros Ha Hsb. unfold invoke. rewrite (Ha m Hsb). unfold after, push_event. simpl. by rewrite <- app_assoc.
Qed.

Lemma resolve_value ws dynsym info v es m es0 :
  symbol_value ws dynsym info v es -> same_but ws (mem w) m ->
  resolve core scope pre_find dynsym info (after m es0 w) = (Ok (Some v), after m (es0 ++ es) w).
Proof.
  intros Hv Hsb. unfold resolve, bind, reads. cbn [after mem].
  destruct Hv as [v Hp|sym b Hp Hd Ht Hr|sym b v Hp Hd Ht Hr Ha|b Hp Hd]; rewrite Hp; cbn [or_else]; rewrite ?app_nil_r;
    [done|unfold bind, reads; cbn [after mem]; rewrite (Hd m Hsb); unfold convert; cbn [sd_sym sd_base]..].
  - unfold bind, lift. rewrite uadd_ok, (proj2 (Z.eqb_neq _ _) Ht) by done. done.
  - unfold bind, lift. rewrite uadd_ok, (proj2 (Z.eqb_eq _ _) Ht) by done. cbn [negb].
    by rewrite (invoke_answers ws _ v).
  - done.
Qed.

(** A pass of the table's entries, each of which has its effect, has them all. *)
Lemma pass_runs (one : ElfRela -> M unit) (eff : ElfRela -> option write) (ev : ElfRela -> list event)
    (relas : list ElfRela) :
  let ws := omap eff relas in
  (forall x m es, x ∈ relas -> same_but ws (mem w) m ->
     (forall s, eff x = Some s -> 0 <= s.1 < U64_LIM /\ write_mapped m s) ->
     one x (after m es w) = (Ok tt, after (written m (eff x)) (es ++ ev x) w)) ->
  Forall (fun s => 0 <= s.1 < U64_LIM /\ write_mapped (mem w) s) ws ->
  for_each relas one w = (Ok tt, after (apply_writes (mem w) ws) (relas ≫= ev) w).
Proof.
  intros ws Hone Hws. rewrite Forall_forall in Hws. apply (for_each_effects _ eff).
  - apply Forall_forall. intros s Hs. by apply Hws.
  - intros pre x post m' es Hl _ Hsb. assert (Hx : x ∈ relas) by (rewrite Hl; apply elem_of_app; right; by left).
    apply Hone; [done|done|]. intros s Hs.
    assert (Hin : s ∈ ws) by (apply list_elem_of_omap; eauto).
    destruct (Hws s Hin) as (? & Hm). split; [done|]. intros i Hi. apply Hsb, Hm. exact Hi.
Qed.

Lemma write_slot rela v m es :
  0 <= slot (core_base core) rela < U64_LIM -> write_mapped m (word (slot (core_base core) rela) v) ->
  write_val (core_base core) (r_offset rela) v (after m es w) =
    (Ok tt, after (written m (Some (word (slot (core_base core) rela) v))) es w).
Proof. intros Hr Hm%slot_mapped_word. by rewrite write_val_run. Qed.

(** What an entry of the dynamic table stores, and the calls it makes. *)
Inductive dyn_effect (ws : list write) (rela : ElfRela) : option write -> list event -> Prop :=
  | eff_relative :
      r_type rela = REL_RELATIVE -> 0 <= core_base core + r_addend rela < U64_LIM ->
      dyn_effect ws rela (Some (word (slot (core_base core) rela) (core_base core + r_addend rela))) []
  | eff_none : r_type rela = REL_NONE -> dyn_effect ws rela None []
  | eff_symbol dynsym info v es :
      r_type rela = REL_GOT \/ r_type rela = REL_SYMBOLIC ->
      lookup_stable ws rela dynsym info -> symbol_value ws dynsym info v es ->
      dyn_effect ws rela (Some (word (slot (core_base core) rela) v)) es
  | eff_dtpoff dynsym info sym b :
      r_type rela = REL_DTPOFF ->
      lookup_stable ws rela dynsym info -> scope_stable ws dynsym info (mk_symdef (Some sym) b) ->
      0 <= st_value sym + r_addend rela < U64_LIM ->
      dyn_effect ws rela
        (Some (word (slot (core_base core) rela) ((st_value sym + r_addend rela - TLS_DTV_OFFSET) mod U64_LIM))) []
  | eff_copy dynsym info sym b bs :
      r_type rela = REL_COPY ->
      lookup_stable ws rela dynsym info -> scope_stable ws dynsym info (mk_symdef (Some sym) b) ->
      segments_ok (segments (inner core)) ->
      in_segments (segments (inner core)) (r_offset rela) (st_size sym) ->
      in_segments (segments (inner core)) (st_value sym) (st_size sym) ->
      stable ws (fun m => load_bytes m (core_base core + st_value sym) (Z.to_nat (st_size sym)) = Some bs) ->
      dyn_effect ws rela (Some (slot (core_base core) rela, bs)) [].

Lemma relocate_dynrel_one_effect `{!ArchOk _} ws rela eff es m es0 :
  dyn_effect ws rela eff es -> same_but ws (mem w) m ->
  (forall s, eff = Some s -> 0 <= s.1 < U64_LIM /\ write_mapped m s) ->
  relocate_dynrel_one core symtab scope pre_find deal_unknown rela (after m es0 w) =
    (Ok tt, after (written m eff) (es0 ++ es) w).
Proof.
  intros Heff Hsb Hslot. pose proof arch_distinct as ((R1 & R2 & R3 & R4) & (N1 & N2 & N3 & N4 & N5) & (D1 & D2) & C1 & C2 & C3).
  unfold relocate_dynrel_one, dynrel_symbolic.
  destruct Heff as [Ht Hv|Ht|dynsym info v es Ht Hlk Hres|dynsym info sym b Ht Hlk Hres Hv|dynsym info sym b bs Ht Hlk Hres Hseg Hdst Hsrc Hbs].
  - rewrite Ht, R1, R2, R3, R4, app_nil_r. cbn [orb].
    unfold bind, ret, lift. rewrite Z.eqb_refl, uadd_ok by done.
    destruct (Hslot _ eq_refl). by apply write_slot.
  - rewrite Ht, N1, N2, N3, N4, app_nil_r. cbn [orb]. unfold bind, ret. by rewrite N5, Z.eqb_refl.
  - assert ((r_type rela =? REL_GOT) || (r_type rela =? REL_SYMBOLIC) = true) as ->.
    { apply orb_true_iff. by destruct Ht as [->| ->]; [left|right]; apply Z.eqb_refl. }
    destruct (Hslot _ eq_refl). unfold bind, reads. cbn [after mem]. rewrite (Hlk m Hsb). cbn [fst snd].
    pose proof (resolve_value _ _ _ _ _ m es0 Hres Hsb) as Hr. unfold after at 1 in Hr. unfold after at 1. rewrite Hr.
    by rewrite write_slot.
  - rewrite Ht, D1, D2, Z.eqb_refl, app_nil_r. cbn [orb]. destruct (Hslot _ eq_refl).
    unfold bind, reads, lift. cbn [after mem]. rewrite (Hlk m Hsb).
    cbn [fst snd after mem]. rewrite (Hres m Hsb). cbn [unwrap sd_sym]. rewrite uadd_ok by done.
    by rewrite write_slot.
  - rewrite Ht, C1, C2, C3, Z.eqb_refl, app_nil_r. cbn [orb]. destruct (Hslot _ eq_refl) as [_ Hm].
    unfold bind, reads, lift. cbn [after mem]. rewrite (Hlk m Hsb).
    cbn [fst snd after mem]. rewrite (Hres m Hsb). cbn [unwrap sd_sym].
    rewrite get_slice_mut_ok, get_slice_ok by done. cbn [sl_ptr sl_len]. rewrite Z.div_1_r.
    unfold read_bytes. change (base (segments (inner core))) with (core_base core). cbn [after mem].
    rewrite (Hbs m Hsb). cbn [unwrap_unchecked]. by rewrite write_bytes_run.
Qed.

Lemma relocate_dynrel_runs `{!ArchOk _} (r : ElfRelocation) (relas : list ElfRela)
    (eff : ElfRela -> option write) (ev : ElfRela -> list event) :
  let ws := omap eff relas in
  read_slice read_rela RELA_SIZE (mem w) (rl_dynrel r) = Ok relas ->
  Forall (fun rela => dyn_effect ws rela (eff rela) (ev rela)) relas ->
  Forall (fun s => 0 <= s.1 < U64_LIM /\ write_mapped (mem w) s) ws ->
  relocate_dynrel r core symtab scope pre_find deal_unknown w =
    (Ok tt, after (apply_writes (mem w) ws) (relas ≫= ev) w).
Proof.
  intros ws Hr Heff Hws. unfold relocate_dynrel. rewrite (bind_run _ _ _ _ _ (read_relas_run _ _ _ Hr)).
  rewrite Forall_forall in Heff. apply pass_runs; [|done].
  intros x m es Hx Hsb Hslot. apply (relocate_dynrel_one_effect ws); [by apply Heff|done|done].
Qed.

(** C16: the dynamic pass stores in every slot what its entry calls for: base +
    addend for a relative entry; for a symbolic one what [pre_find] answers or the
    address of the definition in the scope (whatever the addend), calling the
    resolvers of indirect functions; the offset in the thread's block for a TLS
    one; for a copy entry as many bytes as the definition has, taken from the
    object's own image at the definition's value; entries of type none store
    nothing, and no other byte changes. *)
Theorem relocate_dynrel_binds `{!ArchOk _} (r : ElfRelocation) (relas : list ElfRela)
    (eff : ElfRela -> option write) (ev : ElfRela -> list event) :
  let ws := omap eff relas in
  read_slice read_rela RELA_SIZE (mem w) (rl_dynrel r) = Ok relas ->
  Forall (fun rela => dyn_effect ws rela (eff rela) (ev rela)) relas ->
  Forall (fun s => 0 <= s.1 < U64_LIM /\ write_mapped (mem w) s) ws ->
  slots_apart ws ->
  exists m', relocate_dynrel r core symtab scope pre_find deal_unknown w = (Ok tt, after m' (relas ≫= ev) w) /\
    (forall a bs, (a, bs) ∈ ws -> load_bytes m' a (length bs) = Some bs) /\
    (forall a, outside_slots ws a -> m' !! a = mem w !! a).
Proof.
  intros ws Hr Heff Hws Hap. eexists. split; [by apply relocate_dynrel_runs|by apply writes_done].
Qed.

(** What an entry of the PLT table stores, and the calls it makes. *)
Inductive plt_effect (ws : list write) (rela : ElfRela) : option write -> list event -> Prop :=
  | plt_symbol dynsym info v es :
      r_type rela = REL_JUMP_SLOT -> lookup_stable ws rela dynsym info -> symbol_value ws dynsym info v es ->
      plt_effect ws rela (Some (word (slot (core_base core) rela) v)) es
  | plt_ifunc v :
      r_type rela = REL_IRELATIVE -> 0 <= core_base core + r_addend rela < U64_LIM ->
      answers ws (core_base core + r_addend rela) v ->
      plt_effect ws rela (Some (word (slot (core_base core) rela) v)) [EvCall (core_base core + r_addend rela) []].

Lemma relocate_pltrel_runs `{!ArchOk _} (r : ElfRelocation) (relas : list ElfRela)
    (eff : ElfRela -> option write) (ev : ElfRela -> list event) :
  let ws := omap eff relas in
  read_slice read_rela RELA_SIZE (mem w) (rl_pltrel r) = Ok relas ->
  Forall (fun rela => plt_effect ws rela (eff rela) (ev rela)) relas ->
  Forall (fun s => 0 <= s.1 < U64_LIM /\ write_mapped (mem w) s) ws ->
  relocate_pltrel r core symtab scope pre_find deal_unknown w =
    (Ok tt, after (apply_writes (mem w) ws) (relas ≫= ev) w).
Proof.
  intros ws Hr Heff Hws. unfold relocate_pltrel. rewrite (bind_run _ _ _ _ _ (read_relas_run _ _ _ Hr)).
  rewrite Forall_forall in Heff. apply pass_runs; [|done].
  - intros x m es Hx Hsb Hslot. destruct (Heff x Hx) as [dynsym info v evs Ht Hlk Hv|v Ht Hrange Ha];
      destruct (Hslot _ eq_refl); rewrite Ht.
    + rewrite Z.eqb_refl. unfold bind at 1, reads. cbn [after mem]. rewrite (Hlk m Hsb).
      pose proof (resolve_value _ _ _ _ _ m es Hv Hsb) as Hres. rewrite (bind_run _ _ _ _ _ Hres).
      by apply write_slot.
    + rewrite irelative_not_jump, Z.eqb_refl. unfold bind, lift. rewrite uadd_ok by done.
      rewrite (invoke_answers ws _ v) by done. by apply write_slot.
Qed.

(** C17: the immediate PLT pass stores in every slot the address of its function:
    what [pre_find] answers, or the definition in the scope; the answer of the
    resolver for an indirect function, which is called once, in table order; no
    other byte changes. *)
Theorem relocate_pltrel_binds `{!ArchOk _} (r : ElfRelocation) (relas : list ElfRela)
    (eff : ElfRela -> option write) (ev : ElfRela -> list event) :
  let ws := omap eff relas in
  read_slice read_rela RELA_SIZE (mem w) (rl_pltrel r) = Ok relas ->
  Forall (fun rela => plt_effect ws rela (eff rela) (ev rela)) relas ->
  Forall (fun s => 0 <= s.1 < U64_LIM /\ write_mapped (mem w) s) ws ->
  slots_apart ws ->
  exists m', relocate_pltrel r core symtab scope pre_find deal_unknown w = (Ok tt, after m' (relas ≫= ev) w) /\
    (forall a bs, (a, bs) ∈ ws -> load_bytes m' a (length bs) = Some bs) /\
    (forall a, outside_slots ws a -> m' !! a = mem w !! a).
Proof.
  intros ws Hr Heff Hws Hap. eexists. split; [by apply relocate_pltrel_runs|by apply writes_done].
Qed.
End binding.
End pass_facts.

(** ** Whole objects *)

Section whole.
Context `{Config} `{Arch} `{Native}.

Definition init_args (i : ElfInit) : list Z :=
  match init_param i with Some ps => [argc ps mod U32_LIM; argv ps; envp ps] | None => [] end.

(** An object that relocates successfully has had every table processed
    first; then its [init] function and [init_array] entries are called once
    each, in order and with the loader's arguments, and only then does it
    count as initialised; a local lazy scope that the object does not need is
    dropped last. *)
Theorem relocate_impl_inits (common : ElfCommonPart) (scope : list RelocateHelper) (pre_find : PreFind)
    (deal_unknown : DealUnknown) (lazy : option LazyScope) (core : CoreComponent) (w w' : world) :
  relocate_impl common scope pre_find deal_unknown lazy w = (Ok core, w') ->
  exists w1 fs w2,
    relocate_tables common scope pre_find deal_unknown lazy w = (Ok core, w1) /\
    fn_list (mem w1) (i_init_fn (c_init common)) (i_init_array_fn (c_init common)) = Ok fs /\
    log w2 = log w1 ++ ((fun f => EvCall f (init_args (c_init common))) <$> fs) /\
    (exists cell, arcs w1 !! arc_ptr core = Some cell /\
      arcs w2 = <[arc_ptr core := mk_cell (strong cell) (weak cell) true]> (arcs w1)) /\
    (if c_lazy common then ret tt else drop_lazy lazy) w2 = (Ok tt, w').
Proof.
  intros Hrun. apply on_unwind_inv in Hrun. unfold relocate_body in Hrun.
  apply bind_run_inv in Hrun as (core1 & w1 & Htab%on_unwind_inv & Hrun).
  apply bind_run_inv in Hrun as ([] & w2 & Hinit & Hrun).
  apply bind_run_inv in Hrun as ([] & w3 & Hset & Hrun).
  apply bind_run_inv in Hrun as ([] & w4 & Hlazy & Hret). injection Hret as <- <-.
  exists w1. unfold call_init in Hinit. apply bind_run_inv in Hinit as (fs & w5 & Hfs & Hcalls).
  unfold reads in Hfs. injection Hfs as Hfs <-. exists fs, w3. split; [done|]. split; [done|].
  assert (Hl : log w2 = log w1 ++ ((fun f => EvCall f (init_args (c_init common))) <$> fs) /\ arcs w2 = arcs w1).
  { unfold init_args. destruct (init_param (c_init common)); by apply for_each_calls in Hcalls. }
  destruct Hl as [Hl Ha]. unfold set_init, update_cell in Hset. rewrite Ha in Hset.
  destruct (arcs w1 !! arc_ptr core1) as [cell|] eqn:Hc; [|done]. injection Hset as <-. simpl.
  split_and!; [done|eauto|done].
Qed.

(** C23: a relocation that fails on a sole handle leaves nothing behind: neither the
    initialisers nor the finalisers run, the lazy scope it was given is dropped,
    the mapping is released, the allocation freed, and the error is handed to
    the caller. *)
Theorem relocate_impl_failure (common : ElfCommonPart) (scope : list RelocateHelper) (pre_find : PreFind)
    (deal_unknown : DealUnknown) (lazy : option LazyScope) (e : Error) (w w1 w2 w3 w4 : world) :
  let p := arc_ptr (c_core common) in
  relocate_tables common scope pre_find deal_unknown lazy w = (Err e, w1) ->
  drop_lazy lazy w1 = (Ok tt, w2) ->
  arcs w2 !! p = Some (mk_cell 1 0 false) -> lazy_scope (inner (c_core common)) = None ->
  drop_segments (segments (inner (c_core common))) (set_arcs (<[p := mk_cell 0 0 false]> (arcs w2)) w2) = (Ok tt, w3) ->
  arcs w3 !! p = Some (mk_cell 0 0 false) ->
  w4 = set_arcs (delete p (arcs w3)) w3 ->
  relocate_impl common scope pre_find deal_unknown lazy w = (Err e, w4).
Proof.
  intros p Htab Hlazy Hcell Hnone Hdrop Hcell3 ->. unfold relocate_impl. eapply on_unwind_err.
  { unfold relocate_body, bind at 1. by rewrite (on_unwind_err _ _ _ _ _ _ Htab Hlazy). }
  unfold drop_core, bind, update_cell. fold p. rewrite Hcell. cbn [arcs set_arcs]. rewrite lookup_insert_eq.
  cbn [unwrap_unchecked add_strong strong weak cell_init]. change (1 + -1) with 0. rewrite Z.eqb_refl.
  eapply finally_run.
  - unfold drop_inner. rewrite Hnone. eapply finally_run; [by eapply finally_run|]. exact Hdrop.
  - unfold release. rewrite Hcell3. done.
Qed.

(** An object for lazy binding must have a [DT_PLTGOT] entry even if it has no
    PLT relocation at all: without one its relocation panics. *)
Theorem lazy_without_got_panics (common : ElfCommonPart) (scope : list RelocateHelper) (pre_find : PreFind)
    (deal_unknown : DealUnknown) (lazy : option LazyScope) (w : world) :
  is_Some (core_symtab (c_core common)) -> is_empty (c_relocation common) = true ->
  c_lazy common = true -> c_got common = None ->
  relocate_tables common scope pre_find deal_unknown lazy w = (Panic, w).
Proof.
  intros [st Hst] He Hl Hg. unfold relocate_tables, relocate_relative, relocate_dynrel.
  unfold is_empty, sl_is_empty in He. apply andb_true_iff in He as [He _]. apply andb_true_iff in He as [He1 He2].
  apply Z.eqb_eq in He1, He2. rewrite Hst, Hl, Hg.
  unfold bind, lift, read_relas, reads, read_slice. rewrite He1, He2. done.
Qed.

Context `{ScopeFn}.

(** The run behind the theorem below. *)
Lemma dl_fixup_run (dylib : CoreComponentInner) (idx p : Z) (rela : ElfRela) (st : SymbolTable)
    (sym : ElfSymbol) (info : SymbolInfo) (f : LazyScope) (local global : option Z) (w : world) :
  cc_pltrel dylib = Some p -> read_rela (mem w) (padd p (RELA_SIZE * idx)) = Ok rela ->
  r_type rela = REL_JUMP_SLOT -> r_symbol rela <> 0 ->
  symbols dylib = Some st -> symbol_idx (mem w) st (r_symbol rela) = Ok (sym, info) ->
  lazy_scope dylib = Some f -> ls_call f (si_name info) w = (Ok local, w) ->
  (GLOBAL_SCOPE w <> 0 -> scope_call (GLOBAL_SCOPE w) (si_name info) w = (Ok global, w)) ->
  0 <= slot (base (segments dylib)) rela < U64_LIM -> slot_mapped (mem w) (slot (base (segments dylib)) rela) ->
  let found := if decide (GLOBAL_SCOPE w = 0) then local
               else match global with Some v => Some v | None => local end in
  dl_fixup dylib idx w =
    match found with
    | Some v => (Ok v, set_mem (store_bytes (mem w) (slot (base (segments dylib)) rela) (le_split 8 v)) w)
    | None => (Panic, w)
    end.
Proof.
  intros Hp Hr Ht Hs Hst Hsym Hf Hloc Hglob Hrange Hm found. unfold dl_fixup. rewrite Hp, Hst, Hf.
  unfold bind, lift, reads, ret. cbn [unwrap]. rewrite Hr, Ht, Z.eqb_refl.
  rewrite (proj2 (Z.eqb_neq _ _) Hs). cbn [rust_assert negb andb]. rewrite Hsym. cbn [snd].
  unfold found. destruct (decide (GLOBAL_SCOPE w = 0)) as [Hg|Hg].
  - rewrite (proj2 (Z.eqb_eq _ _) Hg), Hloc. destruct local as [v|]; [|done]. cbn [unwrap].
    unfold slot in *. rewrite uadd_ok by done. by rewrite write_usize_run.
  - rewrite (proj2 (Z.eqb_neq _ _) Hg), (Hglob Hg). unfold or_else, ret. destruct global as [v|].
    + cbn [unwrap]. unfold slot in *. rewrite uadd_ok by done. by rewrite write_usize_run.
    + rewrite Hloc. destruct local as [v|]; [|done]. cbn [unwrap].
      unfold slot in *. rewrite uadd_ok by done. by rewrite write_usize_run.
Qed.

(** The first call through a PLT slot binds it: the global scope is asked first
    when one is set, then the object's own scope; the address found is stored in
    the slot and returned, and without one the call panics. *)
Theorem dl_fixup_binds (dylib : CoreComponentInner) (idx p : Z) (rela : ElfRela) (st : SymbolTable)
    (sym : ElfSymbol) (info : SymbolInfo) (f : LazyScope) (local global : option Z) (w : world) :
  cc_pltrel dylib = Some p -> read_rela (mem w) (padd p (RELA_SIZE * idx)) = Ok rela ->
  r_type rela = REL_JUMP_SLOT -> r_symbol rela <> 0 ->
  symbols dylib = Some st -> symbol_idx (mem w) st (r_symbol rela) = Ok (sym, info) ->
  lazy_scope dylib = Some f -> ls_call f (si_name info) w = (Ok local, w) ->
  (GLOBAL_SCOPE w <> 0 -> scope_call (GLOBAL_SCOPE w) (si_name info) w = (Ok global, w)) ->
  0 <= slot (base (segments dylib)) rela < U64_LIM -> slot_mapped (mem w) (slot (base (segments dylib)) rela) ->
  let found := if decide (GLOBAL_SCOPE w = 0) then local
               else match global with Some v => Some v | None => local end in
  dl_fixup dylib idx w =
    match found with
    | Some v => (Ok v, set_mem (store_bytes (mem w) (slot (base (segments dylib)) rela) (le_split 8 v)) w)
    | None => (Panic, w)
    end.
Proof. exact (dl_fixup_run dylib idx p rela st sym info f local global w). Qed.
End whole.

(** ** Example

    A library at 65536 whose tables are those of the example of [Symbol.v], with a
    relative entry, a GOT entry for [alpha] and an empty one; two PLT entries. *)

Definition demo_relas : list ElfRela :=
  [mk_rela 256 8 64; mk_rela 264 (Z.shiftl 2 32 + 6) 5; mk_rela 0 0 0].
Definition demo_plt : list ElfRela := [mk_rela 272 (Z.shiftl 2 32 + 7) 0; mk_rela 280 (Z.shiftl 3 32 + 7) 0].
Definition demo_plt_now : list ElfRela := [mk_rela 272 (Z.shiftl 1 32 + 7) 0; mk_rela 280 37 100].
Definition rela_bytes (r : ElfRela) : bytes :=
  pack [(8%nat, rela_r_offset r); (8%nat, rela_r_info r); (8%nat, rela_r_addend r)].
Definition demo_reloc_memory : memory := image
  [(9000, mjoin (rela_bytes <$> demo_relas)); (9200, mjoin (rela_bytes <$> demo_plt));
   (9400, mjoin (rela_bytes <$> demo_plt_now));
   (65792, pack [(8%nat, 0); (8%nat, 0); (8%nat, 4096); (8%nat, 4112)])] ∪ demo_symbol_memory.
Definition demo_reloc_world : world := mk_world demo_reloc_memory [] 0 {[900 := mk_cell 1 0 false]}.
Definition demo_relocation : ElfRelocation :=
  mk_relocation (mk_slice 9000 1) (mk_slice 9200 2) (mk_slice 9024 2).
Definition demo_reloc_inner (lazy : option LazyScope) : CoreComponentInner :=
  mk_inner (bytes_of "liba.so") (Some demo_symtab) None (Some 9200) empty_slice None None [] user_data_empty lazy
    (mk_segments 65536 0 4096 (fun p n => emit (EvMunmap p n true))).
Definition demo_reloc_core : CoreComponent := mk_core 900 (demo_reloc_inner None).
Definition demo_pre_find : PreFind := fun name => ret (if bool_decide (name = bytes_of "alpha") then Some 777 else None).
Definition demo_unknown : DealUnknown := fun _ _ => ret (inr 0).
Definition demo_helper : RelocateHelper := mk_helper 65536 demo_symtab.
Definition demo_scope_fn : ScopeFn := {| scope_call f name := ret None |}.

Lemma slot_mapped_check (m : memory) (a : Z) : is_ok (read_u64 m a) = true -> slot_mapped m a.
Proof.
  unfold read_u64, load_le. intros Ho. destruct (load_bytes m a 8) as [bs|] eqn:Hb; [|done].
  intros i Hi. replace i with (a + Z.of_nat (Z.to_nat (i - a))) by lia.
  apply (load_bytes_mapped m a 8); [eauto|lia].
Qed.

Lemma relocate_relative_applies_witness :
  exists m', @relocate_relative dev_config (x86_64 0) demo_relocation 65536 demo_reloc_world =
      (Ok tt, set_mem m' demo_reloc_world) /\
    (forall rela, rela ∈ [mk_rela 256 8 64] -> read_u64 m' (slot 65536 rela) = Ok (65536 + r_addend rela)) /\
    (forall a, (forall rela, rela ∈ [mk_rela 256 8 64] -> ~ (slot 65536 rela <= a < slot 65536 rela + 8)) ->
       m' !! a = mem demo_reloc_world !! a).
Proof.
  apply (@relocate_relative_applies dev_config (x86_64 0) demo_relocation 65536 demo_reloc_world).
  - vm_compute. reflexivity.
  - constructor; [|constructor]. split_and!; try done; try apply write_mapped_word; apply slot_mapped_check. by vm_compute.
  - repeat constructor.
Defined.

(** In a table without versions a symbol is read the same way wherever its entry and
    its name have not changed. *)
Lemma symbol_idx_frame `{Config} (m m' : memory) (st : SymbolTable) (idx : Z) (s : ElfSymbol) (info : SymbolInfo) :
  version st = None -> symbol_idx m st idx = Ok (s, info) ->
  (forall a, padd (symtab st) (SYM_SIZE * idx) <= a < padd (symtab st) (SYM_SIZE * idx) + SYM_SIZE ->
     m' !! a = m !! a) ->
  (forall a, padd (strtab_data (strtab st)) (st_name s) <= a <=
             padd (strtab_data (strtab st)) (st_name s) + Z.of_nat (length (si_name info)) -> m' !! a = m !! a) ->
  symbol_idx m' st idx = Ok (s, info).
Proof.
  unfold symbol_idx. intros Hv Hok Hsym Hstr. rewrite Hv in *. inv_bind Hok. inv_bind Hok.
  assert (Hver : (if feature_version then get_requirement m None idx else Ok None) = Ok None) by by case_match.
  rewrite Hver in Hok. simpl in Hok. injection Hok as <- <-. rename a into s, a0 into nm.
  assert (read_symbol m' (padd (symtab st) (SYM_SIZE * idx)) = Ok s) as ->.
  { rewrite <- Ha. revert Hsym. generalize (padd (symtab st) (SYM_SIZE * idx)). intros p Hsym. unfold read_symbol, read_u32, read_u8, read_u16, read_u64. unfold SYM_SIZE in *.
    repeat (apply bind_ext; [apply load_le_agree; intros i Hi; apply Hsym; lia|intros ?]). done. }
  rewrite bind_Ok. unfold get_cstr in *. apply cstr_from_ptr_inv in Ha0 as (Hl & Hz & Hnz).
  rewrite (cstr_from_ptr_at m' _ nm); [rewrite bind_Ok; by case_match|].
  unfold convert_cstr in Hstr. cbn [si_name] in Hstr. split_and!; [|rewrite Hstr by lia; done|done].
  rewrite <- Hl. apply load_bytes_agree. intros i Hi. apply Hstr. lia.
Qed.

Definition demo_writes : list write := [word 65800 777].
Definition demo_effect (r : ElfRela) : option write :=
  if r_type r =? 6 then Some (word (slot 65536 r) 777) else None.

Lemma relocate_dynrel_binds_witness :
  exists m', @relocate_dynrel default_config (x86_64 0) demo_native demo_relocation demo_reloc_core demo_symtab
        [demo_helper] demo_pre_find demo_unknown demo_reloc_world = (Ok tt, after m' [] demo_reloc_world) /\
    (forall a bs, (a, bs) ∈ demo_writes -> load_bytes m' a (length bs) = Some bs) /\
    (forall a, outside_slots demo_writes a -> m' !! a = mem demo_reloc_world !! a).
Proof.
  apply (@relocate_dynrel_binds default_config (x86_64 0) demo_native demo_reloc_core demo_symtab
           [demo_helper] demo_pre_find demo_unknown demo_reloc_world _ demo_relocation (drop 1 demo_relas) demo_effect
           (fun _ => [])).
  - vm_compute. reflexivity.
  - constructor; [|constructor; [|constructor]].
    + change (demo_effect _) with (Some (word (slot (core_base demo_reloc_core) (mk_rela 264 (Z.shiftl 2 32 + 6) 5)) 777)).
      change (omap demo_effect (drop 1 demo_relas)) with demo_writes.
      apply (eff_symbol _ _ _ _ _ _ _ (mk_symbol 7 18 0 7 4660 8)
               (mk_syminfo (bytes_of "alpha") (Some (bytes_of "alpha")) None)).
      * by left.
      * intros m' [_ Hout]. apply (symbol_idx_frame (mem demo_reloc_world)); [done|by vm_compute| |];
          intros a Ha; apply Hout; (constructor; [unfold demo_writes; rewrite wr_end_word; cbn [fst word]|done]).
        -- change (2048 <= a < 2072) in Ha. lia.
        -- change (3007 <= a <= 3012) in Ha. lia.
      * apply value_pre. intros w'. reflexivity.
    + by apply eff_none.
  - constructor; [|constructor]. split_and!; try done; try apply write_mapped_word; apply slot_mapped_check. by vm_compute.
  - repeat constructor.
Defined.

Definition demo_now_relocation : ElfRelocation := mk_relocation empty_slice (mk_slice 9400 2) empty_slice.
Definition demo_now_effect (r : ElfRela) : option write :=
  Some (word (slot 65536 r) (if r_type r =? 7 then 65600 else 0)).
Definition demo_now_calls (r : ElfRela) : list event := if r_type r =? 7 then [] else [EvCall 65636 []].

Lemma relocate_pltrel_binds_witness :
  exists m', @relocate_pltrel default_config (x86_64 0) demo_native demo_now_relocation demo_reloc_core demo_symtab
        [demo_helper] demo_pre_find demo_unknown demo_reloc_world =
        (Ok tt, after m' [EvCall 65636 []] demo_reloc_world) /\
    (forall a bs, (a, bs) ∈ [word 65808 65600; word 65816 0] -> load_bytes m' a (length bs) = Some bs) /\
    (forall a, outside_slots [word 65808 65600; word 65816 0] a -> m' !! a = mem demo_reloc_world !! a).
Proof.
  apply (@relocate_pltrel_binds default_config (x86_64 0) demo_native demo_reloc_core demo_symtab
           [demo_helper] demo_pre_find demo_unknown demo_reloc_world _ demo_now_relocation demo_plt_now demo_now_effect
           demo_now_calls).
  - vm_compute. reflexivity.
  - change (omap demo_now_effect demo_plt_now) with [word 65808 65600; word 65816 0].
    constructor; [|constructor; [|constructor]].
    + change (demo_now_effect _)
        with (Some (word (slot (core_base demo_reloc_core) (mk_rela 272 (Z.shiftl 1 32 + 7) 0)) (65536 + 64))).
      change (demo_now_calls _) with (@nil event).
      apply (plt_symbol _ _ _ _ _ _ _ (mk_symbol 1 1 0 7 64 0)
               (mk_syminfo (bytes_of "gamma") (Some (bytes_of "gamma")) None)).
      * reflexivity.
      * intros m' [_ Hout]. apply (symbol_idx_frame (mem demo_reloc_world)); [done|by vm_compute| |];
          intros a Ha; apply Hout; (constructor; [|constructor; [|done]]); rewrite wr_end_word; cbn [fst word].
        -- change (2024 <= a < 2048) in Ha. lia.
        -- change (2024 <= a < 2048) in Ha. lia.
        -- change (3001 <= a <= 3006) in Ha. lia.
        -- change (3001 <= a <= 3006) in Ha. lia.
      * apply (value_def _ _ _ _ _ _ _ (mk_symbol 1 1 0 7 64 0) 65536).
        -- intros w'. reflexivity.
        -- intros m' _. reflexivity.
        -- discriminate.
        -- split; [discriminate|reflexivity].
    + change (demo_now_effect _) with (Some (word (slot (core_base demo_reloc_core) (mk_rela 280 37 100)) 0)).
      change (demo_now_calls _) with [EvCall (core_base demo_reloc_core + r_addend (mk_rela 280 37 100)) []].
      apply (plt_ifunc _ _ _ _ _ _ _ 0).
      * reflexivity.
      * split; [discriminate|reflexivity].
      * intros m' _ es. reflexivity.
  - constructor; [|constructor; [|constructor]]; split_and!; try done; try apply write_mapped_word; apply slot_mapped_check; by vm_compute.
  - constructor; [constructor; [by left|constructor]|repeat constructor].
Defined.

Lemma relocate_pltrel_lazy_rebases_witness :
  exists m', @relocate_pltrel_lazy default_config (x86_64 0) demo_native demo_relocation demo_reloc_core 65808
        demo_reloc_world =
      @prepare_lazy_bind (x86_64 0) 65808 900 (set_mem m' demo_reloc_world) /\
    (forall rela, rela ∈ demo_plt -> read_u64 m' (slot 65536 rela) = Ok (r_offset rela * 2 + 3552 + 65536)) /\
    (forall a, (forall rela, rela ∈ demo_plt -> ~ (slot 65536 rela <= a < slot 65536 rela + 8)) ->
       m' !! a = mem demo_reloc_world !! a).
Proof.
  apply (@relocate_pltrel_lazy_rebases default_config (x86_64 0) demo_native demo_relocation demo_reloc_core 65808
           demo_reloc_world demo_plt (fun rela => r_offset rela * 2 + 3552)).
  - vm_compute. reflexivity.
  - discriminate.
  - constructor; [|constructor; [|constructor]]; split_and!; try done; try apply write_mapped_word; apply slot_mapped_check; by vm_compute.
  - constructor; [constructor; [by left|constructor]|repeat constructor].
Defined.

Lemma find_symdef_order_witness :
  @find_symdef default_config demo_reloc_memory demo_reloc_core [demo_helper] (mk_symbol 7 18 0 0 0 0)
    (from_str (bytes_of "foo")) = Ok (Some (mk_symdef (Some (mk_symbol 13 33 0 8 22136 4)) 65536)).
Proof.
  apply (@find_symdef_order default_config demo_reloc_memory demo_reloc_core [demo_helper] (mk_symbol 7 18 0 0 0 0)
           (from_str (bytes_of "foo")) (fun _ => Some (mk_symbol 13 33 0 8 22136 4))) with (i := 0%nat) (lib := demo_helper).
  - intros lib Hl. apply list_elem_of_singleton in Hl as ->. vm_compute. reflexivity.
  - reflexivity.
  - reflexivity.
  - reflexivity.
  - intros j lib' Hj. lia.
Defined.

(** The whole object, with an [init] function and one more in its array. *)
Definition demo_common (lazy : bool) (got : option Z) (r : ElfRelocation) : ElfCommonPart :=
  mk_common 0 got r None (mk_init None (Some 300) (Some (mk_slice 65808 1))) lazy None None None demo_reloc_core.
Definition demo_init_run : outcome CoreComponent * world :=
  @relocate_impl default_config (x86_64 0) demo_native (demo_common false None demo_relocation) [demo_helper]
    demo_pre_find demo_unknown None demo_reloc_world.

Lemma demo_init_value : demo_init_run.1 = Ok demo_reloc_core.
Proof. vm_compute. reflexivity. Qed.

Lemma demo_init_ok : demo_init_run = (Ok demo_reloc_core, demo_init_run.2).
Proof. rewrite <- demo_init_value. apply surjective_pairing. Qed.

Lemma relocate_impl_inits_witness :
  exists w1 fs w2,
    @relocate_tables default_config (x86_64 0) demo_native (demo_common false None demo_relocation) [demo_helper]
      demo_pre_find demo_unknown None demo_reloc_world = (Ok demo_reloc_core, w1) /\
    fn_list (mem w1) (Some 300) (Some (mk_slice 65808 1)) = Ok fs /\
    log w2 = log w1 ++ ((fun f => EvCall f []) <$> fs) /\
    (exists cell, arcs w1 !! 900 = Some cell /\
      arcs w2 = <[900 := mk_cell (strong cell) (weak cell) true]> (arcs w1)) /\
    ret tt w2 = (Ok tt, demo_init_run.2).
Proof.
  exact (@relocate_impl_inits default_config (x86_64 0) demo_native (demo_common false None demo_relocation)
           [demo_helper] demo_pre_find demo_unknown None demo_reloc_core demo_reloc_world _ demo_init_ok).
Defined.

(** A name nobody defines. *)
Definition demo_bad_relocation : ElfRelocation := mk_relocation empty_slice empty_slice (mk_slice 9200 1).

Definition demo_bad_tables : outcome CoreComponent * world :=
  @relocate_tables default_config (x86_64 0) demo_native (demo_common false None demo_bad_relocation) [demo_helper]
    (fun _ => ret None) demo_unknown None demo_reloc_world.

Definition demo_bad_error : Error :=
  match demo_bad_tables.1 with Err e => e | _ => IOError "" end.

Lemma demo_bad_fails : demo_bad_tables = (Err demo_bad_error, demo_reloc_world).
Proof. vm_compute. reflexivity. Qed.

Lemma relocate_impl_failure_witness :
  @relocate_impl default_config (x86_64 0) demo_native (demo_common false None demo_bad_relocation) [demo_helper]
    (fun _ => ret None) demo_unknown None demo_reloc_world =
  (Err demo_bad_error, mk_world demo_reloc_memory [EvMunmap 65536 4096 true] 0 ∅).
Proof.
  eapply (@relocate_impl_failure default_config (x86_64 0) demo_native (demo_common false None demo_bad_relocation)
           [demo_helper] (fun _ => ret None) demo_unknown None demo_bad_error demo_reloc_world demo_reloc_world).
  - exact demo_bad_fails.
  - reflexivity.
  - reflexivity.
  - reflexivity.
  - reflexivity.
  - reflexivity.
  - reflexivity.
Defined.

Lemma lazy_without_got_panics_witness :
  @relocate_tables default_config (x86_64 0) demo_native
    (demo_common true None (mk_relocation empty_slice empty_slice empty_slice)) [] demo_pre_find demo_unknown None
    demo_reloc_world = (Panic, demo_reloc_world).
Proof.
  apply lazy_without_got_panics.
  - eexists. reflexivity.
  - reflexivity.
  - reflexivity.
  - reflexivity.
Defined.

Definition demo_lazy : LazyScope := mk_lazy demo_pre_find (ret tt).

Lemma dl_fixup_binds_witness :
  @dl_fixup default_config (x86_64 0) demo_scope_fn (demo_reloc_inner (Some demo_lazy)) 0 demo_reloc_world =
    (Ok 777, set_mem (store_bytes demo_reloc_memory 65808 (le_split 8 777)) demo_reloc_world).
Proof.
  apply (@dl_fixup_binds default_config (x86_64 0) demo_scope_fn (demo_reloc_inner (Some demo_lazy)) 0 9200
           (mk_rela 272 (Z.shiftl 2 32 + 7) 0) demo_symtab (mk_symbol 7 18 0 7 4660 8)
           (mk_syminfo (bytes_of "alpha") (Some (bytes_of "alpha")) None) demo_lazy (Some 777) None demo_reloc_world).
  - reflexivity.
  - vm_compute. reflexivity.
  - reflexivity.
  - discriminate.
  - reflexivity.
  - vm_compute. reflexivity.
  - reflexivity.
  - reflexivity.
  - intros Hz. by destruct Hz.
  - done.
  - apply slot_mapped_check. vm_compute. reflexivity.
Defined.
