(* ===== verification/Resolver.v ===== *)
(** * Resolver: the assembly between a PLT entry and [dl_fixup]

    Models the routine [dl_runtime_resolve] of the three CPUs that have one
    ([src/src/arch/x86_64.rs], [aarch64.rs], [riscv64.rs]; the one of
    [loongarch64.rs] is empty) and the two stubs of the mini-loader
    ([src/mini-loader/src/main.rs]) as instruction lists for one small machine, and
    proves that a first call through the PLT is a call of the function found: same
    arguments, same return address, same stack.

    The routines run in the world of [Machine.v]: the stack is part of the memory.
    What the called function leaves in the registers it may use, and on the stack
    below its frame, is a parameter. *)

From S2P Require Import Prelude Machine Arch StrTab Mmap Segment Dynamic Symbol Loader Core Relocation.
#[local] Open Scope Z_scope.

(** ** The machine *)

Notation reg := string (only parsing).
Definition regs : Type := reg -> Z.
Definition upd (s : regs) (d : reg) (v : Z) : regs := fun r => if String.eqb r d then v else s r.

Inductive instr :=
  | Addi (d s : reg) (imm : Z)
  | Sub (d a b : reg)
  | Srl (d s : reg) (n : Z)
  | Xor (d a b : reg)
  | Move (d s : reg)
  | Address (d : reg) (a : Z)
  | Load (d base : reg) (off : Z)
  | Store (s base : reg) (off : Z)
  | Call (f : Z)
  | CallReg (f : reg)
  | Jump (f : reg).

(** A calling convention: where arguments and result are, and what a called
    function leaves as it was. *)
Record abi := mk_abi { arg0 : reg; arg1 : reg; result : reg; sp : reg; preserved : list reg }.

(** The function called, given its address, the stack pointer it starts with and
    two arguments; what it leaves in the other registers and below the stack
    pointer, down to [stack_floor]. *)
Class Callee := {
  callee : Z -> Z -> Z -> Z -> M Z;
  left_in : world -> reg -> Z;
  left_below : world -> Z -> Z;
  stack_floor : Z;
}.

Section machine.
Context `{Callee} (A : abi).

Definition after_call (w : world) (v : Z) (s : regs) : regs := fun r =>
  if String.eqb r (result A) then v
  else if bool_decide (r ∈ preserved A) then s r else left_in w r.

Definition call (f : Z) (s : regs) : M regs :=
  let! v := callee f (s (sp A)) (s (arg0 A)) (s (arg1 A)) in
  fun w => (Ok (after_call w v s),
            set_mem (map_range (mem w) stack_floor (s (sp A) - stack_floor) (left_below w)) w).

Definition addr (s : regs) (base : reg) (off : Z) : Z := (s base + off) mod U64_LIM.

Definition exec_instr (i : instr) (s : regs) : M regs :=
  match i with
  | Addi d a imm => ret (upd s d (addr s a imm))
  | Sub d a b => ret (upd s d ((s a - s b) mod U64_LIM))
  | Srl d a n => ret (upd s d (Z.shiftr (s a) n))
  | Xor d a b => ret (upd s d (Z.lxor (s a) (s b)))
  | Move d a => ret (upd s d (s a))
  | Address d a => ret (upd s d a)
  | Load d base off => let! v := reads (fun m => read_u64 m (addr s base off)) in ret (upd s d v)
  | Store r base off => write_usize (addr s base off) (s r) ;; ret s
  | Call f => call f s
  | CallReg f => call (s f) s
  | Jump f => ret s
  end.

(** Runs up to the jump; the answer is the registers and where it goes.  Code that
    has no jump runs into what follows it. *)
Fixpoint exec (p : list instr) (s : regs) : M (regs * Z) :=
  match p with
  | [] => lift Fault
  | Jump f :: _ => ret (s, s f)
  | i :: p' => let! s' := exec_instr i s in exec p' s'
  end.
End machine.

(** ** The routines *)

Definition x86_64_abi : abi := mk_abi "rdi" "rsi" "rax" "rsp" ["rsp"; "rbx"; "rbp"; "r12"; "r13"; "r14"; "r15"].
Definition aarch64_abi : abi :=
  mk_abi "x0" "x1" "x0" "sp" ["sp"; "x19"; "x20"; "x21"; "x22"; "x23"; "x24"; "x25"; "x26"; "x27"; "x28"; "x29"].
Definition riscv64_abi : abi :=
  mk_abi "a0" "a1" "a0" "sp" ["sp"; "s0"; "s1"; "s2"; "s3"; "s4"; "s5"; "s6"; "s7"; "s8"; "s9"; "s10"; "s11"].

Definition x86_64_resolve (dl_fixup : Z) : list instr := [
  Addi "rsp" "rsp" (- (8 * 7));
  Store "rdi" "rsp" (8 * 0); Store "rsi" "rsp" (8 * 1); Store "rdx" "rsp" (8 * 2);
  Store "rcx" "rsp" (8 * 3); Store "r8" "rsp" (8 * 4); Store "r9" "rsp" (8 * 5);
  Load "rdi" "rsp" (8 * 7);
  Load "rsi" "rsp" (8 * 8);
  Call dl_fixup;
  Load "rdi" "rsp" (8 * 0); Load "rsi" "rsp" (8 * 1); Load "rdx" "rsp" (8 * 2);
  Load "rcx" "rsp" (8 * 3); Load "r8" "rsp" (8 * 4); Load "r9" "rsp" (8 * 5);
  Addi "rsp" "rsp" (7 * 8 + 2 * 8);
  Jump "rax" ].

(** [stp] and [ldp] of a pair of registers. *)
Definition stp (a b base : reg) (off : Z) : list instr := [Store a base off; Store b base (off + 8)].
Definition ldp (a b base : reg) (off : Z) : list instr := [Load a base off; Load b base (off + 8)].

Definition aarch64_resolve (dl_fixup : Z) : list instr :=
  [Addi "sp" "sp" (- (8 * 8))] ++
  stp "x0" "x1" "sp" (16 * 0) ++ stp "x2" "x3" "sp" (16 * 1) ++
  stp "x4" "x5" "sp" (16 * 2) ++ stp "x6" "x7" "sp" (16 * 3) ++
  [Load "x0" "x16" (- 8);
   Load "x1" "sp" (16 * 4);
   Sub "x1" "x1" "x16";
   Addi "x1" "x1" (- 8);
   Srl "x1" "x1" 3;
   Call dl_fixup;
   Move "x16" "x0"] ++
  ldp "x0" "x1" "sp" (16 * 0) ++ ldp "x2" "x3" "sp" (16 * 1) ++
  ldp "x4" "x5" "sp" (16 * 2) ++ ldp "x6" "x7" "sp" (16 * 3) ++
  [Load "x30" "sp" (16 * 4 + 8);
   Addi "sp" "sp" (8 * 10);
   Jump "x16"].

Definition riscv64_resolve (dl_fixup : Z) : list instr := [
  Addi "sp" "sp" (- 9 * 8);
  Store "ra" "sp" (8 * 0); Store "a0" "sp" (8 * 1); Store "a1" "sp" (8 * 2); Store "a2" "sp" (8 * 3);
  Store "a3" "sp" (8 * 4); Store "a4" "sp" (8 * 5); Store "a5" "sp" (8 * 6); Store "a6" "sp" (8 * 7);
  Store "a7" "sp" (8 * 8);
  Move "a0" "t0";
  Srl "a1" "t1" 3;
  Address "a2" dl_fixup;
  CallReg "a2";
  Move "t1" "a0";
  Load "ra" "sp" (8 * 0); Load "a0" "sp" (8 * 1); Load "a1" "sp" (8 * 2); Load "a2" "sp" (8 * 3);
  Load "a3" "sp" (8 * 4); Load "a4" "sp" (8 * 5); Load "a5" "sp" (8 * 6); Load "a6" "sp" (8 * 7);
  Load "a7" "sp" (8 * 8);
  Addi "sp" "sp" (8 * 9);
  Jump "t1" ].

(** The label of [loongarch64.rs] has no code. *)
Definition loongarch64_resolve (_dl_fixup : Z) : list instr := [].

(** [_start] of the mini-loader: [rust_main(sp, &_DYNAMIC)]; and [trampoline]. *)
Definition start (dynamic rust_main : Z) : list instr :=
  [Move "rdi" "rsp"; Address "rsi" dynamic; Call rust_main].
Definition trampoline : list instr := [Xor "rdx" "rdx" "rdx"; Move "rsp" "rsi"; Jump "rdi"].

(** ** Saving and restoring *)

Section saving.
Context `{Callee} (A : abi).

Definition saves (base : reg) (l : list (reg * Z)) : list instr := map (fun x => Store x.1 base x.2) l.
Definition restores (base : reg) (l : list (reg * Z)) : list instr := map (fun x => Load x.1 base x.2) l.

Lemma upd_eq s d v : upd s d v d = v.
Proof. unfold upd. by rewrite String.eqb_refl. Qed.
Lemma upd_ne s d v r : r <> d -> upd s d v r = s r.
Proof. intros Hr. unfold upd. by rewrite (proj2 (String.eqb_neq _ _) Hr). Qed.

Definition regs_ok (s : regs) : Prop := forall r, 0 <= s r < U64_LIM.

Lemma addr_ok s base off : 0 <= s base + off < U64_LIM -> addr s base off = s base + off.
Proof. intros Ha. unfold addr. by rewrite Z.mod_small. Qed.

Lemma read_u64_agree m m' a : (forall i, a <= i < a + 8 -> m !! i = m' !! i) -> read_u64 m a = read_u64 m' a.
Proof. intros Hm. apply load_le_agree. intros i Hi. apply Hm. lia. Qed.

Lemma read_u64_stored m a v : 0 <= v < U64_LIM -> read_u64 (store_bytes m a (le_split 8 v)) a = Ok v.
Proof.
  intros Hv. unfold read_u64, load_le.
  change 8%nat with (length (le_split 8 v)) at 2. rewrite load_store_eq, le_combine_split, Z.mod_small; done.
Qed.

(** The words of a frame at [lo] of [n] bytes, in which [l] lists the slots. *)
Definition slots_ok (l : list (reg * Z)) (n : Z) : Prop :=
  Forall (fun x => 0 <= x.2 /\ x.2 + 8 <= n) l /\
  ForallOrdPairs (fun x y => x.2 + 8 <= y.2 \/ y.2 + 8 <= x.2) l.

Lemma exec_saves base l n p s : forall w,
  slots_ok l n -> regs_ok s -> s base + n < U64_LIM -> mapped_range (mem w) (s base) n ->
  exists m, exec A (saves base l ++ p) s w = exec A p s (set_mem m w) /\
    (forall i, (forall x, x ∈ l -> ~ (s base + x.2 <= i < s base + x.2 + 8)) -> m !! i = mem w !! i) /\
    (forall x, x ∈ l -> read_u64 m (s base + x.2) = Ok (s x.1)).
Proof.
  induction l as [|[r o] l IH]; intros w [Hin Hap] Hs Htop Hmap.
  { exists (mem w). split_and!; [by destruct w|done|]. intros x Hx. by apply not_elem_of_nil in Hx. }
  apply Forall_cons in Hin as [Ho Hin]. inversion Hap as [|? ? Hne Hap']; subst. simpl in Ho.
  pose proof (Hs base) as Hb. set (w1 := set_mem (store_bytes (mem w) (s base + o) (le_split 8 (s r))) w).
  assert (Hlen : Z.of_nat (length (le_split 8 (s r))) = 8) by by rewrite length_le_split.
  destruct (IH w1) as (m & Hrun & Hout & Hread); [done|done|done| |].
  { intros i Hi. change (mem w1) with (store_bytes (mem w) (s base + o) (le_split 8 (s r))).
    rewrite store_bytes_lookup, Hlen. case_decide; [|by apply Hmap].
    apply lookup_lt_is_Some_2. rewrite length_le_split. lia. }
  exists m. split_and!.
  - change (set_mem m w) with (set_mem m w1). rewrite <- Hrun. cbn [saves map app exec exec_instr fst snd]. unfold bind.
    rewrite addr_ok by lia. unfold write_usize. rewrite write_bytes_run; [done|].
    intros i Hi. apply Hmap. rewrite Hlen in Hi. lia.
  - intros i Hi. rewrite Hout by (intros x Hx; apply Hi; by right).
    apply store_bytes_out. rewrite Hlen.
    apply (Hi (r, o)). by left.
  - intros x Hx. apply elem_of_cons in Hx as [->|Hx]; [|by apply Hread]. simpl.
    rewrite (read_u64_agree _ (mem w1)); [by apply read_u64_stored|]. intros i Hi. apply Hout. intros y Hy.
    rewrite Forall_forall in Hne. specialize (Hne y Hy). simpl in Hne. lia.
Qed.

(** The form the routines use. *)
Lemma exec_frame base l n p s w :
  slots_ok l n -> regs_ok s -> s base + n < U64_LIM -> mapped_range (mem w) (s base) n ->
  exists m, exec A (saves base l ++ p) s w = exec A p s (set_mem m w) /\
    same_outside (mem w) m (s base) n /\ (forall x, x ∈ l -> read_u64 m (s base + x.2) = Ok (s x.1)).
Proof.
  intros Hl Hs Ht Hm. destruct (exec_saves base l n p s w Hl Hs Ht Hm) as (m & Hrun & Hout & Hr).
  exists m. split_and!; [done| |done]. intros i Hi. apply Hout. intros x Hx. destruct Hl as [Hin _].
  rewrite Forall_forall in Hin. specialize (Hin x Hx). lia.
Qed.

Lemma exec_restores base (V : reg -> Z) l p : forall s w,
  base ∉ l.*1 -> (forall x, x ∈ l -> 0 <= s base + x.2 < U64_LIM /\ read_u64 (mem w) (s base + x.2) = Ok (V x.1)) ->
  exists s', exec A (restores base l ++ p) s w = exec A p s' w /\
    (forall r, r ∈ l.*1 -> s' r = V r) /\ (forall r, r ∉ l.*1 -> s' r = s r).
Proof.
  induction l as [|[r o] l IH]; intros s w Hbase Hread.
  { exists s. split_and!; [done| |done]. intros r Hr. by apply not_elem_of_nil in Hr. }
  rewrite fmap_cons in *. apply not_elem_of_cons in Hbase as [Hb Hbase]. simpl in Hb.
  destruct (Hread (r, o)) as [Ha Hr]; [by left|]. simpl in Ha, Hr.
  destruct (IH (upd s r (V r)) w) as (s' & Hrun & Hin & Hout); [done| |].
  { intros x Hx. rewrite upd_ne by done. apply Hread. by right. }
  exists s'. split_and!.
  - rewrite <- Hrun. cbn [restores map app exec exec_instr fst snd]. unfold bind, reads.
    rewrite addr_ok by lia. by rewrite Hr.
  - intros r' Hr'. destruct (decide (r' ∈ l.*1)) as [Hx|Hx]; [by apply Hin|].
    apply elem_of_cons in Hr' as [->|Hr']; [|done]. simpl. rewrite Hout by done. simpl in Hx. apply upd_eq.
  - intros r' Hr'. apply not_elem_of_cons in Hr' as [Hr1 Hr2]. rewrite Hout by done. by apply upd_ne.
Qed.
End saving.

(** ** A first call through the PLT *)

Section first_call.
Context `{Callee} (A : abi) (dl_fixup link idx v slot : Z).

(** The situation in which a PLT entry jumps to [dl_runtime_resolve]: [below] bytes
    under the stack pointer are the routine's frame, [above] bytes over it are what
    the PLT pushed.  Called with that frame, [dl_fixup] binds the slot, which is not
    on the stack, and answers the function's address. *)
Record first_call (w : world) (s : regs) (below above : Z) : Prop := {
  fc_regs : regs_ok s;
  fc_floor : 0 < stack_floor <= s (sp A) - below;
  fc_top : s (sp A) + above < U64_LIM;
  fc_stack : mapped_range (mem w) stack_floor (s (sp A) + above - stack_floor);
  fc_slot : slot + 8 <= stack_floor \/ s (sp A) + above <= slot;
  fc_fixup : forall m, same_outside (mem w) m (s (sp A) - below) below ->
    callee dl_fixup (s (sp A) - below) link idx (set_mem m w) =
      (Ok v, set_mem (store_bytes m slot (le_split 8 v)) w);
}.

(** The function found is entered: the stack pointer is [pop] bytes up, the
    registers [kept] and those a function preserves are as they were, and the memory
    is as it was but for the slot and what is below the stack pointer. *)
Record enters (w : world) (s : regs) (pop : Z) (kept : list reg) (s' : regs) (w' : world) : Prop := {
  en_sp : s' (sp A) = s (sp A) + pop;
  en_kept : forall r, r ∈ kept -> s' r = s r;
  en_preserved : forall r, r ∈ preserved A -> r <> sp A -> s' r = s r;
  en_mem : forall i, ~ (stack_floor <= i < s (sp A)) -> mem w' !! i = store_bytes (mem w) slot (le_split 8 v) !! i;
  en_world : w' = set_mem (mem w') w;
}.

Lemma exec_call p s w v0 w2 :
  callee dl_fixup (s (sp A)) (s (arg0 A)) (s (arg1 A)) w = (Ok v0, w2) ->
  exec A (Call dl_fixup :: p) s w =
    exec A p (after_call A w2 v0 s)
      (set_mem (map_range (mem w2) stack_floor (s (sp A) - stack_floor) (left_below w2)) w2).
Proof. intros Hc. cbn [exec exec_instr]. unfold call at 1, bind at 1 2. by rewrite Hc. Qed.

Lemma exec_addi d a imm p s w :
  0 <= s a + imm < U64_LIM -> exec A (Addi d a imm :: p) s w = exec A p (upd s d (s a + imm)) w.
Proof. intros Ha. cbn [exec exec_instr]. unfold bind, ret. by rewrite addr_ok. Qed.

Lemma regs_ok_upd s d x : regs_ok s -> 0 <= x < U64_LIM -> regs_ok (upd s d x).
Proof. intros Hs Hx r. unfold upd. by destruct (String.eqb r d). Qed.

(** The memory [m] of the frame, once [dl_fixup] has run. *)
Definition after_fixup (m : memory) (sp1 : Z) (w : world) : memory :=
  map_range (store_bytes m slot (le_split 8 v)) stack_floor (sp1 - stack_floor)
    (left_below (set_mem (store_bytes m slot (le_split 8 v)) w)).

Lemma after_fixup_frame w s below above m a :
  first_call w s below above -> s (sp A) - below <= a -> a + 8 <= s (sp A) + above ->
  read_u64 (after_fixup m (s (sp A) - below) w) a = read_u64 m a.
Proof.
  intros [_ Hfl _ _ Hslot _] Ha Hb. apply read_u64_agree. intros i Hi. unfold after_fixup.
  rewrite map_range_lookup, decide_False by lia. apply store_bytes_out. rewrite length_le_split. lia.
Qed.

Lemma after_fixup_mem w s below above m i :
  first_call w s below above -> 0 <= below -> same_outside (mem w) m (s (sp A) - below) below ->
  ~ (stack_floor <= i < s (sp A)) ->
  after_fixup m (s (sp A) - below) w !! i = store_bytes (mem w) slot (le_split 8 v) !! i.
Proof.
  intros [_ Hfl _ _ _ _] Hb Hout Hi. unfold after_fixup. rewrite map_range_lookup, decide_False by lia.
  rewrite !store_bytes_lookup. case_decide; [done|]. apply Hout. lia.
Qed.

(** The two halves every routine has: the frame, and the call with what follows it. *)
Lemma enter_frame w s below above l p :
  first_call w s below above -> 0 <= below -> 0 <= above -> slots_ok l below ->
  exists m, exec A (Addi (sp A) (sp A) (- below) :: saves (sp A) l ++ p) s w =
      exec A p (upd s (sp A) (s (sp A) - below)) (set_mem m w) /\
    same_outside (mem w) m (s (sp A) - below) below /\
    forall x, x ∈ l -> x.1 <> sp A -> read_u64 m (s (sp A) - below + x.2) = Ok (s x.1).
Proof.
  intros [Hs Hfl Htop Hst _ _] Hb Ha Hl. pose proof (Hs (sp A)) as Hsp.
  set (s1 := upd s (sp A) (s (sp A) - below)).
  assert (Hs1 : s1 (sp A) = s (sp A) - below) by apply upd_eq.
  destruct (exec_frame A (sp A) l below p s1 w) as (m & Hrun & Hframe & Hread); [done| | | |].
  { intros r. unfold s1, upd. destruct (String.eqb r (sp A)); [lia|apply Hs]. }
  { lia. }
  { intros i Hi. apply Hst. lia. }
  rewrite Hs1 in Hframe, Hread. exists m. split_and!; [|done|].
  - rewrite exec_addi by lia. rewrite <- Hrun. do 2 f_equal.
  - intros x Hx Hne. rewrite Hread by done. unfold s1. by rewrite upd_ne.
Qed.

Lemma call_and_restore w s below above m s2 mid mvs back V p :
  first_call w s below above -> same_outside (mem w) m (s (sp A) - below) below ->
  s2 (sp A) = s (sp A) - below -> s2 (arg0 A) = link -> s2 (arg1 A) = idx ->
  (forall p s w, exec A (mid ++ p) s w = exec A p (mvs s) w) -> (forall s, mvs s (sp A) = s (sp A)) ->
  sp A ∉ back.*1 -> sp A ∈ preserved A -> sp A <> result A ->
  Forall (fun x => 0 <= x.2 /\ x.2 + 8 <= below + above /\ read_u64 m (s (sp A) - below + x.2) = Ok (V x.1)) back ->
  exists s4, exec A (Call dl_fixup :: mid ++ restores (sp A) back ++ p) s2 (set_mem m w) =
      exec A p s4 (set_mem (after_fixup m (s (sp A) - below) w) w) /\
    (forall r, r ∈ back.*1 -> s4 r = V r) /\
    (forall r, r ∉ back.*1 -> s4 r =
       mvs (after_call A (set_mem (store_bytes m slot (le_split 8 v)) w) v s2) r).
Proof.
  intros Hfc Hm Hsp H0 H1 Hmid Hmvs Hback Hpres Hres Hread.
  pose proof Hfc as [Hs Hfl Htop _ _ Hfix]. set (w2 := set_mem (store_bytes m slot (le_split 8 v)) w).
  rewrite (exec_call _ s2 _ v w2) by (rewrite Hsp, H0, H1; by apply Hfix). rewrite Hmid.
  set (s3 := mvs (after_call A w2 v s2)).
  assert (Hs3 : s3 (sp A) = s (sp A) - below).
  { unfold s3. rewrite Hmvs. unfold after_call. rewrite (proj2 (String.eqb_neq _ _) Hres).
    by rewrite bool_decide_true. }
  destruct (exec_restores A (sp A) V back p s3 (set_mem (after_fixup m (s (sp A) - below) w) w))
    as (s4 & Hrun & Hin & Hout); [done| |].
  { intros x Hx. rewrite Forall_forall in Hread. destruct (Hread x Hx) as (? & ? & Hr). rewrite Hs3.
    split; [lia|]. cbn [mem set_mem]. rewrite (after_fixup_frame w s below above); [done|done|lia|lia]. }
  exists s4. split_and!; [|done|done]. rewrite <- Hrun, Hsp. done.
Qed.

Lemma after_call_preserved w0 v0 s r :
  r ∈ preserved A -> result A ∉ preserved A -> after_call A w0 v0 s r = s r.
Proof.
  intros Hr Hn. unfold after_call. rewrite (proj2 (String.eqb_neq _ _)) by (intros ->; done).
  by rewrite bool_decide_true.
Qed.

Lemma saved_slots (V : regs) s m l below above :
  slots_ok l below -> 0 <= above -> Forall (fun x => x.1 <> sp A) l -> Forall (fun x => V x.1 = s x.1) l ->
  (forall x, x ∈ l -> x.1 <> sp A -> read_u64 m (s (sp A) - below + x.2) = Ok (s x.1)) ->
  Forall (fun x => 0 <= x.2 /\ x.2 + 8 <= below + above /\ read_u64 m (s (sp A) - below + x.2) = Ok (V x.1)) l.
Proof.
  intros [Hl _] Ha Hne HV Hr. rewrite Forall_forall in *. intros x Hx. destruct (Hl x Hx).
  split_and!; [lia|lia|]. rewrite HV by done. apply Hr; [done|by apply Hne].
Qed.

Lemma leave w s below above m s4 up target kept :
  first_call w s below above -> 0 <= below -> up <= below + above -> 0 <= up ->
  same_outside (mem w) m (s (sp A) - below) below ->
  s4 (sp A) = s (sp A) - below -> s4 target = v -> target <> sp A -> sp A ∉ kept ->
  (forall r, r ∈ kept -> s4 r = s r) -> (forall r, r ∈ preserved A -> r <> sp A -> s4 r = s r) ->
  exists s' w', exec A [Addi (sp A) (sp A) up; Jump target] s4
      (set_mem (after_fixup m (s (sp A) - below) w) w) = (Ok (s', v), w') /\
    enters w s (up - below) kept s' w' /\ forall r, r <> sp A -> s' r = s4 r.
Proof.
  intros Hfc Hb Hup Hup0 Hm Hsp Ht Hne Hnk Hkept Hpres. pose proof Hfc as [Hs Hfl Htop _ _ _].
  exists (upd s4 (sp A) (s4 (sp A) + up)). eexists. split_and!.
  - rewrite exec_addi by lia. cbn [exec]. unfold ret. by rewrite upd_ne, Ht.
  - constructor; cbn [mem set_mem]; [rewrite upd_eq; lia| | | |done].
    + intros r Hr. rewrite upd_ne by (intros ->; done). by apply Hkept.
    + intros r Hr Hn. rewrite upd_ne by done. by apply Hpres.
    + intros i Hi. by apply (after_fixup_mem w s below above).
  - intros r Hr. by rewrite upd_ne.
Qed.
End first_call.

Section routines.
Context `{Callee} (dl_fixup link idx v slot : Z).

Ltac slots := split; repeat constructor; simpl; lia.
Ltac closed := refine (bool_decide_unpack _ _); vm_compute; exact I.

Lemma apart_regs (l k : list reg) r : Forall (fun r => r ∉ k) l -> r ∈ l -> r ∉ k.
Proof. intros Hl. rewrite Forall_forall in Hl. apply Hl. Qed.
Lemma apart_reg (l : list reg) d r : d ∉ l -> r ∈ l -> r <> d.
Proof. by intros Hd Hr ->. Qed.
(** A register of one list is not one of another. *)
Ltac away :=
  match goal with
  | Hr : ?r ∈ _ |- ?r ∉ _ => revert Hr; apply apart_regs; closed
  | Hr : ?r ∈ _ |- ?r <> _ => revert Hr; apply apart_reg; closed
  end.

Definition x86_64_args : list reg := ["rdi"; "rsi"; "rdx"; "rcx"; "r8"; "r9"].
Definition x86_64_frame : list (reg * Z) := [("rdi", 0); ("rsi", 8); ("rdx", 16); ("rcx", 24); ("r8", 32); ("r9", 40)].

(** The routine, cut into its steps. *)
Lemma x86_64_steps :
  x86_64_resolve dl_fixup = Addi "rsp" "rsp" (- (56)) :: saves "rsp" x86_64_frame ++
    restores "rsp" [("rdi", 56); ("rsi", 64)] ++ Call dl_fixup :: restores "rsp" x86_64_frame ++
    [Addi "rsp" "rsp" 72; Jump "rax"].
Proof. reflexivity. Qed.

Lemma x86_64_enters w s :
  first_call x86_64_abi dl_fixup link idx v slot w s 56 16 ->
  read_u64 (mem w) (s "rsp") = Ok link -> read_u64 (mem w) (s "rsp" + 8) = Ok idx ->
  exists s' w', exec x86_64_abi (x86_64_resolve dl_fixup) s w = (Ok (s', v), w') /\
    enters x86_64_abi v slot w s 16 x86_64_args s' w' /\ s' "rax" = v.
Proof.
  intros Hfc Hlink Hidx. pose proof Hfc as [Hs Hfl Htop Hst _ _]. cbn [sp x86_64_abi] in *.
  set (tail := restores "rsp" x86_64_frame ++ [Addi "rsp" "rsp" 72; Jump "rax"]).
  destruct (enter_frame x86_64_abi dl_fixup link idx v slot w s 56 16 x86_64_frame
    (restores "rsp" [("rdi", 56); ("rsi", 64)] ++ Call dl_fixup :: tail) Hfc) as (m & Hrun1 & Hframe & Hread);
    [lia|lia|slots|]. cbn [sp x86_64_abi] in *. set (s1 := upd s "rsp" (s "rsp" - 56)) in *.
  assert (Hpushed : forall a, s "rsp" <= a -> read_u64 m a = read_u64 (mem w) a).
  { intros a Ha. apply read_u64_agree. intros i Hi. apply Hframe. lia. }
  destruct (exec_restores x86_64_abi "rsp" (fun r => if String.eqb r "rdi" then link else idx)
    [("rdi", 56); ("rsi", 64)] (Call dl_fixup :: tail) s1 (set_mem m w)) as (s2 & Hrun2 & Hargs & Hrest);
    [closed| |].
  { intros x Hx. change (s1 "rsp") with (s "rsp" - 56). rewrite !elem_of_cons in Hx.
    destruct Hx as [->|[->|Hx]]; [..|by apply not_elem_of_nil in Hx].
    all: cbn [fst snd mem set_mem]; (split; [lia|]); rewrite Hpushed by lia.
    - by replace (s "rsp" - 56 + 56) with (s "rsp") by lia.
    - by replace (s "rsp" - 56 + 64) with (s "rsp" + 8) by lia. }
  destruct (call_and_restore x86_64_abi dl_fixup link idx v slot w s 56 16 m s2 [] (fun s => s) x86_64_frame s
    [Addi "rsp" "rsp" 72; Jump "rax"] Hfc Hframe) as (s4 & Hrun3 & Hback & Hkeep);
    [apply Hrest; closed|apply Hargs; closed|apply Hargs; closed|done|done|closed|closed|done| |].
  { apply (saved_slots x86_64_abi s); [slots|lia|closed|by apply Forall_forall|exact Hread]. }
  cbn [sp x86_64_abi app] in *.
  destruct (leave x86_64_abi dl_fixup link idx v slot w s 56 16 m s4 72 "rax" x86_64_args Hfc)
    as (s' & w' & Hrun4 & Hen & Hs'); [lia|lia|lia|done| | |done|closed|exact Hback| |].
  { rewrite Hkeep, after_call_preserved by closed. apply Hrest. closed. }
  { by rewrite Hkeep by closed. }
  { intros r Hr Hn. rewrite Hkeep by away.
    rewrite after_call_preserved by (done || closed). rewrite Hrest by away.
    unfold s1. by rewrite upd_ne. }
  exists s', w'. split; [|split; [done|]].
  - rewrite x86_64_steps. etransitivity; [exact Hrun1|]. etransitivity; [exact Hrun2|].
    etransitivity; [exact Hrun3|exact Hrun4].
  - rewrite Hs' by done. by rewrite Hkeep by closed.
Qed.

Definition aarch64_args : list reg := ["x0"; "x1"; "x2"; "x3"; "x4"; "x5"; "x6"; "x7"].
Definition aarch64_frame : list (reg * Z) :=
  [("x0", 0); ("x1", 8); ("x2", 16); ("x3", 24); ("x4", 32); ("x5", 40); ("x6", 48); ("x7", 56)].

Lemma aarch64_index (got : Z) s :
  0 <= got -> 0 <= idx -> got + 8 + 8 * idx < U64_LIM -> s "x1" = got + 8 + 8 * idx -> s "x16" = got ->
  forall p w, exists s', exec aarch64_abi ([Sub "x1" "x1" "x16"; Addi "x1" "x1" (- 8); Srl "x1" "x1" 3] ++ p) s w =
    exec aarch64_abi p s' w /\ s' "x1" = idx /\ forall r, r <> "x1" -> s' r = s r.
Proof.
  intros Hg Hi Ht H1 H16 p w. eexists. split; [reflexivity|]. split.
  - rewrite upd_eq. rewrite upd_eq. unfold addr. rewrite upd_eq, H1, H16.
    rewrite (Z.mod_small (got + 8 + 8 * idx - got)) by lia. rewrite Z.mod_small by lia.
    rewrite Z.shiftr_div_pow2 by lia. change (2 ^ 3) with 8. replace (got + 8 + 8 * idx - got + -8) with (idx * 8) by lia.
    apply Z.div_mul. lia.
  - intros r Hr. by rewrite !upd_ne.
Qed.

Lemma aarch64_steps :
  aarch64_resolve dl_fixup = Addi "sp" "sp" (- (64)) :: saves "sp" aarch64_frame ++
    restores "x16" [("x0", -8)] ++ restores "sp" [("x1", 64)] ++
    [Sub "x1" "x1" "x16"; Addi "x1" "x1" (- 8); Srl "x1" "x1" 3] ++ Call dl_fixup :: [Move "x16" "x0"] ++
    restores "sp" (aarch64_frame ++ [("x30", 72)]) ++ [Addi "sp" "sp" 80; Jump "x16"].
Proof. reflexivity. Qed.

Lemma aarch64_enters w s ra :
  first_call aarch64_abi dl_fixup link idx v slot w s 64 16 ->
  read_u64 (mem w) (s "sp") = Ok (s "x16" + 8 + 8 * idx) -> read_u64 (mem w) (s "sp" + 8) = Ok ra ->
  read_u64 (mem w) (s "x16" - 8) = Ok link -> 8 <= s "x16" ->
  s "x16" <= s "sp" - 64 \/ s "sp" <= s "x16" - 8 -> 0 <= idx -> s "x16" + 8 + 8 * idx < U64_LIM ->
  exists s' w', exec aarch64_abi (aarch64_resolve dl_fixup) s w = (Ok (s', v), w') /\
    enters aarch64_abi v slot w s 16 aarch64_args s' w' /\ s' "x30" = ra /\
    exists w0, s' "x8" = left_in w0 "x8".
Proof.
  intros Hfc Hentry Hra Hlink Hgot Happ Hidx Hmax. pose proof Hfc as [Hs Hfl Htop Hst _ _]. cbn [sp aarch64_abi] in *.
  set (back := aarch64_frame ++ [("x30", 72)]).
  set (tail := [Move "x16" "x0"] ++ restores "sp" back ++ [Addi "sp" "sp" 80; Jump "x16"]).
  set (index := [Sub "x1" "x1" "x16"; Addi "x1" "x1" (- 8); Srl "x1" "x1" 3]).
  destruct (enter_frame aarch64_abi dl_fixup link idx v slot w s 64 16 aarch64_frame
    (restores "x16" [("x0", -8)] ++ restores "sp" [("x1", 64)] ++ index ++ Call dl_fixup :: tail) Hfc)
    as (m & Hrun1 & Hframe & Hread); [lia|lia|slots|]. cbn [sp aarch64_abi] in *.
  set (s1 := upd s "sp" (s "sp" - 64)) in *.
  assert (Hout : forall a, a + 8 <= s "sp" - 64 \/ s "sp" <= a -> read_u64 m a = read_u64 (mem w) a).
  { intros a Ha. apply read_u64_agree. intros i Hi. apply Hframe. lia. }
  destruct (exec_restores aarch64_abi "x16" (fun _ => link) [("x0", -8)]
    (restores "sp" [("x1", 64)] ++ index ++ Call dl_fixup :: tail) s1 (set_mem m w)) as (s2 & Hrun2 & Hx0 & Hs2);
    [closed| |].
  { intros x Hx. apply list_elem_of_singleton in Hx as ->. change (s1 "x16") with (s "x16"). cbn [fst snd mem set_mem].
    pose proof (Hs "x16"). split; [lia|]. by rewrite Hout by lia. }
  destruct (exec_restores aarch64_abi "sp" (fun _ => s "x16" + 8 + 8 * idx) [("x1", 64)]
    (index ++ Call dl_fixup :: tail) s2 (set_mem m w)) as (s3 & Hrun3 & Hx1 & Hs3); [closed| |].
  { intros x Hx. apply list_elem_of_singleton in Hx as ->. rewrite Hs2 by closed. change (s1 "sp") with (s "sp" - 64).
    cbn [fst snd mem set_mem]. split; [lia|]. rewrite Hout by lia. by replace (s "sp" - 64 + 64) with (s "sp") by lia. }
  destruct (aarch64_index (s "x16") s3 ltac:(lia) Hidx Hmax) with (p := Call dl_fixup :: tail) (w := set_mem m w)
    as (s4 & Hrun4 & Hx1' & Hs4); [apply Hx1; closed|by rewrite Hs3, Hs2 by closed|].
  destruct (call_and_restore aarch64_abi dl_fixup link idx v slot w s 64 16 m s4 [Move "x16" "x0"]
    (fun s => upd s "x16" (s "x0")) back (fun r => if String.eqb r "x30" then ra else s r)
    [Addi "sp" "sp" 80; Jump "x16"] Hfc Hframe) as (s5 & Hrun5 & Hback & Hkeep);
    [by rewrite Hs4, Hs3, Hs2 by closed|rewrite Hs4, Hs3 by closed; apply Hx0; closed|done|done|done|closed|closed|done| |].
  { apply Forall_app. split.
    - apply (saved_slots aarch64_abi (fun r => if String.eqb r "x30" then ra else s r) s); [slots|lia|closed|repeat constructor|exact Hread].
    - apply Forall_singleton. cbn [fst snd]. split_and!; [lia|lia|]. rewrite Hout by (cbn [sp aarch64_abi]; lia).
      cbn [sp aarch64_abi]. by replace (s "sp" - 64 + 72) with (s "sp" + 8) by lia. }
  cbn [sp aarch64_abi app] in *.
  destruct (leave aarch64_abi dl_fixup link idx v slot w s 64 16 m s5 80 "x16" aarch64_args Hfc)
    as (s' & w' & Hrun6 & Hen & Hs'); [lia|lia|lia|done| | |done|closed| | |].
  { rewrite Hkeep by closed. rewrite upd_ne, after_call_preserved by (done || closed). by rewrite Hs4, Hs3, Hs2 by closed. }
  { rewrite Hkeep by closed. by rewrite upd_eq. }
  { intros r Hr. rewrite Hback by (unfold back; rewrite fmap_app; apply elem_of_app; by left).
    by rewrite (proj2 (String.eqb_neq r "x30")) by away. }
  { intros r Hr Hn. rewrite Hkeep by away. rewrite upd_ne by away. rewrite after_call_preserved by (done || closed).
    rewrite Hs4, Hs3, Hs2 by away. unfold s1. by rewrite upd_ne. }
  exists s', w'. split; [|split; [done|split]].
  - rewrite aarch64_steps. etransitivity; [exact Hrun1|]. etransitivity; [exact Hrun2|]. etransitivity; [exact Hrun3|].
    etransitivity; [exact Hrun4|]. etransitivity; [exact Hrun5|exact Hrun6].
  - rewrite Hs' by done. rewrite Hback by closed. done.
  - eexists. rewrite Hs' by done. rewrite Hkeep by closed. by rewrite upd_ne by done.
Qed.

Definition riscv64_args : list reg := ["ra"; "a0"; "a1"; "a2"; "a3"; "a4"; "a5"; "a6"; "a7"].
Definition riscv64_frame : list (reg * Z) :=
  [("ra", 0); ("a0", 8); ("a1", 16); ("a2", 24); ("a3", 32); ("a4", 40); ("a5", 48); ("a6", 56); ("a7", 64)].

Lemma riscv64_steps :
  riscv64_resolve dl_fixup = Addi "sp" "sp" (- (72)) :: saves "sp" riscv64_frame ++
    [Move "a0" "t0"; Srl "a1" "t1" 3; Address "a2" dl_fixup] ++ CallReg "a2" :: [Move "t1" "a0"] ++
    restores "sp" riscv64_frame ++ [Addi "sp" "sp" 72; Jump "t1"].
Proof. reflexivity. Qed.

Lemma riscv64_enters w s :
  first_call riscv64_abi dl_fixup link idx v slot w s 72 0 ->
  s "t0" = link -> s "t1" = 8 * idx ->
  exists s' w', exec riscv64_abi (riscv64_resolve dl_fixup) s w = (Ok (s', v), w') /\
    enters riscv64_abi v slot w s 0 riscv64_args s' w'.
Proof.
  intros Hfc Hlink Hidx. pose proof Hfc as [Hs Hfl Htop Hst _ _]. cbn [sp riscv64_abi] in *.
  set (tail := [Move "t1" "a0"] ++ restores "sp" riscv64_frame ++ [Addi "sp" "sp" 72; Jump "t1"]).
  destruct (enter_frame riscv64_abi dl_fixup link idx v slot w s 72 0 riscv64_frame
    ([Move "a0" "t0"; Srl "a1" "t1" 3; Address "a2" dl_fixup] ++ CallReg "a2" :: tail) Hfc)
    as (m & Hrun1 & Hframe & Hread); [lia|lia|slots|]. cbn [sp riscv64_abi] in *.
  set (s1 := upd s "sp" (s "sp" - 72)) in *.
  set (s2 := upd (upd (upd s1 "a0" (s1 "t0")) "a1" (Z.shiftr (upd s1 "a0" (s1 "t0") "t1") 3)) "a2" dl_fixup).
  destruct (call_and_restore riscv64_abi dl_fixup link idx v slot w s 72 0 m s2 [Move "t1" "a0"]
    (fun s => upd s "t1" (s "a0")) riscv64_frame s [Addi "sp" "sp" 72; Jump "t1"] Hfc Hframe)
    as (s5 & Hrun5 & Hback & Hkeep); [done|exact Hlink| |done|done|closed|closed|done| |].
  { change (Z.shiftr (s "t1") 3 = idx). rewrite Hidx, Z.shiftr_div_pow2 by lia. change (2 ^ 3) with 8.
    rewrite Z.mul_comm. apply Z.div_mul. lia. }
  { apply (saved_slots riscv64_abi s); [slots|lia|closed|by apply Forall_forall|exact Hread]. }
  cbn [sp riscv64_abi app] in *.
  destruct (leave riscv64_abi dl_fixup link idx v slot w s 72 0 m s5 72 "t1" riscv64_args Hfc)
    as (s' & w' & Hrun6 & Hen & Hs'); [lia|lia|lia|done| | |done|closed|exact Hback| |].
  { rewrite Hkeep by closed. by rewrite upd_ne, after_call_preserved by (done || closed). }
  { rewrite Hkeep by closed. by rewrite upd_eq. }
  { intros r Hr Hn. rewrite Hkeep by away. rewrite upd_ne by away. rewrite after_call_preserved by (done || closed).
    unfold s2. rewrite !upd_ne by away. unfold s1. by rewrite upd_ne. }
  exists s', w'. split; [|done].
  rewrite riscv64_steps. etransitivity; [exact Hrun1|]. etransitivity; [|exact Hrun6].
  etransitivity; [|exact Hrun5]. reflexivity.
Qed.
End routines.

(** ** The three CPUs *)

(** A CPU: its convention and routine, the size of the routine's frame and of what
    the PLT pushed, what the PLT entry leaves for the routine to find the object and
    the entry's index, the argument registers, and where the return address is. *)
Record target := mk_target {
  tg_abi : abi;
  tg_resolve : Z -> list instr;
  tg_below : Z;
  tg_above : Z;
  tg_entry : world -> regs -> Z -> Z -> Prop;
  tg_args : list reg;
  tg_returns : world -> regs -> regs -> Prop;
}.

(** PLT0 has pushed GOT[1] on the index that PLTn pushed; the return address is the
    word above them and stays in place. *)
Definition x86_64_target : target :=
  mk_target x86_64_abi x86_64_resolve 56 16
    (fun w s link idx => read_u64 (mem w) (s "rsp") = Ok link /\ read_u64 (mem w) (s "rsp" + 8) = Ok idx)
    x86_64_args (fun _ _ _ => True).

(** [x16] is the address of GOT[2]; on the stack are the address of the entry's GOT
    slot and the return address. *)
Definition aarch64_target : target :=
  mk_target aarch64_abi aarch64_resolve 64 16
    (fun w s link idx =>
       read_u64 (mem w) (s "sp") = Ok (s "x16" + 8 + 8 * idx) /\ read_u64 (mem w) (s "x16" - 8) = Ok link /\
       is_ok (read_u64 (mem w) (s "sp" + 8)) = true /\
       8 <= s "x16" /\ (s "x16" <= s "sp" - 64 \/ s "sp" <= s "x16" - 8) /\ 0 <= idx /\ s "x16" + 8 + 8 * idx < U64_LIM)
    aarch64_args (fun w s s' => read_u64 (mem w) (s "sp" + 8) = Ok (s' "x30")).

(** [t0] is GOT[1] and [t1] the offset of the slot; the return address is in [ra],
    among the registers saved. *)
Definition riscv64_target : target :=
  mk_target riscv64_abi riscv64_resolve 72 0
    (fun _ s link idx => s "t0" = link /\ s "t1" = 8 * idx) riscv64_args (fun _ _ _ => True).

Definition targets : list target := [x86_64_target; aarch64_target; riscv64_target].

Lemma targets_ind (P : target -> Prop) :
  P x86_64_target -> P aarch64_target -> P riscv64_target -> forall T, T ∈ targets -> P T.
Proof.
  intros H1 H2 H3 T HT. unfold targets in HT. rewrite !elem_of_cons in HT.
  destruct HT as [->|[->|[->|HT]]]; try done. by apply not_elem_of_nil in HT.
Qed.

Lemma target_enters `{Callee} T dl_fixup link idx v slot w s :
  T ∈ targets -> first_call (tg_abi T) dl_fixup link idx v slot w s (tg_below T) (tg_above T) ->
  tg_entry T w s link idx ->
  exists s' w', exec (tg_abi T) (tg_resolve T dl_fixup) s w = (Ok (s', v), w') /\
    enters (tg_abi T) v slot w s (tg_above T) (tg_args T) s' w' /\ tg_returns T w s s'.
Proof.
  intros HT. pattern T. revert T HT. apply targets_ind; intros Hfc He; cbn [tg_entry x86_64_target aarch64_target riscv64_target] in He.
  - destruct He as [Hl Hi]. destruct (x86_64_enters dl_fixup link idx v slot w s Hfc Hl Hi) as (s' & w' & ? & ? & _).
    by exists s', w'.
  - destruct He as (He & Hl & Hra & Hg & Ha & Hi & Ht). destruct (read_u64 (mem w) (s "sp" + 8)) as [ra| | | |] eqn:Er; try done.
    destruct (aarch64_enters dl_fixup link idx v slot w s ra Hfc He Er Hl Hg Ha Hi Ht) as (s' & w' & ? & ? & Hx & _).
    exists s', w'. split_and!; try done. cbn [tg_returns aarch64_target]. by rewrite Er, Hx.
  - destruct He as [Hl Hi]. destruct (riscv64_enters dl_fixup link idx v slot w s Hfc Hl Hi) as (s' & w' & ? & ?).
    by exists s', w'.
Qed.

(** ** With the [dl_fixup] of [Relocation.v] *)

(** The routine's only call, of [dl_fixup] at [f0] with the object at [link]. *)
Definition fixup_callee `{Config} `{Arch} `{ScopeFn} (f0 link : Z) (dylib : CoreComponentInner)
    (floor : Z) (li : world -> reg -> Z) (lb : world -> Z -> Z) : Callee := {|
  callee f _ l i := if (f =? f0) && (l =? link) then dl_fixup dylib i else lift Fault;
  left_in := li;
  left_below := lb;
  stack_floor := floor;
|}.

Section composed.
Context `{Config} `{Arch} `{ScopeFn} (f0 link floor : Z) (li : world -> reg -> Z) (lb : world -> Z -> Z).
Context (dylib : CoreComponentInner).

#[local] Instance the_callee : Callee := fixup_callee f0 link dylib floor li lb.

(** What [dl_fixup] reads and asks, whatever is on the stack between [lo] and
    [lo + n]: entry [idx] of the object's PLT relocations names a symbol, which the
    scopes find at [v]. *)
Record binding (w : world) (lo n idx : Z) (rela : ElfRela) (v : Z) : Prop := {
  bi_type : r_type rela = REL_JUMP_SLOT;
  bi_symbol : r_symbol rela <> 0;
  bi_range : 0 <= Relocation.slot (base (segments dylib)) rela < U64_LIM;
  bi_slot : slot_mapped (mem w) (Relocation.slot (base (segments dylib)) rela);
  bi_reads : exists p st sym info f local global,
    cc_pltrel dylib = Some p /\ symbols dylib = Some st /\ lazy_scope dylib = Some f /\
    (if decide (GLOBAL_SCOPE w = 0) then local else match global with Some x => Some x | None => local end) = Some v /\
    forall m, same_outside (mem w) m lo n ->
      read_rela m (padd p (RELA_SIZE * idx)) = Ok rela /\ symbol_idx m st (r_symbol rela) = Ok (sym, info) /\
      ls_call f (si_name info) (set_mem m w) = (Ok local, set_mem m w) /\
      (GLOBAL_SCOPE w <> 0 -> scope_call (GLOBAL_SCOPE w) (si_name info) (set_mem m w) = (Ok global, set_mem m w));
}.

Lemma binding_fixup w lo n idx rela v sp0 :
  binding w lo n idx rela v ->
  (Relocation.slot (base (segments dylib)) rela + 8 <= lo \/ lo + n <= Relocation.slot (base (segments dylib)) rela) ->
  forall m, same_outside (mem w) m lo n ->
    callee f0 sp0 link idx (set_mem m w) =
      (Ok v, set_mem (store_bytes m (Relocation.slot (base (segments dylib)) rela) (le_split 8 v)) w).
Proof.
  intros [Ht Hs Hr Hm (p & st & sym & info & f & local & global & Hp & Hst & Hf & Hv & Hreads)] Hap m Hout.
  cbn [callee the_callee fixup_callee]. rewrite !Z.eqb_refl. cbn [andb].
  destruct (Hreads m Hout) as (Hrela & Hsym & Hloc & Hglob).
  pose proof (dl_fixup_run dylib idx p rela st sym info f local global (set_mem m w) Hp Hrela Ht Hs Hst Hsym Hf Hloc
    Hglob Hr) as Hrun. cbn zeta in Hrun. rewrite Hrun.
  - change (GLOBAL_SCOPE (set_mem m w)) with (GLOBAL_SCOPE w). by rewrite Hv.
  - intros i Hi. change (mem (set_mem m w)) with m. rewrite Hout by lia. by apply Hm.
Qed.

(** C18: the first call through a PLT entry, from the jump of the entry to the first
    instruction of the function, on x86_64, aarch64 and riscv64 (the routine of
    loongarch64 is empty).  The routine and [dl_fixup], which is taken to run wherever
    the stack pointer is, together bind the slot to the address the scopes give for the
    entry's symbol and enter the function there with the caller's integer argument
    registers, stack and return address.  Nothing is said of the other registers a
    function may get arguments in: al on x86_64, which the routine overwrites, x8 on
    aarch64, which it does not save, and the vector registers. *)
Theorem first_plt_call T w s idx rela v :
  T ∈ targets ->
  let frame := s (sp (tg_abi T)) - tg_below T in
  let slot := Relocation.slot (base (segments dylib)) rela in
  regs_ok s -> 0 < floor <= frame -> s (sp (tg_abi T)) + tg_above T < U64_LIM ->
  mapped_range (mem w) floor (s (sp (tg_abi T)) + tg_above T - floor) ->
  slot + 8 <= floor \/ s (sp (tg_abi T)) + tg_above T <= slot ->
  binding w frame (tg_below T) idx rela v ->
  tg_entry T w s link idx ->
  exists s' w', exec (tg_abi T) (tg_resolve T f0) s w = (Ok (s', v), w') /\
    enters (tg_abi T) v slot w s (tg_above T) (tg_args T) s' w' /\ tg_returns T w s s'.
Proof.
  intros HT frame slot Hs Hfl Htop Hst Hslot Hb He. apply (target_enters T f0 link idx v); try done.
  pose proof (targets_ind (fun T => 0 <= tg_above T) ltac:(simpl; lia) ltac:(simpl; lia) ltac:(simpl; lia) T HT) as Hab. cbn beta in Hab.
  constructor; try done. apply binding_fixup; [done|]. fold slot. unfold frame. lia.
Qed.
End composed.

(** ** The stack of riscv64

    The calling convention of riscv64 keeps the stack pointer a multiple of 16 where
    a function is entered.  The frame of 72 bytes breaks it. *)

(** A function that is compiled for the convention. *)
Definition aligned_callee (c : Callee) : Callee := {|
  callee f sp0 a b := if sp0 mod 16 =? 0 then @callee c f sp0 a b else lift Fault;
  left_in := @left_in c;
  left_below := @left_below c;
  stack_floor := @stack_floor c;
|}.

(** C38: entered from an aligned stack, the routine of riscv64 calls [dl_fixup] with
    a misaligned one: a [dl_fixup] that relies on the alignment never runs. *)
Theorem riscv64_resolve_misaligned (c : Callee) dl_fixup s w :
  regs_ok s -> 72 <= s "sp" -> s "sp" mod 16 = 0 -> mapped_range (mem w) (s "sp" - 72) 72 ->
  (exec (H := aligned_callee c) riscv64_abi (riscv64_resolve dl_fixup) s w).1 = Fault.
Proof.
  intros Hs Hlo Hal Hst. pose proof (Hs "sp") as Hsp.
  set (s1 := upd s "sp" (s "sp" - 72)).
  assert (Hs1 : s1 "sp" = s "sp" - 72) by apply upd_eq.
  destruct (exec_frame (H := aligned_callee c) riscv64_abi "sp" riscv64_frame 72
    ([Move "a0" "t0"; Srl "a1" "t1" 3; Address "a2" dl_fixup; CallReg "a2"; Move "t1" "a0"] ++
     restores "sp" riscv64_frame ++ [Addi "sp" "sp" 72; Jump "t1"]) s1 w) as (m & Hrun & _).
  - split; repeat constructor; simpl; lia.
  - apply regs_ok_upd; [done|lia].
  - lia.
  - by rewrite Hs1.
  - replace (exec riscv64_abi (riscv64_resolve dl_fixup) s w) with
      (exec (H := aligned_callee c) riscv64_abi (saves "sp" riscv64_frame ++
        [Move "a0" "t0"; Srl "a1" "t1" 3; Address "a2" dl_fixup; CallReg "a2"; Move "t1" "a0"] ++
        restores "sp" riscv64_frame ++ [Addi "sp" "sp" 72; Jump "t1"]) s1 w).
    + rewrite Hrun. cbn [app exec exec_instr]. unfold bind, ret, call. cbn [callee aligned_callee sp riscv64_abi].
      rewrite (proj2 (Z.eqb_neq _ 0)); [done|]. change ((s "sp" - 72) mod 16 <> 0). zlia.
    + symmetry. rewrite riscv64_steps, exec_addi by lia. do 2 f_equal.
Qed.

(** ** The stubs of the mini-loader *)

Section stubs.
Context `{Callee}.

(** [_start] calls [rust_main] with the initial stack pointer and the address of the
    dynamic section, and has nothing to run if it returns. *)
Lemma start_calls dynamic rust_main s w :
  exec x86_64_abi (start dynamic rust_main) s w =
    match callee rust_main (s "rsp") (s "rsp") dynamic w with
    | (Ok v, w') => (Fault, set_mem (map_range (mem w') stack_floor (s "rsp" - stack_floor) (left_below w')) w')
    | (Err e, w') => (Err e, w')
    | (Panic, w') => (Panic, w')
    | (Fault, w') => (Fault, w')
    | (OutOfFuel, w') => (OutOfFuel, w')
    end.
Proof.
  unfold start. cbn [exec exec_instr]. unfold bind, ret, call. cbn [sp arg0 arg1 x86_64_abi].
  change (upd (upd s "rdi" (s "rsp")) "rsi" dynamic "rsp") with (s "rsp").
  change (upd (upd s "rdi" (s "rsp")) "rsi" dynamic "rdi") with (s "rsp").
  change (upd (upd s "rdi" (s "rsp")) "rsi" dynamic "rsi") with dynamic. unfold bind.
  by destruct (callee rust_main (s "rsp") (s "rsp") dynamic w) as [[] w'].
Qed.

(** [trampoline(entry, sp)] starts the program as the kernel would: at its entry,
    on the given stack, and with a zero in [rdx], so that it registers no function
    to run at its exit. *)
Lemma trampoline_starts s w :
  exists s', exec x86_64_abi trampoline s w = (Ok (s', s "rdi"), w) /\ s' "rsp" = s "rsi" /\ s' "rdx" = 0.
Proof.
  eexists. split; [reflexivity|]. split; [reflexivity|].
  change (Z.lxor (s "rdx") (s "rdx") = 0). apply Z.lxor_nilpotent.
Qed.
End stubs.

(** ** Example: the first call of [alpha] in the library of [Relocation.v] *)

Lemma read_rela_agree m m' p r :
  (forall i, p <= i < p + RELA_SIZE -> m !! i = m' !! i) -> read_rela m p = Ok r -> read_rela m' p = Ok r.
Proof.
  unfold RELA_SIZE. intros Hm <-. unfold read_rela. rewrite !(read_u64_agree m m'); [done|intros i Hi; apply Hm; lia..].
Qed.

Definition demo_stack : memory := image [(20000, replicate 104 0 ++ pack [(8%nat, 5555); (8%nat, 0); (8%nat, 400)])].
Definition demo_call_world : world := mk_world (demo_stack ∪ demo_reloc_memory) [] 0 ∅.
Definition demo_regs : regs := fun r => if String.eqb r "rsp" then 20104 else 7.
Definition demo_rela : ElfRela := mk_rela 272 (Z.shiftl 2 32 + 7) 0.

Lemma demo_binding :
  @binding default_config (x86_64 0) demo_scope_fn (demo_reloc_inner (Some demo_lazy)) demo_call_world 20048 56 0 demo_rela 777.
Proof.
  constructor; [done|done|done|apply slot_mapped_check; by vm_compute|].
  exists 9200, demo_symtab, (mk_symbol 7 18 0 7 4660 8), (mk_syminfo (bytes_of "alpha") (Some (bytes_of "alpha")) None),
    demo_lazy, (Some 777), None.
  split_and!; try done. intros m Hm. split_and!; [| |done|by intros Hz].
  - apply (read_rela_agree (mem demo_call_world)); [|by vm_compute].
    intros i Hi. symmetry. apply Hm. change (9200 <= i < 9224) in Hi. lia.
  - apply (symbol_idx_frame (mem demo_call_world)); [done|by vm_compute| |]; intros a Ha; apply Hm.
    + change (2048 <= a < 2072) in Ha. lia.
    + change (3007 <= a <= 3012) in Ha. lia.
Qed.

Lemma demo_regs_ok : regs_ok demo_regs.
Proof. intros r. unfold demo_regs. destruct (String.eqb r "rsp"); lia. Qed.

Lemma demo_stack_mapped : mapped_range (mem demo_call_world) 20000 120.
Proof.
  intros i Hi. unfold demo_call_world. cbn [mem]. apply lookup_union_is_Some. left.
  unfold demo_stack. cbn [image foldr fst snd]. rewrite store_bytes_lookup.
  rewrite decide_True by (vm_compute (Z.of_nat _); lia). apply lookup_lt_is_Some_2. vm_compute (length _). lia.
Qed.

Lemma first_plt_call_witness :
  exists s' w', exec (H := @fixup_callee default_config (x86_64 0) demo_scope_fn 4242 5555 (demo_reloc_inner (Some demo_lazy))
      20000 (fun _ _ => 0) (fun _ _ => 0)) x86_64_abi (x86_64_resolve 4242) demo_regs demo_call_world = (Ok (s', 777), w') /\
    s' "rsp" = 20120 /\ s' "rdi" = 7.
Proof.
  destruct (@first_plt_call default_config (x86_64 0) demo_scope_fn 4242 5555 20000 (fun _ _ => 0) (fun _ _ => 0)
    (demo_reloc_inner (Some demo_lazy)) x86_64_target demo_call_world demo_regs 0 demo_rela 777) as (s' & w' & Hrun & Hen & _).
  - left.
  - exact demo_regs_ok.
  - split; reflexivity || discriminate.
  - reflexivity.
  - exact demo_stack_mapped.
  - right. discriminate.
  - exact demo_binding.
  - split; vm_compute; reflexivity.
  - exists s', w'. split; [exact Hrun|]. destruct Hen as [Hsp Hk _ _ _]. split; [exact Hsp|].
    apply (Hk "rdi"). left.
Defined.

Lemma riscv64_resolve_misaligned_witness :
  (exec (H := aligned_callee (@fixup_callee default_config (riscv64 0) demo_scope_fn 4242 5555 (demo_reloc_inner None)
      20000 (fun _ _ => 0) (fun _ _ => 0))) riscv64_abi (riscv64_resolve 4242) (fun r => if String.eqb r "sp" then 20096 else 7)
      demo_call_world).1 = Fault.
Proof.
  apply (riscv64_resolve_misaligned (@fixup_callee default_config (riscv64 0) demo_scope_fn 4242 5555 (demo_reloc_inner None)
      20000 (fun _ _ => 0) (fun _ _ => 0)) 4242 (fun r => if String.eqb r "sp" then 20096 else 7) demo_call_world).
  - intros r. destruct (String.eqb r "sp"); lia.
  - discriminate.
  - reflexivity.
  - intros i Hi. apply demo_stack_mapped. change (20024 <= i < 20096) in Hi. lia.
Defined.
