(* ===== verification/Format.v ===== *)
(** * Format: libraries and executables

    Models [src/src/format/mod.rs], [dylib.rs] and [exec.rs]: from a [Builder] to an
    unrelocated [Elf], its relocation, symbol lookup in relocated libraries, and
    the entry points of [Loader]. *)

From S2P Require Import Prelude Machine Arch StrTab Version Mmap Segment Dynamic Symbol Object UserData.
From S2P Require Import Loader Image Core Relocation.
#[local] Open Scope Z_scope.

(** ** Handles *)

(** [ElfDylib] and [ElfExec] wrap the common part; [RelocatedDylib] wraps the core. *)
Record ElfDylib := mk_dylib { dylib_common : ElfCommonPart }.
Record ElfExec := mk_exec { exec_common : ElfCommonPart }.

Inductive Elf :=
  | Elf_Dylib (d : ElfDylib)
  | Elf_Exec (e : ElfExec).

Record RelocatedDylib := mk_relocated_dylib { rd_core : CoreComponent }.
Record RelocatedExec := mk_relocated_exec { re_entry : Z; re_core : CoreComponent }.

Inductive RelocatedElf :=
  | Relocated_Dylib (d : RelocatedDylib)
  | Relocated_Exec (e : RelocatedExec).

Definition into_dylib (e : RelocatedElf) : option RelocatedDylib :=
  match e with Relocated_Dylib d => Some d | Relocated_Exec _ => None end.
Definition into_exec (e : RelocatedElf) : option RelocatedExec :=
  match e with Relocated_Dylib _ => None | Relocated_Exec e => Some e end.
Definition as_dylib (e : RelocatedElf) : option RelocatedDylib := into_dylib e.

(** [Deref for Elf] *)
Definition elf_common (e : Elf) : ElfCommonPart :=
  match e with Elf_Dylib d => dylib_common d | Elf_Exec e => exec_common e end.

(** Accessors of [ElfCommonPart]. *)
Definition entry `{Config} (c : ElfCommonPart) : outcome Z := uadd (c_entry c) (core_base (c_core c)).
Definition core_component_ref (c : ElfCommonPart) : CoreComponent := c_core c.
Definition core_component (c : ElfCommonPart) : M CoreComponent := core_clone (c_core c).
Definition is_lazy (c : ElfCommonPart) : bool := c_lazy c.
Definition rpath (c : ElfCommonPart) : option bytes := c_rpath c.
Definition runpath (c : ElfCommonPart) : option bytes := c_runpath c.
Definition interp (c : ElfCommonPart) : option bytes := c_interp c.

(** ** Creating an object *)

(** [iter().map(f).collect()] with a body that can fail. *)
Fixpoint map_outcome {A B} (f : A -> outcome B) (l : list A) : outcome (list B) :=
  match l with
  | [] => Ok []
  | x :: l' => y ← f x; ys ← map_outcome f l'; Ok (y :: ys)
  end.

Section create.
Context `{Config} `{ArcAlloc}.

(** The mapped program headers, found through the segment that holds them. *)
Definition find_phdrs (segs : ElfSegments) (ehdr : ElfHeader) (phdr_start phdr_end : Z)
    (phdrs : list ElfPhdr) : outcome (option slice) :=
  find_map_outcome (fun phdr : ElfPhdr =>
    let start := p_offset phdr in
    end_ ← uadd (p_offset phdr) (p_filesz phdr);
    if (start <=? phdr_start) && (phdr_start <? end_) && ((start <=? phdr_end) && (phdr_end <? end_)) then
      a ← uadd (p_vaddr phdr) phdr_start;
      a ← usub a start;
      n ← umul (e_phnum ehdr) PHDR_SIZE;
      s ← get_slice PHDR_SIZE segs a n;
      Ok (Some s)
    else Ok None)
    (filter (fun phdr => p_type phdr = PT_LOAD) phdrs).

Definition create_common (b : Builder) (phdrs : list ElfPhdr) (is_dylib : bool) : M ElfCommonPart :=
  on_unwind
    (match b_dynamic b with
     | Some dynamic =>
         let! '(phdr_start, phdr_end) := lift (phdr_range (b_ehdr b)) in
         let! phdrs := lift (match phdr_mmap b with
                             | Some s => Ok s
                             | None =>
                                 r ← find_phdrs (b_segments b) (b_ehdr b) phdr_start phdr_end phdrs; unwrap r
                             end) in
         let! relocation := lift (ElfRelocation_new (pltrel dynamic) (dynrel dynamic) (rela_count dynamic)) in
         let! symbols := reads (fun m => SymbolTable_new m dynamic) in
         let! needed_libs := reads (fun m => map_outcome (get_str m (strtab symbols)) (needed_libs dynamic)) in
         let! rpath := reads (fun m => map_opt (get_str m (strtab symbols)) (rpath_off dynamic)) in
         let! runpath := reads (fun m => map_opt (get_str m (strtab symbols)) (runpath_off dynamic)) in
         let! core := arc_new false
           (mk_inner (b_name b) (Some symbols) (NonNull_new (dyn_ptr dynamic))
              (NonNull_new (match pltrel dynamic with Some plt => sl_ptr plt | None => 0 end))
              phdrs (fini_fn dynamic) (fini_array_fn dynamic) needed_libs (b_user_data b) None
              (b_segments b)) in
         ret (mk_common (e_entry (b_ehdr b)) (dyn_got dynamic) relocation (b_relro b)
                (mk_init (b_init_params b) (init_fn dynamic) (init_array_fn dynamic))
                (default (negb (bind_now dynamic)) (b_lazy_bind b)) rpath runpath (b_interp b) core)
     | None =>
         if is_dylib then throw (parse_dynamic_error "dylib does not have dynamic")
         else
           let! relocation := lift (ElfRelocation_new None None None) in
           let! core := arc_new false
             (mk_inner (b_name b) None None None empty_slice None None [] (b_user_data b) None
                (b_segments b)) in
           ret (mk_common (e_entry (b_ehdr b)) None relocation (b_relro b)
                  (mk_init (b_init_params b) None None) (default false (b_lazy_bind b)) None None
                  (b_interp b) core)
     end)
    (drop_segments (b_segments b)).

Definition create_dylib (b : Builder) (phdrs : list ElfPhdr) : M ElfDylib :=
  let! common := create_common b phdrs true in ret (mk_dylib common).

Definition create_exec (b : Builder) (_phdrs : list ElfPhdr) : M ElfExec :=
  let! common := create_common b [] false in ret (mk_exec common).

Definition create_elf (b : Builder) (phdrs : list ElfPhdr) (is_dylib : bool) : M Elf :=
  if is_dylib then let! d := create_dylib b phdrs in ret (Elf_Dylib d)
  else let! e := create_exec b phdrs in ret (Elf_Exec e).
End create.

(** ** Loading *)

Section loading.
Context `{Config} `{Arch} `{Mmap} `{ArcAlloc} `{ElfObject T}.

(** The header, and the check of the file type; the object is dropped with an
    early return. *)
Definition prepare (l : Loader) (object : T) (accept : ElfHeader -> bool) : M (ElfHeader * Loader) :=
  on_unwind
    (let! '(ehdr, buf) := prepare_ehdr (ld_buf l) object in
     if accept ehdr then ret (ehdr, set_buf l buf) else throw (parse_ehdr_error "file type mismatch"))
    (obj_drop object).

Definition load (l : Loader) (object : T) (lazy_bind : option bool) : M (Elf * Loader) :=
  let! '(ehdr, l) := prepare l object (fun _ => true) in
  let is_dylib := is_dylib ehdr in
  let! '(builder, phdrs, l) := load_impl l ehdr object lazy_bind in
  let! elf := create_elf builder phdrs is_dylib in
  ret (elf, l).

Definition easy_load (l : Loader) (object : T) : M (Elf * Loader) := load l object None.

Definition load_dylib (l : Loader) (object : T) (lazy_bind : option bool) : M (ElfDylib * Loader) :=
  let! '(ehdr, l) := prepare l object is_dylib in
  let! '(builder, phdrs, l) := load_impl l ehdr object lazy_bind in
  let! dylib := create_dylib builder phdrs in
  ret (dylib, l).

Definition easy_load_dylib (l : Loader) (object : T) : M (ElfDylib * Loader) := load_dylib l object None.

Definition load_exec (l : Loader) (object : T) (lazy_bind : option bool) : M (ElfExec * Loader) :=
  let! '(ehdr, l) := prepare l object (fun h => negb (is_dylib h)) in
  let! '(builder, phdrs, l) := load_impl l ehdr object lazy_bind in
  let! exec := create_exec builder phdrs in
  ret (exec, l).

Definition easy_load_exec (l : Loader) (object : T) : M (ElfExec * Loader) := load_exec l object None.
End loading.

(** ** Relocated libraries *)

Definition rd_symtab (d : RelocatedDylib) : outcome SymbolTable := unwrap_unchecked (core_symtab (rd_core d)).

Section symbols.
Context `{Config} `{Native}.

(** The common part of [get] and [get_version]. *)
Definition get_info (d : RelocatedDylib) (info : SymbolInfo) : M (option Z) :=
  let! symtab := lift (rd_symtab d) in
  let! sym := reads (fun m => lookup_filter m symtab info) in
  match sym with
  | Some sym =>
      let! ptr := convert (mk_symdef (Some sym) (core_base (rd_core d))) in ret (Some ptr)
  | None => ret None
  end.

Definition get (d : RelocatedDylib) (name : bytes) : M (option Z) := get_info d (from_str name).

Definition get_version (d : RelocatedDylib) (name version : bytes) : M (option Z) :=
  let! info := lift (new_with_version name version) in get_info d info.

(** [libs.iter().find_map(..)] with effects *)
Fixpoint find_map_m {A B} (f : A -> M (option B)) (l : list A) : M (option B) :=
  match l with
  | [] => ret None
  | x :: l' => let! r := f x in match r with Some y => ret (Some y) | None => find_map_m f l' end
  end.

(** The closure of [create_lazy_scope], which owns the weak handles. *)
Definition lazy_find (libs : list CoreComponentRef) (pre_find : PreFind) (name : bytes) : M (option Z) :=
  find_map_m (fun lib =>
    let! p := pre_find name in
    or_else p
      (let! c := upgrade lib in
       let! c := lift (unwrap c) in
       finally (get (mk_relocated_dylib c) name) (drop_core c))) libs.

Definition create_lazy_scope (libs : list CoreComponentRef) (pre_find : PreFind) : LazyScope :=
  mk_lazy (lazy_find libs pre_find) (for_each libs drop_weak).

Definition from_core_component (c : CoreComponent) : RelocatedDylib := mk_relocated_dylib c.

Definition new_uncheck `{ArcAlloc} (name : bytes) (base : Z) (dynamic : ElfDynamic) (phdrs : slice)
    (segs : ElfSegments) (ud : UserData) : M RelocatedDylib :=
  let! c := from_raw name base dynamic phdrs segs ud in ret (mk_relocated_dylib c).
End symbols.

(** [ElfDylib::user_data_mut]: a reference to the value, and the library once it is
    written; only while this is the sole handle. *)
Definition user_data_mut (d : ElfDylib) : M (option (UserData * (UserData -> ElfDylib))) :=
  let c := dylib_common d in
  let! r := core_user_data_mut (c_core c) in
  ret (match r with
       | Some (u, set) =>
           Some (u, fun u => mk_dylib (mk_common (c_entry c) (c_got c) (c_relocation c) (c_relro c) (c_init c)
                                         (c_lazy c) (c_rpath c) (c_runpath c) (c_interp c) (set u)))
       | None => None
       end).

(** ** Relocating *)

Section relocating.
Context `{Config} `{Arch} `{Native}.

(** What the closure [deal_unknown] of the public interface gets. *)
Definition DealUnknownIn : Type := ElfRela -> CoreComponent -> list RelocatedDylib -> M (unit + any).

Definition helper_of (lib : RelocatedDylib) : outcome RelocateHelper :=
  s ← rd_symtab lib; Ok (mk_helper (core_base (rd_core lib)) s).

(** The closure [|_, _, _| Err(Box::new(()))]; 0 is the boxed unit. *)
Definition no_unknown : DealUnknownIn := fun _ _ _ => ret (inr 0).

(** Early errors drop [self]. *)
Definition dylib_relocate (self : ElfDylib) (scope : list RelocatedDylib) (pre_find : PreFind)
    (deal_unknown : DealUnknownIn) (local_lazy_scope : option LazyScope) : M RelocatedDylib :=
  let! helper := lift (map_outcome helper_of scope) in
  let! core := relocate_impl (dylib_common self) helper pre_find
                 (fun rela core => deal_unknown rela core scope) local_lazy_scope in
  ret (mk_relocated_dylib core).

(** [iter().map(f).collect()] with effects *)
Fixpoint map_m {A B} (f : A -> M B) (l : list A) : M (list B) :=
  match l with
  | [] => ret []
  | x :: l' => let! y := f x in let! ys := map_m f l' in ret (y :: ys)
  end.

Definition local_scope (c : ElfCommonPart) (scope : list RelocatedDylib) (pre_find : PreFind) :
    M (option LazyScope) :=
  if is_lazy c then
    let! libs := map_m (fun lib => downgrade (rd_core lib)) scope in
    ret (Some (create_lazy_scope libs pre_find))
  else ret None.

Definition dylib_easy_relocate (self : ElfDylib) (scope : list RelocatedDylib) (pre_find : PreFind) :
    M RelocatedDylib :=
  let! local_lazy_scope := local_scope (dylib_common self) scope pre_find in
  dylib_relocate self scope pre_find no_unknown local_lazy_scope.

Definition exec_relocate (self : ElfExec) (scope : list RelocatedDylib) (pre_find : PreFind)
    (deal_unknown : DealUnknownIn) (local_lazy_scope : option LazyScope) : M RelocatedExec :=
  let common := exec_common self in
  if is_empty (c_relocation common) then
    drop_lazy local_lazy_scope ;;
    ret (mk_relocated_exec (c_entry common) (c_core common))
  else
    let own := match core_symtab (c_core common) with
               | Some symtab => [mk_helper (core_base (c_core common)) symtab]
               | None => []
               end in
    let! helper := lift (map_outcome helper_of scope) in
    let! core := relocate_impl common (own ++ helper) pre_find
                   (fun rela core => deal_unknown rela core scope) local_lazy_scope in
    ret (mk_relocated_exec (c_entry common) core).

Definition exec_easy_relocate (self : ElfExec) (scope : list RelocatedDylib) (pre_find : PreFind) :
    M RelocatedExec :=
  let! local_lazy_scope := local_scope (exec_common self) scope pre_find in
  exec_relocate self scope pre_find no_unknown local_lazy_scope.

Definition elf_relocate (self : Elf) (scope : list RelocatedDylib) (pre_find : PreFind)
    (deal_unknown : DealUnknownIn) (local_lazy_scope : option LazyScope) : M RelocatedElf :=
  match self with
  | Elf_Dylib d =>
      let! r := dylib_relocate d scope pre_find deal_unknown local_lazy_scope in ret (Relocated_Dylib r)
  | Elf_Exec e =>
      let! r := exec_relocate e scope pre_find deal_unknown local_lazy_scope in ret (Relocated_Exec r)
  end.

Definition elf_easy_relocate (self : Elf) (scope : list RelocatedDylib) (pre_find : PreFind) :
    M RelocatedElf :=
  match self with
  | Elf_Dylib d => let! r := dylib_easy_relocate d scope pre_find in ret (Relocated_Dylib r)
  | Elf_Exec e => let! r := exec_easy_relocate e scope pre_find in ret (Relocated_Exec r)
  end.
End relocating.

(** ** Theorems *)

Lemma find_map_outcome_Some {A B} (f : A -> outcome (option B)) l y :
  find_map_outcome f l = Ok (Some y) -> exists x, x ∈ l /\ f x = Ok (Some y).
Proof.
  induction l as [|x l IH]; simpl; [done|]. intros H. inv_bind H. destruct a as [z|].
  - simplify_eq. exists x. split; [by left|done].
  - destruct (IH H) as (x' & Hx & Hf). exists x'. split; [by right|done].
Qed.

Section phdrs.
Context `{Config}.

(** The program headers an object reports are those of its file: the slice
    found through the segment that holds the table reads back, from the mapped
    memory, the entries the file has at [e_phoff]. *)
Theorem phdrs_in_memory (m : memory) (segs : ElfSegments) (h : ElfHeader) (data : bytes)
    (ps : list ElfPhdr) (s : slice) :
  segments_ok segs -> 0 <= e_phoff h -> 0 <= e_phnum h ->
  Forall (fun p => is_load p ->
    seg_wf segs p /\ shows m (base segs) data p /\ p_vaddr p + e_phoff h < U64_LIM) ps ->
  find_phdrs segs h (e_phoff h) (e_phoff h + PHDR_SIZE * e_phnum h) ps = Ok (Some s) ->
  read_slice read_phdr_at PHDR_SIZE m s =
    read_array read_phdr_at PHDR_SIZE (store_bytes ∅ 0 data) (e_phoff h) (Z.to_nat (e_phnum h)).
Proof.
  intros Hs Hoff Hnum Hall Hfind. unfold find_phdrs in Hfind.
  apply find_map_outcome_Some in Hfind as (p & Hp%list_elem_of_filter & Hf). destruct Hp as [Hld Hin].
  rewrite Forall_forall in Hall. destruct (Hall p Hin Hld) as (Hwf & Hsh & Hov).
  pose proof Hwf as [(Hv & Hfm & Hm & Hb & Ho) Hc Hfile [Hin1 Hin2]].
  pose proof Hs as ([Hp1 Hp2] & Ho1 & Hl). pose proof (base_ok segs Hs) as Hbase.
  pose proof (page_down_facts (p_vaddr p)) as F1. pose proof (page_up_facts (p_vaddr p + p_memsz p)) as F2.
  fold (seg_lo p) in F1. fold (seg_hi p) in F2. unfold PHDR_SIZE in *.
  rewrite (uadd_ok (p_offset p)), bind_Ok in Hf by lia.
  destruct ((p_offset p <=? e_phoff h) && (e_phoff h <? p_offset p + p_filesz p) &&
            ((p_offset p <=? e_phoff h + 56 * e_phnum h) && (e_phoff h + 56 * e_phnum h <? p_offset p + p_filesz p)))
    eqn:Hr; [|done].
  assert (Hrange : p_offset p <= e_phoff h /\ e_phoff h + 56 * e_phnum h < p_offset p + p_filesz p) by lia.
  clear Hr. destruct Hrange as [Hr1 Hr2].
  rewrite (uadd_ok (p_vaddr p)), bind_Ok in Hf by lia. rewrite (usub_ok (p_vaddr p + e_phoff h)), bind_Ok in Hf by lia.
  rewrite (umul_ok (e_phnum h)), bind_Ok in Hf by lia.
  rewrite get_slice_ok in Hf by (try done; unfold in_segments; lia). rewrite bind_Ok in Hf. injection Hf as <-.
  unfold read_slice. cbn [sl_ptr sl_len]. rewrite Z.div_mul by lia.
  apply read_phdrs_shift. unfold PHDR_SIZE. intros i Hi.
  assert (Hi' : 0 <= i < 56 * e_phnum h) by lia. clear Hi.
  replace (base segs + (p_vaddr p + e_phoff h - p_offset p) + i)
    with (base segs + p_vaddr p + (e_phoff h - p_offset p + i)) by lia.
  rewrite Hsh by lia. rewrite (proj2 (Z.ltb_lt _ _)) by lia.
  replace (p_offset p + (e_phoff h - p_offset p + i)) with (e_phoff h + i) by lia.
  rewrite store_bytes_lookup. rewrite Z.sub_0_r, Z.add_0_l. case_decide as Hd; [done|].
  rewrite lookup_ge_None_2; [done|]. lia.
Qed.

Context `{ArcAlloc}.

(** An executable with a dynamic section needs a [PT_PHDR] header: without it
    loading panics, because the program headers are not handed on to the search
    for the mapped table. *)
Theorem exec_needs_pt_phdr (b : Builder) (phdrs : list ElfPhdr) (w w' : world) :
  is_Some (b_dynamic b) -> phdr_mmap b = None ->
  0 <= e_phentsize (b_ehdr b) < U16_LIM -> 0 <= e_phnum (b_ehdr b) < U16_LIM ->
  0 <= e_phoff (b_ehdr b) < 2 ^ 63 ->
  drop_segments (b_segments b) w = (Ok tt, w') ->
  create_exec b phdrs w = (Panic, w').
Proof.
  intros [d Hd] Hnone Hent Hnum Hoff Hdrop. unfold create_exec, create_common, on_unwind.
  rewrite Hd, Hnone. unfold bind at 1 2, lift. unfold phdr_range.
  rewrite umul_ok, bind_Ok by nia. rewrite uadd_ok, bind_Ok by nia.
  unfold bind at 1. unfold run_drop. simpl. by rewrite Hdrop.
Qed.
End phdrs.

Section binding.
Context `{Config} `{Native}.

(** [get] finds what the library exports: the address of the first exported
    symbol with the name, base plus value, when it is a usable symbol and not an
    indirect function. *)
Theorem get_finds_exported (d : RelocatedDylib) (st : SymbolTable) (syms : list gsym) (i : nat) (s : gsym)
    (w : world) :
  core_symtab (rd_core d) = Some st -> mem_ok (mem w) -> gnu_table (mem w) st syms ->
  syms !! i = Some s -> (forall j s', (j < i)%nat -> syms !! j = Some s' -> gs_name s' <> gs_name s) ->
  usable (gs_sym s) -> st_type (gs_sym s) <> STT_GNU_IFUNC ->
  0 <= core_base (rd_core d) + st_value (gs_sym s) < U64_LIM ->
  get d (gs_name s) w = (Ok (Some (core_base (rd_core d) + st_value (gs_sym s))), w).
Proof.
  intros Hst Hm Htab Hi Hmin Hus Hif Hrange. unfold get, get_info, rd_symtab. rewrite Hst.
  unfold bind, lift, reads. cbn [unwrap_unchecked].
  rewrite (lookup_filter_result (mem w) st syms Htab (from_str (gs_name s)) (fun _ => true)); [| |done].
  - unfold lookup_spec. match goal with |- context [find_from ?P 0 syms] =>
      assert (find_from P 0 syms = Some (i, s)) as -> end.
    { apply find_from_Some. exists i. split_and!; [done|done|unfold matches; simpl; by rewrite bool_decide_true|].
      intros j x Hj Hx. unfold matches; simpl. rewrite bool_decide_false; [done|]. by apply (Hmin j x). }
    cbn [fmap option_fmap option_map compose snd]. rewrite decide_True by done.
    unfold convert. cbn [sd_sym sd_base]. unfold bind, lift. rewrite uadd_ok by done.
    by rewrite (proj2 (Z.eqb_neq _ _) Hif).
  - intros j x Hx He. unfold candidate. rewrite bool_decide_true by done. by destruct feature_version.
Qed.

(** A handle on top of others comes and goes without a trace. *)
Lemma drop_core_again (c : CoreComponent) (w : world) (cell : arc_cell) :
  arcs w !! arc_ptr c = Some cell -> 1 <= strong cell ->
  drop_core c (set_arcs (<[arc_ptr c := add_strong 1 cell]> (arcs w)) w) = (Ok tt, w).
Proof.
  intros Hc Hs. unfold drop_core, bind, update_cell. simpl. rewrite lookup_insert_eq. simpl.
  rewrite lookup_insert_eq. simpl. rewrite (proj2 (Z.eqb_neq _ _)) by lia. unfold ret. f_equal.
  rewrite insert_insert_eq. unfold add_strong. simpl.
  replace (strong cell + 1 + -1) with (strong cell) by lia. rewrite insert_id by (by destruct cell). by destruct w.
Qed.

(** A lazy scope asks [pre_find] first and then its libraries in order, and
    leaves their handles as they were; but a scope without libraries resolves
    nothing, not even what [pre_find] knows. *)
Theorem create_lazy_scope_order (libs : list CoreComponent) (pre_find : PreFind) (name : bytes)
    (pv : option Z) (found : CoreComponent -> option Z) (w : world) :
  (forall w', pre_find name w' = (Ok pv, w')) ->
  (forall c, c ∈ libs -> exists cell, arcs w !! arc_ptr c = Some cell /\ 1 <= strong cell) ->
  (forall c w', c ∈ libs -> mem w' = mem w -> get (mk_relocated_dylib c) name w' = (Ok (found c), w')) ->
  ls_call (create_lazy_scope (mk_core_ref <$> libs) pre_find) name w =
    (Ok (match libs with
         | [] => None
         | _ :: _ => match pv with Some v => Some v | None => find_map found libs end
         end), w).
Proof.
  intros Hpre Halive Hget. cbn [ls_call create_lazy_scope]. unfold lazy_find.
  destruct libs as [|c0 libs0] eqn:Hlibs; [done|]. rewrite <- Hlibs in *.
  destruct pv as [v|].
  { rewrite Hlibs. simpl. unfold bind. rewrite Hpre. done. }
  clear Hlibs c0 libs0. induction libs as [|c libs IH]; simpl; [done|].
  destruct (Halive c (list_elem_of_here _ _)) as (cell & Hc & Hs).
  unfold bind at 1, bind at 1. rewrite Hpre. cbn [or_else]. unfold bind at 1, upgrade. cbn [weak_of].
  rewrite Hc, (proj2 (Z.eqb_neq _ _)) by lia. unfold bind at 1, lift. cbn [unwrap]. unfold finally at 1.
  rewrite (Hget c) by (done || by left). unfold run_drop. rewrite (drop_core_again c w cell) by (done || lia). destruct (found c); [done|]. apply IH; intros; [apply Halive|apply Hget]; try done; by right.
Qed.

(** An executable without relocations is returned as it is: its initialisers
    are not called and it does not count as initialised, so neither will its
    finalisers be. *)
Theorem exec_no_relocation_skips_init `{Arch} (e : ElfExec) (scope : list RelocatedDylib) (pre_find : PreFind)
    (deal_unknown : DealUnknownIn) (lazy : option LazyScope) (w w' : world) :
  is_empty (c_relocation (exec_common e)) = true -> drop_lazy lazy w = (Ok tt, w') ->
  exec_relocate e scope pre_find deal_unknown lazy w =
    (Ok (mk_relocated_exec (c_entry (exec_common e)) (c_core (exec_common e))), w').
Proof. intros He Hd. unfold exec_relocate. rewrite He. by rewrite (bind_run _ _ _ _ _ Hd). Qed.
End binding.

Section loading_facts.
Context `{Config} `{Arch} `{Mmap} `{ArcAlloc} `{ElfObject T}.

(** A library and an executable cannot be confused: loading an object of the
    other type fails with the type error, drops the object, and maps
    nothing. *)
Theorem load_type_mismatch (l : Loader) (object : T) (lazy_bind : option bool) (h : ElfHeader) (buf : ElfBuf)
    (w w1 w2 : world) :
  prepare_ehdr (ld_buf l) object w = (Ok (h, buf), w1) -> obj_drop object w1 = (Ok tt, w2) ->
  if is_dylib h
  then load_exec l object lazy_bind w = (Err (ParseEhdrError "file type mismatch"), w2)
  else load_dylib l object lazy_bind w = (Err (ParseEhdrError "file type mismatch"), w2).
Proof.
  intros Hp Hd. destruct (is_dylib h) eqn:Ht; unfold load_exec, load_dylib, prepare.
  all: unfold bind at 1, on_unwind; unfold bind at 1; rewrite Hp; rewrite Ht; cbn [negb];
    unfold throw, run_drop; by rewrite Hd.
Qed.
End loading_facts.

(** ** Example *)

Definition demo_alloc : ArcAlloc := {| arc_address w := 900 |}.
Definition demo_lib_world : world := mk_world demo_symbol_memory [] 0 {[900 := mk_cell 1 0 true]}.
Definition demo_lib : RelocatedDylib := mk_relocated_dylib demo_reloc_core.
Definition demo_head : ElfPhdr := mk_phdr PT_LOAD 4 0 0 0 200 200 4096.

Lemma phdrs_in_memory_witness :
  read_slice read_phdr_at PHDR_SIZE (store_bytes ∅ 65536 (take 200 demo_elf)) (mk_slice 65600 2) =
    read_array read_phdr_at PHDR_SIZE (store_bytes ∅ 0 demo_elf) 64 2.
Proof.
  apply (@phdrs_in_memory dev_config (store_bytes ∅ 65536 (take 200 demo_elf))
           (mk_segments 65536 0 4096 (fun _ _ => ret tt)) demo_ehdr demo_elf [demo_head] (mk_slice 65600 2)).
  - unfold segments_ok, range_ok. simpl. lia.
  - discriminate.
  - discriminate.
  - constructor; [|constructor]. intros _. split_and!.
    + constructor; [unfold load_ok; simpl; lia|done|done|]. split; vm_compute; discriminate.
    + intros i Hi. change (0 <= i < 200) in Hi. change (p_filesz demo_head) with 200.
      rewrite (proj2 (Z.ltb_lt _ _)) by lia. change (p_vaddr demo_head) with 0. change (p_offset demo_head) with 0.
      change (base _) with 65536. rewrite store_bytes_lookup, decide_True.
      * rewrite lookup_take_lt by lia. f_equal. lia.
      * change (length (take 200 demo_elf)) with 200%nat. lia.
    + done.
  - vm_compute. reflexivity.
Defined.

Definition demo_dynamic : ElfDynamic :=
  mk_dynamic 9000 1000 2000 3000 false None None None None None None None None [] None None None None None.
Definition demo_builder : Builder :=
  mk_builder None (bytes_of "prog") None demo_ehdr None (Some demo_dynamic) user_data_empty
    (mk_segments 65536 0 4096 (fun p n => emit (EvMunmap p n true))) None None.

Lemma exec_needs_pt_phdr_witness :
  @create_exec dev_config demo_alloc demo_builder [demo_head] demo_lib_world =
    (Panic, push_event (EvMunmap 65536 4096 true) demo_lib_world).
Proof.
  apply (@exec_needs_pt_phdr dev_config demo_alloc demo_builder [demo_head] demo_lib_world).
  - eexists. reflexivity.
  - reflexivity.
  - split; vm_compute; [discriminate|reflexivity].
  - split; vm_compute; [discriminate|reflexivity].
  - split; vm_compute; [discriminate|reflexivity].
  - reflexivity.
Defined.

Lemma get_finds_exported_witness :
  @get default_config demo_native demo_lib (bytes_of "alpha") demo_lib_world = (Ok (Some 70196), demo_lib_world).
Proof.
  apply (@get_finds_exported default_config demo_native demo_lib demo_symtab demo_syms 1
           (mk_gsym (bytes_of "alpha") (mk_symbol 7 18 0 7 4660 8)) demo_lib_world).
  - reflexivity.
  - exact demo_mem_ok.
  - exact demo_table.
  - reflexivity.
  - intros [|j] s' Hj Hs; [|lia]. injection Hs as <-. discriminate.
  - apply (bool_decide_unpack _). vm_compute. done.
  - discriminate.
  - split; vm_compute; [discriminate|reflexivity].
Defined.

Lemma demo_get (w : world) :
  mem w = demo_symbol_memory ->
  @get default_config demo_native demo_lib (bytes_of "foo") w = (Ok (Some 87672), w).
Proof.
  intros Hw. unfold get, get_info, rd_symtab, bind, lift, reads. rewrite Hw.
  change (unwrap_unchecked (core_symtab (rd_core demo_lib))) with (Ok demo_symtab). cbv beta iota.
  assert (@lookup_filter default_config demo_symbol_memory demo_symtab (from_str (bytes_of "foo")) =
          Ok (Some (mk_symbol 13 33 0 8 22136 4))) as -> by (vm_compute; reflexivity).
  reflexivity.
Qed.

Lemma create_lazy_scope_order_witness :
  @lazy_find default_config demo_native [mk_core_ref demo_reloc_core] demo_pre_find (bytes_of "foo")
    demo_lib_world = (Ok (Some 87672), demo_lib_world).
Proof.
  apply (@create_lazy_scope_order default_config demo_native [demo_reloc_core] demo_pre_find (bytes_of "foo") None
           (fun _ => Some 87672) demo_lib_world).
  - intros w'. reflexivity.
  - intros c Hc. apply list_elem_of_singleton in Hc as ->. exists (mk_cell 1 0 true). split; [reflexivity|done].
  - intros c w' Hc Hw. apply list_elem_of_singleton in Hc as ->. by apply demo_get.
Defined.

Lemma exec_no_relocation_skips_init_witness :
  @exec_relocate default_config demo_arch demo_native
    (mk_exec (demo_common false None (mk_relocation empty_slice empty_slice empty_slice))) [] demo_pre_find no_unknown None
    demo_reloc_world = (Ok (mk_relocated_exec 0 demo_reloc_core), demo_reloc_world).
Proof. apply exec_no_relocation_skips_init; reflexivity. Defined.

Lemma load_type_mismatch_witness :
  @load_exec dev_config demo_arch (@Libc.MmapImpl (demo_kernel demo_elf)) demo_alloc ElfBinary (@ElfBinary_object dev_config)
    (mk_loader None ElfBuf_new None) (mk_binary [] demo_elf) None empty_world =
    (Err (ParseEhdrError "file type mismatch"), empty_world).
Proof.
  destruct (@prepare_ehdr dev_config demo_arch ElfBinary (@ElfBinary_object dev_config) ElfBuf_new (mk_binary [] demo_elf) empty_world)
    as [r w1] eqn:E.
  assert (Hr : (@prepare_ehdr dev_config demo_arch ElfBinary (@ElfBinary_object dev_config) ElfBuf_new (mk_binary [] demo_elf) empty_world).1
    = Ok (demo_ehdr, mk_buf (store_bytes ∅ 0 (take 736 demo_elf)) [])) by (vm_compute; reflexivity).
  assert (Hw : (@prepare_ehdr dev_config demo_arch ElfBinary (@ElfBinary_object dev_config) ElfBuf_new (mk_binary [] demo_elf) empty_world).2
    = empty_world) by (vm_compute; reflexivity).
  rewrite E in Hr, Hw. cbn [fst snd] in Hr, Hw. subst r w1.
  exact (@load_type_mismatch dev_config demo_arch (@Libc.MmapImpl (demo_kernel demo_elf)) demo_alloc ElfBinary
           (@ElfBinary_object dev_config) (mk_loader None ElfBuf_new None) (mk_binary [] demo_elf) None demo_ehdr _
           empty_world empty_world empty_world E eq_refl).
Defined.
