(* ===== verification/Quiet.v ===== *)
(** * Quiet: what loading does to the rest of the world

    The loader's functions followed once, for any effect that allows the calls of the
    platform and of the object: they have no other. *)

From S2P Require Import Prelude Machine Arch Segment Mmap Trace Dynamic Object Loader Image Core Relocation Format.
#[local] Open Scope Z_scope.

(** ** Objects *)

Class ObjectQuiet (E : world -> world -> Prop) `{ElfObject T} (o : T) : Prop := {
  quiet_read : forall len off w, E w (obj_read o len off w).2;
}.

(** An effect that allows a file to be read. *)
Class FileEffect (E : world -> world -> Prop) : Prop := {
  file_effect :: Effect E;
  effect_lseek : forall fd off res w, E w (push_event (EvLseek fd off res) w);
  effect_read : forall fd n res w, E w (push_event (EvRead fd n res) w);
}.
#[export] Instance close_file_effect fd : FileEffect (logged_never (EvClose fd)).
Proof. constructor; [apply _|intros; by apply logged_never_event..]. Qed.
#[export] Instance arcs_file_effect : FileEffect same_arcs.
Proof. constructor; [apply _|done..]. Qed.

Section objects.
Context (E : world -> world -> Prop) `{!FileEffect E}.

Lemma read_exact_quiet `{Files} fuel : forall fd n w, E w (LibcFile.read_exact fuel fd n w).2.
Proof.
  induction fuel as [|fuel IH]; intros fd n w; cbn [LibcFile.read_exact]; [apply effect_refl|].
  destruct (n =? 0); [apply effect_refl|]. destruct (sys_read w fd n) as [r bs].
  pose proof (effect_read fd n r w) as He. cbv zeta.
  destruct (r <? 0); [done|]. destruct (r =? 0); [done|]. destruct (n <? r); [done|].
  specialize (IH fd (n - r) (push_event (EvRead fd n r) w)).
  destruct (LibcFile.read_exact fuel fd (n - r) _) as [[o rest] w2]. simpl in *.
  by apply (effect_trans w (push_event (EvRead fd n r) w)).
Qed.

#[export] Instance libc_object_quiet `{Files} (file : ElfFile) : ObjectQuiet E (H := LibcFile.object) file.
Proof.
  constructor. intros len off w. simpl. unfold LibcFile.read, LibcFile.lseek. cbv zeta.
  set (w1 := push_event _ w). assert (Hs : E w w1) by apply effect_lseek.
  destruct ((_ =? -1) || _); [done|]. apply (effect_trans w w1); [done|]. apply read_exact_quiet.
Qed.

#[export] Instance syscall_object_quiet `{Files} (file : ElfFile) : ObjectQuiet E (H := SyscallFile.object) file.
Proof.
  constructor. intros len off w. simpl. unfold SyscallFile.read. cbv zeta.
  set (w1 := push_event (EvLseek _ _ _) w). assert (Hs : E w w1) by apply effect_lseek.
  destruct (_ <? 0); [done|]. destruct (sys_read w1 (f_fd file) len) as [size bs].
  destruct (size <? 0); (apply (effect_trans w w1); [done|apply effect_read]).
Qed.
End objects.

(** ** The loader *)

Section loader.
Context `{Config} `{Arch} `{Mm : Mmap} `{ArcAlloc} `{EO : ElfObject T}.
Context (E : world -> world -> Prop) `{!Effect E} `{!MmapQuiet E Mm} (o : T) `{!ObjectQuiet E o}.

(** A hook with no other effect. *)
Definition hook_quiet (hook : option Hook) : Prop :=
  forall f, hook = Some f -> forall name phdr segs ud, quiet E (f name phdr segs ud).

Lemma quiet_read_buf len off : quiet E (read_buf o len off).
Proof.
  intros w. unfold read_buf. pose proof (quiet_read len off w) as Hr. by destruct (obj_read o len off w) as [[r bs] w'].
Qed.
Lemma quiet_read_mem p len off : quiet E (read_mem o p len off).
Proof.
  intros w. unfold read_mem. pose proof (quiet_read len off w) as Hr.
  destruct (obj_read o len off w) as [[r bs] w1]. simpl in Hr.
  pose proof (quiet_write_bytes E p bs w1) as Hw. destruct (write_bytes p bs w1) as [[] w2] eqn:Hb.
  all: apply (effect_trans w w1); [exact Hr|exact Hw].
Qed.
#[local] Hint Resolve quiet_read_buf quiet_read_mem : trace.

Lemma quiet_drop_segments segs : seg_munmap segs = munmap -> quiet E (drop_segments segs).
Proof.
  intros Hs w. unfold drop_segments. rewrite Hs. pose proof (quiet_munmap (memory_ptr segs) (seg_len segs) w) as Hq.
  by destruct (munmap _ _ w) as [[] w1].
Qed.

Lemma quiet_mmap_segment param : quiet E (mmap_segment param o).
Proof. unfold mmap_segment. quiet. Qed.
Lemma quiet_fill_bss segs phdr : quiet E (fill_bss segs phdr).
Proof. unfold fill_bss. quiet. Qed.
Lemma quiet_exec_hook b f phdr : hook_quiet (Some f) -> quiet E (exec_hook b f phdr).
Proof. intros Hq. unfold exec_hook. apply (quiet_bind E); [by apply (Hq f)|]. quiet. Qed.
Lemma quiet_parse_other_phdr b phdr : quiet E (parse_other_phdr b phdr).
Proof. unfold parse_other_phdr. cbv zeta. quiet. Qed.
#[local] Hint Resolve quiet_mmap_segment quiet_fill_bss quiet_exec_hook quiet_parse_other_phdr : trace.

Lemma quiet_load_phdr hook b phdr : hook_quiet hook -> quiet E (load_phdr hook o b phdr).
Proof. intros Hq. unfold load_phdr. quiet. Qed.

Lemma quiet_load_phdrs hook phdrs : forall b, hook_quiet hook -> quiet E (load_phdrs hook o b phdrs).
Proof.
  induction phdrs as [|p l IH]; intros b Hq; cbn [load_phdrs]; [quiet|].
  apply (quiet_bind E); [by apply quiet_load_phdr|]. auto.
Qed.

Lemma quiet_prepare_phdr buf ehdr : quiet E (prepare_phdr buf ehdr o).
Proof. unfold prepare_phdr, fill_heap. quiet. Qed.
Lemma quiet_prepare_ehdr buf : quiet E (prepare_ehdr buf o).
Proof. unfold prepare_ehdr. quiet. Qed.
#[local] Hint Resolve quiet_load_phdrs quiet_prepare_phdr quiet_prepare_ehdr quiet_drop_segments : trace.

Lemma quiet_load_impl l ehdr lazy : hook_quiet (ld_hook l) -> quiet E (obj_drop o) -> quiet E (load_impl l ehdr o lazy).
Proof. intros Hq Hd. unfold load_impl. quiet. Qed.
Lemma quiet_prepare l accept : quiet E (obj_drop o) -> quiet E (prepare l o accept).
Proof. intros Hd. unfold prepare. quiet. Qed.

Lemma load_impl_munmap l ehdr lazy w b phdrs l' w' :
  load_impl l ehdr o lazy w = (Ok (b, phdrs, l'), w') -> seg_munmap (b_segments b) = munmap.
Proof.
  intros Hl. unfold load_impl in Hl. apply finally_run_inv in Hl as (w1 & Hl & _).
  apply bind_run_inv in Hl as ([ps buf] & w2 & _ & Hl). apply bind_run_inv in Hl as ([param lo] & w3 & _ & Hl).
  apply bind_run_inv in Hl as (memory & w4 & _ & Hl). apply on_unwind_inv in Hl.
  apply bind_run_inv in Hl as (b1 & w5 & Hb & Hl). injection Hl as <- _ _ _.
  apply load_phdrs_segments in Hb. by rewrite Hb.
Qed.

Lemma quiet_create_common b phdrs dyn :
  seg_munmap (b_segments b) = munmap -> (forall i, quiet E (arc_new false i)) -> quiet E (create_common b phdrs dyn).
Proof.
  intros Hs Hnew. unfold create_common. apply (quiet_on_unwind E); [|by apply quiet_drop_segments]. quiet.
Qed.

End loader.

#[export] Hint Extern 0 (MmapQuiet _ _) => typeclasses eauto : trace.
#[export] Hint Extern 0 (ObjectQuiet _ _) => typeclasses eauto : trace.
#[export] Hint Resolve quiet_read_buf quiet_read_mem quiet_mmap_segment quiet_fill_bss quiet_exec_hook
  quiet_parse_other_phdr quiet_load_phdrs quiet_prepare_phdr quiet_prepare_ehdr quiet_load_impl quiet_prepare : trace.
#[export] Hint Extern 1 (quiet _ (drop_segments _)) => eapply quiet_drop_segments; [|reflexivity] : trace.

Lemma no_hook E : hook_quiet E (ld_hook Loader_new).
Proof. by intros f. Qed.

Lemma quiet_arc_new `{ArcAlloc} R i : quiet (logged_never R) (arc_new false i).
Proof. intros w. exists []. split; [by rewrite app_nil_r|]. set_solver. Qed.
#[export] Hint Resolve quiet_arc_new : trace.

(** What a computation that ran has done. *)
Lemma quiet_run E {A} (c : M A) w r w' : quiet E c -> c w = (r, w') -> E w w'.
Proof. intros Hq Hc. specialize (Hq w). by rewrite Hc in Hq. Qed.

(** ** The reference counts

    A load makes one allocation, for the handle it returns, when everything else is done. *)

Section counts.
Context `{Config} `{Arch} `{Mm : Mmap} `{ArcAlloc} `{EO : ElfObject T}.
Context `{!MmapQuiet same_arcs Mm} (o : T) `{!ObjectQuiet same_arcs o}.

Definition allocates (c : CoreComponent) (w w' : world) : Prop :=
  exists w1, arcs w1 = arcs w /\ arc_ptr c = arc_address w1 /\ arcs w' = <[arc_ptr c := mk_cell 1 0 false]> (arcs w).

Lemma create_common_allocates b phdrs dyn w c w' :
  create_common b phdrs dyn w = (Ok c, w') -> allocates (c_core c) w w'.
Proof.
  unfold create_common. intros Hc%on_unwind_inv. exists w. destruct (b_dynamic b).
  - apply lift_bind_inv in Hc as ([] & _ & Hc). do 2 apply lift_bind_inv in Hc as (? & _ & Hc).
    do 4 apply bind_run_inv in Hc as (? & ? & [= _ <-] & Hc). by injection Hc as <- <-.
  - destruct dyn; [done|]. apply lift_bind_inv in Hc as (? & _ & Hc). by injection Hc as <- <-.
Qed.

Lemma create_common_segments b phdrs dyn w c w' :
  create_common b phdrs dyn w = (Ok c, w') -> segments (inner (c_core c)) = b_segments b.
Proof.
  unfold create_common. intros Hc%on_unwind_inv. destruct (b_dynamic b).
  - apply lift_bind_inv in Hc as ([] & _ & Hc). do 2 apply lift_bind_inv in Hc as (? & _ & Hc).
    do 4 apply bind_run_inv in Hc as (? & ? & [= _ <-] & Hc). by injection Hc as <- <-.
  - destruct dyn; [done|]. apply lift_bind_inv in Hc as (? & _ & Hc). by injection Hc as <- <-.
Qed.

(** The image of a library is unmapped the way it was mapped. *)
Lemma load_dylib_munmap l lazy w c l' w' :
  load_dylib l o lazy w = (Ok (mk_dylib c, l'), w') -> seg_munmap (segments (inner (c_core c))) = munmap.
Proof.
  intros Hl. unfold load_dylib in Hl. apply bind_run_inv in Hl as ([ehdr l1] & w1 & _ & Hl).
  apply bind_run_inv in Hl as ([[b phdrs] l2] & w2 & Hi & Hl). apply bind_run_inv in Hl as ([c'] & w3 & Hc & [= <- _ <-]).
  apply bind_run_inv in Hc as (? & w4 & Hc & [= <- <-]). apply create_common_segments in Hc as ->.
  by apply load_impl_munmap in Hi.
Qed.

Lemma load_dylib_allocates l lazy w c l' w' :
  hook_quiet same_arcs (ld_hook l) -> quiet same_arcs (obj_drop o) ->
  load_dylib l o lazy w = (Ok (mk_dylib c, l'), w') -> allocates (c_core c) w w'.
Proof.
  intros Hq Hd Hl. unfold load_dylib in Hl. apply bind_run_inv in Hl as ([ehdr l1] & w1 & Hp & Hl).
  assert (Hq1 : hook_quiet same_arcs (ld_hook l1)).
  { unfold prepare in Hp. apply on_unwind_inv in Hp. apply bind_run_inv in Hp as ([h b] & w2 & _ & Hp).
    destruct (is_dylib h); [|done]. by injection Hp as _ <- _. }
  apply bind_run_inv in Hl as ([[b phdrs] l2] & w2 & Hi & Hl). apply bind_run_inv in Hl as ([c'] & w3 & Hc & [= <- _ <-]).
  apply bind_run_inv in Hc as (? & w4 & Hc & [= <- <-]). apply create_common_allocates in Hc as (w5 & Ea & Ep & Eb).
  pose proof (quiet_run same_arcs _ _ _ _ (quiet_prepare same_arcs o l _ Hd) Hp) as E1.
  pose proof (quiet_run same_arcs _ _ _ _ (quiet_load_impl same_arcs o l1 _ _ Hq1 Hd) Hi) as E2.
  unfold same_arcs in *. exists w5. split_and!; congruence.
Qed.
End counts.
