(* ===== verification/MiniLoader.v ===== *)
(** * MiniLoader: the program that starts programs

    Models [src/mini-loader/src/main.rs]: the kernel starts it with the program's
    command line; it relocates itself, loads the program (and its interpreter),
    rewrites the auxiliary vector, removes itself from the arguments and jumps.

    The allocator behind the heap it sets up is another crate: [LockedHeap::new] is a
    parameter, and what later allocations write in the heap is not modelled.  A panic ends [rust_main]
    with the outcome [Panic]; [panic] is what its handler does then, in a process
    that does not unwind.  The assembly stubs hand over [sp] and the dynamic
    section, and jump at the end; the jump is the result of [rust_main]. *)

From S2P Require Import Prelude Machine Arch StrTab Version Mmap Segment Dynamic Symbol Object UserData.
From S2P Require Import Loader Core Relocation Format.
#[local] Open Scope Z_scope.

Definition AT_NULL := 0.
Definition AT_PHDR := 3.
Definition AT_PHENT := 4.
Definition AT_PHNUM := 5.
Definition AT_BASE := 7.
Definition AT_ENTRY := 9.
Definition AT_EXECFN := 31.

(** ** Reading what the kernel left *)

(** The first [loop]: the last [DT_RELA] and [DT_RELACOUNT] of the section. *)
Fixpoint scan_rela (fuel : nat) (m : memory) (p : Z) (rela rela_count : option Z) :
    outcome (option Z * option Z) :=
  match fuel with
  | O => OutOfFuel
  | S fuel' =>
      d ← read_dyn m p;
      if d_tag d =? DT_NULL then Ok (rela, rela_count)
      else if d_tag d =? DT_RELA then scan_rela fuel' m (p + DYN_SIZE) (Some (d_un d)) rela_count
      else if d_tag d =? DT_RELACOUNT then scan_rela fuel' m (p + DYN_SIZE) rela (Some (d_un d))
      else scan_rela fuel' m (p + DYN_SIZE) rela rela_count
  end.

(** [while cur_env.read() != 0] *)
Fixpoint count_env (fuel : nat) (m : memory) (p : Z) : outcome Z :=
  match fuel with
  | O => OutOfFuel
  | S fuel' => v ← read_u64 m p; if v =? 0 then Ok 0 else n ← count_env fuel' m (p + 8); Ok (1 + n)
  end.

Record Aux := mk_aux { aux_tag : Z; aux_val : Z }.
Definition AUX_SIZE := 16.
Definition read_aux (m : memory) (p : Z) : outcome Aux :=
  t ← read_u64 m p; v ← read_u64 m (p + 8); Ok (mk_aux t v).

Record aux_info := mk_aux_info { ai_ph : Z; ai_phnum : Z; ai_base : Z }.

Definition aux_step (i : aux_info) (a : Aux) : aux_info :=
  if aux_tag a =? AT_PHDR then mk_aux_info (aux_val a) (ai_phnum i) (ai_base i)
  else if aux_tag a =? AT_PHNUM then mk_aux_info (ai_ph i) (aux_val a) (ai_base i)
  else if aux_tag a =? AT_BASE then mk_aux_info (ai_ph i) (ai_phnum i) (aux_val a)
  else i.

Fixpoint scan_aux (fuel : nat) (m : memory) (p : Z) (i : aux_info) : outcome aux_info :=
  match fuel with
  | O => OutOfFuel
  | S fuel' =>
      a ← read_aux m p;
      if aux_tag a =? AT_NULL then Ok i else scan_aux fuel' m (p + AUX_SIZE) (aux_step i a)
  end.

Section mini.
Context `{Config} `{Arch}.

(** The load base from the first [PT_DYNAMIC] header; running off the slice panics. *)
Fixpoint dynamic_base (n : nat) (m : memory) (p dynv : Z) : outcome Z :=
  match n with
  | O => Panic
  | S n' =>
      phdr ← read_phdr_at m p;
      if p_type phdr =? PT_DYNAMIC then usub dynv (p_vaddr phdr)
      else dynamic_base n' m (p + PHDR_SIZE) dynv
  end.

Definition find_base (i : aux_info) (dynv : Z) : M Z :=
  if ai_base i =? 0 then reads (fun m => dynamic_base (Z.to_nat (ai_phnum i)) m (ai_ph i) dynv)
  else ret (ai_base i).

(** The standard output: the result of the [write] system call. *)
Class Console := { sys_write : world -> bytes -> Z }.
Context `{Console}.

Definition print_str (s : bytes) : M unit := fun w =>
  let n := sys_write w s in
  ((if n <? 0 then Panic else Ok tt), push_event (EvWrite 1 s n) w).

(** [print], of the formatted arguments, and the [println!] that adds a newline. *)
Definition print (args : bytes) : M unit := print_str args.
Definition println (args : bytes) : M unit := print (args ++ [10]).

(** How the process goes on where the program does not return: it has ended, or the
    panic handler panics in turn, again and again. *)
Inductive ending :=
  | Exited (status : Z)
  | Looping.

(** The [exit] system call does not return. *)
Definition exit (status : Z) : world -> ending * world := fun w => (Exited status, w).

(** What the handler gets: the place of the panic, as file, line and column, and the
    message. *)
Record PanicInfo := mk_panic_info { location : option (bytes * Z * Z); message : bytes }.

(** The [panic_handler]; [heap] says whether there is a heap to format the line in. *)
Definition panic (heap : bool) (info : PanicInfo) : world -> ending * world := fun w =>
  match location info with
  | Some (file, line, column) =>
      if heap then
        match println (file ++ bytes_of ":" ++ bytes_of (pretty line) ++ bytes_of ":" ++ bytes_of (pretty column) ++
                       bytes_of "   panic: " ++ message info) w with
        | (Ok _, w') => exit (-1) w'
        | (_, w') => (Looping, w')
        end
      else (Looping, w)
  | None => (Looping, w)
  end.

(** The self-relocation: an entry of another type is reported and relocated all the
    same. *)
Definition relocate_self_one (base : Z) (rela : ElfRela) : M unit :=
  (if r_type rela =? REL_RELATIVE then ret tt else print_str (bytes_of "unknown rela type")) ;;
  let! ptr := lift (uadd (r_offset rela) base) in
  let! v := lift (uadd base (r_addend rela)) in
  write_usize ptr v.

(** [rust_main] up to the point where functions can be called: the argument count
    and the auxiliary vector. *)
Definition bootstrap (sp dynv : Z) : M (Z * Z) :=
  let! '(rela, rela_count) := reads (fun m => scan_rela (S (size m)) m dynv None None) in
  let! rela := lift (unwrap rela) in
  let! rela_count := lift (unwrap rela_count) in
  let! argc := reads (fun m => read_u64 m sp) in
  let! n := lift (n ← uadd argc 1; uadd n 1) in
  let env := padd sp (8 * n) in
  let! env_count := reads (fun m => count_env (S (size m)) m env) in
  let auxv := padd env (8 * (env_count + 1)) in
  let! info := reads (fun m => scan_aux (S (size m)) m auxv (mk_aux_info 0 0 0)) in
  let! base := find_base info dynv in
  let! rela_ptr := lift (uadd rela base) in
  let! relas := read_relas (mk_slice rela_ptr rela_count) in
  for_each relas (relocate_self_one base) ;;
  ret (argc, auxv).

(** ** Handing over *)

(** The value an entry of the auxiliary vector gets, if it gets one. *)
Definition new_aux (elf : ElfCommonPart) (interp_dylib : option ElfCommonPart) (argv tag : Z) :
    M (option Z) :=
  let phdrs := core_phdrs (c_core elf) in
  if tag =? AT_PHDR then ret (Some (sl_ptr phdrs))
  else if tag =? AT_PHNUM then ret (Some (sl_len phdrs))
  else if tag =? AT_PHENT then ret (Some PHDR_SIZE)
  else if tag =? AT_ENTRY then let! e := lift (entry elf) in ret (Some e)
  else if tag =? AT_EXECFN then let! v := reads (fun m => read_u64 m (argv + 8)) in ret (Some v)
  else if tag =? AT_BASE then
    let! i := lift (map_opt entry interp_dylib) in
    let! e := lift (entry elf) in
    ret (Some (default e i))
  else ret None.

(** The second [loop] over the vector: the address of its end mark. *)
Fixpoint set_aux (fuel : nat) (elf : ElfCommonPart) (interp_dylib : option ElfCommonPart) (argv p : Z) : M Z :=
  match fuel with
  | O => lift OutOfFuel
  | S fuel' =>
      let! tag := reads (fun m => read_u64 m p) in
      if tag =? AT_NULL then ret p
      else
        let! v := new_aux elf interp_dylib argv tag in
        match v with Some v => write_usize (p + 8) v | None => ret tt end ;;
        set_aux fuel' elf interp_dylib argv (p + AUX_SIZE)
  end.

(** [core::ptr::copy] of [n] words. *)
Definition copy_words (src dst n : Z) : M unit :=
  let! bs := reads (fun m => read_bytes m src (Z.to_nat (8 * n))) in write_bytes dst bs.

Definition hand_over (elf : ElfCommonPart) (interp_dylib : option ElfCommonPart) (sp argc auxv : Z) : M unit :=
  let argv := padd sp 8 in
  let! fuel := (fun w => (Ok (S (size (mem w))), w)) in
  let! end_ := set_aux fuel elf interp_dylib argv auxv in
  let! size := lift (usub (padd end_ AUX_SIZE) argv) in
  copy_words argv sp (size / 8) ;;
  let! n := lift (usub argc 1) in
  write_usize sp n.
End mini.

(** ** The heap

    The two statics, by their addresses, and [LockedHeap::new] of the allocator's crate:
    from the start and the size of the heap the value of the allocator, and the memory
    after what it writes in the heap. *)

Class StaticHeap := {
  ALLOCATOR : Z;
  HEAP_BUF : Z;
  LockedHeap_new : Z -> Z -> memory -> bytes * memory;
}.

Definition HAEP_SIZE : Z := 4096.

(** [ALLOCATOR = LockedHeap::new(addr_of_mut!(HEAP_BUF).cast(), HAEP_SIZE)] *)
Definition init_heap `{StaticHeap} : M unit := fun w =>
  let r := LockedHeap_new HEAP_BUF HAEP_SIZE (mem w) in write_bytes ALLOCATOR r.1 (set_mem r.2 w).

(** The value has a fixed size, and the heap that is handed over is all that is written. *)
Class StaticHeapLaws `(SH : StaticHeap) (size : Z) := {
  heap_value_size : forall p n m, Z.of_nat (length (LockedHeap_new p n m).1) = size;
  heap_writes : forall p n m, mapped_range m p n ->
    same_dom m (LockedHeap_new p n m).2 /\ same_outside m (LockedHeap_new p n m).2 p n;
}.

(** ** The program *)

Section main.
Context `{Config} `{Arch} `{Console} `{StaticHeap} `{Kernel} `{Files} `{ArcAlloc}.

(** [load!(name)], with the system-call interface [mini-loader] is built with. *)
Definition load_path (name : bytes) : M Elf :=
  let! file := SyscallFile.from_path name in
  let! '(elf, _) := @easy_load _ _ Syscall.MmapImpl _ ElfFile SyscallFile.object Loader_new file in
  ret elf.

(** What [trampoline] is called with. *)
Definition rust_main (sp dynv : Z) : M (Z * Z) :=
  let! '(argc, auxv) := bootstrap sp dynv in
  init_heap ;;
  if argc =? 1 then lift Panic
  else
    let argv := padd sp 8 in
    let! name_ptr := reads (fun m => read_u64 m (padd argv 8)) in
    let! elf_name := reads (fun m => s ← cstr_from_ptr m name_ptr; to_str_unwrap s) in
    let! elf := unwrap_result (load_path elf_name) in
    let elf := elf_common elf in
    let! interp_dylib :=
      match interp elf with
      | Some interp_name =>
          let! d := unwrap_result (load_path interp_name) in ret (Some (elf_common d))
      | None => ret None
      end in
    hand_over elf interp_dylib sp argc auxv ;;
    let! e := lift (entry (default elf interp_dylib)) in
    ret (e, sp).
End main.

(** ** Words in memory *)

Definition words_at (m : memory) (p : Z) (ws : list Z) : Prop :=
  forall i x, ws !! i = Some x -> read_u64 m (p + 8 * Z.of_nat i) = Ok x.

Lemma words_at_cons m p x ws : words_at m p (x :: ws) <-> read_u64 m p = Ok x /\ words_at m (p + 8) ws.
Proof.
  split.
  - intros Hw. split; [rewrite <- (Hw 0%nat x eq_refl); f_equal; lia|].
    intros i y Hi. rewrite <- (Hw (S i) y Hi). f_equal. lia.
  - intros [Hx Hw] [|i] y Hi; simpl in Hi.
    + simplify_eq. rewrite <- Hx. f_equal. lia.
    + rewrite <- (Hw i y Hi). f_equal. lia.
Qed.

Lemma words_at_app m p ws1 ws2 :
  words_at m p (ws1 ++ ws2) <-> words_at m p ws1 /\ words_at m (p + 8 * Z.of_nat (length ws1)) ws2.
Proof.
  revert p. induction ws1 as [|x ws1 IH]; intros p; cbn [app length].
  - replace (p + 8 * Z.of_nat 0) with p by lia. split; [intros Hw; split; [intros i y Hi; by rewrite lookup_nil in Hi|done]|].
    by intros [_ Hw].
  - rewrite !words_at_cons, IH. replace (p + 8 + 8 * Z.of_nat (length ws1)) with (p + 8 * Z.of_nat (S (length ws1))) by lia.
    tauto.
Qed.

Lemma read_u64_mapped m p x : read_u64 m p = Ok x -> slot_mapped m p.
Proof.
  unfold read_u64, load_le. intros H. destruct (load_bytes m p 8) as [bs|] eqn:Hb; [|done].
  intros i Hi. replace i with (p + Z.of_nat (Z.to_nat (i - p))) by lia.
  apply (load_bytes_mapped m p 8); [eauto|lia].
Qed.

Lemma words_at_mapped m p ws a :
  words_at m p ws -> p <= a < p + 8 * Z.of_nat (length ws) -> is_Some (m !! a).
Proof.
  revert p. induction ws as [|x ws IH]; intros p Hw Ha; simpl in Ha; [lia|].
  apply words_at_cons in Hw as [Hx Hw]. destruct (decide (a < p + 8)).
  - apply (read_u64_mapped m p x Hx). lia.
  - apply (IH (p + 8)); [done|lia].
Qed.

Lemma words_at_agree m m' p ws :
  (forall a, p <= a < p + 8 * Z.of_nat (length ws) -> m' !! a = m !! a) -> words_at m p ws -> words_at m' p ws.
Proof.
  intros Hag Hw i x Hi. rewrite <- (Hw i x Hi). apply load_le_agree. intros a Ha. apply Hag.
  pose proof (lookup_lt_Some _ _ _ Hi). lia.
Qed.

Lemma words_at_short m p ws : words_at m p ws -> (length ws <= size m)%nat.
Proof.
  intros Hw. apply (stride_walk_bound m p 8); [lia|]. intros i Hi. apply (words_at_mapped m p ws); [done|lia].
Qed.

Lemma words_at_store m p ws i v :
  words_at m p ws -> (i < length ws)%nat -> 0 <= v < U64_LIM ->
  words_at (store_bytes m (p + 8 * Z.of_nat i) (le_split 8 v)) p (<[i := v]> ws).
Proof.
  intros Hw Hi Hv j x Hj. destruct (decide (i = j)) as [<-|Hne].
  - rewrite list_lookup_insert_eq in Hj by done. simplify_eq. by apply load_le_split8.
  - rewrite list_lookup_insert_ne in Hj by done. rewrite <- (Hw j x Hj). apply load_le_agree. intros a Ha.
    apply store_bytes_out. rewrite length_le_split. lia.
Qed.

(** ** The kernel's stack

    The words at [sp]: the arguments, the environment, the auxiliary vector. *)

Definition aux_words (auxs : list Aux) : list Z := mjoin ((fun a => [aux_tag a; aux_val a]) <$> auxs).
Definition stack_words (args envs : list Z) (auxs : list Aux) (v : Z) : list Z :=
  Z.of_nat (length args) :: args ++ 0 :: envs ++ 0 :: aux_words auxs ++ [0; v].

Lemma length_aux_words auxs : length (aux_words auxs) = (2 * length auxs)%nat.
Proof.
  induction auxs as [|a auxs IH]; [done|].
  change (aux_words (a :: auxs)) with (aux_tag a :: aux_val a :: aux_words auxs). cbn [length]. lia.
Qed.

Lemma length_stack_words args envs auxs v :
  length (stack_words args envs auxs v) = (length args + length envs + 2 * length auxs + 5)%nat.
Proof.
  unfold stack_words. cbn [length]. rewrite !length_app. cbn [length]. rewrite !length_app. cbn [length].
  rewrite !length_app, length_aux_words. simpl. lia.
Qed.

Lemma stack_tail args envs l : args ++ 0 :: envs ++ 0 :: l = (args ++ [0] ++ envs ++ [0]) ++ l.
Proof. by rewrite <- !app_assoc. Qed.

Definition auxv_of (sp : Z) (args envs : list Z) : Z := sp + 8 * Z.of_nat (length args + length envs + 3).

(** The parts of the stack. *)
Lemma stack_parts m sp args envs auxs v :
  words_at m sp (stack_words args envs auxs v) ->
  read_u64 m sp = Ok (Z.of_nat (length args)) /\ words_at m (sp + 8) args /\
  words_at m (sp + 8 * Z.of_nat (length args + 2)) (envs ++ [0]) /\
  words_at m (auxv_of sp args envs) (aux_words auxs ++ [0; v]).
Proof.
  unfold stack_words, auxv_of. intros Hw. apply words_at_cons in Hw as [Hc Hw].
  apply words_at_app in Hw as [Ha Hw]. apply words_at_cons in Hw as [_ Hw].
  change (0 :: aux_words auxs ++ [0; v]) with ([0] ++ (aux_words auxs ++ [0; v])) in Hw.
  rewrite app_assoc in Hw. apply words_at_app in Hw as [He Hx].
  split; [done|]. split; [done|]. split.
  - replace (sp + 8 * Z.of_nat (length args + 2)) with (sp + 8 + 8 * Z.of_nat (length args) + 8) by lia. done.
  - rewrite length_app in Hx. simpl in Hx.
    replace (sp + 8 * Z.of_nat (length args + length envs + 3))
      with (sp + 8 + 8 * Z.of_nat (length args) + 8 + 8 * Z.of_nat (length envs + 1)) by lia. done.
Qed.

Lemma count_env_words m envs : forall fuel p,
  words_at m p (envs ++ [0]) -> Forall (fun e => e <> 0) envs -> (length envs < fuel)%nat ->
  count_env fuel m p = Ok (Z.of_nat (length envs)).
Proof.
  induction envs as [|e envs IH]; intros [|fuel] p Hw Hne Hf; simpl in Hf; try lia;
    cbn [app] in Hw; apply words_at_cons in Hw as [He Hw]; cbn [count_env]; rewrite He, bind_Ok; [done|].
  apply Forall_cons in Hne as [Hz Hne]. rewrite (proj2 (Z.eqb_neq _ _) Hz).
  rewrite (IH fuel (p + 8) Hw Hne) by lia. simpl. f_equal. lia.
Qed.

Lemma scan_aux_words m auxs v : forall fuel p i,
  words_at m p (aux_words auxs ++ [0; v]) -> Forall (fun a => aux_tag a <> 0) auxs -> (length auxs < fuel)%nat ->
  scan_aux fuel m p i = Ok (fold_left aux_step auxs i).
Proof.
  induction auxs as [|a auxs IH]; intros [|fuel] p i Hw Hne Hf; simpl in Hf; try lia;
    cbn [aux_words] in Hw; cbn [scan_aux]; unfold read_aux.
  - cbn in Hw. apply words_at_cons in Hw as [Ht Hw]. apply words_at_cons in Hw as [Hv _].
    rewrite Ht, bind_Ok, Hv. done.
  - change (aux_words (a :: auxs)) with (aux_tag a :: aux_val a :: aux_words auxs) in Hw. cbn [app] in Hw.
    apply words_at_cons in Hw as [Ht Hw]. apply words_at_cons in Hw as [Hv Hw].
    rewrite Ht, bind_Ok, Hv. cbn. apply Forall_cons in Hne as [Hz Hne].
    unfold AT_NULL. rewrite (proj2 (Z.eqb_neq _ _) Hz). destruct a as [t x].
    unfold AUX_SIZE. replace (p + 16) with (p + 8 + 8) by lia. apply IH; [done|done|lia].
Qed.

Lemma scan_rela_array m ds : forall fuel p done,
  dyn_array m p ds -> (length ds < fuel)%nat ->
  scan_rela fuel m p (last_val DT_RELA done) (last_val DT_RELACOUNT done) =
    Ok (last_val DT_RELA (done ++ ds), last_val DT_RELACOUNT (done ++ ds)).
Proof.
  induction ds as [|d ds IH]; intros [|fuel] p dn Hds Hf; cbn [dyn_array length scan_rela] in *; try lia.
  - destruct Hds as (d & -> & Ht). rewrite bind_Ok, Ht, app_nil_r. done.
  - destruct Hds as (-> & Ht & Hds). rewrite bind_Ok, (proj2 (Z.eqb_neq _ _) Ht).
    pose proof (IH fuel (p + DYN_SIZE) (dn ++ [d]) Hds ltac:(lia)) as IH'.
    rewrite !last_val_snoc, <- app_assoc in IH'. cbn [app] in IH'. rewrite <- IH'.
    destruct (Z.eqb_spec (d_tag d) DT_RELA) as [->|]; [done|]. by destruct (d_tag d =? DT_RELACOUNT).
Qed.

(** ** Starting up *)

Section start.
Context `{Config} `{Arch} `{Console}.

(** The load base: what the kernel says or, if it says nothing, the distance of
    the dynamic section from its link address. *)
Inductive load_base (m : memory) (dynv : Z) (i : aux_info) : Z -> Prop :=
  | base_given : ai_base i <> 0 -> load_base m dynv i (ai_base i)
  | base_computed ps k p :
      ai_base i = 0 -> read_array read_phdr_at PHDR_SIZE m (ai_ph i) (Z.to_nat (ai_phnum i)) = Ok ps ->
      ps !! k = Some p -> p_type p = PT_DYNAMIC ->
      (forall j q, (j < k)%nat -> ps !! j = Some q -> p_type q <> PT_DYNAMIC) ->
      0 <= dynv - p_vaddr p < U64_LIM ->
      load_base m dynv i (dynv - p_vaddr p).

Lemma dynamic_base_first m dynv n : forall ptr ps k p,
  read_array read_phdr_at PHDR_SIZE m ptr n = Ok ps -> ps !! k = Some p -> p_type p = PT_DYNAMIC ->
  (forall j q, (j < k)%nat -> ps !! j = Some q -> p_type q <> PT_DYNAMIC) ->
  0 <= dynv - p_vaddr p < U64_LIM ->
  dynamic_base n m ptr dynv = Ok (dynv - p_vaddr p).
Proof.
  induction n as [|n IH]; intros ptr ps k p Hr Hk Ht Hmin Hv; cbn [read_array] in Hr.
  { injection Hr as <-. by rewrite lookup_nil in Hk. }
  inv_bind Hr. inv_bind Hr. injection Hr as <-. cbn [dynamic_base]. rewrite Ha, bind_Ok.
  destruct k as [|k]; simpl in Hk.
  - simplify_eq. rewrite Ht, Z.eqb_refl. by apply usub_ok.
  - rewrite (proj2 (Z.eqb_neq _ _)) by (apply (Hmin 0%nat); [lia|done]).
    eapply IH; [done|done|done| |done]. intros j q Hj Hq. apply (Hmin (S j)); [lia|done].
Qed.

Lemma find_base_run dynv i base w : load_base (mem w) dynv i base -> find_base i dynv w = (Ok base, w).
Proof.
  unfold find_base. intros [Hne|ps j p Hz Hps Hj Ht Hmin Hv].
  - by rewrite (proj2 (Z.eqb_neq _ _) Hne).
  - rewrite Hz, Z.eqb_refl. unfold reads. by rewrite (dynamic_base_first _ dynv _ _ ps j p).
Qed.

Lemma relocate_self_one_run base rela w :
  r_type rela = REL_RELATIVE -> 0 <= slot base rela < U64_LIM -> 0 <= base + r_addend rela < U64_LIM ->
  slot_mapped (mem w) (slot base rela) ->
  relocate_self_one base rela w =
    (Ok tt, set_mem (store_bytes (mem w) (slot base rela) (le_split 8 (base + r_addend rela))) w).
Proof.
  intros Ht Hs Hv Hm. unfold relocate_self_one, bind, lift. rewrite Ht, Z.eqb_refl. unfold ret, slot in *.
  rewrite (Z.add_comm base (r_offset rela)) in *. rewrite uadd_ok by done.
  rewrite uadd_ok by done. by apply write_usize_run.
Qed.

(** The run of the start-up. *)
Lemma bootstrap_run (sp dynv : Z) (args envs : list Z) (auxs : list Aux) (v : Z) (ds : list Dyn)
    (rela n base : Z) (relas : list ElfRela) (w : world) :
  words_at (mem w) sp (stack_words args envs auxs v) ->
  0 <= sp -> sp + 8 * Z.of_nat (length (stack_words args envs auxs v)) < U64_LIM ->
  Forall (fun e => e <> 0) envs -> Forall (fun a => aux_tag a <> 0) auxs ->
  dyn_array (mem w) dynv ds -> last_val DT_RELA ds = Some rela -> last_val DT_RELACOUNT ds = Some n ->
  load_base (mem w) dynv (fold_left aux_step auxs (mk_aux_info 0 0 0)) base -> 0 <= rela + base < U64_LIM ->
  read_slice read_rela RELA_SIZE (mem w) (mk_slice (rela + base) n) = Ok relas ->
  Forall (fun r => r_type r = REL_RELATIVE /\ 0 <= slot base r < U64_LIM /\
                   0 <= base + r_addend r < U64_LIM /\ slot_mapped (mem w) (slot base r)) relas ->
  slots_apart ((fun r => word (slot base r) (base + r_addend r)) <$> relas) ->
  exists m', bootstrap sp dynv w = (Ok (Z.of_nat (length args), auxv_of sp args envs), set_mem m' w) /\
    (forall r, r ∈ relas -> read_u64 m' (slot base r) = Ok (base + r_addend r)) /\
    (forall a, (forall r, r ∈ relas -> ~ (slot base r <= a < slot base r + 8)) -> m' !! a = mem w !! a).
Proof.
  intros Hw Hsp Hend Henv Haux Hds Hrela Hn Hbase Hrb Hrelas Hall Hap.
  pose proof (words_at_short _ _ _ Hw) as Hshort. rewrite length_stack_words in Hend, Hshort.
  pose proof (stack_parts _ _ _ _ _ _ Hw) as (Hargc & _ & Henvw & Hauxw). rewrite Forall_forall in Hall.
  set (g := fun r => word (slot base r) (base + r_addend r)) in *.
  assert (Hrun : for_each relas (relocate_self_one base) w =
            (Ok tt, set_mem (apply_writes (mem w) (omap (fun x => Some (g x)) relas)) w)).
  { apply for_each_writes.
    - apply words_mapped. intros x Hx. by apply Hall.
    - intros pre x post m' w1 Hl _ [Hd _] <-.
      destruct (Hall x ltac:(rewrite Hl; apply elem_of_app; right; by left)) as (Ht & Hs & Hv & Hm).
      rewrite relocate_self_one_run; [done..|]. intros i Hi. apply Hd, Hm. exact Hi. }
  exists (apply_writes (mem w) (omap (fun x => Some (g x)) relas)). split.
  - unfold bootstrap, bind, reads, lift. pose proof (dyn_array_short _ _ _ Hds).
    pose proof (scan_rela_array _ ds (S (size (mem w))) dynv [] Hds ltac:(lia)) as Hscan.
    change (last_val DT_RELA []) with (@None Z) in Hscan. change (last_val DT_RELACOUNT []) with (@None Z) in Hscan.
    rewrite Hscan. cbn [app]. rewrite Hrela, Hn. cbn [unwrap]. rewrite Hargc.
    rewrite (uadd_ok (Z.of_nat (length args))), bind_Ok, uadd_ok by lia. rewrite padd_small by lia.
    replace (sp + 8 * (Z.of_nat (length args) + 1 + 1)) with (sp + 8 * Z.of_nat (length args + 2)) by lia.
    rewrite (count_env_words _ envs _ _ Henvw Henv) by lia. rewrite padd_small by lia.
    replace (sp + 8 * Z.of_nat (length args + 2) + 8 * (Z.of_nat (length envs) + 1)) with (auxv_of sp args envs)
      by (unfold auxv_of; lia).
    rewrite (scan_aux_words _ auxs v _ _ _ Hauxw Haux) by lia.
    rewrite (find_base_run _ _ _ _ Hbase). rewrite uadd_ok by done. unfold read_relas, reads. rewrite Hrelas, Hrun. done.
  - apply (words_written (slot base) (fun r => base + r_addend r)); [done|]. intros x Hx. by apply Hall.
Qed.

(** C9: before any function may be called the mini-loader has relocated itself.  When its
    table, the first DT_RELACOUNT entries of DT_RELA, has relative entries only, then
    whatever arguments, environment and auxiliary vector the kernel left, it finds its
    load base and the table, every slot holds base + addend, nothing else has changed,
    and it knows the argument count and where the auxiliary vector is. *)
Theorem bootstrap_relocates (sp dynv : Z) (args envs : list Z) (auxs : list Aux) (v : Z) (ds : list Dyn)
    (rela n base : Z) (relas : list ElfRela) (w : world) :
  words_at (mem w) sp (stack_words args envs auxs v) ->
  0 <= sp -> sp + 8 * Z.of_nat (length (stack_words args envs auxs v)) < U64_LIM ->
  Forall (fun e => e <> 0) envs -> Forall (fun a => aux_tag a <> 0) auxs ->
  dyn_array (mem w) dynv ds -> last_val DT_RELA ds = Some rela -> last_val DT_RELACOUNT ds = Some n ->
  load_base (mem w) dynv (fold_left aux_step auxs (mk_aux_info 0 0 0)) base -> 0 <= rela + base < U64_LIM ->
  read_slice read_rela RELA_SIZE (mem w) (mk_slice (rela + base) n) = Ok relas ->
  Forall (fun r => r_type r = REL_RELATIVE /\ 0 <= slot base r < U64_LIM /\
                   0 <= base + r_addend r < U64_LIM /\ slot_mapped (mem w) (slot base r)) relas ->
  slots_apart ((fun r => word (slot base r) (base + r_addend r)) <$> relas) ->
  exists m', bootstrap sp dynv w = (Ok (Z.of_nat (length args), auxv_of sp args envs), set_mem m' w) /\
    (forall r, r ∈ relas -> read_u64 m' (slot base r) = Ok (base + r_addend r)) /\
    (forall a, (forall r, r ∈ relas -> ~ (slot base r <= a < slot base r + 8)) -> m' !! a = mem w !! a).
Proof. apply bootstrap_run. Qed.

Lemma run_no_fuel {A B} (c : M A) (f : A -> M B) w :
  (c w).1 <> OutOfFuel -> (forall a w', (f a w').1 <> OutOfFuel) -> (bind c f w).1 <> OutOfFuel.
Proof. intros Hc Hf. unfold bind. destruct (c w) as [[a| | | |] w']; simpl in *; done. Qed.

(** A walk over mapped words ends: the general form of the scans below. *)
Lemma read_u64_is_Some m p v : read_u64 m p = Ok v -> is_Some (m !! p).
Proof. intros Hv. apply (read_u64_mapped m p v Hv). lia. Qed.

Lemma scan_rela_no_fuel m p n :
  (forall i, (i < n)%nat -> is_Some (m !! (p + DYN_SIZE * Z.of_nat i))) ->
  forall fuel a b, (size m < n + fuel)%nat -> scan_rela fuel m (p + DYN_SIZE * Z.of_nat n) a b <> OutOfFuel.
Proof.
  intros Hall fuel. revert n Hall. induction fuel as [|fuel IH]; intros n Hall a b Hf.
  { pose proof (stride_walk_bound m p DYN_SIZE n ltac:(done) Hall). lia. }
  cbn [scan_rela]. destruct (read_dyn m (p + DYN_SIZE * Z.of_nat n)) as [d| | | |] eqn:Hd; try done.
  - rewrite bind_Ok. case_match; [done|].
    assert (Hnext : forall x y, scan_rela fuel m (p + DYN_SIZE * Z.of_nat n + DYN_SIZE) x y <> OutOfFuel).
    { intros x y. replace (p + DYN_SIZE * Z.of_nat n + DYN_SIZE) with (p + DYN_SIZE * Z.of_nat (S n)) by lia.
      apply IH; [|lia]. intros i Hi. destruct (decide (i = n)) as [->|]; [|apply Hall; lia].
      by eapply read_dyn_mapped. }
    repeat case_match; apply Hnext.
  - exfalso. revert Hd. unfold read_dyn. repeat (apply bind_no_fuel; [apply load_le_no_fuel|intros ?]). done.
Qed.

Lemma count_env_no_fuel m p n :
  (forall i, (i < n)%nat -> is_Some (m !! (p + 8 * Z.of_nat i))) ->
  forall fuel, (size m < n + fuel)%nat -> count_env fuel m (p + 8 * Z.of_nat n) <> OutOfFuel.
Proof.
  intros Hall fuel. revert n Hall. induction fuel as [|fuel IH]; intros n Hall Hf.
  { pose proof (stride_walk_bound m p 8 n ltac:(done) Hall). lia. }
  cbn [count_env]. destruct (read_u64 m (p + 8 * Z.of_nat n)) as [v| | | |] eqn:Hv; try done;
    [|by apply load_le_no_fuel in Hv].
  rewrite bind_Ok. case_match; [done|]. apply bind_no_fuel; [|done].
  replace (p + 8 * Z.of_nat n + 8) with (p + 8 * Z.of_nat (S n)) by lia. apply IH; [|lia].
  intros i Hi. destruct (decide (i = n)) as [->|]; [|apply Hall; lia]. by eapply read_u64_is_Some.
Qed.

Lemma scan_aux_no_fuel m p n :
  (forall i, (i < n)%nat -> is_Some (m !! (p + AUX_SIZE * Z.of_nat i))) ->
  forall fuel i, (size m < n + fuel)%nat -> scan_aux fuel m (p + AUX_SIZE * Z.of_nat n) i <> OutOfFuel.
Proof.
  intros Hall fuel. revert n Hall. induction fuel as [|fuel IH]; intros n Hall info Hf.
  { pose proof (stride_walk_bound m p AUX_SIZE n ltac:(done) Hall). lia. }
  cbn [scan_aux]. unfold read_aux.
  destruct (read_u64 m (p + AUX_SIZE * Z.of_nat n)) as [t| | | |] eqn:Ht; try done; [|by apply load_le_no_fuel in Ht].
  rewrite bind_Ok. destruct (read_u64 m (p + AUX_SIZE * Z.of_nat n + 8)) as [v| | | |] eqn:Hv; try done;
    [|by apply load_le_no_fuel in Hv].
  cbn. case_match; [done|].
  replace (p + AUX_SIZE * Z.of_nat n + AUX_SIZE) with (p + AUX_SIZE * Z.of_nat (S n)) by lia. apply IH; [|lia].
  intros i Hi. destruct (decide (i = n)) as [->|]; [|apply Hall; lia]. by eapply read_u64_is_Some.
Qed.

Lemma dynamic_base_no_fuel n m p dynv : dynamic_base n m p dynv <> OutOfFuel.
Proof.
  revert p. induction n as [|n IH]; intros p; [done|]. cbn [dynamic_base]. apply bind_no_fuel.
  - unfold read_phdr_at. repeat (apply bind_no_fuel; [apply load_le_no_fuel|intros ?]). done.
  - intros q. case_match; [apply checked_no_fuel|apply IH].
Qed.

Lemma read_relas_no_fuel s w : (read_relas s w).1 <> OutOfFuel.
Proof.
  unfold read_relas, reads, read_slice. cbn [fst]. generalize (sl_ptr s). generalize (Z.to_nat (sl_len s)).
  intros n. induction n as [|n IH]; intros p; [done|]. cbn [read_array].
  apply bind_no_fuel; [|intros; apply bind_no_fuel; [apply IH|done]].
  unfold read_rela. repeat (apply bind_no_fuel; [apply load_le_no_fuel|intros ?]). done.
Qed.

Lemma write_usize_no_fuel a v w : (write_usize a v w).1 <> OutOfFuel.
Proof. unfold write_usize, write_bytes. by case_match. Qed.

(** The start-up ends on every stack: its scans run off the mapped memory if there
    is no end mark. *)
Theorem bootstrap_terminates (sp dynv : Z) (w : world) : (bootstrap sp dynv w).1 <> OutOfFuel.
Proof.
  assert (Hlift : forall (A : Type) (o : outcome A) w, o <> OutOfFuel -> (lift o w).1 <> OutOfFuel) by done.
  unfold bootstrap. apply run_no_fuel.
  { cbn [reads fst]. pose proof (scan_rela_no_fuel (mem w) dynv 0 ltac:(lia) (S (size (mem w))) None None ltac:(lia)) as Hs.
    by rewrite Z.mul_0_r, Z.add_0_r in Hs. }
  intros [rela n] w1. apply run_no_fuel; [by destruct rela|intros r w2]. apply run_no_fuel; [by destruct n|intros k w3].
  apply run_no_fuel; [apply load_le_no_fuel|intros argc w4].
  apply run_no_fuel; [apply bind_no_fuel; [apply checked_no_fuel|intros; apply checked_no_fuel]|intros o w5].
  apply run_no_fuel; [|intros ec w6].
  { cbn [reads fst]. pose proof (count_env_no_fuel (mem w5) (padd sp (8 * o)) 0 ltac:(lia) (S (size (mem w5))) ltac:(lia)) as Hs.
    by rewrite Z.mul_0_r, Z.add_0_r in Hs. }
  apply run_no_fuel; [|intros info w7].
  { cbn [reads fst]. pose proof (scan_aux_no_fuel (mem w6) (padd (padd sp (8 * o)) (8 * (ec + 1))) 0 ltac:(lia)
      (S (size (mem w6))) (mk_aux_info 0 0 0) ltac:(lia)) as Hs. by rewrite Z.mul_0_r, Z.add_0_r in Hs. }
  apply run_no_fuel; [unfold find_base; case_match; [apply dynamic_base_no_fuel|done]|intros base w8].
  apply run_no_fuel; [apply checked_no_fuel|intros rp w9]. apply run_no_fuel; [apply read_relas_no_fuel|intros relas w10].
  apply run_no_fuel; [|done]. clear. revert w10. induction relas as [|x relas IH]; intros w; [done|]. cbn [for_each].
  apply run_no_fuel; [|intros [] w'; apply IH]. unfold relocate_self_one.
  apply run_no_fuel; [case_match; [done|]; unfold print_str; cbn [fst]; by case_match|intros [] w1].
  apply run_no_fuel; [apply checked_no_fuel|intros p w2]. apply run_no_fuel; [apply checked_no_fuel|intros v w3].
  apply write_usize_no_fuel.
Qed.

(** A panic is reported on the standard output, and the process ends with status -1;
    without a heap, or an output, there is no end. *)
Theorem panic_reports (info : PanicInfo) (file : bytes) (line column : Z) (w : world) :
  location info = Some (file, line, column) ->
  let text := file ++ bytes_of ":" ++ bytes_of (pretty line) ++ bytes_of ":" ++ bytes_of (pretty column) ++
              bytes_of "   panic: " ++ message info ++ [10] in
  panic true info w =
    ((if sys_write w text <? 0 then Looping else Exited (-1)), push_event (EvWrite 1 text (sys_write w text)) w) /\
  panic false info w = (Looping, w).
Proof.
  intros Hl. unfold panic. rewrite Hl. split; [|done]. unfold println, print, print_str. rewrite <- !app_assoc.
  by destruct (sys_write _ _ <? 0).
Qed.
End start.

(** ** Handing over *)

Section hand_over.
Context `{Config}.

(** The vector the program sees, as the code makes it: [base_], what [AT_BASE] gets, is an
    entry point. *)
Definition rewrite_aux (phdrs : slice) (entry_ execfn base_ : Z) (a : Aux) : Aux :=
  if aux_tag a =? AT_PHDR then mk_aux AT_PHDR (sl_ptr phdrs)
  else if aux_tag a =? AT_PHNUM then mk_aux AT_PHNUM (sl_len phdrs)
  else if aux_tag a =? AT_PHENT then mk_aux AT_PHENT PHDR_SIZE
  else if aux_tag a =? AT_ENTRY then mk_aux AT_ENTRY entry_
  else if aux_tag a =? AT_EXECFN then mk_aux AT_EXECFN execfn
  else if aux_tag a =? AT_BASE then mk_aux AT_BASE base_
  else a.

Context (elf : ElfCommonPart) (interp_dylib : option ElfCommonPart) (entry_ execfn : Z) (ib : option Z).
Context (Hentry : entry elf = Ok entry_) (Hinterp : map_opt entry interp_dylib = Ok ib).

Definition new_of (a : Aux) : Aux := rewrite_aux (core_phdrs (c_core elf)) entry_ execfn (default entry_ ib) a.

(** Everything that is stored is a machine word. *)
Definition words_ok : Prop :=
  0 <= sl_ptr (core_phdrs (c_core elf)) < U64_LIM /\ 0 <= sl_len (core_phdrs (c_core elf)) < U64_LIM /\
  0 <= entry_ < U64_LIM /\ 0 <= execfn < U64_LIM /\ 0 <= default entry_ ib < U64_LIM.

Lemma new_aux_run argv a w :
  read_u64 (mem w) (argv + 8) = Ok execfn ->
  (exists v, new_aux elf interp_dylib argv (aux_tag a) w = (Ok (Some v), w) /\
     new_of a = mk_aux (aux_tag a) v /\ (words_ok -> 0 <= v < U64_LIM)) \/
  (new_aux elf interp_dylib argv (aux_tag a) w = (Ok None, w) /\ new_of a = a).
Proof.
  intros Hx. unfold new_aux, new_of, rewrite_aux, words_ok, bind, lift, reads, ret.
  repeat match goal with |- context [?t =? ?c] => destruct (Z.eqb_spec t c) as [->|] end;
    rewrite ?Hentry, ?Hx, ?Hinterp; try (left; eexists; split; [done|]; split; [done|]; unfold PHDR_SIZE; lia).
  by right.
Qed.

Lemma set_aux_words argv v : words_ok -> forall auxs fuel p w,
  words_at (mem w) p (aux_words auxs ++ [0; v]) -> Forall (fun a => aux_tag a <> 0) auxs ->
  read_u64 (mem w) (argv + 8) = Ok execfn -> argv + 16 <= p -> (length auxs < fuel)%nat ->
  exists m', set_aux fuel elf interp_dylib argv p w = (Ok (p + 16 * Z.of_nat (length auxs)), set_mem m' w) /\
    words_at m' p (aux_words (new_of <$> auxs) ++ [0; v]) /\
    (forall a, ~ (p <= a < p + 16 * Z.of_nat (length auxs)) -> m' !! a = mem w !! a).
Proof.
  intros Hok. induction auxs as [|a auxs IH]; intros [|fuel] p w Hw Hne Hx Hp Hf; simpl in Hf; try lia.
  - cbn in Hw. pose proof Hw as Hw'. apply words_at_cons in Hw as [Ht _]. exists (mem w). split_and!; [|exact Hw'|done].
    cbn [set_aux length]. unfold bind, reads. rewrite Ht. cbn. rewrite Z.add_0_r. by destruct w.
  - change (aux_words (a :: auxs)) with (aux_tag a :: aux_val a :: aux_words auxs) in Hw. cbn [app] in Hw.
    pose proof Hw as Hall. apply words_at_cons in Hw as [Ht Hw]. apply words_at_cons in Hw as [Hv Hw].
    apply Forall_cons in Hne as [Hz Hne].
    (* the entry's own step *)
    assert (Hone : exists m1, (let! nv := new_aux elf interp_dylib argv (aux_tag a) in
              match nv with Some nv => write_usize (p + 8) nv | None => ret tt end) w = (Ok tt, set_mem m1 w) /\
              words_at m1 p (aux_tag (new_of a) :: aux_val (new_of a) :: aux_words auxs ++ [0; v]) /\
              (forall x, ~ (p + 8 <= x < p + 16) -> m1 !! x = mem w !! x)).
    { destruct (new_aux_run argv a w Hx) as [(nv & Hrun & -> & Hr)|[Hrun ->]]; unfold bind; rewrite Hrun.
      - exists (store_bytes (mem w) (p + 8) (le_split 8 nv)).
        rewrite write_usize_run by (by eapply read_u64_mapped). split; [done|]. split.
        + replace (p + 8) with (p + 8 * Z.of_nat 1) by lia.
          apply (words_at_store _ _ _ 1 nv) in Hall; [exact Hall|simpl; lia|auto].
        + intros x Hxx. apply store_bytes_out. rewrite length_le_split. lia.
      - exists (mem w). unfold ret. split; [by destruct w|]. by split. }
    destruct Hone as (m1 & Hrun1 & Hw1 & Hout1).
    apply words_at_cons in Hw1 as [Ht1 Hw1]. apply words_at_cons in Hw1 as [Hv1 Hw1].
    destruct (IH fuel (p + 8 + 8) (set_mem m1 w)) as (m' & Hrun & Hwords & Hout); [done|done| |lia|lia|].
    { cbn [set_mem mem]. rewrite <- Hx. apply load_le_agree. intros i Hi. apply Hout1. lia. }
    exists m'. cbn [set_mem mem] in Hout. split_and!.
    + cbn [set_aux]. unfold bind at 1, reads. rewrite Ht. unfold AT_NULL. rewrite (proj2 (Z.eqb_neq _ _) Hz).
      unfold AUX_SIZE. replace (p + 16) with (p + 8 + 8) by lia.
      unfold bind in Hrun1 |- *. destruct (new_aux elf interp_dylib argv (aux_tag a) w) as [[nv| | | |] w1]; try done.
      rewrite Hrun1, Hrun. cbn [length]. do 2 f_equal. lia.
    + cbn [fmap list_fmap]. 
      change (aux_words (new_of a :: (new_of <$> auxs)))
        with (aux_tag (new_of a) :: aux_val (new_of a) :: aux_words (new_of <$> auxs)). cbn [app].
      apply words_at_cons. split; [rewrite <- Ht1; apply load_le_agree; intros i Hi; apply Hout; lia|].
      apply words_at_cons. split; [rewrite <- Hv1; apply load_le_agree; intros i Hi; apply Hout; lia|done].
    + intros x Hxx. cbn [length] in Hxx. rewrite Hout by lia. apply Hout1. lia.
Qed.

Lemma copy_words_run src dst ws w :
  words_at (mem w) src ws -> (forall a, dst <= a < dst + 8 * Z.of_nat (length ws) -> is_Some (mem w !! a)) ->
  exists m', copy_words src dst (Z.of_nat (length ws)) w = (Ok tt, set_mem m' w) /\ words_at m' dst ws /\
    (forall a, ~ (dst <= a < dst + 8 * Z.of_nat (length ws)) -> m' !! a = mem w !! a).
Proof.
  intros Hw Hm. set (n := Z.to_nat (8 * Z.of_nat (length ws))).
  assert (exists bs, load_bytes (mem w) src n = Some bs) as [bs Hbs].
  { apply (proj2 (load_bytes_mapped (mem w) src n)). intros i Hi. apply (words_at_mapped _ src ws); [done|lia]. }
  pose proof (load_bytes_length _ _ _ _ Hbs) as Hlen. apply load_bytes_lookup in Hbs as Hlk. destruct Hlk as [_ Hlk].
  exists (store_bytes (mem w) dst bs). unfold copy_words, bind, reads, read_bytes. fold n. rewrite Hbs.
  cbn [unwrap_unchecked]. rewrite write_bytes_run by (intros i Hi; apply Hm; lia). split; [done|]. split.
  - intros i x Hi. rewrite <- (Hw i x Hi). pose proof (lookup_lt_Some _ _ _ Hi) as Hl.
    apply (load_le_shift _ _ dst src 0 (8 * Z.of_nat (length ws))); [|lia|lia].
    intros j Hj. rewrite store_bytes_lookup, decide_True by lia.
    replace (src + j) with (src + Z.of_nat (Z.to_nat j)) by lia. rewrite Hlk by lia. f_equal. lia.
  - intros a Ha. apply store_bytes_out. lia.
Qed.

(** The stack the program gets, from its first argument on. *)
Definition program_words (args envs : list Z) (auxs : list Aux) (v : Z) : list Z :=
  execfn :: args ++ 0 :: envs ++ 0 :: aux_words (new_of <$> auxs) ++ [0; v].

Lemma length_program_words args envs auxs v :
  length (program_words args envs auxs v) = (length args + length envs + 2 * length auxs + 5)%nat.
Proof.
  pose proof (length_stack_words (execfn :: args) envs (new_of <$> auxs) v) as Hl. unfold stack_words in Hl.
  cbn [length app] in Hl. rewrite length_fmap in Hl. unfold program_words. cbn [length]. lia.
Qed.

(** Rewriting the vector in place leaves the rest of the stack as it was. *)
Lemma set_aux_stack sp a0 args envs auxs v w :
  let args1 := a0 :: execfn :: args in
  words_ok -> words_at (mem w) sp (stack_words args1 envs auxs v) -> Forall (fun a => aux_tag a <> 0) auxs ->
  exists m1,
    set_aux (S (size (mem w))) elf interp_dylib (sp + 8) (auxv_of sp args1 envs) w =
      (Ok (auxv_of sp args1 envs + 16 * Z.of_nat (length auxs)), set_mem m1 w) /\
    words_at m1 (sp + 8) (a0 :: program_words args envs auxs v) /\
    (forall a, ~ (auxv_of sp args1 envs <= a < auxv_of sp args1 envs + 16 * Z.of_nat (length auxs)) ->
       m1 !! a = mem w !! a).
Proof.
  intros args1 Hok Hw Hne. pose proof (words_at_short _ _ _ Hw) as Hshort. rewrite length_stack_words in Hshort.
  pose proof (stack_parts _ _ _ _ _ _ Hw) as (_ & Hargs & _ & Hauxw).
  assert (Hx : read_u64 (mem w) (sp + 8 + 8) = Ok execfn).
  { apply words_at_cons in Hargs as [_ Hargs]. by apply words_at_cons in Hargs as [Hx _]. }
  destruct (set_aux_words (sp + 8) v Hok auxs (S (size (mem w))) (auxv_of sp args1 envs) w Hauxw Hne Hx)
    as (m1 & Hrun1 & Hw1 & Hout1); [unfold auxv_of, args1; simpl; lia|lia|].
  exists m1. split; [done|]. split; [|done].
  change (a0 :: program_words args envs auxs v)
    with (args1 ++ 0 :: envs ++ 0 :: aux_words (new_of <$> auxs) ++ [0; v]).
  unfold stack_words in Hw. rewrite stack_tail in Hw |- *. apply words_at_cons in Hw as [_ Hw].
  apply words_at_app in Hw as [Hw _].
  assert (Hend : sp + 8 + 8 * Z.of_nat (length (args1 ++ [0] ++ envs ++ [0])) = auxv_of sp args1 envs).
  { rewrite !length_app. unfold auxv_of. simpl. lia. }
  apply words_at_app. rewrite Hend. split; [|done]. apply (words_at_agree (mem w)); [|done].
  intros a Ha. apply Hout1. lia.
Qed.

(** The run of the hand-over. *)
Lemma hand_over_run (sp a0 : Z) (args envs : list Z) (auxs : list Aux) (v : Z) (w : world) :
  words_ok ->
  words_at (mem w) sp (stack_words (a0 :: execfn :: args) envs auxs v) ->
  0 <= sp -> sp + 8 * Z.of_nat (length (stack_words (a0 :: execfn :: args) envs auxs v)) < U64_LIM ->
  Forall (fun a => aux_tag a <> 0) auxs ->
  exists m',
    hand_over elf interp_dylib sp (Z.of_nat (length (a0 :: execfn :: args))) (auxv_of sp (a0 :: execfn :: args) envs) w =
      (Ok tt, set_mem m' w) /\
    words_at m' sp (stack_words (execfn :: args) envs (new_of <$> auxs) v) /\
    (forall a, ~ (sp <= a < sp + 8 * Z.of_nat (length (stack_words (a0 :: execfn :: args) envs auxs v))) ->
       m' !! a = mem w !! a).
Proof.
  intros Hok Hw Hsp Hend Hne. destruct (set_aux_stack sp a0 args envs auxs v w Hok Hw Hne) as (m1 & Hrun1 & Hw1 & Hout1).
  pose proof (length_program_words args envs auxs v) as Hlen. rewrite length_stack_words in *.
  set (args1 := a0 :: execfn :: args) in *. set (tl := program_words args envs auxs v) in *.
  assert (Hl1 : length args1 = S (S (length args))) by done.
  destruct (copy_words_run (sp + 8) sp (a0 :: tl) (set_mem m1 w) Hw1) as (m2 & Hrun2 & Hw2 & Hout2).
  { cbn [set_mem mem]. intros a Ha. destruct (decide (a < sp + 8)).
    - rewrite Hout1 by (unfold auxv_of; lia). apply words_at_cons in Hw as [Hw _].
      apply (read_u64_mapped _ _ _ Hw). lia.
    - apply (words_at_mapped m1 (sp + 8) (a0 :: tl)); [done|]. lia. }
  cbn [set_mem mem length] in Hout2. assert (Hnew : 0 <= Z.of_nat (length (execfn :: args)) < U64_LIM) by (simpl; lia).
  exists (store_bytes m2 sp (le_split 8 (Z.of_nat (length (execfn :: args))))). split_and!.
  - unfold hand_over. rewrite padd_small by lia. unfold bind at 1 2. rewrite Hrun1. unfold bind at 1, lift at 1.
    rewrite padd_small by (unfold auxv_of, AUX_SIZE; lia). rewrite usub_ok by (unfold auxv_of, AUX_SIZE; lia).
    assert ((auxv_of sp args1 envs + 16 * Z.of_nat (length auxs) + AUX_SIZE - (sp + 8)) / 8 =
            Z.of_nat (length (a0 :: tl))) as ->.
    { cbn [length]. rewrite Hlen. unfold auxv_of, AUX_SIZE. symmetry. apply Z.div_unique_exact; lia. }
    unfold bind at 1. rewrite Hrun2. unfold bind, lift. rewrite usub_ok by lia.
    replace (Z.of_nat (length args1) - 1) with (Z.of_nat (length (execfn :: args))) by (simpl; lia).
    rewrite write_usize_run; [done|]. cbn [set_mem mem]. intros i Hi. apply (words_at_mapped m2 sp (a0 :: tl)); [done|].
    cbn [length]. lia.
  - apply (words_at_store m2 sp (a0 :: tl) 0 _ Hw2) in Hnew; [|simpl; lia].
    replace (sp + 8 * Z.of_nat 0) with sp in Hnew by lia. exact Hnew.
  - intros a Ha. rewrite store_bytes_out by (rewrite length_le_split; lia).
    rewrite Hout2 by lia. apply Hout1. unfold auxv_of. lia.
Qed.

(** C20: the stack that the mini-loader hands over: one argument less, the same
    environment, and the kernel's auxiliary vector with six kinds of entries rewritten
    and the rest kept.  AT_PHDR, AT_PHNUM and AT_PHENT describe the program headers of
    the program's handle, AT_ENTRY is the program's entry point, AT_EXECFN its name, and
    AT_BASE is the entry point of the interpreter, or of the program if there is none:
    not the interpreter's load base, which the kernel would give.  Nothing outside that
    block has changed. *)
Theorem hand_over_stack (sp a0 : Z) (args envs : list Z) (auxs : list Aux) (v : Z) (w : world) :
  words_ok ->
  words_at (mem w) sp (stack_words (a0 :: execfn :: args) envs auxs v) ->
  0 <= sp -> sp + 8 * Z.of_nat (length (stack_words (a0 :: execfn :: args) envs auxs v)) < U64_LIM ->
  Forall (fun a => aux_tag a <> 0) auxs ->
  exists m',
    hand_over elf interp_dylib sp (Z.of_nat (length (a0 :: execfn :: args))) (auxv_of sp (a0 :: execfn :: args) envs) w =
      (Ok tt, set_mem m' w) /\
    words_at m' sp (stack_words (execfn :: args) envs (new_of <$> auxs) v) /\
    (forall a, ~ (sp <= a < sp + 8 * Z.of_nat (length (stack_words (a0 :: execfn :: args) envs auxs v))) ->
       m' !! a = mem w !! a).
Proof. apply hand_over_run. Qed.
End hand_over.

(** ** Example

    The command line [mini-loader prog] with one environment string; the kernel gives
    no base, so it is computed from the [PT_DYNAMIC] header. *)

Definition demo_args : list Z := [5000; 5010].
Definition demo_envs : list Z := [6000].
Definition demo_auxs : list Aux :=
  [mk_aux AT_PHDR 4000; mk_aux AT_PHNUM 1; mk_aux AT_PHENT 56; mk_aux AT_BASE 0; mk_aux AT_ENTRY 77; mk_aux 15 88].
Definition demo_self : list ElfRela := [mk_rela 256 8 64].
Definition demo_self_dyns : list Dyn := [mk_dyn DT_RELA 512; mk_dyn DT_RELACOUNT 1].
Definition demo_start_memory : memory := image
  [(1000, pack ((fun x => (8%nat, x)) <$> stack_words demo_args demo_envs demo_auxs 0));
   (3000, dyn_bytes (demo_self_dyns ++ [mk_dyn DT_NULL 0]));
   (4000, phdr_bytes (mk_phdr PT_DYNAMIC 6 0 2000 2000 48 48 8));
   (1512, mjoin (rela_bytes <$> demo_self)); (1256, replicate 8 0)].
Definition demo_start : world := mk_world demo_start_memory [] 0 ∅.
Definition demo_console : Console := {| sys_write w s := Z.of_nat (length s) |}.

Lemma words_at_check (m : memory) (p : Z) (ws : list Z) :
  read_array read_u64 8 m p (length ws) = Ok ws -> words_at m p ws.
Proof. intros Hr i x Hi. apply read_array_lookup in Hr as [_ Hr]. by apply Hr. Qed.

Lemma demo_stack : words_at demo_start_memory 1000 (stack_words demo_args demo_envs demo_auxs 0).
Proof. apply words_at_check. vm_compute. reflexivity. Qed.

Lemma bootstrap_relocates_witness :
  exists m', @bootstrap dev_config demo_arch demo_console 1000 3000 demo_start = (Ok (2, 1048), set_mem m' demo_start) /\
    (forall r, r ∈ demo_self -> read_u64 m' (slot 1000 r) = Ok (1000 + r_addend r)) /\
    (forall a, (forall r, r ∈ demo_self -> ~ (slot 1000 r <= a < slot 1000 r + 8)) -> m' !! a = mem demo_start !! a).
Proof.
  apply (@bootstrap_relocates dev_config demo_arch demo_console 1000 3000 demo_args demo_envs demo_auxs 0 demo_self_dyns
           512 1 1000 demo_self demo_start).
  - exact demo_stack.
  - discriminate.
  - reflexivity.
  - constructor; [discriminate|constructor].
  - repeat (constructor; [discriminate|]). constructor.
  - split; [vm_compute; reflexivity|]. split; [discriminate|].
    split; [vm_compute; reflexivity|]. split; [discriminate|]. exists (mk_dyn DT_NULL 0). split; [vm_compute; reflexivity|reflexivity].
  - reflexivity.
  - reflexivity.
  - change 1000 with (3000 - p_vaddr (mk_phdr PT_DYNAMIC 6 0 2000 2000 48 48 8)).
    apply (base_computed _ _ _ [mk_phdr PT_DYNAMIC 6 0 2000 2000 48 48 8] 0 (mk_phdr PT_DYNAMIC 6 0 2000 2000 48 48 8)).
    + reflexivity.
    + vm_compute. reflexivity.
    + reflexivity.
    + reflexivity.
    + intros j q Hj. lia.
    + split; [discriminate|reflexivity].
  - split; [discriminate|reflexivity].
  - vm_compute. reflexivity.
  - constructor; [|constructor]. split_and!; try done. apply slot_mapped_check. vm_compute. reflexivity.
  - constructor; constructor.
Defined.

Definition demo_prog : ElfCommonPart := demo_common false None demo_relocation.

Lemma hand_over_stack_witness :
  exists m',
    @hand_over dev_config demo_prog None 1000 2 1048 demo_start = (Ok tt, set_mem m' demo_start) /\
    words_at m' 1000 (stack_words [5010] demo_envs
      [mk_aux AT_PHDR 8; mk_aux AT_PHNUM 0; mk_aux AT_PHENT 56; mk_aux AT_BASE 65536; mk_aux AT_ENTRY 65536;
       mk_aux 15 88] 0) /\
    (forall a, ~ (1000 <= a < 1160) -> m' !! a = mem demo_start !! a).
Proof.
  apply (@hand_over_stack dev_config demo_prog None 65536 5010 None eq_refl eq_refl 1000 5000 [] demo_envs demo_auxs 0
           demo_start).
  - unfold words_ok. split_and!; vm_compute; (discriminate || reflexivity).
  - exact demo_stack.
  - discriminate.
  - reflexivity.
  - repeat (constructor; [discriminate|]). constructor.
Defined.

Lemma panic_reports_witness :
  @panic demo_console true (mk_panic_info (Some (bytes_of "main.rs", 181, 9)) (bytes_of "no input file")) demo_start =
    (Exited (-1), push_event (EvWrite 1 (bytes_of "main.rs:181:9   panic: no input file" ++ [10]) 37) demo_start).
Proof.
  destruct (@panic_reports demo_console (mk_panic_info (Some (bytes_of "main.rs", 181, 9)) (bytes_of "no input file"))
    (bytes_of "main.rs") 181 9 demo_start eq_refl) as [Hrun _].
  exact Hrun.
Defined.
