(* ===== verification/Async.v ===== *)
(** * Async: the asynchronous entry points

    Models the [async fn]s of the crate: [mmap_segment_async] and
    [Loader::load_async_impl] ([src/src/loader.rs]), [load_async]
    ([src/src/format/mod.rs]), [load_dylib_async] ([dylib.rs]), [load_exec_async]
    ([exec.rs]), and the trait [ElfObjectAsync] ([src/src/object/mod.rs]).

    An [async fn] is what rustc makes of it: a future that does nothing until it is
    polled, runs up to an [.await] whose future is pending, and keeps its live
    locals until it is polled again or dropped.  [step] is such a suspension: the
    future awaited, what runs with its answer, and what drops the live locals.
    Between two polls the world may change in any way. *)

From S2P Require Import Prelude Machine Arch Segment Mmap Object Loader Core Format.
#[local] Open Scope Z_scope.

(** ** Futures *)

(** [core::task::Poll] of a future whose state is [F]. *)
Inductive Poll (F A : Type) :=
  | Ready (a : A)
  | Pending (f : F).
Arguments Ready {F A} a.
Arguments Pending {F A} f.

(** [trait ElfObjectAsync: ElfObject].  [read_async] hands the buffer, [len] bytes at
    [dest], to a future of type [Fut]; polling that future stores bytes in the buffer
    as they come. *)
Class ElfObjectAsync (T : Type) `{ElfObject T} := {
  Fut : Type;
  read_async : T -> Z -> Z -> Z -> M Fut;   (** object, dest, len, offset *)
  poll_read : Fut -> M (Poll Fut unit);
  drop_read : Fut -> M unit;
}.

(** An [async] block after some of its code has run: at its end, or at an [.await]. *)
Inductive step (F A : Type) :=
  | Finished (o : outcome A)
  | Suspend (f : F) (resume : outcome unit -> world -> step F A * world) (locals : M unit).
Arguments Finished {F A} o.
Arguments Suspend {F A} f resume locals.

(** The code of an [async] block. *)
Definition Co (F A : Type) : Type := world -> step F A * world.

Definition finished {F A} (r : outcome A * world) : step F A * world := (Finished r.1, r.2).
Definition run {F A} (c : M A) : Co F A := fun w => finished (c w).

Fixpoint bind_step {F A B} (s : step F A) (k : A -> Co F B) (w : world) : step F B * world :=
  match s with
  | Finished (Ok a) => k a w
  | Finished (Err e) => (Finished (Err e), w)
  | Finished Panic => (Finished Panic, w)
  | Finished Fault => (Finished Fault, w)
  | Finished OutOfFuel => (Finished OutOfFuel, w)
  | Suspend f resume locals =>
      (Suspend f (fun r w => match resume r w with (s', w') => bind_step s' k w' end) locals, w)
  end.
Definition cbind {F A B} (c : Co F A) (k : A -> Co F B) : Co F B := fun w =>
  match c w with (s, w') => bind_step s k w' end.

Notation "'await!' x := c 'in' k" := (cbind c (fun x => k))
  (at level 200, x name, c at level 100, k at level 200, right associativity) : elf_scope.
Notation "'await!' ' p := c 'in' k" := (cbind c (fun x => match x with p => k end))
  (at level 200, p pattern, c at level 100, k at level 200, right associativity) : elf_scope.

(** A local with drop glue: [scope] is [finally] or [on_unwind], for the end of the
    block; a suspended block drops it after the locals declared later. *)
Fixpoint scoped_step {F A} (scope : M A -> M unit -> M A) (s : step F A) (d : M unit) (w : world) :
    step F A * world :=
  match s with
  | Finished o => finished (scope (lift o) d w)
  | Suspend f resume locals =>
      (Suspend f (fun r w => match resume r w with (s', w') => scoped_step scope s' d w' end)
         (finally locals d), w)
  end.
Definition scoped {F A} (scope : M A -> M unit -> M A) (c : Co F A) (d : M unit) : Co F A := fun w =>
  match c w with (s, w') => scoped_step scope s d w' end.

(** The future of an [async fn]: not polled yet, with its code and the drop glue of
    its arguments; suspended; or over. *)
Inductive future (F A : Type) :=
  | Unresumed (body : Co F A) (args : M unit)
  | Suspended (s : step F A)
  | Returned.
Arguments Unresumed {F A} body args.
Arguments Suspended {F A} s.
Arguments Returned {F A}.

Section futures.
Context `{EA : ElfObjectAsync T}.

(** [.await] on the read: it is polled at once, and again each time the block is. *)
Definition await_read (object : T) (dest len offset : Z) : Co Fut unit := fun w =>
  match read_async object dest len offset w with
  | (Ok f, w') => (Suspend f (fun r w => (Finished r, w)) (ret tt), w')
  | (Err e, w') => (Finished (Err e), w')
  | (Panic, w') => (Finished Panic, w')
  | (Fault, w') => (Finished Fault, w')
  | (OutOfFuel, w') => (Finished OutOfFuel, w')
  end.

(** What the awaiting block sees of a poll that is not pending. *)
Definition answer (r : outcome (Poll Fut unit)) : outcome unit :=
  match r with
  | Ok _ => Ok tt
  | Err e => Err e
  | Panic => Panic
  | Fault => Fault
  | OutOfFuel => OutOfFuel
  end.

Fixpoint poll_step {A} (s : step Fut A) (w : world) : step Fut A * world :=
  match s with
  | Finished o => (Finished o, w)
  | Suspend f resume locals =>
      match poll_read f w with
      | (Ok (Pending f'), w') => (Suspend f' resume locals, w')
      | (r, w') => match resume (answer r) w' with (s', w') => poll_step s' w' end
      end
  end.

(** [Future::poll].  A future polled after its end panics. *)
Definition poll_end {A} (r : step Fut A * world) : outcome (Poll (future Fut A) A) * world :=
  match r with
  | (Finished (Ok a), w) => (Ok (Ready a), w)
  | (Finished (Err e), w) => (Err e, w)
  | (Finished Panic, w) => (Panic, w)
  | (Finished Fault, w) => (Fault, w)
  | (Finished OutOfFuel, w) => (OutOfFuel, w)
  | (s, w) => (Ok (Pending (Suspended s)), w)
  end.
Definition poll {A} (fut : future Fut A) : M (Poll (future Fut A) A) := fun w =>
  match fut with
  | Unresumed body _ => poll_end (match body w with (s, w') => poll_step s w' end)
  | Suspended s => poll_end (poll_step s w)
  | Returned => (Panic, w)
  end.

(** Drop of a future before it is ready: cancellation. *)
Definition drop_future {A} (fut : future Fut A) : M unit :=
  match fut with
  | Unresumed _ args => args
  | Suspended (Suspend f _ locals) => finally (drop_read f) locals
  | _ => ret tt
  end.

(** An executor with nothing else to do: it polls until the answer is there, [n]
    times at most. *)
Fixpoint block_on {A} (n : nat) (fut : future Fut A) : M A :=
  match n with
  | O => lift OutOfFuel
  | S n' =>
      let! r := poll fut in
      match r with Ready a => ret a | Pending fut' => block_on n' fut' end
  end.
End futures.

(** ** The loader *)

Section load_async.
Context `{Config} `{Arch} `{Mmap} `{ArcAlloc} `{EA : ElfObjectAsync T}.

Definition mmap_segment_async (param : MmapParam) (object : T) : Co Fut Z :=
  await! '(ptr, need_copy) :=
    run (mmap (pm_addr param) (pm_len param) (pm_prot param) (pm_flags param) (rg_offset (pm_range param))
           (as_fd object) false) in
  if need_copy : bool then
    await! _ := await_read object ptr (rg_len (pm_range param)) (rg_offset (pm_range param)) in
    run (mprotect ptr (pm_len param) (pm_prot param) ;; ret ptr)
  else run (ret ptr).

Definition load_phdr_async (hook : option Hook) (object : T) (builder : Builder) (phdr : ElfPhdr) :
    Co Fut Builder :=
  await! builder := run (match hook with Some hook => exec_hook builder hook phdr | None => ret builder end) in
  if p_type phdr =? PT_LOAD then
    await! param := run (lift (load_segment (b_segments builder) phdr)) in
    match param with
    | Some param =>
        await! _ := mmap_segment_async param object in
        run (fill_bss (b_segments builder) phdr ;; ret builder)
    | None => run (ret builder)
    end
  else run (parse_other_phdr builder phdr).

Fixpoint load_phdrs_async (hook : option Hook) (object : T) (builder : Builder) (phdrs : list ElfPhdr) :
    Co Fut Builder :=
  match phdrs with
  | [] => run (ret builder)
  | phdr :: phdrs' =>
      await! builder := load_phdr_async hook object builder phdr in
      load_phdrs_async hook object builder phdrs'
  end.

Definition load_async_impl (l : Loader) (ehdr : ElfHeader) (object : T) (lazy_bind : option bool) :
    Co Fut (Builder * list ElfPhdr * Loader) :=
  scoped finally
    (await! '(phdrs, buf) := run (prepare_phdr (ld_buf l) ehdr object) in
     await! '(param, min_vaddr) := run (lift (create_segments phdrs (is_dylib ehdr))) in
     await! memory := mmap_segment_async param object in
     let segments := mk_segments memory min_vaddr (pm_len param) munmap in
     scoped on_unwind
       (let builder := Builder_new segments (file_name object) lazy_bind ehdr (init_params l) in
        await! builder := load_phdrs_async (ld_hook l) object builder phdrs in
        run (ret (builder, phdrs, set_buf l buf)))
       (drop_segments segments))
    (obj_drop object).

(** The part the three entry points share. *)
Definition load_with {A} (accept : ElfHeader -> bool)
    (create : ElfHeader -> Builder -> list ElfPhdr -> M A)
    (l : Loader) (object : T) (lazy_bind : option bool) : future Fut (A * Loader) :=
  Unresumed
    (await! '(ehdr, l) := run (prepare l object accept) in
     await! '(builder, phdrs, l) := load_async_impl l ehdr object lazy_bind in
     run (let! elf := create ehdr builder phdrs in ret (elf, l)))
    (obj_drop object).

Definition load_async (l : Loader) (object : T) (lazy_bind : option bool) : future Fut (Elf * Loader) :=
  load_with (fun _ => true) (fun ehdr b phdrs => create_elf b phdrs (is_dylib ehdr)) l object lazy_bind.

Definition load_dylib_async (l : Loader) (object : T) (lazy_bind : option bool) :
    future Fut (ElfDylib * Loader) :=
  load_with is_dylib (fun _ => create_dylib) l object lazy_bind.

Definition load_exec_async (l : Loader) (object : T) (lazy_bind : option bool) :
    future Fut (ElfExec * Loader) :=
  load_with (fun h => negb (is_dylib h)) (fun _ => create_exec) l object lazy_bind.
End load_async.

(** ** A load that runs to completion *)

Section completion.
Context `{EA : ElfObjectAsync T}.

(** [completes f w r w' n]: polled from the world [w] with nothing in between, the
    read [f] is pending [n] times and then answers [r]. *)
Inductive completes : Fut -> world -> outcome unit -> world -> nat -> Prop :=
  | completes_now f w r w' :
      poll_read f w = (r, w') -> (forall f', r <> Ok (Pending f')) -> completes f w (answer r) w' 0
  | completes_later f w f' w1 r w' n :
      poll_read f w = (Ok (Pending f'), w1) -> completes f' w1 r w' n -> completes f w r w' (S n).

(** The promise of the trait to its user: [read_async] does what [read] does, in at
    most [bound] polls that are pending. *)
Class AsyncReads (bound : nat) : Prop := {
  read_async_reads (o : T) dest len offset w :
    exists f w1 n, (n <= bound)%nat /\ read_async o dest len offset w = (Ok f, w1) /\
      completes f w1 (read_mem o dest len offset w).1 (read_mem o dest len offset w).2 n;
}.

(** The same for suspended code, with all the reads on its way. *)
Inductive resolves {A} : step Fut A -> world -> outcome A -> world -> nat -> Prop :=
  | resolves_end o w : resolves (Finished o) w o w 0
  | resolves_read f k locals w r w1 n s w2 o w' m :
      completes f w r w1 n -> k r w1 = (s, w2) -> resolves s w2 o w' m ->
      resolves (Suspend f k locals) w o w' (n + m).

(** Code that mirrors a synchronous computation from a world, in at most [b] polls
    that are pending. *)
Definition mirrors {A} (c : Co Fut A) (m : M A) (w : world) (b : nat) : Prop :=
  exists n, (n <= b)%nat /\ resolves (c w).1 (c w).2 (m w).1 (m w).2 n.

Lemma mirrors_weaken {A} (c : Co Fut A) m w b b' : (b <= b')%nat -> mirrors c m w b -> mirrors c m w b'.
Proof. intros Hb (n & Hn & Hr). exists n. split; [lia|done]. Qed.

Lemma mirrors_run {A} (m : M A) w : mirrors (run m) m w 0.
Proof. exists 0%nat. split; [done|]. unfold run, finished. destruct (m w). constructor. Qed.

(** The two shapes in which code is put after code: a continuation, a scope. *)
Lemma resolves_bind {A B} (s : step Fut A) w o w1 n (k : A -> Co Fut B) o' w' m :
  resolves s w o w1 n ->
  (forall a, o = Ok a -> resolves (k a w1).1 (k a w1).2 o' w' m) ->
  ((forall a, o <> Ok a) -> m = 0%nat /\ w' = w1 /\ o' = mbind (fun _ => OutOfFuel) o) ->
  resolves (bind_step s k w).1 (bind_step s k w).2 o' w' (n + m).
Proof.
  intros Hs Hok Hno. induction Hs as [o w|f kk locals w r w1 n s w2 o w3 m' Hc Hk Hs IH].
  - destruct o; simpl; [by apply Hok|..].
    all: destruct Hno as (-> & -> & ->); [done|]; constructor.
  - specialize (IH Hok Hno). simpl. rewrite <- Nat.add_assoc.
    eapply resolves_read; [exact Hc|rewrite Hk; apply surjective_pairing|exact IH].
Qed.

Lemma mirrors_bind {A B} (c : Co Fut A) m (k : A -> Co Fut B) h w b b' :
  mirrors c m w b ->
  (forall a w', m w = (Ok a, w') -> mirrors (k a) (h a) w' b') ->
  mirrors (cbind c k) (bind m h) w (b + b').
Proof.
  intros (n & Hn & Hr) Hk. unfold mirrors, cbind, bind. destruct (c w) as [s w1]. simpl in Hr.
  destruct (m w) as [o w2]. simpl in Hr. destruct o as [a|e| | |].
  { destruct (Hk a w2 eq_refl) as (n' & Hn' & Hr'). exists (n + n')%nat. split; [lia|].
    eapply resolves_bind; [exact Hr| |by intros Hne; destruct (Hne a)]. intros a' [= <-]. exact Hr'. }
  all: exists (n + 0)%nat; split; [lia|]; eapply resolves_bind; [exact Hr|done|done].
Qed.

Lemma mirrors_scoped {A} (scope : M A -> M unit -> M A) (c : Co Fut A) m d w b :
  (forall c c' w w', c w = c' w' -> scope c d w = scope c' d w') ->
  mirrors c m w b -> mirrors (scoped scope c d) (scope m d) w b.
Proof.
  intros Hscope (n & Hn & Hr). exists n. split; [done|]. unfold scoped. destruct (c w) as [s w1]. simpl in Hr.
  rewrite (Hscope m (lift (m w).1) w (m w).2) by (unfold lift; by destruct (m w)). clear Hn.
  induction Hr as [o w0|f k locals w0 r w2 n s w3 o w4 m' Hc Hk Hs IH].
  - simpl. constructor.
  - simpl. eapply resolves_read; [exact Hc|rewrite Hk; apply surjective_pairing|exact IH].
Qed.

Lemma mirrors_finally {A} (c : Co Fut A) m d w b : mirrors c m w b -> mirrors (scoped finally c d) (finally m d) w b.
Proof. apply mirrors_scoped. intros c1 c2 w1 w2 E. unfold finally. by rewrite E. Qed.
Lemma mirrors_on_unwind {A} (c : Co Fut A) m d w b :
  mirrors c m w b -> mirrors (scoped on_unwind c d) (on_unwind m d) w b.
Proof. apply mirrors_scoped. intros c1 c2 w1 w2 E. unfold on_unwind. by rewrite E. Qed.

Lemma mirrors_await `{!AsyncReads bound} o dest len offset w :
  mirrors (await_read o dest len offset) (read_mem o dest len offset) w bound.
Proof.
  destruct (read_async_reads o dest len offset w) as (f & w1 & n & Hn & Hf & Hc).
  exists (n + 0)%nat. split; [lia|]. unfold await_read. rewrite Hf.
  eapply resolves_read; [exact Hc|done|constructor].
Qed.

(** A block that resolves is ready after that many polls. *)
Lemma poll_step_later {A} (s : step Fut A) w o w' n :
  resolves s w o w' (S n) -> exists f k locals w1,
    poll_step s w = (Suspend f k locals, w1) /\ resolves (Suspend f k locals) w1 o w' n.
Proof.
  intros Hres. remember (S n) as n0 eqn:E. revert n E.
  induction Hres as [|f k locals w r w1 n0 s w2 o w' m Hc Hk Hs IH]; [done|]. intros n E.
  destruct Hc as [f w r w1 Hp Hr|f w f' w1' r w1 n0 Hp Hc]; simpl; rewrite Hp.
  - simpl in E. destruct (IH n E) as (f1 & k1 & l1 & w3 & H1 & H2). exists f1, k1, l1, w3.
    split; [|done]. destruct r as [[]| | | |]; try by rewrite Hk. by destruct (Hr f0).
  - simpl in E. injection E as <-. exists f', k, locals, w1'. split; [done|]. by eapply resolves_read.
Qed.

Lemma poll_step_now {A} (s : step Fut A) w o w' : resolves s w o w' 0 -> poll_step s w = (Finished o, w').
Proof.
  intros Hres. remember 0%nat as n0 eqn:E. induction Hres as [|f k locals w r w1 n0 s w2 o w' m Hc Hk Hs IH]; [done|].
  destruct Hc as [f w r w1 Hp Hr|]; [|done]. simpl. rewrite Hp. specialize (IH E).
  destruct r as [[]| | | |]; try by rewrite Hk. by destruct (Hr f0).
Qed.

Lemma block_on_suspended {A} n : forall (s : step Fut A) w o w',
  resolves s w o w' n -> block_on (S n) (Suspended s) w = (o, w').
Proof.
  induction n as [|n IH]; intros s w o w' Hr.
  - apply poll_step_now in Hr. cbn [block_on]. unfold bind, poll. rewrite Hr. by destruct o.
  - apply poll_step_later in Hr as (f & k & locals & w1 & Hp & Hr).
    change (block_on (S (S n)) (Suspended s)) with
      (let! r := poll (Suspended s) in match r with Ready a => ret a | Pending fut' => block_on (S n) fut' end).
    unfold bind, poll. rewrite Hp. cbn [poll_end]. by apply IH.
Qed.

Lemma block_on_mirrors {A} (c : Co Fut A) m args w b :
  mirrors c m w b -> exists n, (n <= b)%nat /\ block_on (S n) (Unresumed c args) w = m w.
Proof.
  intros (n & Hn & Hr). exists n. split; [done|]. rewrite (surjective_pairing (m w)).
  rewrite <- (block_on_suspended n (c w).1 (c w).2 _ _ Hr).
  cbn [block_on]. unfold bind, poll. by destruct (c w).
Qed.
End completion.

Section load_completion.
Context `{Config} `{Arch} `{Mmap} `{ArcAlloc} `{EA : ElfObjectAsync T} `{!AsyncReads bound}.

Lemma mirrors_steps {A B} (m : M A) (k : A -> Co Fut B) h w b :
  (forall a w', m w = (Ok a, w') -> mirrors (k a) (h a) w' b) -> mirrors (cbind (run m) k) (bind m h) w b.
Proof. exact (mirrors_bind (run m) m k h w 0 b (mirrors_run m w)). Qed.

Lemma mmap_segment_mirrors param object w :
  mirrors (mmap_segment_async param object) (mmap_segment param object) w bound.
Proof.
  unfold mmap_segment_async, mmap_segment. apply mirrors_steps. intros [ptr []] w1 _.
  - eapply mirrors_weaken; [|apply mirrors_bind; [apply mirrors_await|intros [] w2 _; apply mirrors_run]]. lia.
  - eapply mirrors_weaken; [|apply mirrors_run]. lia.
Qed.

Lemma load_phdr_mirrors hook object builder phdr w :
  mirrors (load_phdr_async hook object builder phdr) (load_phdr hook object builder phdr) w bound.
Proof.
  unfold load_phdr_async, load_phdr. apply mirrors_steps. intros b w1 _.
  destruct (p_type phdr =? PT_LOAD); [|eapply mirrors_weaken; [|apply mirrors_run]; lia].
  apply mirrors_steps. intros [param|] w2 _; [|eapply mirrors_weaken; [|apply mirrors_run]; lia].
  eapply mirrors_weaken; [|apply mirrors_bind; [apply mmap_segment_mirrors|intros _p w3 _; apply mirrors_run]]. lia.
Qed.

Lemma load_phdrs_mirrors hook object phdrs : forall builder w,
  mirrors (load_phdrs_async hook object builder phdrs) (load_phdrs hook object builder phdrs) w
    (bound * length phdrs).
Proof.
  induction phdrs as [|p l IH]; intros builder w; cbn [load_phdrs_async load_phdrs length].
  { eapply mirrors_weaken; [|apply mirrors_run]. lia. }
  rewrite Nat.mul_succ_r, Nat.add_comm.
  apply mirrors_bind; [apply load_phdr_mirrors|intros b w1 _; apply IH].
Qed.

Lemma load_impl_mirrors l ehdr object lazy w N :
  (forall phdrs buf w1, prepare_phdr (ld_buf l) ehdr object w = (Ok (phdrs, buf), w1) -> (length phdrs <= N)%nat) ->
  mirrors (load_async_impl l ehdr object lazy) (load_impl l ehdr object lazy) w (bound * S N).
Proof.
  intros HN. apply mirrors_finally. apply mirrors_steps. intros [phdrs buf] w1 Hp. apply HN in Hp.
  apply mirrors_steps. intros [param lo] w2 _.
  rewrite Nat.mul_succ_r, Nat.add_comm. apply mirrors_bind; [apply mmap_segment_mirrors|]. intros memory w3 _.
  apply mirrors_on_unwind.
  eapply (mirrors_weaken _ _ _ (bound * length phdrs + 0)); [nia|].
  apply mirrors_bind; [apply load_phdrs_mirrors|intros b w4 _; apply mirrors_run].
Qed.

(** The number of program headers the file's table holds is at most [N]. *)
Definition table_within (l : Loader) (object : T) (accept : ElfHeader -> bool) (w : world) (N : nat) : Prop :=
  forall ehdr l1 w1 phdrs buf w2,
    prepare l object accept w = (Ok (ehdr, l1), w1) ->
    prepare_phdr (ld_buf l1) ehdr object w1 = (Ok (phdrs, buf), w2) -> (length phdrs <= N)%nat.

Lemma table_in_stack l object accept w h b start stop phdrs N :
  (prepare_ehdr (ld_buf l) object w).1 = Ok (h, b) -> phdr_range h = Ok (start, stop) ->
  get_phdrs_from_stack b start stop = Ok (Some phdrs) -> (length phdrs <= N)%nat ->
  table_within l object accept w N.
Proof.
  intros Hh Hr Hs Hn ehdr l1 w1 phdrs' buf w2 Hp Hps. unfold prepare in Hp. apply on_unwind_inv in Hp.
  apply bind_run_inv in Hp as ([h' b'] & w3 & Hh' & Hp). rewrite Hh' in Hh. injection Hh as -> ->.
  destruct (accept h); [|done]. injection Hp as <- <- _.
  unfold prepare_phdr, bind, lift in Hps. cbn [ld_buf set_buf] in Hps. rewrite Hr, Hs in Hps. by injection Hps as <- _ _.
Qed.

Lemma load_with_mirrors {A} accept (create : ElfHeader -> Builder -> list ElfPhdr -> M A) l object lazy w N :
  table_within l object accept w N ->
  exists n, (n <= bound * S N)%nat /\
    block_on (S n) (load_with accept create l object lazy) w =
      (let! '(ehdr, l) := prepare l object accept in
       let! '(builder, phdrs, l) := load_impl l ehdr object lazy in
       let! elf := create ehdr builder phdrs in ret (elf, l)) w.
Proof.
  intros HN. unfold load_with. apply block_on_mirrors. apply mirrors_steps. intros [ehdr l1] w1 Hp.
  rewrite <- (Nat.add_0_r (bound * S N)). apply mirrors_bind.
  - apply load_impl_mirrors. intros phdrs buf w2. by apply HN.
  - intros [[b phdrs] l2] w2 _. apply mirrors_run.
Qed.

(** C26: awaiting is only waiting.  Polled by an executor with nothing else to do,
    [load_async], [load_dylib_async] and [load_exec_async] are ready after at most
    one read's worth of polls for each program header and one more, and they then
    give exactly what [load], [load_dylib] and [load_exec] give: the same library,
    error or panic, and the same memory, log and counts. *)
Theorem load_async_completes l object lazy w N :
  (forall accept, table_within l object accept w N) ->
  (exists n, (n <= bound * S N)%nat /\
     block_on (S n) (load_async l object lazy) w = load l object lazy w) /\
  (exists n, (n <= bound * S N)%nat /\
     block_on (S n) (load_dylib_async l object lazy) w = load_dylib l object lazy w) /\
  (exists n, (n <= bound * S N)%nat /\
     block_on (S n) (load_exec_async l object lazy) w = load_exec l object lazy w).
Proof. intros HN. split_and!; by apply load_with_mirrors. Qed.
End load_completion.

(** ** Cancellation *)

Section cancellation.
Context `{EA : ElfObjectAsync T}.

(** The futures a load can be between two polls, whatever happens to the world
    in between. *)
Inductive reaches {A} : future Fut A -> future Fut A -> Prop :=
  | reaches_here fut : reaches fut fut
  | reaches_poll fut w fut1 w1 fut2 :
      poll fut w = (Ok (Pending fut1), w1) -> reaches fut1 fut2 -> reaches fut fut2.

(** At every suspension of the block the drop glue of its locals satisfies [P], and
    the block, were its read to fail there, would end with the error after running
    that drop glue; the results of the block satisfy [R]. *)
Fixpoint suspends {A} (P : M unit -> Prop) (R : A -> Prop) (s : step Fut A) : Prop :=
  match s with
  | Finished (Ok a) => R a
  | Finished _ => True
  | Suspend f resume locals =>
      P locals /\ (forall e w, resume (Err e) w = finished (run_drop (Err e) locals w)) /\
      forall r w, match resume r w with (s', _) => suspends P R s' end
  end.

Lemma run_drop_err {A} e (d : M unit) w a : (run_drop (@Err A e) d w).1 <> Ok a.
Proof. unfold run_drop. by destruct (d w) as [[]]. Qed.

Lemma suspends_run {A} P (m : M A) w : suspends P (fun a => exists w w', m w = (Ok a, w')) (run m w).1.
Proof. unfold run. destruct (m w) as [[]] eqn:E; simpl; eauto. Qed.

(** Induction over the suspensions of a block. *)
Lemma step_nested_ind {F A} (Q : step F A -> Prop) :
  (forall o, Q (Finished o)) -> (forall f k locals, (forall r w, Q (k r w).1) -> Q (Suspend f k locals)) ->
  forall s, Q s.
Proof.
  intros Hf Hs. fix IH 1. intros [o|f k locals]; [apply Hf|apply Hs]. intros r w.
  destruct (k r w) as [s' w']. apply IH.
Qed.

Lemma suspends_resume {A} (P : M unit -> Prop) (R : A -> Prop) f k locals :
  suspends P R (Suspend f k locals) <->
  P locals /\ (forall e w, k (Err e) w = finished (run_drop (Err e) locals w)) /\
    forall r w, suspends P R (k r w).1.
Proof.
  simpl. split; intros (HP & He & Hk); (split; [done|]); (split; [done|]); intros r w; specialize (Hk r w);
    by destruct (k r w).
Qed.

Lemma suspends_bind {A B} P (R : A -> Prop) (R' : B -> Prop) s (k : A -> Co Fut B) w :
  suspends P R s -> (forall a w, R a -> suspends P R' (k a w).1) -> suspends P R' (bind_step s k w).1.
Proof.
  intros Hs Hk. revert w Hs. induction s as [o|f kk locals IH] using step_nested_ind; intros w Hs.
  { destruct o; simpl in *; auto. }
  apply suspends_resume in Hs as (HP & He & Hs). cbn [bind_step fst]. apply suspends_resume.
  split; [done|]. split.
  - intros e w1. rewrite He. unfold finished. destruct (run_drop (Err e) locals w1) as [o w2] eqn:E.
    pose proof (fun a => run_drop_err (A := A) e locals w1 a) as Hne. rewrite E in Hne.
    unfold run_drop in *. destruct (locals w1) as [[] w3]; simplify_eq; try done; by destruct (Hne a).
  - intros r w1. specialize (IH r w1). specialize (Hs r w1). destruct (kk r w1) as [s' w2]. by apply IH.
Qed.

Lemma suspends_cbind {A B} P (R : A -> Prop) (R' : B -> Prop) (c : Co Fut A) (k : A -> Co Fut B) w :
  suspends P R (c w).1 -> (forall a w, R a -> suspends P R' (k a w).1) -> suspends P R' (cbind c k w).1.
Proof. intros Hs Hk. unfold cbind. destruct (c w) as [s w1]. by eapply suspends_bind. Qed.

Lemma suspends_step {A B} P (R' : B -> Prop) (m : M A) (k : A -> Co Fut B) w :
  (forall a w, (exists w0 w1, m w0 = (Ok a, w1)) -> suspends P R' (k a w).1) ->
  suspends P R' (cbind (run m) k w).1.
Proof. apply suspends_cbind, suspends_run. Qed.

Lemma suspends_scoped {A} (scope : M A -> M unit -> M A) (P P' : M unit -> Prop) (R : A -> Prop) s d w :
  (scope = finally \/ scope = on_unwind) ->
  (forall c, P c -> P' (finally c d)) -> suspends P R s -> suspends P' R (scoped_step scope s d w).1.
Proof.
  intros Hscope HP' Hs. revert w Hs. induction s as [o|f k locals IH] using step_nested_ind; intros w Hs.
  { destruct Hscope as [-> | ->], o as [a| | | |]; cbn [scoped_step]; unfold finally, on_unwind, lift; try done.
    all: unfold run_drop; by destruct (d w) as [[]]. }
  apply suspends_resume in Hs as (HP & He & Hs). cbn [scoped_step fst]. apply suspends_resume.
  split; [by apply HP'|]. split.
  - intros e w1. rewrite He. unfold finished, finally, on_unwind, run_drop, lift.
    destruct (locals w1) as [[] w2]; destruct Hscope as [-> | ->]; simpl; unfold finally, on_unwind, run_drop, lift; try done.
    all: by destruct (d w2) as [[]].
  - intros r w1. specialize (IH r w1). specialize (Hs r w1). destruct (k r w1) as [s' w2]. by apply IH.
Qed.

Lemma suspends_await o dest len offset w :
  suspends (fun c => c = ret tt) (fun _ => True) (await_read o dest len offset w).1.
Proof.
  unfold await_read. destruct (read_async o dest len offset w) as [[] w1]; simpl; try done.
  split; [done|]. split; [done|]. by intros [].
Qed.

(** Polling keeps within the suspensions of the block. *)
Lemma suspends_poll {A} P (R : A -> Prop) s w : suspends P R s -> suspends P R (poll_step s w).1.
Proof.
  revert w. induction s as [o|f k locals IH] using step_nested_ind; intros w Hs; [done|]. cbn [poll_step].
  assert (Hgo : forall r w', suspends P R (match k r w' with (s', w2) => poll_step s' w2 end).1).
  { intros r w'. apply suspends_resume in Hs as (_ & _ & Hs). specialize (IH r w'). specialize (Hs r w').
    destruct (k r w') as [s' w2]. by apply IH. }
  destruct (poll_read f w) as [[[]| | | |] w1]; try apply Hgo. exact Hs.
Qed.

Lemma poll_suspends {A} P (R : A -> Prop) s w fut w' :
  suspends P R s -> poll_end (poll_step s w) = (Ok (Pending fut), w') ->
  exists f k locals, fut = Suspended (Suspend f k locals) /\ suspends P R (Suspend f k locals).
Proof.
  intros Hs. pose proof (suspends_poll P R s w Hs) as Hp. destruct (poll_step s w) as [s1 w1].
  destruct s1 as [[]|f k locals]; intros E; simplify_eq/=. exists f, k, locals. by split.
Qed.

Lemma reaches_suspends {A} P (R : A -> Prop) body args (fut : future Fut A) :
  (forall w, suspends P R (body w).1) -> reaches (Unresumed body args) fut ->
  fut = Unresumed body args \/ exists f k locals, fut = Suspended (Suspend f k locals) /\
    P locals /\ (forall e w, k (Err e) w = finished (run_drop (Err e) locals w)).
Proof.
  intros Hb Hr.
  assert (Hinv : forall fut0, reaches fut0 fut ->
    fut0 = Unresumed body args \/
      (exists f k locals, fut0 = Suspended (Suspend f k locals) /\ suspends P R (Suspend f k locals)) ->
    fut = Unresumed body args \/
      exists f k locals, fut = Suspended (Suspend f k locals) /\ suspends P R (Suspend f k locals)).
  { clear Hr. induction 1 as [fut|fut0 w fut1 w1 fut2 Hp Hr IH]; [done|]. intros H0. apply IH. right.
    destruct H0 as [->|(f & k & locals & -> & Hs)]; cbn [poll] in Hp.
    - specialize (Hb w). destruct (body w) as [s w2]. by eapply poll_suspends.
    - by eapply poll_suspends. }
  destruct (Hinv _ Hr (or_introl eq_refl)) as [->|(f & k & locals & -> & Hs)]; [by left|right].
  apply suspends_resume in Hs as (HP & He & _). eauto 10.
Qed.
End cancellation.

Lemma finally_ret (d : M unit) w : finally (ret tt) d w = d w.
Proof. unfold finally, ret, run_drop. by destruct (d w) as [[[]| | | |]]. Qed.

Section load_cancellation.
Context `{Config} `{Arch} `{Mmap} `{ArcAlloc} `{EA : ElfObjectAsync T}.

Lemma suspends_weaken {A} (P P' : M unit -> Prop) (R R' : A -> Prop) (s : step Fut A) :
  (forall c, P c -> P' c) -> (forall a, R a -> R' a) -> suspends P R s -> suspends P' R' s.
Proof.
  intros HP HR. induction s as [o|f k locals IH] using step_nested_ind.
  - destruct o; simpl; eauto.
  - rewrite !suspends_resume. intros (Hc & He & Hk). split_and!; auto.
Qed.

Lemma suspends_plain {A} P (m : M A) w : suspends P (fun _ => True) (run m w).1.
Proof. eapply suspends_weaken; [|done|apply suspends_run]. done. Qed.

(** [memory] is what the system has answered to the first request of a load. *)
Definition first_mapped (object : T) (ehdr : ElfHeader) (segs : ElfSegments) : Prop :=
  exists phdrs param memory lo need w w',
    create_segments phdrs (is_dylib ehdr) = Ok (param, lo) /\
    mmap (pm_addr param) (pm_len param) (pm_prot param) (pm_flags param) (rg_offset (pm_range param))
      (as_fd object) false w = (Ok (memory, need), w') /\
    segs = mk_segments memory lo (pm_len param) munmap.

Lemma mmap_segment_suspends param object w :
  suspends (fun c => c = ret tt)
    (fun ptr => exists need w w', mmap (pm_addr param) (pm_len param) (pm_prot param) (pm_flags param)
       (rg_offset (pm_range param)) (as_fd object) false w = (Ok (ptr, need), w'))
    (mmap_segment_async param object w).1.
Proof.
  unfold mmap_segment_async. apply suspends_step. intros [ptr need] w1 (w2 & w3 & Hm). destruct need.
  - eapply suspends_cbind; [apply suspends_await|]. intros [] w4 _.
    eapply suspends_weaken; [by intros c Hc; exact Hc| |apply suspends_run]. intros a (w5 & w6 & Ha).
    apply bind_run_inv in Ha as ([] & w7 & _ & [= <- _]). eauto.
  - eapply suspends_weaken; [by intros c Hc; exact Hc| |apply suspends_run].
    intros a (w5 & w6 & [= <- _]). eauto.
Qed.

Lemma load_phdrs_suspends hook object phdrs : forall builder w,
  suspends (fun c => c = ret tt) (fun _ => True) (load_phdrs_async hook object builder phdrs w).1.
Proof.
  induction phdrs as [|p l IH]; intros builder w; cbn [load_phdrs_async]; [apply suspends_plain|].
  eapply (suspends_cbind _ (fun _ => True)); [|intros b w1 _; apply IH].
  unfold load_phdr_async. apply suspends_step. intros b w1 _. destruct (p_type p =? PT_LOAD); [|apply suspends_plain].
  apply suspends_step. intros [param|] w2 _; [|apply suspends_plain].
  eapply suspends_cbind; [apply mmap_segment_suspends|]. intros _p w3 _. apply suspends_plain.
Qed.

(** What is dropped with a load that is waiting. *)
Definition releases (object : T) (ehdr : ElfHeader) (locals : M unit) : Prop :=
  (forall w, locals w = obj_drop object w) \/
  exists segs, first_mapped object ehdr segs /\
    forall w, locals w = finally (drop_segments segs) (obj_drop object) w.

Lemma load_async_impl_suspends l ehdr object lazy w :
  suspends (releases object ehdr) (fun _ => True) (load_async_impl l ehdr object lazy w).1.
Proof.
  unfold load_async_impl, scoped at 1.
  match goal with |- context [match ?c w with _ => _ end] => set (body := c) end.
  assert (Hb : suspends (fun c => c = ret tt \/ exists segs, first_mapped object ehdr segs /\
    c = finally (ret tt) (drop_segments segs)) (fun _ => True) (body w).1).
  { apply suspends_step. intros [phdrs buf] w1 _. apply suspends_step. intros [param lo] w2 (w3 & w4 & Hc).
    apply (f_equal fst) in Hc. simpl in Hc.
    eapply suspends_cbind; [eapply suspends_weaken; [|done|apply mmap_segment_suspends]; auto|].
    intros memory w5 (need & w6 & w7 & Hm). unfold scoped.
    match goal with |- context [match ?c w5 with _ => _ end] => set (inner := c) end.
    assert (Hi : suspends (fun c => c = ret tt) (fun _ => True) (inner w5).1).
    { eapply suspends_cbind; [apply load_phdrs_suspends|]. intros b w8 _. apply suspends_plain. }
    destruct (inner w5) as [s w8]. eapply suspends_scoped; [by right| |exact Hi].
    intros c ->. right. eexists. split; [|done]. repeat eexists; eauto. }
  destruct (body w) as [s w1]. eapply suspends_scoped; [by left| |exact Hb].
  intros c [->|(segs & Hsegs & ->)]; [left; apply finally_ret|right].
  exists segs. split; [done|]. intros w2. unfold finally at 1. by rewrite finally_ret.
Qed.

(** C27: cancelling a load.  Between two polls, whatever happened to the world in
    between, a load that was polled waits for a read; dropping it drops that read
    and then exactly what the load itself would drop, had the read failed: the
    mapping, if the reservation of the address range was completed, and the object.
    A load that was never polled drops the object alone. *)
Theorem load_async_cancel {A} accept (create : ElfHeader -> Builder -> list ElfPhdr -> M A) l object lazy fut :
  reaches (load_with accept create l object lazy) fut ->
  (fut = load_with accept create l object lazy /\ drop_future fut = obj_drop object) \/
  exists f resume locals ehdr, fut = Suspended (Suspend f resume locals) /\
    drop_future fut = finally (drop_read f) locals /\ releases object ehdr locals /\
    forall e w, resume (Err e) w = finished (run_drop (Err e) locals w).
Proof.
  intros Hr. apply (reaches_suspends (fun locals => exists ehdr, releases object ehdr locals) (fun _ => True)) in Hr.
  - destruct Hr as [->|(f & k & locals & -> & (ehdr & Hl) & He)]; [by left|right]. exists f, k, locals, ehdr.
    by split_and!.
  - intros w. apply suspends_step. intros [ehdr l1] w1 _.
    eapply (suspends_cbind _ (fun _ => True)).
    + eapply suspends_weaken; [|done|apply load_async_impl_suspends]. eauto.
    + intros [[b phdrs] l2] w2 _. apply suspends_plain.
Qed.
End load_cancellation.

(** ** Example

    An object whose asynchronous read is pending [n] times and then reads, as a
    reader on a slow device would. *)

Section slow.
Context `{EO : ElfObject T} (n : nat).

#[local] Instance slow_object : ElfObjectAsync T := {|
  Fut := nat * (T * Z * Z * Z);
  read_async object dest len offset := ret (n, (object, dest, len, offset));
  poll_read f :=
    match f with
    | (S k, r) => ret (Pending (k, r))
    | (O, (object, dest, len, offset)) => read_mem object dest len offset ;; ret (Ready tt)
    end;
  drop_read _ := ret tt;
|}.

Lemma slow_completes k object dest len offset w :
  completes (k, (object, dest, len, offset)) w (read_mem object dest len offset w).1
    (read_mem object dest len offset w).2 k.
Proof.
  revert w. induction k as [|k IH]; intros w; [|by eapply completes_later].
  set (r := (bind (read_mem object dest len offset) (fun _ => ret (Ready (F := Fut) tt))) w).
  replace (read_mem object dest len offset w).1 with (answer r.1); [replace (read_mem object dest len offset w).2 with r.2|].
  - apply completes_now; [apply surjective_pairing|]. intros f'. subst r. unfold bind.
    by destruct (read_mem object dest len offset w) as [[]].
  - subst r. unfold bind. by destruct (read_mem object dest len offset w) as [[]].
  - subst r. unfold bind. by destruct (read_mem object dest len offset w) as [[[]| | | |]].
Qed.

#[local] Instance slow_reads : AsyncReads n.
Proof. constructor. intros o dest len offset w. do 3 eexists. split_and!; [|done|apply slow_completes]. done. Qed.
End slow.

Definition demo_heap : Allocator := {| sys_alloc _ _ _ := Some (mk_mapping 65536 (fun _ => 0)) |}.
Definition demo_object : ElfObject ElfBinary := @ElfBinary_object dev_config.
Definition demo_async : @ElfObjectAsync ElfBinary demo_object := slow_object (EO := demo_object) 2.
Definition demo_empty_loader : Loader := mk_loader None ElfBuf_new None.

Definition demo_full_buf : ElfBuf := mk_buf (store_bytes ∅ 0 (take 736 demo_elf)) [].

Lemma demo_prepare_ehdr :
  (@prepare_ehdr dev_config demo_arch ElfBinary demo_object ElfBuf_new (mk_binary [] demo_elf) empty_world).1
    = Ok (demo_ehdr, demo_full_buf).
Proof. vm_compute. reflexivity. Qed.

Lemma demo_phdr_table :
  (@phdr_range dev_config demo_ehdr = Ok (64, 176)) /\
  @get_phdrs_from_stack dev_config demo_full_buf 64 176 = Ok (Some demo_phdrs).
Proof. split; vm_compute; reflexivity. Qed.

Lemma demo_within accept :
  @table_within dev_config demo_arch ElfBinary demo_object demo_empty_loader (mk_binary [] demo_elf) accept empty_world 2.
Proof.
  exact (table_in_stack demo_empty_loader (mk_binary [] demo_elf) accept empty_world demo_ehdr demo_full_buf 64 176
           demo_phdrs 2 demo_prepare_ehdr (proj1 demo_phdr_table) (proj2 demo_phdr_table) (le_n 2)).
Qed.

Lemma load_async_completes_witness :
  exists n, (n <= 2 * 3)%nat /\
    @block_on ElfBinary demo_object demo_async _ (S n)
      (@load_async dev_config demo_arch (@NoMmap.MmapImpl demo_heap) demo_alloc ElfBinary demo_object demo_async
         demo_empty_loader (mk_binary [] demo_elf) None) empty_world =
    @load dev_config demo_arch (@NoMmap.MmapImpl demo_heap) demo_alloc ElfBinary demo_object
      demo_empty_loader (mk_binary [] demo_elf) None empty_world.
Proof.
  exact (proj1 (@load_async_completes dev_config demo_arch (@NoMmap.MmapImpl demo_heap) demo_alloc ElfBinary
    demo_object demo_async 2 (slow_reads 2) demo_empty_loader (mk_binary [] demo_elf) None empty_world 2 demo_within)).
Defined.

Definition demo_load_future :=
  @load_dylib_async dev_config demo_arch (@NoMmap.MmapImpl demo_heap) demo_alloc ElfBinary demo_object demo_async
    demo_empty_loader (mk_binary [] demo_elf) None.

Definition is_pending {F A} (r : outcome (Poll F A) * world) : bool :=
  match r with (Ok (Pending _), _) => true | _ => false end.

Lemma load_async_cancel_witness :
  exists fut w, @poll _ _ demo_async _ demo_load_future empty_world = (Ok (Pending fut), w) /\
    exists f resume locals ehdr, fut = Suspended (Suspend f resume locals) /\
      @drop_future _ _ demo_async _ fut = finally (ret tt) locals /\
      @releases dev_config (@NoMmap.MmapImpl demo_heap) ElfBinary demo_object (mk_binary [] demo_elf) ehdr locals.
Proof.
  destruct (@poll _ _ demo_async _ demo_load_future empty_world) as [r w] eqn:E.
  assert (Hp : is_pending (@poll _ _ demo_async _ demo_load_future empty_world) = true) by (vm_compute; reflexivity).
  rewrite E in Hp. destruct r as [[|fut]| | | |]; try discriminate Hp. exists fut, w. split; [reflexivity|].
  destruct (@load_async_cancel dev_config demo_arch (@NoMmap.MmapImpl demo_heap) ElfBinary
    demo_object demo_async _ is_dylib _ demo_empty_loader (mk_binary [] demo_elf) None fut
    (reaches_poll _ _ _ _ _ E (reaches_here _))) as [[-> _]|(f & k & locals & ehdr & -> & Hd & Hrel & _)].
  - exfalso. revert E. unfold poll, demo_load_future, load_dylib_async, load_with.
    match goal with |- poll_end ?r = _ -> _ => destruct r as [[[]|] w0] end; simpl; discriminate.
  - exists f, k, locals, ehdr. split; [reflexivity|]. split; [exact Hd|exact Hrel].
Defined.
