(* ===== verification/Macros.v ===== *)
(** * Macros: the entry points a user writes, and what they own

    Models the macros [load_dylib!], [load_exec!] and [load!] of [src/src/macros.rs] in
    both configurations (with the feature [fs] a file or bytes, without it bytes),
    and proves for every load that the object it was given is released exactly
    once: a file that was opened is closed, whatever the outcome. *)

From S2P Require Import Prelude Machine Arch Segment Mmap Trace Dynamic Object Loader Image Core Relocation Format Quiet.
#[local] Open Scope Z_scope.

(** ** Objects and what they own *)

(** The object [o] releases [R] when it is dropped, and only then. *)
Class Owns `{ElfObject T} (o : T) (R : event) : Prop := {
  owns_read :: ObjectQuiet (logged_never R) o;
  owns_drop : forall w, logged_once R w (obj_drop o w).2;
}.

(** An object as the crate's files are: opened by a path, and read.  The two
    implementations are the features [use-libc] and [use-syscall]. *)
Class FileSystem := {
  from_path : bytes -> M ElfFile;
  fs_object :: ElfObject ElfFile;
}.

#[export] Instance libc_fs `{Files} : FileSystem := {|
  from_path := LibcFile.from_path; fs_object := LibcFile.object |}.
#[export] Instance syscall_fs `{Files} : FileSystem := {|
  from_path := SyscallFile.from_path; fs_object := SyscallFile.object |}.

(** ** The macros *)

Section macros.
Context `{Config} `{Arch} `{Mmap} `{ArcAlloc}.

(** A [Loader] for one load: it is dropped with the expression. *)
Definition with_new_loader {A} (load : Loader -> M (A * Loader)) : M A :=
  let! '(a, _) := load Loader_new in ret a.

(** [load_dylib!($name, $bytes)], [load_exec!($name, $bytes)] and
    [load!($name, $bytes)]. *)
Definition load_dylib_bytes (name data : bytes) : M ElfDylib :=
  let! object := lift (ElfBinary_new name data) in with_new_loader (fun l => easy_load_dylib l object).
Definition load_exec_bytes (name data : bytes) : M ElfExec :=
  let! object := lift (ElfBinary_new name data) in with_new_loader (fun l => easy_load_exec l object).
Definition load_bytes_macro (name data : bytes) : M Elf :=
  let! object := lift (ElfBinary_new name data) in with_new_loader (fun l => easy_load l object).

(** [load_dylib!($name, $bytes, lazy: $lazy)] *)
Definition load_dylib_bytes_lazy (name data : bytes) (lazy : bool) : M ElfDylib :=
  let! object := lift (ElfBinary_new name data) in with_new_loader (fun l => load_dylib l object (Some lazy)).

(** Without the feature [fs] the three macros have one arm each. *)
Definition no_fs_load_dylib (name data : bytes) : M ElfDylib :=
  let! object := lift (ElfBinary_new name data) in with_new_loader (fun l => easy_load_dylib l object).
Definition no_fs_load_exec (name data : bytes) : M ElfExec :=
  let! object := lift (ElfBinary_new name data) in with_new_loader (fun l => easy_load_exec l object).
Definition no_fs_load (name data : bytes) : M Elf :=
  let! object := lift (ElfBinary_new name data) in with_new_loader (fun l => easy_load l object).

Context `{FileSystem}.

(** [load_dylib!($name)], [load_dylib!($name, lazy: $lazy)], [load_exec!($name)] and
    [load!($name)]. *)
Definition load_dylib_file (name : bytes) : M ElfDylib :=
  let! file := from_path name in with_new_loader (fun l => easy_load_dylib l file).
Definition load_dylib_file_lazy (name : bytes) (lazy : bool) : M ElfDylib :=
  let! file := from_path name in with_new_loader (fun l => load_dylib l file (Some lazy)).
Definition load_exec_file (name : bytes) : M ElfExec :=
  let! file := from_path name in with_new_loader (fun l => easy_load_exec l file).
Definition load_file (name : bytes) : M Elf :=
  let! file := from_path name in with_new_loader (fun l => easy_load l file).
End macros.

(** ** Ownership *)

Section ownership.
Context `{Config} `{Arch} `{Mm : Mmap} `{ArcAlloc} `{EO : ElfObject T}.
Context (R : event) `{!MmapQuiet (logged_never R) Mm} (o : T) `{!Owns o R}.
Notation hook_quiet := (hook_quiet (logged_never R)).

Lemma once_drop : once R (obj_drop o).
Proof. intros w _. apply owns_drop. Qed.

Lemma once_load_impl l ehdr lazy : hook_quiet (ld_hook l) -> once R (load_impl l ehdr o lazy).
Proof. intros Hq. unfold load_impl. apply once_finally; [quiet|apply once_drop]. Qed.

Lemma prepare_owned l accept : owned R (prepare l o accept).
Proof. apply on_unwind_owned; [quiet|apply once_drop]. Qed.

Lemma once_load {A} accept (create : ElfHeader -> Builder -> list ElfPhdr -> M A) l lazy :
  hook_quiet (ld_hook l) ->
  (forall ehdr b phdrs, seg_munmap (b_segments b) = munmap -> quiet (logged_never R) (create ehdr b phdrs)) ->
  once R (let! '(ehdr, l) := prepare l o accept in
          let! '(builder, phdrs, l) := load_impl l ehdr o lazy in
          let! elf := create ehdr builder phdrs in ret (elf, l)).
Proof.
  intros Hq Hcreate. apply once_bind_owned; [apply prepare_owned|]. intros [ehdr l1] (w & w1 & E).
  assert (Hq1 : hook_quiet (ld_hook l1)).
  { unfold prepare in E. apply on_unwind_inv in E. apply bind_run_inv in E as ([h b] & w2 & _ & E).
    destruct (accept h); [|done]. by injection E as _ <- _. }
  apply once_bind_quiet; [by apply once_load_impl|]. intros [[b phdrs] l2] (w2 & w3 & El).
  apply load_impl_munmap in El. apply (quiet_bind (logged_never R)); [by apply Hcreate|]. quiet.
Qed.

Lemma once_loads l lazy :
  hook_quiet (ld_hook l) ->
  once R (load l o lazy) /\ once R (load_dylib l o lazy) /\ once R (load_exec l o lazy).
Proof.
  intros Hq. split_and!.
  - apply once_load; [done|]. intros ehdr b phdrs Hs.
    unfold create_elf, create_dylib, create_exec. pose proof (quiet_create_common (logged_never R) b) as Hc. quiet.
  - apply (once_load _ (fun _ => create_dylib)); [done|]. intros ehdr b phdrs Hs.
    unfold create_dylib. pose proof (quiet_create_common (logged_never R) b) as Hc. quiet.
  - apply (once_load _ (fun _ => create_exec)); [done|]. intros ehdr b phdrs Hs.
    unfold create_exec. pose proof (quiet_create_common (logged_never R) b) as Hc. quiet.
Qed.
End ownership.

(** The files of the crate own their descriptor. *)
Class FsOwns (fs : FileSystem) : Prop := {
  fs_owns :: forall file : ElfFile, Owns file (EvClose (f_fd file));
}.

Lemma logged_once_event R w : logged_once R w (push_event R w).
Proof. exists [], []. split; [done|]. set_solver. Qed.

#[export] Instance libc_fs_owns `{Files} : FsOwns libc_fs.
Proof. constructor. intros file. constructor; [apply libc_object_quiet, _|]. intros w. apply logged_once_event. Qed.

#[export] Instance syscall_fs_owns `{Files} : FsOwns syscall_fs.
Proof. constructor. intros file. constructor; [apply syscall_object_quiet, _|]. intros w. apply logged_once_event. Qed.

(** ** The macros close their file *)

Section closing.
Context `{Config} `{Arch} `{Mm : Mmap} `{ArcAlloc} `{fs : FileSystem} `{!FsOwns fs}.
Context `{Hm : forall fd, MmapQuiet (logged_never (EvClose fd)) Mm}.

(** Run from [w], [c] closes once the file it opened when the world was [w1]. *)
Definition closes {A} (c : M A) (w : world) (file : ElfFile) (w1 : world) : Prop :=
  stuck (c w).1 = false -> logged_once (EvClose (f_fd file)) w1 (c w).2.

Lemma closes_macro {A} (load : ElfFile -> Loader -> M (A * Loader)) name w file w1 :
  from_path name w = (Ok file, w1) ->
  once (EvClose (f_fd file)) (load file Loader_new) ->
  closes (let! file := from_path name in with_new_loader (load file)) w file w1.
Proof.
  intros Hf Hl. unfold closes. rewrite (bind_run _ _ _ _ _ Hf).
  apply (once_bind_quiet _ (load file Loader_new)); [done|]. intros [a l] _. quiet.
Qed.

(** C28: no descriptor leaks.  A file that [load_dylib!], [load_exec!] or [load!] has
    opened by its path is closed exactly once, whether the load succeeds, fails
    with an error at any point, or panics; with [from_path] failing there is no
    file, and the macro's result is that error. *)
Theorem macros_close name lazy w :
  (forall file w1, from_path name w = (Ok file, w1) ->
     closes (load_dylib_file name) w file w1 /\ closes (load_dylib_file_lazy name lazy) w file w1 /\
     closes (load_exec_file name) w file w1 /\ closes (load_file name) w file w1) /\
  (forall e w1, from_path name w = (Err e, w1) ->
     load_dylib_file name w = (Err e, w1) /\ load_dylib_file_lazy name lazy w = (Err e, w1) /\
     load_exec_file name w = (Err e, w1) /\ load_file name w = (Err e, w1)).
Proof.
  split.
  - intros file w1 Hf.
    pose proof (fun lazy => once_loads (EvClose (f_fd file)) file Loader_new lazy (no_hook _)) as Hl.
    split_and!; apply closes_macro; try done; apply Hl.
  - intros e w1 Hf. unfold load_dylib_file, load_dylib_file_lazy, load_exec_file, load_file, bind. by rewrite Hf.
Qed.
End closing.

(** ** Example: a library given to [load_exec!] *)

Definition demo_fs : FileSystem := @libc_fs (demo_files (fun _ => demo_elf)).
Definition demo_load_exec : M ElfExec :=
  @load_exec_file dev_config demo_arch (@Libc.MmapImpl (demo_kernel demo_elf)) demo_alloc demo_fs [97].

Lemma macros_close_witness :
  exists file w1, @from_path demo_fs [97] empty_world = (Ok file, w1) /\
    (demo_load_exec empty_world).1 = Err (ParseEhdrError "file type mismatch") /\
    logged_once (EvClose 3) w1 (demo_load_exec empty_world).2.
Proof.
  exists (mk_file [97] 3), (push_event (EvOpen [97] 3) empty_world). split; [reflexivity|].
  assert (Hr : (demo_load_exec empty_world).1 = Err (ParseEhdrError "file type mismatch")) by (vm_compute; reflexivity).
  split; [exact Hr|].
  assert (Hs : stuck (demo_load_exec empty_world).1 = false) by (rewrite Hr; reflexivity).
  revert Hs. unfold demo_load_exec.
  exact (proj1 (proj2 (proj2 (proj1 (@macros_close dev_config demo_arch (@Libc.MmapImpl (demo_kernel demo_elf))
    demo_alloc demo_fs _ _ [97] true empty_world) (mk_file [97] 3) (push_event (EvOpen [97] 3) empty_world) eq_refl)))).
Defined.
