(* ===== verification/Complete.v ===== *)
(** * Complete: a relocation that succeeds

    The theorems of [Relocation.v] describe one pass each, and what a successful
    [relocate_impl] has done.  Here the passes are put together: an object whose
    tables say what to store and whose initialisers return is relocated, from the
    first table to the last initialiser. *)

From S2P Require Import Prelude Machine Arch StrTab Version Segment Symbol UserData Loader Core Relocation.
#[local] Open Scope Z_scope.

(** ** Several passes over one memory *)

Lemma same_but_mono ws ws' m m' : ws ⊆ ws' -> same_but ws m m' -> same_but ws' m m'.
Proof.
  intros Hsub [Hd Ho]. split; [done|]. intros a Ha. apply Ho. unfold outside_slots in *.
  rewrite Forall_forall in Ha |- *. intros s Hs. by apply Ha, Hsub.
Qed.

Lemma same_but_trans ws m1 m2 m3 : same_but ws m1 m2 -> same_but ws m2 m3 -> same_but ws m1 m3.
Proof.
  intros [D1 O1] [D2 O2]. split; [by etransitivity|]. intros a Ha. rewrite O2 by done. by apply O1.
Qed.

Lemma same_but_writes ws m : Forall (write_mapped m) ws -> same_but ws m (apply_writes m ws).
Proof.
  assert (Hgen : forall l m', l ⊆ ws -> same_but ws m m' -> Forall (write_mapped m) ws -> same_but ws m (apply_writes m' l)).
  { induction l as [|s l IH]; intros m' Hl Hm Hw; [done|]. rewrite apply_writes_cons. apply IH; [set_solver| |done].
    apply same_but_write; [done|set_solver|]. rewrite Forall_forall in Hw. apply Hw. set_solver. }
  intros Hw. by apply Hgen; [|apply same_but_refl|].
Qed.

Lemma apply_writes_app m ws1 ws2 : apply_writes m (ws1 ++ ws2) = apply_writes (apply_writes m ws1) ws2.
Proof. unfold apply_writes. apply fold_left_app. Qed.

(** The memory after the writes [ws]. *)
Definition relocated (ws : list (Z * bytes)) (m m' : memory) : Prop :=
  same_but ws m m' /\ forall a bs, (a, bs) ∈ ws -> load_bytes m' a (length bs) = Some bs.

Lemma relocated_writes ws m : Forall (write_mapped m) ws -> slots_apart ws -> relocated ws m (apply_writes m ws).
Proof. intros Hm Hap. split; [by apply same_but_writes|]. by apply writes_done. Qed.

Lemma write_mapped_but ws m m' s : same_but ws m m' -> write_mapped m s -> write_mapped m' s.
Proof. intros [Hd _] Hm i Hi. by apply Hd, Hm. Qed.

Lemma after_after m1 es1 m2 es2 w : after m2 es2 (after m1 es1 w) = after m2 (es1 ++ es2) w.
Proof. unfold after. simpl. by rewrite <- app_assoc. Qed.

(** A table keeps its entries when its bytes stay, here or at another address. *)
Lemma read_relas_shift (m1 m2 : memory) n : forall a1 a2,
  (forall i, 0 <= i < RELA_SIZE * Z.of_nat n -> m1 !! (a1 + i) = m2 !! (a2 + i)) ->
  read_array read_rela RELA_SIZE m1 a1 n = read_array read_rela RELA_SIZE m2 a2 n.
Proof.
  unfold RELA_SIZE. induction n as [|n IH]; intros a1 a2 Hall; cbn [read_array]; [done|].
  pose proof (load_le_shift m1 m2 a1 a2 0 24) as Hs. apply bind_ext.
  - unfold read_rela, read_u64. pose proof (Hs 8%nat ltac:(intros; apply Hall; lia) 0 ltac:(lia) ltac:(lia)) as H0.
    rewrite !Z.add_0_r in H0. rewrite H0. rewrite (Hs 8%nat ltac:(intros; apply Hall; lia) 8), (Hs 8%nat ltac:(intros; apply Hall; lia) 16) by lia. done.
  - intros x. apply bind_ext; [|done]. apply IH. intros i Hi. rewrite <- !Z.add_assoc. apply Hall. lia.
Qed.

Lemma read_table_frame (m m' : memory) (s : slice) :
  (forall a, sl_ptr s <= a < sl_ptr s + RELA_SIZE * Z.of_nat (Z.to_nat (sl_len s)) -> m' !! a = m !! a) ->
  read_slice read_rela RELA_SIZE m' s = read_slice read_rela RELA_SIZE m s.
Proof. intros Hall. apply read_relas_shift. intros i Hi. apply Hall. lia. Qed.

(** ** What an entry calls for does not change along the way *)

Section later.
Context `{Config} `{Arch} `{Native}.
Context (core : CoreComponent) (st : SymbolTable) (scope : list RelocateHelper) (pre_find : PreFind).
Context (w : world) (m1 : memory) (es1 : list event) (ws ws1 : list (Z * bytes)).
Hypothesis Hsb : same_but ws (mem w) m1.
Hypothesis Hsub : ws1 ⊆ ws.

Lemma stable_later P : stable w ws P -> stable (after m1 es1 w) ws1 P.
Proof. intros Hp m Hm. apply Hp. apply (same_but_trans _ _ m1); [done|]. by apply (same_but_mono ws1). Qed.

Lemma answers_later f v : answers w ws f v -> answers (after m1 es1 w) ws1 f v.
Proof.
  intros Ha m Hm es. rewrite after_after. apply Ha. apply (same_but_trans _ _ m1); [done|]. by apply (same_but_mono ws1).
Qed.

Lemma value_later dynsym info v es :
  symbol_value core scope pre_find w ws dynsym info v es ->
  symbol_value core scope pre_find (after m1 es1 w) ws1 dynsym info v es.
Proof.
  destruct 1 as [v Hp|sym b Hp Hd Ht Hr|sym b v Hp Hd Ht Hr Ha|b Hp Hd].
  - by apply value_pre.
  - apply value_def; [done|by apply stable_later|done..].
  - apply (value_ifunc _ _ _ _ _ _ _ sym b); [done|by apply stable_later|done|done|by apply answers_later].
  - apply (value_weak _ _ _ _ _ _ _ b); [done|by apply stable_later].
Qed.

Lemma dyn_effect_later rela o es :
  dyn_effect core st scope pre_find w ws rela o es -> dyn_effect core st scope pre_find (after m1 es1 w) ws1 rela o es.
Proof.
  destruct 1 as [Ht Hv|Ht|dynsym info v es Ht Hlk Hres|dynsym info sym b Ht Hlk Hres Hv
                |dynsym info sym b bs Ht Hlk Hres Hseg Hdst Hsrc Hbs].
  - by apply eff_relative.
  - by apply eff_none.
  - apply (eff_symbol _ _ _ _ _ _ _ dynsym info); [done|by apply stable_later|by apply value_later].
  - apply (eff_dtpoff _ _ _ _ _ _ _ dynsym info sym b); [done|by apply stable_later..|done].
  - apply (eff_copy _ _ _ _ _ _ _ dynsym info sym b); [done|by apply stable_later..|done|done|done|by apply stable_later].
Qed.

Lemma plt_effect_later rela o es :
  plt_effect core st scope pre_find w ws rela o es -> plt_effect core st scope pre_find (after m1 es1 w) ws1 rela o es.
Proof.
  destruct 1 as [dynsym info v es Ht Hlk Hv|v Ht Hr Ha].
  - apply (plt_symbol _ _ _ _ _ _ _ dynsym info); [done|by apply stable_later|by apply value_later].
  - apply plt_ifunc; [done|done|by apply answers_later].
Qed.
End later.

(** ** The whole relocation *)

Section complete.
Context `{Config} `{Arch} `{!ArchOk _} `{Native}.

(** What the tables of [common] ask for: [R], [D] and [P] are their entries, and
    each says what to store and which resolvers to call. *)
Record tables := mk_tables {
  t_relative : list ElfRela;
  t_dynrel : list ElfRela;
  t_pltrel : list ElfRela;
  t_dyn_write : ElfRela -> option (Z * bytes);
  t_dyn_calls : ElfRela -> list event;
  t_plt_write : ElfRela -> option (Z * bytes);
  t_plt_calls : ElfRela -> list event;
}.

Definition table_writes (base : Z) (t : tables) : list (Z * bytes) :=
  (relative_write base <$> t_relative t) ++ omap (t_dyn_write t) (t_dynrel t) ++ omap (t_plt_write t) (t_pltrel t).

Definition table_calls (t : tables) : list event := (t_dynrel t ≫= t_dyn_calls t) ++ (t_pltrel t ≫= t_plt_calls t).

(** The tables can be processed from [w]: their entries are read and resolved the
    same whatever was stored before, and the slots are mapped and apart. *)
Record relocatable (common : ElfCommonPart) (scope : list RelocateHelper) (pre_find : PreFind) (t : tables) (w : world) :
    Prop := {
  rt_symtab : exists st, core_symtab (c_core common) = Some st /\
    Forall (fun x => dyn_effect (c_core common) st scope pre_find w (table_writes (core_base (c_core common)) t) x
                       (t_dyn_write t x) (t_dyn_calls t x)) (t_dynrel t) /\
    Forall (fun x => plt_effect (c_core common) st scope pre_find w (table_writes (core_base (c_core common)) t) x
                       (t_plt_write t x) (t_plt_calls t x)) (t_pltrel t);
  rt_relative : read_slice read_rela RELA_SIZE (mem w) (rl_relative (c_relocation common)) = Ok (t_relative t);
  rt_dynrel : stable w (table_writes (core_base (c_core common)) t) (fun m =>
    read_slice read_rela RELA_SIZE m (rl_dynrel (c_relocation common)) = Ok (t_dynrel t));
  rt_pltrel : stable w (table_writes (core_base (c_core common)) t) (fun m =>
    read_slice read_rela RELA_SIZE m (rl_pltrel (c_relocation common)) = Ok (t_pltrel t));
  rt_rel : Forall (fun x => r_type x = REL_RELATIVE /\ 0 <= core_base (c_core common) + r_addend x < U64_LIM) (t_relative t);
  rt_writes : Forall (fun s => 0 <= s.1 < U64_LIM /\ write_mapped (mem w) s) (table_writes (core_base (c_core common)) t);
  rt_apart : slots_apart (table_writes (core_base (c_core common)) t);
}.

(** Protecting the RELRO range succeeds, and leaves [es] in the log. *)
Definition protects (o : option ELFRelro) (es : list event) : Prop :=
  match o with Some r => forall v, relro r v = (Ok tt, after (mem v) es v) | None => es = [] end.

(** The first two passes, in a relocation that writes [ws]. *)
Section first_passes.
Context (common : ElfCommonPart) (scope : list RelocateHelper) (pre_find : PreFind) (deal_unknown : DealUnknown).
Context (st : SymbolTable) (R D : list ElfRela) (dyn_write : ElfRela -> option (Z * bytes)) (dyn_calls : ElfRela -> list event).
Context (ws : list (Z * bytes)) (w : world).

Local Notation b := (core_base (c_core common)).
Local Notation wsR := (relative_write b <$> R).
Local Notation wsD := (omap dyn_write D).

Hypothesis HD : stable w ws (fun m => read_slice read_rela RELA_SIZE m (rl_dynrel (c_relocation common)) = Ok D).
Hypothesis Hdyn : Forall (fun x => dyn_effect (c_core common) st scope pre_find w ws x (dyn_write x) (dyn_calls x)) D.
Hypothesis Hws : Forall (fun s => 0 <= s.1 < U64_LIM /\ write_mapped (mem w) s) ws.

Lemma writes_at l m : l ⊆ ws -> same_but ws (mem w) m -> Forall (fun s => 0 <= s.1 < U64_LIM /\ write_mapped m s) l.
Proof.
  intros Hl Hm. rewrite Forall_forall in Hws |- *. intros s Hs. destruct (Hws s (Hl s Hs)).
  split; [done|]. by apply (write_mapped_but ws (mem w)).
Qed.

Lemma writes_same l : l ⊆ ws -> same_but ws (mem w) (apply_writes (mem w) l).
Proof.
  intros Hl. apply (same_but_mono l); [done|]. apply same_but_writes.
  eapply Forall_impl; [by apply (writes_at l (mem w) Hl), same_but_refl|]. by intros s [].
Qed.

Lemma relative_pass :
  read_slice read_rela RELA_SIZE (mem w) (rl_relative (c_relocation common)) = Ok R ->
  Forall (fun x => r_type x = REL_RELATIVE /\ 0 <= b + r_addend x < U64_LIM) R -> wsR ⊆ ws ->
  relocate_relative (c_relocation common) b w = (Ok tt, after (apply_writes (mem w) wsR) [] w).
Proof.
  intros HR Hrel Hsub.
  assert (Hrelok : Forall (fun x => r_type x = REL_RELATIVE /\ 0 <= slot b x < U64_LIM /\
    0 <= b + r_addend x < U64_LIM /\ slot_mapped (mem w) (slot b x)) R).
  { rewrite Forall_forall in Hrel. rewrite Forall_forall in Hws. apply Forall_forall. intros x Hx. destruct (Hrel x Hx).
    destruct (Hws (relative_write b x)) as [? Hm%slot_mapped_word]; [by apply Hsub, list_elem_of_fmap_2|done]. }
  rewrite (relocate_relative_runs _ b w _ HR Hrelok). by rewrite <- after_nil.
Qed.

Lemma dynrel_pass m1 : same_but ws (mem w) m1 -> wsD ⊆ ws ->
  relocate_dynrel (c_relocation common) (c_core common) st scope pre_find deal_unknown (after m1 [] w) =
    (Ok tt, after (apply_writes m1 wsD) (D ≫= dyn_calls) w).
Proof.
  intros Hm1 Hsub. change (D ≫= dyn_calls) with ([] ++ (D ≫= dyn_calls)). rewrite <- (after_after m1).
  apply (relocate_dynrel_runs (c_core common) st scope pre_find deal_unknown (after m1 [] w)); [by apply HD| |by apply writes_at].
  eapply Forall_impl; [exact Hdyn|]. intros x Hx. by apply (dyn_effect_later _ _ _ _ w _ _ ws).
Qed.
End first_passes.

Lemma relocate_tables_runs common scope pre_find deal_unknown lazy t es w :
  relocatable common scope pre_find t w -> c_lazy common = false -> protects (c_relro common) es ->
  relocate_tables common scope pre_find deal_unknown lazy w =
    (Ok (c_core common), after (apply_writes (mem w) (table_writes (core_base (c_core common)) t)) (table_calls t ++ es) w).
Proof.
  intros [(st & Hst & Hdyn & Hplt) HR HD HP Hrel Hws Hap] Hlazy Hpro. unfold relocate_tables. rewrite Hst, Hlazy.
  set (b := core_base (c_core common)) in *. set (ws := table_writes b t) in *.
  set (wsR := relative_write b <$> t_relative t). set (wsD := omap (t_dyn_write t) (t_dynrel t)).
  set (wsP := omap (t_plt_write t) (t_pltrel t)).
  assert (Hws' : ws = (wsR ++ wsD) ++ wsP) by (unfold ws, table_writes; by rewrite app_assoc).
  assert (HwsR : wsR ⊆ ws) by set_solver. assert (HwsD : wsD ⊆ ws) by set_solver. assert (HwsP : wsP ⊆ ws) by set_solver.
  unfold bind at 1, lift at 1. cbn [unwrap].
  rewrite (bind_run _ _ _ _ _ (relative_pass common (t_relative t) ws w Hws HR Hrel HwsR)). fold b wsR.
  set (m1 := apply_writes (mem w) wsR). pose proof (writes_same ws w Hws wsR HwsR) as Hm1. fold m1 in Hm1.
  rewrite (bind_run _ _ _ _ _ (dynrel_pass common scope pre_find deal_unknown st _ _ _ ws w HD Hdyn Hws m1 Hm1 HwsD)). fold wsD.
  set (m2 := apply_writes m1 wsD).
  assert (Hm2 : same_but ws (mem w) m2).
  { unfold m2, m1. rewrite <- apply_writes_app. apply (writes_same ws w Hws). set_solver. }
  assert (H3 : relocate_pltrel (c_relocation common) (c_core common) st scope pre_find deal_unknown
      (after m2 (t_dynrel t ≫= t_dyn_calls t) w) =
    (Ok tt, after (apply_writes m2 wsP) (t_pltrel t ≫= t_plt_calls t) (after m2 (t_dynrel t ≫= t_dyn_calls t) w))).
  { apply (relocate_pltrel_runs (c_core common) st scope pre_find deal_unknown (after m2 _ w)); [by apply HP| |by apply (writes_at ws w)].
    eapply Forall_impl; [exact Hplt|]. intros x Hx. by apply (plt_effect_later _ _ _ _ w _ _ ws). }
  rewrite (bind_run _ _ _ _ _ H3). rewrite after_after. fold (table_calls t). clear H3.
  rewrite Hws', !apply_writes_app. fold m1 m2. unfold protects in Hpro. destruct (c_relro common) as [r|].
  - rewrite (bind_run _ _ _ _ _ (Hpro _)). by rewrite after_after.
  - subst es. by rewrite app_nil_r.
Qed.

(** The run behind the theorem below. *)
Lemma relocate_impl_completes_run common scope pre_find deal_unknown lazy t es fs cell w :
  relocatable common scope pre_find t w -> c_lazy common = false -> protects (c_relro common) es ->
  (forall m, relocated (table_writes (core_base (c_core common)) t) (mem w) m ->
     fn_list m (i_init_fn (c_init common)) (i_init_array_fn (c_init common)) = Ok fs) ->
  (forall f v, f ∈ fs -> is_Some (native_call v f (init_args (c_init common)))) ->
  arcs w !! arc_ptr (c_core common) = Some cell ->
  (forall v, exists v', drop_lazy lazy v = (Ok tt, v')) ->
  exists w1 w2 w',
    relocate_tables common scope pre_find deal_unknown lazy w = (Ok (c_core common), w1) /\
    relocated (table_writes (core_base (c_core common)) t) (mem w) (mem w1) /\
    log w2 = log w ++ table_calls t ++ es ++ ((fun f => EvCall f (init_args (c_init common))) <$> fs) /\
    arcs w2 = <[arc_ptr (c_core common) := mk_cell (strong cell) (weak cell) true]> (arcs w) /\
    (forall K, native_keeps K -> K (mem w1) -> K (mem w2)) /\
    drop_lazy lazy w2 = (Ok tt, w') /\
    relocate_impl common scope pre_find deal_unknown lazy w = (Ok (c_core common), w').
Proof.
  intros Ht Hlazy Hpro Hfs Hret Hcell Hdrop.
  pose proof (relocate_tables_runs common scope pre_find deal_unknown lazy t es w Ht Hlazy Hpro) as Htab.
  set (ws := table_writes (core_base (c_core common)) t) in *.
  set (w1 := after (apply_writes (mem w) ws) (table_calls t ++ es) w) in *.
  assert (Hrel : relocated ws (mem w) (mem w1)).
  { apply relocated_writes; [|apply Ht]. eapply Forall_impl; [apply (rt_writes _ _ _ _ _ Ht)|]. naive_solver. }
  destruct (calls_return (init_args (c_init common)) fs w1 Hret) as (w2 & Hcalls & Hkeep).
  pose proof (for_each_calls _ _ _ _ Hcalls) as [Hlog Harc]. cbn [w1 after log arcs] in Hlog, Harc.
  set (w3 := set_arcs (<[arc_ptr (c_core common) := mk_cell (strong cell) (weak cell) true]> (arcs w2)) w2).
  destruct (Hdrop w3) as [w' Hw'].
  exists w1, w3, w'. split; [done|]. split; [done|]. split; [cbn [w3 log set_arcs]; by rewrite Hlog, <- !app_assoc|].
  split; [cbn [w3 arcs set_arcs]; by rewrite Harc|]. split; [exact Hkeep|]. split; [done|].
  unfold relocate_impl. apply on_unwind_run. unfold relocate_body.
  rewrite (bind_run _ _ _ _ _ (on_unwind_run _ _ _ _ _ Htab)).
  assert (Hinit : call_init (c_init common) w1 = (Ok tt, w2)).
  { unfold call_init, bind, reads. rewrite (Hfs _ Hrel). unfold init_args in Hcalls. by destruct (init_param _). }
  rewrite (bind_run _ _ _ _ _ Hinit).
  assert (Hset : set_init (c_core common) w2 = (Ok tt, w3)).
  { unfold set_init, update_cell, w3. by rewrite Harc, Hcell. }
  rewrite (bind_run _ _ _ _ _ Hset), Hlazy. by rewrite (bind_run _ _ _ _ _ Hw').
Qed.

(** C13: a relocation whose parts succeed succeeds as a whole.  When every entry of
    the three tables can be resolved, the slots are mapped and apart, RELRO can be
    protected and the initialisers return, [relocate_impl] gives the object back:
    when the first initialiser starts every slot holds what its entry calls for and
    the rest of the memory is as it was; the resolvers of indirect functions, the
    protection and the initialisers have run in this order, which break nothing that
    native code keeps; and the object counts as initialised. *)
Theorem relocate_impl_completes common scope pre_find deal_unknown lazy t es fs cell w :
  relocatable common scope pre_find t w -> c_lazy common = false -> protects (c_relro common) es ->
  (forall m, relocated (table_writes (core_base (c_core common)) t) (mem w) m ->
     fn_list m (i_init_fn (c_init common)) (i_init_array_fn (c_init common)) = Ok fs) ->
  (forall f v, f ∈ fs -> is_Some (native_call v f (init_args (c_init common)))) ->
  arcs w !! arc_ptr (c_core common) = Some cell ->
  (forall v, exists v', drop_lazy lazy v = (Ok tt, v')) ->
  exists w1 w2 w',
    relocate_tables common scope pre_find deal_unknown lazy w = (Ok (c_core common), w1) /\
    relocated (table_writes (core_base (c_core common)) t) (mem w) (mem w1) /\
    log w2 = log w ++ table_calls t ++ es ++ ((fun f => EvCall f (init_args (c_init common))) <$> fs) /\
    arcs w2 = <[arc_ptr (c_core common) := mk_cell (strong cell) (weak cell) true]> (arcs w) /\
    (forall K, native_keeps K -> K (mem w1) -> K (mem w2)) /\
    drop_lazy lazy w2 = (Ok tt, w') /\
    relocate_impl common scope pre_find deal_unknown lazy w = (Ok (c_core common), w').
Proof. exact (relocate_impl_completes_run common scope pre_find deal_unknown lazy t es fs cell w). Qed.
End complete.

(** ** Example

    The tables of the example of [Relocation.v], all three at once; the word that the
    relative pass stores is an entry of the array of initialisers. *)

Definition full_relocation : ElfRelocation := mk_relocation (mk_slice 9000 1) (mk_slice 9400 2) (mk_slice 9024 2).
Definition full_common : ElfCommonPart :=
  mk_common 0 None full_relocation None (mk_init None (Some 300) (Some (mk_slice 65792 1))) false None None None
    demo_reloc_core.
Definition full_tables : tables :=
  mk_tables [mk_rela 256 8 64] (drop 1 demo_relas) demo_plt_now demo_effect (fun _ => []) demo_now_effect demo_now_calls.
Definition full_writes : list (Z * bytes) := [word 65792 65600; word 65800 777; word 65808 65600; word 65816 0].

Lemma full_outside m' a :
  same_but full_writes (mem demo_reloc_world) m' -> a < 65792 -> m' !! a = mem demo_reloc_world !! a.
Proof.
  intros [_ Ho] Ha. apply Ho. unfold full_writes. repeat (constructor; [rewrite wr_end_word; cbn [fst word]; lia|]). constructor.
Qed.

(** The symbols, the names and the tables lie below the slots. *)
Lemma full_symbol idx s info :
  symbol_idx (H := default_config) (mem demo_reloc_world) demo_symtab idx = Ok (s, info) ->
  padd (symtab demo_symtab) (SYM_SIZE * idx) + SYM_SIZE <= 65792 ->
  padd (strtab_data (strtab demo_symtab)) (st_name s) + Z.of_nat (length (si_name info)) < 65792 ->
  stable demo_reloc_world full_writes (fun m => symbol_idx (H := default_config) m demo_symtab idx = Ok (s, info)).
Proof.
  intros Hok H1 H2 m' Hm. apply (symbol_idx_frame (H := default_config) (mem demo_reloc_world)); [done|done| |];
    intros a Ha; apply full_outside; (done || lia).
Qed.

Lemma full_table s l :
  read_slice read_rela RELA_SIZE (mem demo_reloc_world) s = Ok l ->
  sl_ptr s + RELA_SIZE * Z.of_nat (Z.to_nat (sl_len s)) <= 65792 ->
  stable demo_reloc_world full_writes (fun m => read_slice read_rela RELA_SIZE m s = Ok l).
Proof. intros Hok Hs m' Hm. rewrite <- Hok. apply read_table_frame. intros a Ha. apply full_outside; [done|lia]. Qed.

Lemma full_relocatable :
  @relocatable default_config (x86_64 0) demo_native full_common [demo_helper] demo_pre_find full_tables demo_reloc_world.
Proof.
  assert (Hws : table_writes (core_base (c_core full_common)) full_tables = full_writes) by reflexivity.
  constructor; rewrite ?Hws.
  - exists demo_symtab. split; [done|]. split.
    + constructor; [|constructor; [|constructor]].
      * change (t_dyn_write full_tables _) with (Some (word (slot (core_base demo_reloc_core) (mk_rela 264 (Z.shiftl 2 32 + 6) 5)) 777)).
        apply (eff_symbol _ _ _ _ _ _ _ (mk_symbol 7 18 0 7 4660 8)
                 (mk_syminfo (bytes_of "alpha") (Some (bytes_of "alpha")) None)).
        -- by left.
        -- by apply full_symbol; vm_compute.
        -- apply value_pre. intros w'. reflexivity.
      * by apply eff_none.
    + constructor; [|constructor; [|constructor]].
      * change (t_plt_write full_tables _)
          with (Some (word (slot (core_base demo_reloc_core) (mk_rela 272 (Z.shiftl 1 32 + 7) 0)) (65536 + 64))).
        change (t_plt_calls full_tables _) with (@nil event).
        apply (plt_symbol _ _ _ _ _ _ _ (mk_symbol 1 1 0 7 64 0)
                 (mk_syminfo (bytes_of "gamma") (Some (bytes_of "gamma")) None)); [reflexivity|by apply full_symbol; vm_compute|].
        apply (value_def _ _ _ _ _ _ _ (mk_symbol 1 1 0 7 64 0) 65536); [reflexivity| |discriminate|by split].
        intros m' _. reflexivity.
      * change (t_plt_write full_tables _) with (Some (word (slot (core_base demo_reloc_core) (mk_rela 280 37 100)) 0)).
        change (t_plt_calls full_tables _) with [EvCall (core_base demo_reloc_core + r_addend (mk_rela 280 37 100)) []].
        apply (plt_ifunc _ _ _ _ _ _ _ 0); [reflexivity|by split|]. intros m' _ es. reflexivity.
  - vm_compute. reflexivity.
  - by apply full_table; vm_compute.
  - by apply full_table; vm_compute.
  - constructor; [|constructor]. by split.
  - repeat (constructor; [split; [by split|apply write_mapped_word, slot_mapped_check; by vm_compute]|]). constructor.
  - unfold full_writes. repeat (constructor; [repeat (constructor; [by left|]); constructor|]). constructor.
Qed.

Lemma relocate_impl_completes_witness :
  exists w2 w',
    log w2 = [EvCall 65636 []; EvCall 300 []; EvCall 65600 []] /\ arcs w2 = {[900 := mk_cell 1 0 true]} /\
    @relocate_impl default_config (x86_64 0) demo_native full_common [demo_helper] demo_pre_find demo_unknown None
      demo_reloc_world = (Ok demo_reloc_core, w').
Proof.
  destruct (@relocate_impl_completes default_config (x86_64 0) _ demo_native full_common [demo_helper] demo_pre_find
    demo_unknown None full_tables [] [300; 65600] (mk_cell 1 0 false) demo_reloc_world full_relocatable)
    as (w1 & w2 & w' & _ & _ & Hlog & Harc & _ & _ & Hrun).
  - reflexivity.
  - reflexivity.
  - intros m [_ Hw]. unfold fn_list. cbn [i_init_fn i_init_array_fn c_init full_common default].
    assert (Hword : read_u64 m 65792 = Ok 65600).
    { apply read_word; [by split|]. apply Hw. by left. }
    change (read_slice read_fn 8 m _) with (x ← read_fn m 65792; xs ← Ok []; Ok (x :: xs)).
    unfold read_fn. by rewrite Hword.
  - intros f v _. by eexists.
  - reflexivity.
  - intros v. by eexists.
  - exists w2, w'. split; [exact Hlog|]. split; [exact Harc|exact Hrun].
Defined.
