(* ===== verification/Linked.v ===== *)
(** * Linked: relocation against an abstract linker

    Which bytes a symbol table occupies, so that it survives what a relocation
    writes and can be moved with the image it is part of; an abstract linker, that
    resolves names in lists of exported symbols; and the theorem that
    [relocate_impl] stores in every slot the value this linker gives it. *)

From S2P Require Import Prelude Machine Arch StrTab Version Segment Symbol UserData Loader Core Relocation Complete.
#[local] Open Scope Z_scope.

(** ** The bytes of a table

    A range is an address and a length. *)

Notation range := (Z * Z)%type (only parsing).

Definition covered (rs : list range) (a : Z) : Prop := Exists (fun r => r.1 <= a < r.1 + r.2) rs.

(** Every range lies between [lo] and [hi]. *)
Definition ranges_in (lo hi : Z) (rs : list range) : Prop := Forall (fun r => lo <= r.1 /\ 0 <= r.2 /\ r.1 + r.2 <= hi) rs.

(** [m'] has at [b + a] what [m] has at [a]. *)
Definition moved (b : Z) (rs : list range) (m m' : memory) : Prop :=
  forall a, covered rs a -> m' !! (b + a) = m !! a.

Definition str_range (st : SymbolTable) (sym : ElfSymbol) (name : bytes) : range :=
  (strtab_data (strtab st) + st_name sym, Z.of_nat (length name) + 1).

(** What a lookup may read. *)
Definition gnu_ranges (st : SymbolTable) (syms : list gsym) : list range :=
  let ht := hashtab st in
  [(blooms ht, 8 * nbloom (header ht)); (buckets ht, 4 * nbucket (header ht));
   (chains ht, 4 * Z.of_nat (length syms));
   (symtab st + SYM_SIZE * symbias (header ht), SYM_SIZE * Z.of_nat (length syms))] ++
  ((fun s => str_range st (gs_sym s) (gs_name s)) <$> syms).

(** The table when its image is moved by [b]. *)
Definition move_table (b : Z) (st : SymbolTable) : SymbolTable :=
  let ht := hashtab st in
  mk_symtab (mk_gnu_hash (header ht) (b + blooms ht) (b + buckets ht) (b + chains ht)) (b + symtab st)
    (mk_strtab (b + strtab_data (strtab st))) (version st).

Lemma covered_in rs r a : r ∈ rs -> r.1 <= a < r.1 + r.2 -> covered rs a.
Proof. intros Hr Ha. apply Exists_exists. by exists r. Qed.

Lemma ranges_in_elem lo hi rs r : ranges_in lo hi rs -> r ∈ rs -> lo <= r.1 /\ 0 <= r.2 /\ r.1 + r.2 <= hi.
Proof. unfold ranges_in. rewrite Forall_forall. auto. Qed.

Lemma ranges_in_lower lo lo' hi rs : lo' <= lo -> ranges_in lo hi rs -> ranges_in lo' hi rs.
Proof. intros Hlo Hr. eapply Forall_impl; [exact Hr|]. simpl. lia. Qed.

Lemma moved_load b rs m m' r a n :
  moved b rs m m' -> r ∈ rs -> r.1 <= a -> a + Z.of_nat n <= r.1 + r.2 -> load_le m' (b + a) n = load_le m a n.
Proof.
  intros Hm Hr H1 H2. unfold load_le. rewrite (load_bytes_shift m' m (b + a) a); [done|].
  intros i Hi. rewrite <- Z.add_assoc. apply Hm. apply (covered_in _ r); [done|lia].
Qed.

Lemma moved_symbol b rs m m' r a :
  moved b rs m m' -> r ∈ rs -> r.1 <= a -> a + SYM_SIZE <= r.1 + r.2 -> read_symbol m' (b + a) = read_symbol m a.
Proof.
  unfold SYM_SIZE. intros Hm Hr H1 H2. unfold read_symbol, read_u8, read_u16, read_u32, read_u64.
  rewrite <- !Z.add_assoc. repeat (apply bind_ext; [by apply (moved_load b rs m m' r); [..|lia|lia]|intros ?]). done.
Qed.

Lemma moved_cstr b rs m m' a s :
  moved b rs m m' -> (a, Z.of_nat (length s) + 1) ∈ rs -> cstr_at m a s -> cstr_at m' (b + a) s.
Proof.
  intros Hm Hr (Hl & Hz & Hnz). split_and!; [|rewrite <- Z.add_assoc, <- Hz; apply Hm; apply (covered_in _ _ _ Hr); simpl; lia|done].
  rewrite <- Hl. apply load_bytes_shift. intros i Hi. rewrite <- Z.add_assoc. apply Hm. apply (covered_in _ _ _ Hr). simpl. lia.
Qed.

(** A well-formed table is one wherever its bytes are. *)
Lemma gnu_table_moved b lo hi m m' st syms :
  0 <= lo -> 0 <= b -> b + hi < U64_LIM -> ranges_in lo hi (gnu_ranges st syms) ->
  gnu_table m st syms -> moved b (gnu_ranges st syms) m m' -> gnu_table m' (move_table b st) syms.
Proof.
  intros Hlo Hb Hhi Hin Htab Hm. set (ht := hashtab st).
  assert (Hr : forall r, r ∈ gnu_ranges st syms -> lo <= r.1 /\ 0 <= r.2 /\ r.1 + r.2 <= hi) by (intros r; by apply ranges_in_elem).
  assert (Hbl : (blooms ht, 8 * nbloom (header ht)) ∈ gnu_ranges st syms) by (unfold gnu_ranges; set_solver).
  assert (Hbu : (buckets ht, 4 * nbucket (header ht)) ∈ gnu_ranges st syms) by (unfold gnu_ranges; set_solver).
  assert (Hch : (chains ht, 4 * Z.of_nat (length syms)) ∈ gnu_ranges st syms) by (unfold gnu_ranges; set_solver).
  assert (Hsy : (symtab st + SYM_SIZE * symbias (header ht), SYM_SIZE * Z.of_nat (length syms)) ∈ gnu_ranges st syms)
    by (unfold gnu_ranges; set_solver).
  pose proof (Hr _ Hbl) as Rbl. pose proof (Hr _ Hbu) as Rbu. pose proof (Hr _ Hch) as Rch. pose proof (Hr _ Hsy) as Rsy.
  cbn [fst snd] in Rbl, Rbu, Rch, Rsy. destruct (gt_placed _ _ _ Htab) as [P1 P2 P3 P4 P5 P6]. fold ht in P1, P2, P3, P4, P5, P6.
  assert (Hbucket : forall i, 0 <= i < nbucket (header ht) -> read_bucket m' (hashtab (move_table b st)) i = read_bucket m ht i).
  { intros i Hi. unfold read_bucket. cbn [move_table hashtab buckets]. fold ht. rewrite !padd_small by lia. rewrite <- Z.add_assoc.
    apply (moved_load b _ m m' _ _ _ Hm Hbu); cbn [fst snd]; lia. }
  assert (Hbloom : forall i, 0 <= i < nbloom (header ht) -> read_bloom m' (hashtab (move_table b st)) i = read_bloom m ht i).
  { intros i Hi. unfold read_bloom. cbn [move_table hashtab blooms]. fold ht. rewrite !padd_small by lia. rewrite <- Z.add_assoc.
    apply (moved_load b _ m m' _ _ _ Hm Hbl); cbn [fst snd]; lia. }
  destruct Htab as [_ Hsym Hchain Hsort Hbk Hblm Hbits]. fold ht in Hsym, Hchain, Hsort, Hbk, Hblm, Hbits.
  unfold SYM_SIZE in *.
  constructor; cbn [move_table hashtab header symtab strtab]; fold ht; try done.
  - constructor; cbn [move_table hashtab header symtab chains]; fold ht; try done; unfold SYM_SIZE; lia.
  - intros i s Hs. destruct (Hsym i s Hs) as [H1 H2]. pose proof (lookup_lt_Some _ _ _ Hs). split.
    + rewrite <- Z.add_assoc, (moved_symbol b _ m m' _ _ Hm Hsy); cbn [fst snd]; [done|unfold SYM_SIZE; lia..].
    + assert (Hstr : str_range st (gs_sym s) (gs_name s) ∈ gnu_ranges st syms).
      { apply elem_of_app. right. apply (list_elem_of_fmap_2 (fun s => str_range st (gs_sym s) (gs_name s))).
        by apply list_elem_of_lookup_2 in Hs. }
      pose proof (Hr _ Hstr) as Rs. unfold str_range in Rs. cbn [fst snd] in Rs. unfold str_at in *. cbn [strtab_data].
      rewrite padd_small in H2 |- * by lia. rewrite <- Z.add_assoc. apply (moved_cstr b (gnu_ranges st syms) m); done.
  - intros i s Hs. destruct (Hchain i s Hs) as (c & Hc & H1 & H2). exists c. split; [|done].
    pose proof (lookup_lt_Some _ _ _ Hs). unfold read_u32. cbn [chains]. rewrite <- Z.add_assoc.
    rewrite (moved_load b _ m m' _ _ _ Hm Hch); cbn [fst snd]; [done|lia..].
  - intros i Hi. rewrite Hbucket by done. by apply Hbk.
  - intros i Hi. rewrite Hbloom by done. by apply Hblm.
  - intros i s v Hs Hv. change (read_bloom m' (hashtab (move_table b st)) (bloom_word ht (gs_hash s)) = Ok v) in Hv.
    apply (Hbits i s v Hs). rewrite <- Hv. symmetry. apply Hbloom.
    unfold bloom_word. pose proof (land_le_r (gs_hash s / 64) (nbloom (header ht) - 1)).
    pose proof (gnu_hash_range (gs_name s)). unfold gs_hash in *. lia.
Qed.

Lemma move_table_0 st : move_table 0 st = st.
Proof. destruct st as [[h bl bu ch] sy [sd] v]. done. Qed.

(** ** The abstract linker *)

(** A library of the scope: where it was loaded, and the symbols it exports. *)
Record library := mk_library { lib_base : Z; lib_table : SymbolTable; lib_syms : list gsym }.

Definition lib_helper (l : library) : RelocateHelper := mk_helper (lib_base l) (lib_table l).

(** The first export with the name counts, and only if it can be linked to. *)
Definition exported (name : bytes) (l : library) : option ElfSymbol :=
  match find_from (fun _ s => bool_decide (gs_name s = name)) 0 (lib_syms l) with
  | Some (_, s) => if decide (usable (gs_sym s)) then Some (gs_sym s) else None
  | None => None
  end.

(** What a reference to [sym], called [name], in an object at [base] means: itself
    when it is local, else the first definition in the order of the scope. *)
Definition definition (libs : list library) (base : Z) (sym : ElfSymbol) (name : bytes) : option (Z * ElfSymbol) :=
  if is_local sym then Some (base, sym)
  else find_map (fun l => pair (lib_base l) <$> exported name l) libs.

(** Its address: the user's choice first; null for a weak reference to nothing. *)
Definition resolve_address (pre : bytes -> option Z) (libs : list library) (base : Z) (sym : ElfSymbol) (name : bytes) :
    option Z :=
  match pre name with
  | Some v => Some v
  | None =>
      match definition libs base sym name with
      | Some (b, s) => Some (b + st_value s)
      | None => if is_weak sym && is_undef sym then Some 0 else None
      end
  end.

(** A table of a library in memory. *)
Record library_in (m : memory) (l : library) : Prop := {
  li_table : gnu_table m (lib_table l) (lib_syms l);
  li_typed : forall i s, lib_syms l !! i = Some s -> 0 <= sym_st_info (gs_sym s) < U8_LIM;
  li_ranges : exists hi, hi < U64_LIM /\ ranges_in 0 hi (gnu_ranges (lib_table l) (lib_syms l));
}.

Lemma find_map_outcome_fmap {A B C} (h : A -> B) (f : B -> outcome (option C)) l :
  find_map_outcome f (h <$> l) = find_map_outcome (fun x => f (h x)) l.
Proof. induction l as [|x l IH]; [done|]. simpl. by rewrite <- IH. Qed.

Lemma find_map_fmap {A B C} (h : B -> C) (f : A -> option B) l :
  find_map (fun x => h <$> f x) l = h <$> find_map f l.
Proof. induction l as [|x l IH]; [done|]. simpl. by destruct (f x). Qed.

Section resolution.
Context `{Config}.

Lemma lookup_exported m l info :
  library_in m l -> si_version info = None -> lookup_filter m (lib_table l) info = Ok (exported (si_name info) l).
Proof.
  intros [Ht Hty _] Hv. rewrite (lookup_filter_typed m (lib_table l) (lib_syms l) Ht info (fun _ => true)); [|..|done].
  - unfold lookup_spec, matches, exported. f_equal.
    assert (Hext : forall l0 n, find_from (fun _ s => bool_decide (gs_name s = si_name info) && true) n l0 =
      find_from (fun _ s => bool_decide (gs_name s = si_name info)) n l0).
    { induction l0 as [|x l0 IH]; intros n; simpl; [done|]. rewrite andb_true_r. by rewrite IH. }
    rewrite Hext. by destruct (find_from _ _ _) as [[i s]|].
  - intros i s Hs He. unfold candidate. rewrite bool_decide_true by done. destruct feature_version; [|done]. by rewrite Hv.
Qed.

(** The scope search is the abstract one. *)
Lemma find_symdef_definition m core libs sym info :
  Forall (library_in m) libs -> si_version info = None ->
  (is_weak sym && is_undef sym = true -> st_value sym = 0) ->
  find_symdef m core (lib_helper <$> libs) sym info =
    Ok (match definition libs (core_base core) sym (si_name info) with
        | Some (b, s) => Some (mk_symdef (Some s) b)
        | None => if is_weak sym && is_undef sym then Some (mk_symdef None (core_base core)) else None
        end).
Proof.
  intros Hlibs Hv Hweak. unfold find_symdef, definition. destruct (is_local sym); [done|].
  rewrite find_map_outcome_fmap.
  rewrite (find_map_outcome_pure _ (fun l => (fun bs => mk_symdef (Some bs.2) bs.1) <$> (pair (lib_base l) <$> exported (si_name info) l))).
  - rewrite find_map_fmap, bind_Ok. destruct (find_map _ libs) as [[b s]|]; [done|]. simpl.
    destruct (is_weak sym && is_undef sym); [|done]. by rewrite Hweak.
  - intros l Hl. rewrite Forall_forall in Hlibs. cbn [lib_helper rh_symtab rh_base].
    rewrite (lookup_exported m l info (Hlibs l Hl) Hv), bind_Ok. by destruct (exported _ _).
Qed.
End resolution.

(** ** The values of the entries *)

Section values.
Context `{Arch} `{!ArchOk _} (libs : list library) (pre : bytes -> option Z).

(** The symbols of the object, by index, and its load base. *)
Context (own : Z -> ElfSymbol * bytes) (base : Z).

Definition symbolic (t : Z) : bool := (t =? REL_GOT) || (t =? REL_SYMBOLIC) || (t =? REL_JUMP_SLOT).

(** The addend that belongs to a symbol's address, by the comment above the match of
    [relocate_dynrel] ("REL_GOT: S  REL_SYMBOLIC: S + A").  The code leaves it out. *)
Definition dropped_addend (x : ElfRela) : Z := if r_type x =? REL_SYMBOLIC then r_addend x else 0.

(** The word that an entry calls for. *)
Definition word_of (x : ElfRela) : option Z :=
  let '(sym, name) := own (r_symbol x) in
  if r_type x =? REL_RELATIVE then Some (base + r_addend x)
  else if symbolic (r_type x) then (fun s => s + dropped_addend x) <$> resolve_address pre libs base sym name
  else if r_type x =? REL_DTPOFF then
    (fun bs => (st_value bs.2 + r_addend x - TLS_DTV_OFFSET) mod U64_LIM) <$> definition libs base sym name
  else None.

(** The word that the code stores. *)
Definition stored_word (x : ElfRela) : option Z := (fun v => v - dropped_addend x) <$> word_of x.

Definition entry_write (x : ElfRela) : option (Z * bytes) := word (slot base x) <$> stored_word x.

(** The definition can be used as it is: no resolver has to be called, and its
    address is one. *)
Definition plain_definition (d : option (Z * ElfSymbol)) : Prop :=
  forall b s, d = Some (b, s) -> st_type s <> STT_GNU_IFUNC /\ 0 <= b + st_value s < U64_LIM.

(** A reference that can be resolved. *)
Record resolvable (x : ElfRela) : Prop := {
  rs_value : is_Some (stored_word x);
  rs_plain : pre (own (r_symbol x)).2 = None ->
    plain_definition (definition libs base (own (r_symbol x)).1 (own (r_symbol x)).2);
  rs_weak : is_weak (own (r_symbol x)).1 && is_undef (own (r_symbol x)).1 = true -> st_value (own (r_symbol x)).1 = 0;
}.

(** The entries of the two tables. *)
Inductive dyn_entry_ok (x : ElfRela) : Prop :=
  | deo_none : r_type x = REL_NONE -> dyn_entry_ok x
  | deo_relative : r_type x = REL_RELATIVE -> 0 <= base + r_addend x < U64_LIM -> dyn_entry_ok x
  | deo_symbol : r_type x = REL_GOT \/ r_type x = REL_SYMBOLIC -> resolvable x -> dyn_entry_ok x
  | deo_dtpoff : r_type x = REL_DTPOFF -> resolvable x ->
      (forall b s, definition libs base (own (r_symbol x)).1 (own (r_symbol x)).2 = Some (b, s) ->
         0 <= st_value s + r_addend x < U64_LIM) -> dyn_entry_ok x.

Definition plt_entry_ok (x : ElfRela) : Prop := r_type x = REL_JUMP_SLOT /\ resolvable x.

Definition needs_symbol (x : ElfRela) : bool := negb (r_type x =? REL_NONE) && negb (r_type x =? REL_RELATIVE).

(** The kinds of entries do not overlap. *)
Ltac rel_kinds Hn :=
  let H0 := fresh in pose proof rel_types_distinct as H0; unfold rel_types in H0;
  rewrite !NoDup_cons, !not_elem_of_cons in H0;
  repeat match goal with Hc : _ /\ _ |- _ => destruct Hc end; rewrite Hn;
  repeat match goal with |- context [?a =? ?b] => rewrite (proj2 (Z.eqb_neq a b)) by congruence end; rewrite ?Z.eqb_refl.

Lemma stored_of_word x v : word_of x = Some v -> stored_word x = Some (v - dropped_addend x).
Proof. unfold stored_word. by intros ->. Qed.

Lemma word_of_stored x v : stored_word x = Some v -> exists u, word_of x = Some u /\ v = u - dropped_addend x.
Proof. unfold stored_word. destruct (word_of x) as [u|]; [|done]. intros [= <-]. by exists u. Qed.

Lemma stored_is_Some x : is_Some (stored_word x) <-> is_Some (word_of x).
Proof. apply fmap_is_Some. Qed.

(** But for an addend of [REL_SYMBOLIC] it is the same. *)
Lemma stored_as_word x : (r_type x = REL_SYMBOLIC -> r_addend x = 0) -> stored_word x = word_of x.
Proof.
  intros Hx. assert (Hd : dropped_addend x = 0) by (unfold dropped_addend; destruct (Z.eqb_spec (r_type x) REL_SYMBOLIC); auto).
  unfold stored_word. rewrite Hd. destruct (word_of x) as [v|]; [|done]. simpl. f_equal. lia.
Qed.

Lemma add_sub_word (a : Z) (o : option Z) : (fun v => v - a) <$> ((fun s => s + a) <$> o) = o.
Proof. destruct o as [s|]; [|done]. simpl. f_equal. lia. Qed.

Lemma sub_word_0 (o : option Z) : (fun v => v - 0) <$> o = o.
Proof. destruct o as [s|]; [|done]. simpl. f_equal. lia. Qed.

Lemma stored_none x : r_type x = REL_NONE -> stored_word x = None.
Proof. intros Hn. unfold stored_word, word_of, symbolic. destruct (own _) as [s n]. by rel_kinds Hn. Qed.

Lemma stored_relative x : r_type x = REL_RELATIVE -> stored_word x = Some (base + r_addend x).
Proof.
  intros Hn. unfold stored_word, word_of, dropped_addend. destruct (own _) as [s n]. rel_kinds Hn. apply sub_word_0.
Qed.

Lemma stored_symbolic x : r_type x = REL_GOT \/ r_type x = REL_SYMBOLIC \/ r_type x = REL_JUMP_SLOT ->
  needs_symbol x = true /\
  stored_word x = resolve_address pre libs base (own (r_symbol x)).1 (own (r_symbol x)).2.
Proof.
  intros Ht. unfold stored_word, word_of, symbolic, needs_symbol. destruct (own _) as [s n]. cbn [fst snd].
  destruct Ht as [Hn|[Hn|Hn]]; rel_kinds Hn; cbn [orb negb andb]; (split; [done|apply add_sub_word]).
Qed.

Lemma stored_dtpoff x : r_type x = REL_DTPOFF ->
  needs_symbol x = true /\
  stored_word x = (fun bs => (st_value bs.2 + r_addend x - TLS_DTV_OFFSET) mod U64_LIM) <$>
    definition libs base (own (r_symbol x)).1 (own (r_symbol x)).2.
Proof.
  intros Hn. unfold stored_word, word_of, symbolic, needs_symbol, dropped_addend. destruct (own _) as [s n]. cbn [fst snd].
  rel_kinds Hn. cbn [orb negb andb]. split; [done|apply sub_word_0].
Qed.

(** What the three tables [R], [D] and [P] ask for. *)
Definition link_tables (D P R : list ElfRela) : tables :=
  mk_tables R D P entry_write (fun _ => []) entry_write (fun _ => []).
Definition link_writes (D P R : list ElfRela) : list (Z * bytes) := table_writes base (link_tables D P R).

Lemma link_writes_eq D P R : Forall (fun x => r_type x = REL_RELATIVE) R ->
  link_writes D P R = omap entry_write (R ++ D ++ P).
Proof.
  intros HR. unfold link_writes, table_writes, link_tables. cbn [t_relative t_dynrel t_pltrel t_dyn_write t_plt_write].
  rewrite !omap_app. f_equal. induction HR as [|x R Hx _ IH]; [done|]. cbn. unfold entry_write at 1.
  by rewrite (stored_relative x Hx), IH.
Qed.

Lemma link_write_elem D P R s : Forall (fun x => r_type x = REL_RELATIVE) R ->
  s ∈ link_writes D P R <-> exists x v, x ∈ R ++ D ++ P /\ stored_word x = Some v /\ s = word (slot base x) v.
Proof.
  intros HR. rewrite (link_writes_eq D P R HR), list_elem_of_omap. unfold entry_write. split.
  - intros (x & Hx & (v & Hv & ->)%fmap_Some). by exists x, v.
  - intros (x & v & Hx & Hv & ->). exists x. by rewrite Hv.
Qed.

(** The words are addresses. *)
Lemma stored_range x v : (forall name u, pre name = Some u -> 0 <= u < U64_LIM) ->
  dyn_entry_ok x \/ plt_entry_ok x -> stored_word x = Some v -> 0 <= v < U64_LIM.
Proof.
  intros Hpre Hx Hv.
  assert (Hres : resolvable x -> resolve_address pre libs base (own (r_symbol x)).1 (own (r_symbol x)).2 = Some v -> 0 <= v < U64_LIM).
  { intros [_ Hpl _] Hra. unfold resolve_address in Hra. destruct (pre _) as [u|] eqn:Hu; [injection Hra as ->; by apply (Hpre _ _ Hu)|].
    specialize (Hpl eq_refl). destruct (definition _ _ _ _) as [[b s]|]; [injection Hra as <-; by apply (Hpl b s)|].
    destruct (_ && _); [injection Hra as <-; done|done]. }
  destruct Hx as [[Ht|Ht Hr|Ht Hr|Ht Hr _]|[Ht Hr]].
  - by rewrite stored_none in Hv.
  - rewrite stored_relative in Hv by done. by injection Hv as <-.
  - apply Hres; [done|]. rewrite <- Hv. symmetry. apply stored_symbolic. naive_solver.
  - rewrite (proj2 (stored_dtpoff _ Ht)) in Hv. destruct (definition _ _ _ _); [|done].
    injection Hv as <-. by apply Z.mod_pos_bound.
  - apply Hres; [done|]. rewrite <- Hv. symmetry. apply stored_symbolic. naive_solver.
Qed.
End values.

(** ** The symbols of the object *)

Section own.
Context `{Config} (st : SymbolTable) (own : Z -> ElfSymbol * bytes).

(** What is read of a symbol of the object. *)
Definition own_ranges (k : Z) : list range :=
  [(symtab st + SYM_SIZE * k, SYM_SIZE); str_range st (own k).1 (own k).2].

Record own_in (m : memory) (k : Z) : Prop := {
  oi_ranges : exists hi, hi < U64_LIM /\ ranges_in 0 hi (own_ranges k);
  oi_symbol : read_symbol m (symtab st + SYM_SIZE * k) = Ok (own k).1;
  oi_name : cstr_at m (strtab_data (strtab st) + st_name (own k).1) (own k).2;
}.

(** Reading an entry's symbol. *)
Lemma own_symbol_idx m k :
  version st = None -> own_in m k ->
  symbol_idx m st k = Ok ((own k).1, mk_syminfo (own k).2 (Some (own k).2) None).
Proof.
  intros Hv [(hi & Hhi & Hin) Hsym Hname]. inversion Hin as [|? ? R1 R']; subst. inversion R' as [|? ? R2 _]; subst.
  unfold str_range in R2. cbn [fst snd] in R1, R2. unfold SYM_SIZE in *.
  unfold symbol_idx. rewrite padd_small by (unfold SYM_SIZE; lia). unfold SYM_SIZE. rewrite Hsym, bind_Ok. unfold get_cstr.
  rewrite padd_small by lia. rewrite (cstr_from_ptr_at _ _ _ Hname), bind_Ok, Hv. by destruct feature_version.
Qed.

End own.

(** It is read the same when the image is moved. *)
Lemma own_in_move b hi st own m m' k :
  0 <= b -> b + hi < U64_LIM -> ranges_in 0 hi (own_ranges st own k) -> own_in st own m k ->
  moved b (own_ranges st own k) m m' -> own_in (move_table b st) own m' k.
Proof.
  intros Hb Hhi Hin [_ Hs Hn] Hm. inversion Hin as [|? ? R1 R']; subst. inversion R' as [|? ? R2 _]; subst.
  unfold str_range in R2. cbn [fst snd] in R1, R2.
  assert (Hr0 : (symtab st + SYM_SIZE * k, SYM_SIZE) ∈ own_ranges st own k) by (by left).
  assert (Hr1 : str_range st (own k).1 (own k).2 ∈ own_ranges st own k) by (right; by left).
  constructor; cbn [move_table symtab strtab strtab_data].
  - exists (b + hi). split; [done|]. unfold own_ranges, str_range. cbn [move_table symtab strtab strtab_data].
    repeat constructor; cbn [fst snd]; unfold SYM_SIZE in *; lia.
  - rewrite <- Z.add_assoc. rewrite <- Hs. by apply (moved_symbol b _ m m' _ _ Hm Hr0).
  - rewrite <- Z.add_assoc. apply (moved_cstr b (own_ranges st own k) m); done.
Qed.

Lemma own_in_frame st own m m' k : own_in st own m k -> moved 0 (own_ranges st own k) m m' -> own_in st own m' k.
Proof.
  intros Ho Hm. pose proof Ho as [(hi & Hhi & Hr) _ _]. rewrite <- (move_table_0 st). by apply (own_in_move 0 hi st own m).
Qed.

Lemma library_in_moved m m' l :
  library_in m l -> moved 0 (gnu_ranges (lib_table l) (lib_syms l)) m m' -> library_in m' l.
Proof.
  intros [Ht Hty (hi & Hhi & Hr)] Hm. constructor; [|done|by exists hi]. rewrite <- (move_table_0 (lib_table l)).
  by apply (gnu_table_moved 0 0 hi m).
Qed.

(** ** The memory while the passes run *)

Section linking.
Context `{Config} `{Arch} `{!ArchOk _} `{Native}.
Context (core : CoreComponent) (st : SymbolTable) (libs : list library) (pre_find : PreFind) (pre : bytes -> option Z).
Context (own : Z -> ElfSymbol * bytes) (w : world) (D P : list ElfRela).

(** What is written while the tables are processed. *)
Context (ws : list (Z * bytes)).

Local Notation base := (core_base core).

(** What the passes read, apart from the tables of relocations. *)
Definition read_ranges : list range :=
  (libs ≫= fun l => gnu_ranges (lib_table l) (lib_syms l)) ++
  (filter (fun x => needs_symbol x = true) (D ++ P) ≫= fun x => own_ranges st own (r_symbol x)).

(** No slot touches it. *)
Definition apart_from (rs : list range) (ws : list (Z * bytes)) : Prop :=
  Forall (fun s => Forall (fun r => wr_end s <= r.1 \/ r.1 + r.2 <= s.1) rs) ws.

Lemma apart_moved rs l m m' : apart_from rs l -> same_but l m m' -> moved 0 rs m m'.
Proof.
  intros Hap [_ Hout] a Ha. rewrite Z.add_0_l. apply Hout. unfold apart_from in Hap. rewrite Forall_forall in Hap.
  apply Forall_forall. intros s Hs. specialize (Hap s Hs). rewrite Forall_forall in Hap.
  apply Exists_exists in Ha as (r & Hr & Ha). specialize (Hap r Hr). lia.
Qed.

Lemma moved_sub b rs rs' m m' : (forall r, r ∈ rs' -> r ∈ rs) -> moved b rs m m' -> moved b rs' m m'.
Proof.
  intros Hsub Hm a Ha. apply Hm. apply Exists_exists in Ha as (r & Hr & Ha). apply Exists_exists. exists r.
  split; [by apply Hsub|done].
Qed.

Record linkable : Prop := {
  lk_version : version st = None;
  lk_pre : forall name w', pre_find name w' = (Ok (pre name), w');
  lk_pre_range : forall name v, pre name = Some v -> 0 <= v < U64_LIM;
  lk_libs : Forall (library_in (mem w)) libs;
  lk_own : forall x, x ∈ D ++ P -> needs_symbol x = true -> own_in st own (mem w) (r_symbol x);
  lk_dyn : Forall (dyn_entry_ok libs pre own base) D;
  lk_apart : apart_from read_ranges ws;
}.

Hypothesis Hlk : linkable.

Lemma libs_stable : stable w ws (fun m => Forall (library_in m) libs).
Proof.
  intros m' Hm. pose proof (lk_libs Hlk) as Hl. rewrite Forall_forall in Hl |- *. intros l Hl'.
  apply (library_in_moved (mem w)); [by apply Hl|].
  apply (moved_sub 0 read_ranges); [|by apply (apart_moved _ ws); [apply Hlk|]].
  intros r Hr. apply elem_of_app. left. apply list_elem_of_bind. by exists l.
Qed.

Lemma own_stable x : x ∈ D ++ P -> needs_symbol x = true ->
  lookup_stable st w ws x (own (r_symbol x)).1 (mk_syminfo (own (r_symbol x)).2 (Some (own (r_symbol x)).2) None).
Proof.
  intros Hx Hn m' Hm. apply own_symbol_idx; [apply Hlk|]. apply (own_in_frame _ _ (mem w)); [by apply (lk_own Hlk)|].
  apply (moved_sub 0 read_ranges); [|by apply (apart_moved _ ws); [apply Hlk|]].
  intros r Hr. apply elem_of_app. right. apply list_elem_of_bind. exists x. split; [done|]. by apply list_elem_of_filter.
Qed.

(** ** From the linker's values to the effects of the entries *)

Lemma scope_definition x d : x ∈ D ++ P -> resolvable libs pre own base x ->
  definition libs (core_base core) (own (r_symbol x)).1 (own (r_symbol x)).2 = d ->
  match d with
  | Some (b, s) => scope_stable core (lib_helper <$> libs) w ws (own (r_symbol x)).1
                     (mk_syminfo (own (r_symbol x)).2 (Some (own (r_symbol x)).2) None) (mk_symdef (Some s) b)
  | None => is_weak (own (r_symbol x)).1 && is_undef (own (r_symbol x)).1 = true ->
            scope_stable core (lib_helper <$> libs) w ws (own (r_symbol x)).1
              (mk_syminfo (own (r_symbol x)).2 (Some (own (r_symbol x)).2) None) (mk_symdef None (core_base core))
  end.
Proof.
  intros Hx [_ _ Hweak] Hd.
  assert (Hfind : forall m, same_but ws (mem w) m -> find_symdef m core (lib_helper <$> libs) (own (r_symbol x)).1
      (mk_syminfo (own (r_symbol x)).2 (Some (own (r_symbol x)).2) None) = _)
    by (intros m Hm; apply find_symdef_definition; [by apply libs_stable|done|done]).
  cbn [si_name] in Hfind. rewrite Hd in Hfind. destruct d as [[b s]|].
  - intros m Hm. by apply Hfind.
  - intros Hwu m Hm. specialize (Hfind m Hm). by rewrite Hwu in Hfind.
Qed.

Lemma resolve_address_value x v : x ∈ D ++ P -> resolvable libs pre own base x ->
  resolve_address pre libs (core_base core) (own (r_symbol x)).1 (own (r_symbol x)).2 = Some v ->
  symbol_value core (lib_helper <$> libs) pre_find w ws (own (r_symbol x)).1
    (mk_syminfo (own (r_symbol x)).2 (Some (own (r_symbol x)).2) None) v [].
Proof.
  intros Hx Hr. pose proof (scope_definition x _ Hx Hr eq_refl) as Hd. destruct Hr as [_ Hplain _].
  pose proof (lk_pre Hlk) as Hpre. unfold resolve_address. destruct (pre (own (r_symbol x)).2) as [u|] eqn:Hu.
  - intros [= ->]. apply value_pre. intros w'. cbn [si_name]. by rewrite Hpre, Hu.
  - specialize (Hplain eq_refl). destruct (definition _ _ _ _) as [[b s]|] eqn:Hdef.
    + intros [= <-]. destruct (Hplain b s eq_refl). apply value_def; [|done..].
      intros w'. cbn [si_name]. by rewrite Hpre, Hu.
    + destruct (is_weak _ && is_undef _) eqn:Hwu; [|done]. intros [= <-].
      apply (value_weak _ _ _ _ _ _ _ (core_base core)); [|by apply Hd].
      intros w'. cbn [si_name]. by rewrite Hpre, Hu.
Qed.

Lemma dyn_entry_effect x : x ∈ D -> dyn_effect core st (lib_helper <$> libs) pre_find w ws x (entry_write libs pre own base x) [].
Proof.
  intros Hx. pose proof (lk_dyn Hlk) as Hd. rewrite Forall_forall in Hd.
  assert (HxP : x ∈ D ++ P) by (apply elem_of_app; by left). unfold entry_write.
  destruct (Hd x Hx) as [Ht|Ht Hv|Ht Hr|Ht Hr Hv].
  - rewrite stored_none by done. by apply eff_none.
  - rewrite stored_relative by done. by apply eff_relative.
  - destruct (stored_symbolic libs pre own base x) as [Hn Hw]; [naive_solver|]. destruct (rs_value _ _ _ _ _ Hr) as [v Hval]. rewrite Hval.
    apply (eff_symbol _ _ _ _ _ _ _ _ _ _ _ Ht (own_stable x HxP Hn)). apply resolve_address_value; [done|done|congruence].
  - destruct (stored_dtpoff libs pre own base x Ht) as [Hn Hw]. destruct (rs_value _ _ _ _ _ Hr) as [v Hval]. rewrite Hw in Hval |- *.
    pose proof (scope_definition x _ HxP Hr eq_refl) as Hs.
    destruct (definition _ _ _ _) as [[b s]|] eqn:Hdef; [|done]. cbn [fmap option_fmap option_map snd].
    apply (eff_dtpoff _ _ _ _ _ _ _ _ _ _ b Ht (own_stable x HxP Hn) Hs). by apply (Hv b s).
Qed.

Lemma plt_entry_effect x : x ∈ P -> plt_entry_ok libs pre own base x ->
  plt_effect core st (lib_helper <$> libs) pre_find w ws x (entry_write libs pre own base x) [].
Proof.
  intros Hx [Ht Hr]. assert (HxP : x ∈ D ++ P) by (apply elem_of_app; by right). unfold entry_write.
  destruct (stored_symbolic libs pre own base x) as [Hn Hw]; [naive_solver|]. destruct (rs_value _ _ _ _ _ Hr) as [v Hval]. rewrite Hval.
  apply (plt_symbol _ _ _ _ _ _ _ _ _ _ _ Ht (own_stable x HxP Hn)). apply resolve_address_value; [done|done|congruence].
Qed.
End linking.

(** ** An object that can be linked *)

Definition table_range (s : slice) : range := (sl_ptr s, RELA_SIZE * Z.of_nat (Z.to_nat (sl_len s))).

Lemma table_stable w ws s l rs :
  read_slice read_rela RELA_SIZE (mem w) s = Ok l -> apart_from rs ws -> table_range s ∈ rs ->
  stable w ws (fun m => read_slice read_rela RELA_SIZE m s = Ok l).
Proof.
  intros Hr Hap Hin m' Hm. rewrite <- Hr. apply read_table_frame. intros a Ha.
  pose proof (apart_moved rs _ _ _ Hap Hm a) as Hmv. rewrite Z.add_0_l in Hmv. apply Hmv.
  by apply (covered_in _ _ _ Hin).
Qed.

Section links.
Context `{Config} `{Arch} `{!ArchOk _} `{Native}.
Context (common : ElfCommonPart) (libs : list library) (pre_find : PreFind) (pre : bytes -> option Z)
        (own : Z -> ElfSymbol * bytes) (w : world) (D P R : list ElfRela).

Local Notation base := (core_base (c_core common)).
Local Notation writes := (link_writes libs pre own base D P R).

Record links (st : SymbolTable) : Prop := {
  ln_symtab : core_symtab (c_core common) = Some st;
  ln_linkable : linkable (c_core common) st libs pre_find pre own w D P writes;
  ln_plt : Forall (plt_entry_ok libs pre own base) P;
  ln_relative : read_slice read_rela RELA_SIZE (mem w) (rl_relative (c_relocation common)) = Ok R;
  ln_dynrel : read_slice read_rela RELA_SIZE (mem w) (rl_dynrel (c_relocation common)) = Ok D;
  ln_pltrel : read_slice read_rela RELA_SIZE (mem w) (rl_pltrel (c_relocation common)) = Ok P;
  ln_rel : Forall (fun x => r_type x = REL_RELATIVE /\ 0 <= base + r_addend x < U64_LIM) R;
  ln_slots : Forall (fun s => 0 <= s.1 < U64_LIM /\ write_mapped (mem w) s) writes;
  ln_apart : slots_apart writes;
  ln_tables : apart_from [table_range (rl_dynrel (c_relocation common)); table_range (rl_pltrel (c_relocation common))] writes;
}.

Lemma links_relocatable st : links st ->
  relocatable common (lib_helper <$> libs) pre_find (link_tables libs pre own base D P R) w.
Proof.
  intros [Hst Hlk Hplt HR HD HP Hrel Hsl Hap Htab]. constructor; cbn [link_tables t_relative t_dynrel t_pltrel]; try done.
  - exists st. split; [done|]. split; apply Forall_forall; intros x Hx;
      [by apply (dyn_entry_effect _ _ _ _ _ _ _ D P)|apply (plt_entry_effect _ _ _ _ _ _ _ D P); [done..|]].
    rewrite Forall_forall in Hplt. by apply Hplt.
  - apply (table_stable w writes _ _ _ HD Htab). by left.
  - apply (table_stable w writes _ _ _ HP Htab). right. by left.
Qed.

(** When the passes are done the slots hold the words, and nothing else has changed. *)
Lemma links_linked st m : links st -> relocated writes (mem w) m ->
  (forall x v, x ∈ R ++ D ++ P -> stored_word libs pre own base x = Some v -> read_u64 m (slot base x) = Ok v) /\
  (forall a, (forall x, x ∈ R ++ D ++ P -> is_Some (stored_word libs pre own base x) ->
     ~ (slot base x <= a < slot base x + 8)) -> m !! a = mem w !! a).
Proof.
  intros [_ Hlk HP _ _ _ HR _ _ _] [[_ Hout] Hwr].
  assert (Hty : Forall (fun x => r_type x = REL_RELATIVE) R) by (eapply Forall_impl; [exact HR|]; naive_solver). split.
  - intros x v Hx Hv. apply read_word; [|apply Hwr, link_write_elem; [done|by exists x, v]].
    rewrite !elem_of_app in Hx. rewrite Forall_forall in HR. destruct Hx as [Hx|Hx].
    + destruct (HR x Hx) as [Ht Hr]. rewrite stored_relative in Hv by done. by injection Hv as <-.
    + pose proof (lk_dyn _ _ _ _ _ _ _ _ _ _ Hlk) as HD.
      rewrite Forall_forall in HD, HP. eapply stored_range; [apply (lk_pre_range _ _ _ _ _ _ _ _ _ _ Hlk)| |exact Hv].
      destruct Hx as [Hx|Hx]; [left; by apply HD|right; by apply HP].
  - intros a Ha. apply Hout. apply Forall_forall. intros s Hs.
    apply link_write_elem in Hs as (x & v & Hx & Hv & ->); [|done].
    rewrite wr_end_word. specialize (Ha x Hx (ex_intro _ v Hv)). cbn [word fst]. lia.
Qed.

(** The run behind the theorem below. *)
Lemma relocate_impl_links_run st deal_unknown lazy es fs cell :
  links st -> c_lazy common = false -> protects (c_relro common) es ->
  (forall m, relocated writes (mem w) m -> fn_list m (i_init_fn (c_init common)) (i_init_array_fn (c_init common)) = Ok fs) ->
  (forall f v, f ∈ fs -> is_Some (native_call v f (init_args (c_init common)))) ->
  arcs w !! arc_ptr (c_core common) = Some cell ->
  (forall v, exists v', drop_lazy lazy v = (Ok tt, v')) ->
  exists w1 w2 w',
    relocate_tables common (lib_helper <$> libs) pre_find deal_unknown lazy w = (Ok (c_core common), w1) /\
    relocated writes (mem w) (mem w1) /\
    log w2 = log w ++ es ++ ((fun f => EvCall f (init_args (c_init common))) <$> fs) /\
    arcs w2 = <[arc_ptr (c_core common) := mk_cell (strong cell) (weak cell) true]> (arcs w) /\
    (forall K, native_keeps K -> K (mem w1) -> K (mem w2)) /\
    drop_lazy lazy w2 = (Ok tt, w') /\
    relocate_impl common (lib_helper <$> libs) pre_find deal_unknown lazy w = (Ok (c_core common), w').
Proof.
  intros Hl Hlazy Hpro Hfs Hret Hcell Hdrop.
  destruct (relocate_impl_completes_run common (lib_helper <$> libs) pre_find deal_unknown lazy _ es fs cell w
    (links_relocatable st Hl) Hlazy Hpro Hfs Hret Hcell Hdrop) as (w1 & w2 & w' & Htab & Hrel & Hlog & Harc & Hk & Hd & Hrun).
  exists w1, w2, w'. split_and!; try done.
  rewrite Hlog. f_equal. unfold table_calls, link_tables. cbn [t_dynrel t_pltrel t_dyn_calls t_plt_calls].
  assert (Hnil : forall l : list ElfRela, l ≫= (fun _ => []) = @nil event) by (induction l; done). by rewrite !Hnil.
Qed.

(** C6: linking, entry by entry.  An object without symbol versions, whose references the
    abstract linker can resolve in the libraries of its scope to definitions without a
    resolver function, and whose initialisers return, is relocated by [relocate_impl], and when its
    first initialiser starts every slot of the three tables holds the linker's word
    less the addend that the code drops: base + addend for a relative entry; S for
    REL_GOT and REL_JUMP_SLOT, S being the address of the user's choice or of the first
    definition in the order of the scope, null for a weak reference to nothing; the
    offset in the thread's block; and for REL_SYMBOLIC, whose word is S + A, only S, so
    that its slot is right exactly when A is 0.  Every other byte is as it was, no
    resolver has been called, and the object counts as initialised. *)
Theorem relocate_impl_links st deal_unknown lazy es fs cell :
  links st -> c_lazy common = false -> protects (c_relro common) es ->
  (forall m, relocated writes (mem w) m -> fn_list m (i_init_fn (c_init common)) (i_init_array_fn (c_init common)) = Ok fs) ->
  (forall f v, f ∈ fs -> is_Some (native_call v f (init_args (c_init common)))) ->
  arcs w !! arc_ptr (c_core common) = Some cell ->
  (forall v, exists v', drop_lazy lazy v = (Ok tt, v')) ->
  exists w1 w2 w',
    relocate_tables common (lib_helper <$> libs) pre_find deal_unknown lazy w = (Ok (c_core common), w1) /\
    (forall x v, x ∈ R ++ D ++ P -> word_of libs pre own base x = Some v ->
       read_u64 (mem w1) (slot base x) = Ok (v - dropped_addend x)) /\
    (forall a, (forall x, x ∈ R ++ D ++ P -> is_Some (word_of libs pre own base x) ->
       ~ (slot base x <= a < slot base x + 8)) -> mem w1 !! a = mem w !! a) /\
    log w2 = log w ++ es ++ ((fun f => EvCall f (init_args (c_init common))) <$> fs) /\
    arcs w2 = <[arc_ptr (c_core common) := mk_cell (strong cell) (weak cell) true]> (arcs w) /\
    (forall K, native_keeps K -> K (mem w1) -> K (mem w2)) /\
    drop_lazy lazy w2 = (Ok tt, w') /\
    relocate_impl common (lib_helper <$> libs) pre_find deal_unknown lazy w = (Ok (c_core common), w').
Proof.
  intros Hl Hlazy Hpro Hfs Hret Hcell Hdrop.
  destruct (relocate_impl_links_run st deal_unknown lazy es fs cell Hl Hlazy Hpro Hfs Hret Hcell Hdrop)
    as (w1 & w2 & w' & Htab & Hrel & Hrest).
  destruct (links_linked st (mem w1) Hl Hrel) as [Hw Ho]. exists w1, w2, w'. split; [done|]. split; [|split; [|done]].
  - intros x v Hx Hv. apply Hw; [done|]. by apply stored_of_word.
  - intros a Ha. apply Ho. intros x Hx Hs%stored_is_Some. by apply Ha.
Qed.
End links.

(** ** Example

    The object of [Relocation.v] linked against itself: [alpha] is the user's choice,
    [foo] a definition of the scope. *)

Definition linked_own (k : Z) : ElfSymbol * bytes :=
  if k =? 2 then (mk_symbol 7 18 0 7 4660 8, bytes_of "alpha")
  else if k =? 3 then (mk_symbol 13 33 0 8 22136 4, bytes_of "foo")
  else (mk_symbol 1 1 0 7 64 0, bytes_of "gamma").
Definition linked_pre (name : bytes) : option Z := if bool_decide (name = bytes_of "alpha") then Some 777 else None.
Definition linked_libs : list library := [mk_library 65536 demo_symtab demo_syms].
Definition linked_common : ElfCommonPart :=
  mk_common 0 None demo_relocation None (mk_init None (Some 300) (Some (mk_slice 65792 1))) false None None None
    demo_reloc_core.
Definition linked_writes : list (Z * bytes) :=
  [word 65792 65600; word 65800 777; word 65808 777; word 65816 (65536 + 22136)].

Lemma linked_own_in k : k = 2 \/ k = 3 -> own_in demo_symtab linked_own demo_reloc_memory k.
Proof.
  intros Hk. destruct Hk as [-> | ->]; (constructor; [exists 10000; split; [done|apply (bool_decide_unpack _); by vm_compute]| |]);
    first [by vm_compute|apply cstr_at_check; by vm_compute].
Qed.

Lemma demo_ranges : ranges_in 0 9000 (gnu_ranges demo_symtab demo_syms).
Proof. apply (bool_decide_unpack _). by vm_compute. Qed.

Lemma demo_library_in b : library_in demo_symbol_memory (mk_library b demo_symtab demo_syms).
Proof.
  assert (Hty : Forall (fun s => 0 <= sym_st_info (gs_sym s) < U8_LIM) demo_syms) by (apply (bool_decide_unpack _); by vm_compute).
  constructor; cbn [lib_table lib_syms].
  - exact demo_table.
  - intros i s Hs%list_elem_of_lookup_2. rewrite Forall_forall in Hty. by apply Hty.
  - exists 9000. split; [done|exact demo_ranges].
Qed.

Lemma demo_library_above b (m : memory) :
  map_Forall (fun k _ => 9000 <= k) m -> library_in (m ∪ demo_symbol_memory) (mk_library b demo_symtab demo_syms).
Proof.
  intros Hm. apply (library_in_moved demo_symbol_memory); [apply demo_library_in|].
  intros a (r & Hr & Ha)%Exists_exists. rewrite Z.add_0_l. apply lookup_union_r.
  pose proof (ranges_in_elem _ _ _ _ demo_ranges Hr). destruct (m !! a) eqn:Hl; [|done]. apply Hm in Hl. simpl in Hl. lia.
Qed.

Lemma linked_library : library_in demo_reloc_memory (mk_library 65536 demo_symtab demo_syms).
Proof. apply demo_library_above. apply (bool_decide_unpack _). by vm_compute. Qed.

Lemma linked_writes_eq :
  @link_writes (x86_64 0) linked_libs linked_pre linked_own 65536 (drop 1 demo_relas) demo_plt
    (take 1 demo_relas) = linked_writes.
Proof. by vm_compute. Qed.

Lemma linked_resolvable x : r_symbol x = 2 \/ r_symbol x = 3 -> is_Some (@stored_word (x86_64 0) linked_libs linked_pre linked_own 65536 x) ->
  @resolvable (x86_64 0) linked_libs linked_pre linked_own 65536 x.
Proof.
  intros Hx Hv. constructor; [done|..]; destruct Hx as [-> | ->]; try done; intros _ b s Hd; injection Hd as <- <-; by split.
Qed.

Lemma linked_linkable :
  @linkable (x86_64 0) demo_reloc_core demo_symtab linked_libs demo_pre_find linked_pre linked_own
    demo_reloc_world (drop 1 demo_relas) demo_plt linked_writes.
Proof.
  constructor.
  - done.
  - done.
  - intros name v. unfold linked_pre. case_bool_decide; [|done]. by intros [= <-].
  - constructor; [exact linked_library|constructor].
  - intros x Hx Hn. apply linked_own_in. cbn [drop app demo_relas demo_plt] in Hx.
    repeat (apply elem_of_cons in Hx as [->|Hx]; [first [by left|by right|done]|]). by apply elem_of_nil in Hx.
  - constructor; [|constructor; [by apply deo_none|constructor]].
    apply deo_symbol; [by left|]. apply linked_resolvable; [by left|by eexists].
  - apply (bool_decide_unpack _). by vm_compute.
Qed.

Lemma linked_links :
  @links (x86_64 0) linked_common linked_libs demo_pre_find linked_pre linked_own demo_reloc_world
    (drop 1 demo_relas) demo_plt (take 1 demo_relas) demo_symtab.
Proof.
  constructor; cbn [linked_common c_core]; change (core_base demo_reloc_core) with 65536; rewrite ?linked_writes_eq.
  - done.
  - exact linked_linkable.
  - repeat (constructor; [split; [done|apply linked_resolvable; [first [by left|by right]|by eexists]]|]). constructor.
  - by vm_compute.
  - by vm_compute.
  - by vm_compute.
  - constructor; [|constructor]. by split.
  - repeat (constructor; [split; [by split|apply write_mapped_word, slot_mapped_check; by vm_compute]|]). constructor.
  - unfold linked_writes. repeat (constructor; [repeat (constructor; [by left|]); constructor|]). constructor.
  - apply (bool_decide_unpack _). by vm_compute.
Qed.

Lemma relocate_impl_links_witness :
  exists w1 w2 w',
    read_u64 (mem w1) 65816 = Ok 87672 /\ read_u64 (mem w1) 65800 = Ok 777 /\
    log w2 = [EvCall 300 []; EvCall 65600 []] /\
    @relocate_impl default_config (x86_64 0) demo_native linked_common (lib_helper <$> linked_libs) demo_pre_find
      demo_unknown None demo_reloc_world = (Ok demo_reloc_core, w').
Proof.
  destruct (@relocate_impl_links default_config (x86_64 0) _ demo_native linked_common linked_libs demo_pre_find linked_pre
    linked_own demo_reloc_world (drop 1 demo_relas) demo_plt (take 1 demo_relas) demo_symtab demo_unknown None []
    [300; 65600] (mk_cell 1 0 false) linked_links)
    as (w1 & w2 & w' & _ & Hw & _ & Hlog & _ & _ & _ & Hrun).
  - reflexivity.
  - reflexivity.
  - intros m [_ Hw]. unfold fn_list. cbn [i_init_fn i_init_array_fn c_init linked_common default].
    assert (Hword : read_u64 m 65792 = Ok 65600).
    { apply read_word; [by split|]. apply Hw. by left. }
    change (read_slice read_fn 8 m _) with (x ← read_fn m 65792; xs ← Ok []; Ok (x :: xs)).
    unfold read_fn. by rewrite Hword.
  - intros f v _. by eexists.
  - reflexivity.
  - intros v. by eexists.
  - exists w1, w2, w'. split; [|split; [|split; [exact Hlog|exact Hrun]]].
    + apply (Hw (mk_rela 280 (Z.shiftl 3 32 + 7) 0) 87672); [apply list_elem_of_In; simpl; tauto|by vm_compute].
    + apply (Hw (mk_rela 264 (Z.shiftl 2 32 + 6) 5) 777); [apply list_elem_of_In; simpl; tauto|by vm_compute].
Defined.
