(* ===== verification/Lazy.v ===== *)
(** * Lazy: binding at the first call

    Lazy binding against the abstract linker of [Linked.v]: what [relocate_impl] does
    to an object whose calls are bound lazily, what [dl_fixup] stores when one of
    them is made for the first time, and where this differs from what binding the
    same call at once would have stored. *)

From S2P Require Import Prelude Machine Arch StrTab Version Segment Symbol UserData Loader Core Relocation Format Complete Linked.
#[local] Open Scope Z_scope.

(** ** Looking a name up in the scope *)

(** The first definition in the order of the scope. *)
Definition scope_definition_of (libs : list library) (name : bytes) : option (Z * ElfSymbol) :=
  find_map (fun l => pair (lib_base l) <$> exported name l) libs.

(** The address a call is bound to when it is made: the user's choice, else the first
    definition.  The choice is asked for at each library: never, when there is none. *)
Definition lazy_address (pre : bytes -> option Z) (libs : list library) (name : bytes) : option Z :=
  match libs with
  | [] => None
  | _ => match pre name with Some v => Some v | None => (fun bs => bs.1 + st_value bs.2) <$> scope_definition_of libs name end
  end.

(** The libraries behind the handles of a scope. *)
Definition provides (c : CoreComponent) (l : library) : Prop :=
  core_base c = lib_base l /\ core_symtab c = Some (lib_table l).

Definition alive (w : world) (c : CoreComponent) : Prop := exists cell, arcs w !! arc_ptr c = Some cell /\ 1 <= strong cell.

Section scope.
Context `{Config} `{Native}.

Lemma get_exported w c l name :
  library_in (mem w) l -> provides c l ->
  (forall s, exported name l = Some s -> st_type s <> STT_GNU_IFUNC /\ 0 <= lib_base l + st_value s < U64_LIM) ->
  get (mk_relocated_dylib c) name w = (Ok ((fun s => lib_base l + st_value s) <$> exported name l), w).
Proof.
  intros Hl [Hb Hst] Hs. unfold get, get_info, rd_symtab. cbn [rd_core]. rewrite Hst, Hb.
  unfold bind, lift, reads. cbn [unwrap_unchecked]. rewrite (lookup_exported (mem w) l) by done.
  change (si_name (from_str name)) with name. destruct (exported name l) as [s|]; [|done].
  destruct (Hs s eq_refl) as [Ht Hr]. unfold convert. cbn [sd_sym sd_base]. unfold bind, lift. rewrite uadd_ok by done.
  by rewrite (proj2 (Z.eqb_neq _ _) Ht).
Qed.

(** The closure of a lazy scope is the abstract lookup; the libraries' handles are
    as they were. *)
Lemma lazy_find_address cores libs pre_find pre name w :
  (forall w', pre_find name w' = (Ok (pre name), w')) ->
  Forall2 provides cores libs -> Forall (alive w) cores -> Forall (library_in (mem w)) libs ->
  (pre name = None -> plain_definition (scope_definition_of libs name)) ->
  lazy_find (mk_core_ref <$> cores) pre_find name w = (Ok (lazy_address pre libs name), w).
Proof.
  intros Hpre Hall. unfold lazy_find. destruct (pre name) as [v|] eqn:Hp.
  { intros _ _ _. destruct Hall; [done|]. simpl. unfold bind. by rewrite Hpre, Hp. }
  intros Hal Hlibs Hpl. specialize (Hpl eq_refl).
  assert (Hla : lazy_address pre libs name = (fun bs => bs.1 + st_value bs.2) <$> scope_definition_of libs name).
  { unfold lazy_address. rewrite Hp. by destruct libs. }
  rewrite Hla. clear Hla. induction Hall as [|c l cores libs Hc _ IH]; [done|].
  apply Forall_cons in Hal as [(cell & Hcell & Hs) Hal]. apply Forall_cons in Hlibs as [Hl Hlibs].
  unfold scope_definition_of in *. cbn [fmap list_fmap find_map_m find_map] in Hpl |- *.
  unfold bind at 1, bind at 1. rewrite Hpre. cbn [or_else]. unfold bind at 1, upgrade. cbn [weak_of].
  rewrite Hcell, (proj2 (Z.eqb_neq _ _)) by lia. unfold bind at 1, lift. cbn [unwrap]. unfold finally at 1.
  rewrite (get_exported (set_arcs _ w) c l name Hl Hc).
  - unfold run_drop. rewrite (drop_core_again c w cell) by done. destruct (exported name l) as [s|]; [done|]. by apply IH.
  - intros s He. apply (Hpl (lib_base l) s). by rewrite He.
Qed.
End scope.

(** ** The first call *)

Section first_call.
Context `{Config} `{Arch} `{!ArchOk _} `{Native} `{ScopeFn}.
Context (libs : list library) (pre_find : PreFind) (pre : bytes -> option Z) (own : Z -> ElfSymbol * bytes).
Context (cores : list CoreComponent) (dylib : CoreComponentInner) (st : SymbolTable) (w : world).

Local Notation b := (base (segments dylib)).

(** The object waits for the call of entry [idx], which is [x]: its tables and those
    of the scope are in memory, no global scope is set, and the libraries of its own
    are still there. *)
Record waiting (idx : Z) (x : ElfRela) : Prop := {
  wt_entry : exists p, cc_pltrel dylib = Some p /\ read_rela (mem w) (padd p (RELA_SIZE * idx)) = Ok x;
  wt_kind : r_type x = REL_JUMP_SLOT /\ r_symbol x <> 0;
  wt_symbols : symbols dylib = Some st /\ version st = None /\ own_in st own (mem w) (r_symbol x);
  wt_scope : lazy_scope dylib = Some (create_lazy_scope (mk_core_ref <$> cores) pre_find) /\ GLOBAL_SCOPE w = 0;
  wt_pre : forall name w', pre_find name w' = (Ok (pre name), w');
  wt_libs : Forall2 provides cores libs /\ Forall (alive w) cores /\ Forall (library_in (mem w)) libs;
  wt_slot : 0 <= slot b x < U64_LIM /\ slot_mapped (mem w) (slot b x);
}.

Lemma dl_fixup_address idx x :
  waiting idx x ->
  (pre (own (r_symbol x)).2 = None -> plain_definition (scope_definition_of libs (own (r_symbol x)).2)) ->
  dl_fixup dylib idx w =
    match lazy_address pre libs (own (r_symbol x)).2 with
    | Some v => (Ok v, set_mem (store_bytes (mem w) (slot b x) (le_split 8 v)) w)
    | None => (Panic, w)
    end.
Proof.
  intros [(p & Hp & Hx) [Ht Hs] (Hst & Hv & Hown) [Hsc Hg] Hpre (Hpr & Hal & Hlibs) [Hr Hm]] Hpl.
  pose proof (dl_fixup_run dylib idx p x st (own (r_symbol x)).1
    (mk_syminfo (own (r_symbol x)).2 (Some (own (r_symbol x)).2) None)
    (create_lazy_scope (mk_core_ref <$> cores) pre_find) (lazy_address pre libs (own (r_symbol x)).2) None w Hp Hx Ht Hs Hst
    (own_symbol_idx st own (mem w) (r_symbol x) Hv Hown) Hsc) as Hrun. cbv zeta in Hrun.
  rewrite decide_True in Hrun by done. rewrite Hrun; [by destruct (lazy_address _ _ _)| |done|done|done].
  cbn [ls_call create_lazy_scope si_name]. by apply lazy_find_address.
Qed.

(** What binding the call at once would have stored. *)
Lemma word_of_call x : r_type x = REL_JUMP_SLOT -> is_local (own (r_symbol x)).1 = false ->
  word_of libs pre own b x =
    match pre (own (r_symbol x)).2, scope_definition_of libs (own (r_symbol x)).2 with
    | Some v, _ => Some v
    | None, Some bs => Some (bs.1 + st_value bs.2)
    | None, None => if is_weak (own (r_symbol x)).1 && is_undef (own (r_symbol x)).1 then Some 0 else None
    end.
Proof.
  intros Ht Hl. rewrite <- stored_as_word.
  - destruct (stored_symbolic libs pre own b x) as [_ ->]; [by right; right|].
    unfold resolve_address, definition, scope_definition_of. rewrite Hl.
    destruct (pre _); [done|]. by destruct (find_map _ libs) as [[b' s]|].
  - intros Hs. exfalso. pose proof rel_types_distinct as Hd. unfold rel_types in Hd.
    rewrite !NoDup_cons, !not_elem_of_cons in Hd. destruct_and!. congruence.
Qed.

(** A call that is bound when it is first made goes where it would have gone had it
    been bound when the object was relocated, or panics: when the scope has no library,
    when the linker leaves the word null, for a weak function that nobody defines, and
    when it cannot resolve the call at all. *)
Lemma dl_fixup_linked idx x :
  waiting idx x -> is_local (own (r_symbol x)).1 = false ->
  (pre (own (r_symbol x)).2 = None -> plain_definition (definition libs b (own (r_symbol x)).1 (own (r_symbol x)).2)) ->
  (forall v, lazy_address pre libs (own (r_symbol x)).2 = Some v ->
     word_of libs pre own b x = Some v /\
     dl_fixup dylib idx w = (Ok v, set_mem (store_bytes (mem w) (slot b x) (le_split 8 v)) w)) /\
  (lazy_address pre libs (own (r_symbol x)).2 = None ->
     dl_fixup dylib idx w = (Panic, w) /\
     (libs = [] \/ word_of libs pre own b x = None \/
      is_weak (own (r_symbol x)).1 = true /\ is_undef (own (r_symbol x)).1 = true /\ word_of libs pre own b x = Some 0)).
Proof.
  intros Hw Hl Hpl. unfold definition in Hpl. rewrite Hl in Hpl.
  rewrite (word_of_call x) by (done || apply Hw). rewrite (dl_fixup_address idx x Hw Hpl).
  unfold lazy_address. destruct libs as [|l0 ls]; [split; [done|]; intros _; split; [done|by left]|].
  destruct (pre _) as [u|]; [split; [|done]; intros v [= <-]; by split|].
  destruct (scope_definition_of _ _) as [[b0 s0]|]; [split; [|done]; intros v [= <-]; by split|].
  split; [done|]. intros _. split; [done|]. right. destruct (is_weak _), (is_undef _); cbn [andb]; auto.
Qed.
End first_call.

(** ** The words of the resolver *)

(** A CPU whose [prepare_lazy_bind] stores words near the start of the GOT, and returns. *)
Class LazyArch `{Arch} := {
  lazy_slots : Z -> Z -> list (Z * Z);   (** the words for [got] and [dylib], by address *)
  lazy_slots_run : forall got p w,
    Forall (write_mapped (mem w)) (uncurry word <$> lazy_slots got p) ->
    prepare_lazy_bind got p w = (Ok tt, set_mem (apply_writes (mem w) (uncurry word <$> lazy_slots got p)) w);
}.

Definition lazy_words `{LazyArch} (got p : Z) : list (Z * bytes) := uncurry word <$> lazy_slots got p.

Lemma two_words_run a1 v1 a2 v2 w :
  Forall (write_mapped (mem w)) [word a1 v1; word a2 v2] ->
  (write_usize a1 v1 ;; write_usize a2 v2) w = (Ok tt, set_mem (apply_writes (mem w) [word a1 v1; word a2 v2]) w).
Proof.
  intros [H1 [H2 _]%Forall_cons]%Forall_cons. apply slot_mapped_word in H1, H2.
  rewrite (bind_run _ _ _ _ _ (write_usize_run _ _ _ H1)). rewrite write_usize_run; [done|].
  intros i Hi. cbn [mem set_mem]. apply (store_bytes_same_dom (mem w)); [|by apply H2].
  intros j Hj. apply H1. rewrite length_le_split in Hj. lia.
Qed.

#[export, program] Instance x86_64_lazy r : @LazyArch (x86_64 r) :=
  {| lazy_slots got p := [(padd got 8, p); (padd got 16, r)] |}.
Next Obligation. intros. by apply two_words_run. Qed.
#[export, program] Instance aarch64_lazy r : @LazyArch (aarch64 r) :=
  {| lazy_slots got p := [(padd got 8, p); (padd got 16, r)] |}.
Next Obligation. intros. by apply two_words_run. Qed.
#[export, program] Instance riscv64_lazy r : @LazyArch (riscv64 r) :=
  {| lazy_slots got p := [(got, r); (padd got 8, p)] |}.
Next Obligation. intros. by apply two_words_run. Qed.

(** ** Relocating for lazy binding *)

Section lazy.
Context `{Config} `{A : Arch} `{!ArchOk _} `{!LazyArch} `{Native}.
Context (common : ElfCommonPart) (libs : list library) (pre_find : PreFind) (pre : bytes -> option Z).
Context (own : Z -> ElfSymbol * bytes) (w : world) (D P R : list ElfRela) (orig : ElfRela -> Z) (got : Z).

Local Notation core := (c_core common).
Local Notation b := (core_base core).
Local Notation scope := (lib_helper <$> libs).

(** The relative words and those of the data references, the calls moved by the load
    base, and what the resolver is started with. *)
Definition lazy_writes : list (Z * bytes) :=
  (relative_write b <$> R) ++ omap (entry_write libs pre own b) D ++ (rebase_write b orig <$> P) ++
  (if P then [] else lazy_words got (arc_ptr core)).

Record lazy_links (st : SymbolTable) : Prop := {
  lz_symtab : core_symtab core = Some st;
  lz_linkable : linkable core st libs pre_find pre own w D P lazy_writes;
  lz_relative : read_slice read_rela RELA_SIZE (mem w) (rl_relative (c_relocation common)) = Ok R;
  lz_dynrel : read_slice read_rela RELA_SIZE (mem w) (rl_dynrel (c_relocation common)) = Ok D;
  lz_pltrel : read_slice read_rela RELA_SIZE (mem w) (rl_pltrel (c_relocation common)) = Ok P;
  lz_rel : Forall (fun x => r_type x = REL_RELATIVE /\ 0 <= b + r_addend x < U64_LIM) R;
  lz_plt : Forall (fun x => r_type x = REL_JUMP_SLOT /\ read_u64 (mem w) (slot b x) = Ok (orig x) /\
                            0 <= orig x + b < U64_LIM) P;
  lz_got : c_got common = Some got;
  lz_slots : Forall (fun s => 0 <= s.1 < U64_LIM /\ write_mapped (mem w) s) lazy_writes;
  lz_apart : slots_apart lazy_writes;
  lz_tables : apart_from [table_range (rl_dynrel (c_relocation common)); table_range (rl_pltrel (c_relocation common))]
    lazy_writes;
  lz_len : 0 <= sl_len (rl_pltrel (c_relocation common));
}.

Context (st : SymbolTable) (Hl : lazy_links st).

Local Notation wsR := (relative_write b <$> R).
Local Notation wsD := (omap (entry_write libs pre own b) D).
Local Notation wsP := (rebase_write b orig <$> P).

Ltac in_writes :=
  unfold lazy_writes; let s := fresh "s" in let Hs := fresh "Hs" in intros s Hs;
  rewrite ?elem_of_app in Hs; rewrite ?elem_of_app; tauto.

(** The slots of the calls hold what they held when the lazy pass reads them. *)
Lemma calls_unwritten : 
  let m2 := apply_writes (apply_writes (mem w) wsR) wsD in
  same_but lazy_writes (mem w) m2 /\
  Forall (fun x => r_type x = REL_JUMP_SLOT /\ 0 <= slot b x < U64_LIM /\ read_u64 m2 (slot b x) = Ok (orig x) /\
                   0 <= orig x + b < U64_LIM /\ slot_mapped m2 (slot b x)) P.
Proof.
  intros m2. assert (Hm2 : same_but lazy_writes (mem w) m2).
  { unfold m2. rewrite <- apply_writes_app. apply (writes_same lazy_writes w (lz_slots _ Hl)). in_writes. }
  split; [done|]. pose proof (lz_plt _ Hl) as HP. rewrite Forall_forall in HP. apply Forall_forall. intros x Hx.
  destruct (HP x Hx) as (Ht & Ho & Hr). pose proof (lz_slots _ Hl) as Hws. rewrite Forall_forall in Hws.
  assert (Hin : rebase_write b orig x ∈ wsP) by (by apply (list_elem_of_fmap_2 (rebase_write b orig))).
  destruct (Hws (rebase_write b orig x)) as [Hs Hm]; [unfold lazy_writes; rewrite !elem_of_app; tauto|].
  split; [done|]. split; [exact Hs|]. split; [|split; [done|]].
  - rewrite <- Ho. apply load_le_agree. intros i Hi. unfold m2. rewrite <- apply_writes_app. apply apply_writes_outside.
    pose proof (lz_apart _ Hl) as Hap. unfold lazy_writes in Hap. rewrite app_assoc in Hap.
    apply Forall_forall. intros s Hs'.
    assert (Hsx : wr_end s <= (rebase_write b orig x).1 \/ wr_end (rebase_write b orig x) <= s.1).
    { apply (ForallOrdPairs_app_cross _ _ _ Hap); [done|]. apply elem_of_app. by left. }
    unfold rebase_write in Hsx. rewrite !wr_end_word in Hsx. cbn [word fst] in Hsx. lia.
  - intros i Hi. destruct Hm2 as [Hd _]. apply Hd. apply slot_mapped_word in Hm. by apply Hm.
Qed.

Lemma lazy_empty : sl_is_empty (rl_pltrel (c_relocation common)) = bool_decide (P = []).
Proof.
  pose proof (lz_pltrel _ Hl) as HP. pose proof (lz_len _ Hl) as Hlen. unfold read_slice in HP.
  apply read_array_lookup in HP as [HP _]. unfold sl_is_empty. destruct P; simpl in *; [apply Z.eqb_eq|apply Z.eqb_neq]; lia.
Qed.

Lemma lazy_tables_run deal_unknown lazy :
  c_lazy common = true -> P = [] \/ is_Some lazy \/ GLOBAL_SCOPE w <> 0 ->
  relocate_tables common scope pre_find deal_unknown lazy w =
    (Ok (set_lazy_scope core lazy), set_mem (apply_writes (mem w) lazy_writes) w).
Proof.
  intros Hlazy Hscope. destruct Hl as [Hst Hlk HR HD HP Hrel Hplt Hgot Hws Hap Htab Hlen].
  unfold relocate_tables. rewrite Hst, Hlazy, Hgot. unfold bind at 1, lift at 1. cbn [unwrap].
  assert (HwsR : wsR ⊆ lazy_writes) by (in_writes).
  assert (HwsD : wsD ⊆ lazy_writes) by (in_writes).
  rewrite (bind_run _ _ _ _ _ (relative_pass common R lazy_writes w Hws HR Hrel HwsR)).
  pose proof (writes_same lazy_writes w Hws wsR HwsR) as Hm1.
  assert (Hst' : forall s l, read_slice read_rela RELA_SIZE (mem w) s = Ok l ->
    table_range s ∈ [table_range (rl_dynrel (c_relocation common)); table_range (rl_pltrel (c_relocation common))] ->
    stable w lazy_writes (fun m => read_slice read_rela RELA_SIZE m s = Ok l)).
  { intros s l Hr Hin. by apply (table_stable w lazy_writes s l _ Hr Htab). }
  assert (Hdyn : Forall (fun x => dyn_effect core st scope pre_find w lazy_writes x (entry_write libs pre own b x) []) D).
  { apply Forall_forall. intros x Hx. by apply (dyn_entry_effect core st libs pre_find pre own w D P lazy_writes Hlk). }
  rewrite (bind_run _ _ _ _ _ (dynrel_pass common scope pre_find deal_unknown st D _ (fun _ => []) lazy_writes w
    (Hst' _ _ HD ltac:(by left)) Hdyn Hws _ Hm1 HwsD)).
  set (m2 := apply_writes _ wsD). assert (Hnil : D ≫= (fun _ => []) = @nil event) by (clear; by induction D). rewrite Hnil, after_nil. clear Hnil.
  destruct calls_unwritten as [Hm2 Hcalls]. fold m2 in Hm2, Hcalls. unfold lift at 1, bind at 1.
  assert (HapP : slots_apart wsP).
  { unfold lazy_writes in Hap. apply ForallOrdPairs_app_inv in Hap as [_ Hap].
    apply ForallOrdPairs_app_inv in Hap as [_ Hap]. by apply ForallOrdPairs_app_inv in Hap as [Hap _]. }
  assert (Hrun : relocate_pltrel_lazy (c_relocation common) core got (set_mem m2 w) =
    (Ok tt, set_mem (apply_writes (mem w) lazy_writes) w)).
  { rewrite (relocate_pltrel_lazy_run (c_relocation common) core got (set_mem m2 w) P orig); [|by apply Hst'; [|right; left|]|done|done].
    rewrite lazy_empty. change (mem (set_mem m2 w)) with m2.
    assert (Hall : apply_writes (mem w) lazy_writes = apply_writes (apply_writes m2 wsP) (if P then [] else lazy_words got (arc_ptr core))).
    { unfold lazy_writes, m2. by rewrite !apply_writes_app. }
    assert (Hm3 : same_but lazy_writes (mem w) (apply_writes m2 wsP)).
    { unfold m2. rewrite <- !apply_writes_app. apply (writes_same lazy_writes w Hws). in_writes. }
    assert (Hgw : Forall (fun s => s ∈ lazy_writes) (if P then [] else lazy_words got (arc_ptr core))).
    { apply Forall_forall. in_writes. }
    rewrite Hall. destruct (decide (P = [])) as [Hnil|Hne].
    - rewrite bool_decide_true by done. by rewrite Hnil.
    - rewrite bool_decide_false by done. destruct P as [|x P'] eqn:HPe; [done|]. rewrite <- HPe in *. cbn [negb].
      rewrite lazy_slots_run; [done|]. fold (lazy_words got (arc_ptr core)). rewrite Forall_forall in Hgw. apply Forall_forall. intros s Hs%Hgw.
      apply (write_mapped_but lazy_writes (mem w)); [exact Hm3|]. rewrite Forall_forall in Hws. by apply Hws. }
  rewrite (bind_run _ _ _ _ _ Hrun). unfold bind at 1. rewrite lazy_empty. cbn [GLOBAL_SCOPE set_mem].
  assert (Hassert : bool_decide (P = []) || bool_decide (is_Some lazy) || negb (GLOBAL_SCOPE w =? 0) = true).
  { destruct Hscope as [Hs|[Hs|Hs]]; [by rewrite (bool_decide_true _ Hs)|rewrite (bool_decide_true _ Hs), orb_true_r; done|].
    rewrite (proj2 (Z.eqb_neq _ _) Hs). apply orb_true_r. }
  by rewrite Hassert.
Qed.

(** The run behind the theorem below. *)
Lemma relocate_impl_lazy_run deal_unknown lazy fs cell :
  c_lazy common = true -> P = [] \/ is_Some lazy \/ GLOBAL_SCOPE w <> 0 ->
  (forall m, relocated lazy_writes (mem w) m -> fn_list m (i_init_fn (c_init common)) (i_init_array_fn (c_init common)) = Ok fs) ->
  (forall f v, f ∈ fs -> is_Some (native_call v f (init_args (c_init common)))) ->
  arcs w !! arc_ptr core = Some cell ->
  exists w1 w',
    relocate_tables common scope pre_find deal_unknown lazy w = (Ok (set_lazy_scope core lazy), w1) /\
    relocated lazy_writes (mem w) (mem w1) /\
    log w' = log w ++ ((fun f => EvCall f (init_args (c_init common))) <$> fs) /\
    arcs w' = <[arc_ptr core := mk_cell (strong cell) (weak cell) true]> (arcs w) /\
    relocate_impl common scope pre_find deal_unknown lazy w = (Ok (set_lazy_scope core lazy), w').
Proof.
  intros Hlazy Hscope Hfs Hret Hcell. pose proof (lazy_tables_run deal_unknown lazy Hlazy Hscope) as Htab.
  set (w1 := set_mem (apply_writes (mem w) lazy_writes) w) in *.
  assert (Hrel : relocated lazy_writes (mem w) (mem w1)).
  { apply relocated_writes; [|apply Hl]. eapply Forall_impl; [apply (lz_slots _ Hl)|]. by intros s []. }
  destruct (calls_return (init_args (c_init common)) fs w1 Hret) as (w2 & Hcalls & _).
  pose proof (for_each_calls _ _ _ _ Hcalls) as [Hlog Harc]. cbn [w1 set_mem log arcs] in Hlog, Harc.
  set (w3 := set_arcs (<[arc_ptr core := mk_cell (strong cell) (weak cell) true]> (arcs w2)) w2).
  exists w1, w3. split; [done|]. split; [done|]. split; [done|]. split; [cbn [w3 arcs set_arcs]; by rewrite Harc|].
  unfold relocate_impl. apply on_unwind_run. unfold relocate_body.
  rewrite (bind_run _ _ _ _ _ (on_unwind_run _ _ _ _ _ Htab)).
  assert (Hinit : call_init (c_init common) w1 = (Ok tt, w2)).
  { unfold call_init, bind, reads. rewrite (Hfs _ Hrel). unfold init_args in Hcalls. by destruct (init_param _). }
  rewrite (bind_run _ _ _ _ _ Hinit).
  assert (Hset : set_init (set_lazy_scope core lazy) w2 = (Ok tt, w3)).
  { unfold set_init, update_cell, w3. cbn [arc_ptr set_lazy_scope]. by rewrite Harc, Hcell. }
  rewrite (bind_run _ _ _ _ _ Hset), Hlazy. done.
Qed.

(** The words after the passes. *)
Lemma lazy_linked m : relocated lazy_writes (mem w) m ->
  (forall x v, x ∈ R ++ D -> stored_word libs pre own b x = Some v -> read_u64 m (slot b x) = Ok v) /\
  (forall x, x ∈ P -> read_u64 m (slot b x) = Ok (orig x + b)) /\
  (P <> [] -> forall a v, (a, v) ∈ lazy_slots got (arc_ptr core) -> read_u64 m a = Ok (v mod U64_LIM)).
Proof.
  intros [_ Hw]. pose proof (lz_rel _ Hl) as HR. pose proof (lz_plt _ Hl) as HP. rewrite Forall_forall in HR, HP. split_and!.
  - intros x v [Hx|Hx]%elem_of_app Hv.
    + destruct (HR x Hx) as [Ht Hr]. rewrite stored_relative in Hv by done. injection Hv as <-.
      apply read_word; [done|]. apply Hw. unfold lazy_writes. apply elem_of_app. left. by apply (list_elem_of_fmap_2 (relative_write b)).
    + pose proof (lk_dyn _ _ _ _ _ _ _ _ _ _ (lz_linkable _ Hl)) as HD. rewrite Forall_forall in HD.
      apply read_word; [|apply Hw]. 
      * eapply stored_range; [apply (lk_pre_range _ _ _ _ _ _ _ _ _ _ (lz_linkable _ Hl))|left; by apply HD|exact Hv].
      * unfold lazy_writes. apply elem_of_app. right. apply elem_of_app. left. apply list_elem_of_omap. exists x. split; [done|].
        unfold entry_write. by rewrite Hv.
  - intros x Hx. destruct (HP x Hx) as (_ & _ & Hr). apply read_word; [done|]. apply Hw. unfold lazy_writes.
    do 2 (apply elem_of_app; right). apply elem_of_app. left. by apply (list_elem_of_fmap_2 (rebase_write b orig)).
  - intros HP0 a v Hav. apply read_word_mod. apply Hw. unfold lazy_writes. do 3 (apply elem_of_app; right).
    destruct P; [done|]. by apply (list_elem_of_fmap_2 (uncurry word) _ (a, v)).
Qed.

(** C8: relocating for lazy binding.  An object without symbol versions whose data
    references can be resolved, to definitions without a resolver function, whose calls
    are REL_JUMP_SLOT entries only and whose initialisers return, is relocated with its calls left for later.  When its first initialiser starts the
    words of the relative entries and of the data references are those of the abstract
    linker less the addend that the code drops (S where a REL_SYMBOLIC entry with an
    addend calls for S + A); every call's word is what the file has, moved by the load
    base; if there are calls the words near the start of the GOT that the PLT enters the
    resolver by hold the address of [dl_runtime_resolve] and of the object; and nothing
    else has changed.  The object keeps the lazy scope and counts as initialised.  No
    call is looked up, so one that cannot be resolved does not stop the object.  (On the
    CPUs whose [prepare_lazy_bind] returns: not loongarch64.) *)
Theorem relocate_impl_lazy deal_unknown lazy fs cell :
  c_lazy common = true -> P = [] \/ is_Some lazy \/ GLOBAL_SCOPE w <> 0 ->
  (forall m, relocated lazy_writes (mem w) m -> fn_list m (i_init_fn (c_init common)) (i_init_array_fn (c_init common)) = Ok fs) ->
  (forall f v, f ∈ fs -> is_Some (native_call v f (init_args (c_init common)))) ->
  arcs w !! arc_ptr core = Some cell ->
  exists w1 w',
    relocate_tables common scope pre_find deal_unknown lazy w = (Ok (set_lazy_scope core lazy), w1) /\
    (forall x v, x ∈ R ++ D -> word_of libs pre own b x = Some v ->
       read_u64 (mem w1) (slot b x) = Ok (v - dropped_addend x)) /\
    (forall x, x ∈ P -> read_u64 (mem w1) (slot b x) = Ok (orig x + b)) /\
    (P <> [] -> forall a v, (a, v) ∈ lazy_slots got (arc_ptr core) -> read_u64 (mem w1) a = Ok (v mod U64_LIM)) /\
    same_but lazy_writes (mem w) (mem w1) /\
    log w' = log w ++ ((fun f => EvCall f (init_args (c_init common))) <$> fs) /\
    arcs w' = <[arc_ptr core := mk_cell (strong cell) (weak cell) true]> (arcs w) /\
    relocate_impl common scope pre_find deal_unknown lazy w = (Ok (set_lazy_scope core lazy), w').
Proof.
  intros Hlazy Hscope Hfs Hret Hcell.
  destruct (relocate_impl_lazy_run deal_unknown lazy fs cell Hlazy Hscope Hfs Hret Hcell) as (w1 & w' & Htab & Hrel & Hrest).
  destruct (lazy_linked (mem w1) Hrel) as (Hdata & Hcalls & Hgot). exists w1, w'. split; [done|].
  split; [intros x v Hx Hv; apply Hdata; [done|by apply stored_of_word]|].
  split; [done|]. split; [done|]. split; [apply Hrel|done].
Qed.

(** *** Later *)

Context `{ScopeFn} (cores : list CoreComponent).
Hypothesis Hcores : Forall2 provides cores libs.

Definition lazy_core : CoreComponent := set_lazy_scope core (Some (create_lazy_scope (mk_core_ref <$> cores) pre_find)).

(** What a call reads. *)
Definition call_ranges : list (Z * Z) :=
  table_range (rl_pltrel (c_relocation common)) :: read_ranges st libs own D P.

(** A later world [v] in which call [i] can be bound: what it reads is as the passes
    left it in [m1], the scope's libraries are still there, and there is no global
    scope. *)
Record later (m1 : memory) (v : world) (i : nat) (x : ElfRela) : Prop := {
  la_entry : P !! i = Some x;
  la_symbol : r_symbol x <> 0;
  la_pltrel : cc_pltrel (inner core) = Some (sl_ptr (rl_pltrel (c_relocation common)));
  la_table : 0 <= sl_ptr (rl_pltrel (c_relocation common)) /\
    sl_ptr (rl_pltrel (c_relocation common)) + RELA_SIZE * sl_len (rl_pltrel (c_relocation common)) < U64_LIM;
  la_moved : moved 0 call_ranges m1 (mem v);
  la_alive : Forall (alive v) cores;
  la_global : GLOBAL_SCOPE v = 0;
  la_slot : slot_mapped (mem v) (slot b x);
}.

Lemma moved_trans rs m1 m2 m3 : moved 0 rs m1 m2 -> moved 0 rs m2 m3 -> moved 0 rs m1 m3.
Proof. intros H12 H23 a Ha. rewrite (H23 a Ha). specialize (H12 a Ha). by rewrite Z.add_0_l in *. Qed.

(** The reads of a call are the same in the world before the passes. *)
Lemma calls_unread m1 v i x : relocated lazy_writes (mem w) m1 -> later m1 v i x -> moved 0 call_ranges (mem w) (mem v).
Proof.
  intros [Hsb _] Hla. apply (moved_trans _ _ m1); [|apply Hla]. apply (apart_moved _ lazy_writes); [|done].
  pose proof (lz_tables _ Hl) as Ht. pose proof (lk_apart _ _ _ _ _ _ _ _ _ _ (lz_linkable _ Hl)) as Hr.
  unfold apart_from, call_ranges in *. rewrite Forall_forall in Ht. rewrite Forall_forall in Hr. apply Forall_forall.
  intros s Hs. constructor; [|by apply Hr].
  specialize (Ht s Hs). rewrite !Forall_cons in Ht. tauto.
Qed.

Lemma later_waiting m1 v i x :
  relocated lazy_writes (mem w) m1 -> later m1 v i x ->
  waiting libs pre_find pre own cores (inner lazy_core) st v (Z.of_nat i) x.
Proof.
  intros Hrel Hla. pose proof (calls_unread m1 v i x Hrel Hla) as Hmv.
  destruct Hla as [Hx Hsym Hpl [Ht1 Ht2] _ Hal Hg Hm]. pose proof (list_elem_of_lookup_2 _ _ _ Hx) as HxP.
  pose proof (lz_plt _ Hl) as HP. rewrite Forall_forall in HP. destruct (HP x HxP) as (Ht & _ & _).
  pose proof (lz_linkable _ Hl) as Hlk. pose proof (lz_pltrel _ Hl) as Htab. pose proof (lz_len _ Hl) as Hlen.
  constructor.
  - exists (sl_ptr (rl_pltrel (c_relocation common))). split; [done|].
    rewrite <- (read_table_frame (mem w) (mem v)) in Htab.
    + unfold read_slice in Htab. apply read_array_lookup in Htab as [Hn Hi].
      pose proof (lookup_lt_Some _ _ _ Hx). rewrite padd_small by (unfold RELA_SIZE in *; lia). by apply Hi.
    + intros a Ha. specialize (Hmv a). rewrite Z.add_0_l in Hmv. apply Hmv.
      apply (covered_in _ (table_range (rl_pltrel (c_relocation common)))); [by left|done].
  - done.
  - split; [apply Hl|]. split; [apply Hlk|]. apply (own_in_frame _ _ (mem w)).
    + apply (lk_own _ _ _ _ _ _ _ _ _ _ Hlk); [apply elem_of_app; by right|].
      by apply (stored_symbolic libs pre own b x); right; right.
    + apply (moved_sub 0 call_ranges); [|done]. intros r Hr. right. apply elem_of_app. right. apply list_elem_of_bind.
      exists x. split; [done|]. apply list_elem_of_filter. split; [|apply elem_of_app; by right].
      by apply (stored_symbolic libs pre own b x); right; right.
  - done.
  - apply Hlk.
  - split; [done|]. split; [done|]. pose proof (lk_libs _ _ _ _ _ _ _ _ _ _ Hlk) as Hli.
    rewrite Forall_forall in Hli |- *. intros l Hlin. apply (library_in_moved (mem w)); [by apply Hli|].
    apply (moved_sub 0 call_ranges); [|done]. intros r Hr. right. apply elem_of_app. left. apply list_elem_of_bind. by exists l.
  - split; [|done]. pose proof (lz_slots _ Hl) as Hws. rewrite Forall_forall in Hws.
    destruct (Hws (rebase_write b orig x)) as [Hs _]; [|exact Hs]. unfold lazy_writes.
    do 2 (apply elem_of_app; right). apply elem_of_app. left. by apply (list_elem_of_fmap_2 (rebase_write b orig)).
Qed.

(** C7: lazy binding is binding, later.  A call of a lazily relocated object is made for
    the first time, through a symbol that is not local and whose definition has no
    resolver function, while no global scope is set, the libraries of the object's scope
    are still there and the tables that the call reads are as the relocation left them.
    If the scope answers, [dl_fixup] stores in the call's slot, and returns, the address
    that binding the call at once would have stored: the user's choice, else the first
    definition in the order of the scope.  If it does not, the call panics, and that
    happens in three cases only: the scope has no library (the user's choice is then not
    asked for either, and immediate binding may well succeed), immediate binding reports
    the symbol as unresolved, or it leaves the word null, for a weak function that nobody
    defines. *)
Theorem lazy_calls_link m1 v i x :
  relocated lazy_writes (mem w) m1 -> later m1 v i x -> is_local (own (r_symbol x)).1 = false ->
  (pre (own (r_symbol x)).2 = None -> plain_definition (definition libs b (own (r_symbol x)).1 (own (r_symbol x)).2)) ->
  (forall u, lazy_address pre libs (own (r_symbol x)).2 = Some u ->
     word_of libs pre own b x = Some u /\
     dl_fixup (inner lazy_core) (Z.of_nat i) v = (Ok u, set_mem (store_bytes (mem v) (slot b x) (le_split 8 u)) v)) /\
  (lazy_address pre libs (own (r_symbol x)).2 = None ->
     dl_fixup (inner lazy_core) (Z.of_nat i) v = (Panic, v) /\
     (libs = [] \/ word_of libs pre own b x = None \/
      is_weak (own (r_symbol x)).1 = true /\ is_undef (own (r_symbol x)).1 = true /\ word_of libs pre own b x = Some 0)).
Proof.
  intros Hrel Hla Hloc Hpl. pose proof (later_waiting m1 v i x Hrel Hla) as Hw.
  exact (dl_fixup_linked libs pre_find pre own cores (inner lazy_core) st v (Z.of_nat i) x Hw Hloc Hpl).
Qed.
End lazy.

(** ** Example

    The object of [Relocation.v], with a GOT at 66000; [alpha] is the user's choice,
    [foo] is found in a library at 131072. *)

Definition lazy_memory : memory := image [(66000, replicate 24 0)] ∪ demo_reloc_memory.
Definition lazy_world : world := mk_world lazy_memory [] 0 {[900 := mk_cell 1 0 false; 901 := mk_cell 1 1 true]}.
Definition lazy_common : ElfCommonPart :=
  mk_common 0 (Some 66000) demo_relocation None (mk_init None (Some 300) (Some (mk_slice 65792 1))) true None None None
    demo_reloc_core.
Definition lazy_lib : CoreComponent :=
  mk_core 901 (mk_inner (bytes_of "libb.so") (Some demo_symtab) None None empty_slice None None [] user_data_empty None
    (mk_segments 131072 0 4096 (fun p n => emit (EvMunmap p n true)))).
Definition lazy_libs : list library := [mk_library 131072 demo_symtab demo_syms].
Definition lazy_orig (x : ElfRela) : Z := if r_offset x =? 272 then 4096 else 4112.
Definition lazy_demo_writes : list (Z * bytes) :=
  [word 65792 65600; word 65800 777; word 65808 69632; word 65816 69648; word 66008 900; word 66016 0].

Lemma lazy_own_in k : k = 2 \/ k = 3 -> own_in demo_symtab linked_own lazy_memory k.
Proof.
  intros Hk. destruct Hk as [-> | ->]; (constructor; [exists 10000; split; [done|apply (bool_decide_unpack _); by vm_compute]| |]);
    first [by vm_compute|apply cstr_at_check; by vm_compute].
Qed.

Lemma lazy_library : library_in lazy_memory (mk_library 131072 demo_symtab demo_syms).
Proof.
  unfold lazy_memory, demo_reloc_memory. rewrite (assoc_L (∪)). apply demo_library_above.
  apply (bool_decide_unpack _). by vm_compute.
Qed.

Lemma lazy_writes_eq :
  @lazy_writes (x86_64 0) _ lazy_common lazy_libs linked_pre linked_own (drop 1 demo_relas) demo_plt (take 1 demo_relas)
    lazy_orig 66000 = lazy_demo_writes.
Proof. by vm_compute. Qed.

Lemma lazy_linkable :
  @linkable (x86_64 0) demo_reloc_core demo_symtab lazy_libs demo_pre_find linked_pre linked_own
    lazy_world (drop 1 demo_relas) demo_plt lazy_demo_writes.
Proof.
  constructor.
  - done.
  - done.
  - intros name v. unfold linked_pre. case_bool_decide; [|done]. by intros [= <-].
  - constructor; [exact lazy_library|constructor].
  - intros x Hx Hn. apply lazy_own_in. cbn [drop app demo_relas demo_plt] in Hx.
    repeat (apply elem_of_cons in Hx as [->|Hx]; [first [by left|by right|done]|]). by apply elem_of_nil in Hx.
  - constructor; [|constructor; [by apply deo_none|constructor]].
    apply deo_symbol; [by left|]. constructor; [by eexists|done|done].
  - apply (bool_decide_unpack _). by vm_compute.
Qed.

Lemma lazy_demo_links :
  @lazy_links (x86_64 0) _ lazy_common lazy_libs demo_pre_find linked_pre linked_own lazy_world
    (drop 1 demo_relas) demo_plt (take 1 demo_relas) lazy_orig 66000 demo_symtab.
Proof.
  constructor; rewrite ?lazy_writes_eq.
  - done.
  - exact lazy_linkable.
  - by vm_compute.
  - by vm_compute.
  - by vm_compute.
  - constructor; [|constructor]. by split.
  - repeat (constructor; [split_and!; by vm_compute|]). constructor.
  - done.
  - repeat (constructor; [split; [by split|apply write_mapped_word, slot_mapped_check; by vm_compute]|]). constructor.
  - unfold lazy_demo_writes. repeat (constructor; [repeat (constructor; [by left|]); constructor|]). constructor.
  - apply (bool_decide_unpack _). by vm_compute.
  - done.
Qed.

Lemma relocate_impl_lazy_witness :
  exists w1 w',
    read_u64 (mem w1) 65800 = Ok 777 /\ read_u64 (mem w1) 65816 = Ok 69648 /\ read_u64 (mem w1) 66008 = Ok 900 /\
    log w' = [EvCall 300 []; EvCall 65600 []] /\
    @relocate_impl default_config (x86_64 0) demo_native lazy_common (lib_helper <$> lazy_libs) demo_pre_find
      demo_unknown (Some demo_lazy) lazy_world = (Ok (set_lazy_scope demo_reloc_core (Some demo_lazy)), w').
Proof.
  destruct (@relocate_impl_lazy default_config (x86_64 0) _ _ demo_native lazy_common lazy_libs demo_pre_find linked_pre
    linked_own lazy_world (drop 1 demo_relas) demo_plt (take 1 demo_relas) lazy_orig 66000 demo_symtab lazy_demo_links
    demo_unknown (Some demo_lazy) [300; 65600] (mk_cell 1 0 false))
    as (w1 & w' & _ & Hdata & Hcalls & Hgot & _ & Hlog & _ & Hrun).
  - reflexivity.
  - right. left. by eexists.
  - intros m [_ Hw]. unfold fn_list. cbn [i_init_fn i_init_array_fn c_init lazy_common default].
    assert (Hword : read_u64 m 65792 = Ok 65600).
    { apply read_word; [by split|]. apply Hw. by left. }
    change (read_slice read_fn 8 m _) with (x ← read_fn m 65792; xs ← Ok []; Ok (x :: xs)).
    unfold read_fn. by rewrite Hword.
  - intros f v _. by eexists.
  - reflexivity.
  - exists w1, w'. split; [|split; [|split; [|split; [exact Hlog|exact Hrun]]]].
    + apply (Hdata (mk_rela 264 (Z.shiftl 2 32 + 6) 5) 777); [apply list_elem_of_In; simpl; tauto|by vm_compute].
    + apply (Hcalls (mk_rela 280 (Z.shiftl 3 32 + 7) 0)). apply list_elem_of_In. simpl. tauto.
    + apply (Hgot ltac:(discriminate) 66008 900). by left.
Defined.

Lemma lazy_calls_link_witness :
  let m1 := apply_writes lazy_memory lazy_demo_writes in
  @dl_fixup default_config (x86_64 0) demo_scope_fn (inner (@lazy_core default_config demo_native lazy_common demo_pre_find [lazy_lib])) 1 (set_mem m1 lazy_world) =
    (Ok 153208, set_mem (store_bytes m1 65816 (le_split 8 153208)) (set_mem m1 lazy_world)).
Proof.
  intros m1.
  destruct (@lazy_calls_link default_config (x86_64 0) _ _ demo_native lazy_common lazy_libs demo_pre_find linked_pre
    linked_own lazy_world (drop 1 demo_relas) demo_plt (take 1 demo_relas) lazy_orig 66000 demo_symtab lazy_demo_links
    demo_scope_fn [lazy_lib]) with (m1 := m1) (v := set_mem m1 lazy_world) (i := 1%nat) (x := mk_rela 280 (Z.shiftl 3 32 + 7) 0)
    as [Hw _].
  - constructor; [by split|constructor].
  - rewrite lazy_writes_eq. apply relocated_writes.
    + rewrite <- lazy_writes_eq. eapply Forall_impl; [eapply lz_slots; exact lazy_demo_links|]. by intros s [_ Hs].
    + rewrite <- lazy_writes_eq. eapply lz_apart; exact lazy_demo_links.
  - constructor; try done.
    + constructor; [|constructor]. eexists. by split.
    + apply slot_mapped_check. by vm_compute.
  - reflexivity.
  - intros _ b s Hd. vm_compute in Hd. injection Hd as <- <-. by split.
  - destruct (Hw 153208) as [_ Hrun]; [by vm_compute|exact Hrun].
Defined.
