(* ===== verification/Whole.v ===== *)
(** * Whole: loading a library from its file to its handle

    Composes the theorems of [Loader.v], [Image.v], [Dynamic.v] and [Format.v]: a
    file that is a well-formed shared library, served by any object, on a platform
    that refuses no sound request, is loaded by [load_dylib] without an error and
    without a panic, and the handle describes what the file says.  Libraries with
    symbol versions are left to the theorems of [Version.v]. *)

From S2P Require Import Prelude Machine Arch StrTab Version Mmap Segment Dynamic Symbol Object UserData Loader Image Core Relocation Format.
#[local] Open Scope Z_scope.

(** ** What the dynamic section refers to *)

Section names.
Context `{Config} (data : bytes).

(** The number of entries of a table of relocations. *)
Definition table_len (ds : list Dyn) (off sz : Z) : Z :=
  if last_val off ds then default 0 (last_val sz ds) / RELA_SIZE else 0.

(** The tables end at the same place: the PLT's is the tail of the other. *)
Definition ends_together (ds : list Dyn) : bool :=
  match last_val DT_RELA ds, last_val DT_JMPREL ds with
  | Some a, Some b =>
      a + RELA_SIZE * table_len ds DT_RELA DT_RELASZ =? b + RELA_SIZE * table_len ds DT_JMPREL DT_PLTRELSZ
  | _, _ => false
  end.

(** String [s] is entry [v] of the string table, in the image of [len] bytes from
    [lo]. *)
Definition name_in (lo len : Z) (S : list ElfPhdr) (ds : list Dyn) (v : Z) (s : bytes) : Prop :=
  0 <= v /\ link_in lo len (default 0 (last_val DT_STRTAB ds) + v) /\
  str_in_file data S (default 0 (last_val DT_STRTAB ds) + v) s.

Record dyn_refs (lo len : Z) (S : list ElfPhdr) (ds : list Dyn) : Prop := {
  dr_wf : dyn_link_wf lo len ds;
  dr_hash : forall h, last_val DT_GNU_HASH ds = Some h -> exists off, in_file S h 16 off /\ off + 16 <= Z.of_nat (length data);
  dr_needed : Forall (fun v => exists s, name_in lo len S ds v s) (all_vals DT_NEEDED ds);
  dr_rpath : forall v, last_val DT_RPATH ds = Some v -> exists s, name_in lo len S ds v s;
  dr_runpath : forall v, last_val DT_RUNPATH ds = Some v -> exists s, name_in lo len S ds v s;
  dr_count : 0 <= default 0 (last_val DT_RELACOUNT ds) <= table_len ds DT_RELA DT_RELASZ;
  dr_tail : ends_together ds = true ->
    default 0 (last_val DT_RELACOUNT ds) + table_len ds DT_JMPREL DT_PLTRELSZ <= table_len ds DT_RELA DT_RELASZ;
  dr_version : feature_version = false \/ last_val DT_VERSYM ds = None;
}.

(** ** Reading them in memory *)

Lemma name_in_memory m segs lo len S ds v s :
  segments_ok segs -> seg_offset segs = lo -> seg_len segs = len -> dyn_link_wf lo len ds ->
  Forall (shows m (base segs) data) S -> name_in lo len S ds v s ->
  get_str m (mk_strtab (default 0 (last_val DT_STRTAB ds) + base segs)) v = Ok s.
Proof.
  intros Hs <- <- Hwf Hsh (Hv & Hin & off & Hf & Hc). pose proof (base_ok segs Hs) as Hb.
  pose proof Hs as ([Hp1 Hp2] & Ho & Hl). pose proof (dl_str _ _ _ Hwf) as Hst. unfold link_in in *.
  apply get_str_at. unfold str_at. cbn [strtab_data]. rewrite padd_small by lia.
  destruct (shows_in_file _ _ _ _ _ _ _ Hsh Hf) as [_ Hshift].
  apply (cstr_at_shift (store_bytes ∅ 0 data) _ off); [|done]. intros i Hi. rewrite <- Hshift by lia. f_equal. lia.
Qed.

Lemma names_in_memory m segs lo len S ds vs :
  segments_ok segs -> seg_offset segs = lo -> seg_len segs = len -> dyn_link_wf lo len ds ->
  Forall (shows m (base segs) data) S -> Forall (fun v => exists s, name_in lo len S ds v s) vs ->
  exists ss, map_outcome (get_str m (mk_strtab (default 0 (last_val DT_STRTAB ds) + base segs))) vs = Ok ss /\
    Forall2 (name_in lo len S ds) vs ss.
Proof.
  intros Hs Ho Hl Hwf Hsh. induction 1 as [|v vs (s & Hv) _ (ss & Hss & Hall)]; cbn [map_outcome]; [by eexists|].
  rewrite (name_in_memory m segs lo len S ds v s) by done. rewrite bind_Ok, Hss, bind_Ok.
  eexists. split; [done|]. by constructor.
Qed.

Lemma opt_name_in_memory m segs lo len S ds o :
  segments_ok segs -> seg_offset segs = lo -> seg_len segs = len -> dyn_link_wf lo len ds ->
  Forall (shows m (base segs) data) S -> (forall v, o = Some v -> exists s, name_in lo len S ds v s) ->
  exists r, map_opt (get_str m (mk_strtab (default 0 (last_val DT_STRTAB ds) + base segs))) o = Ok r /\
    match o, r with Some v, Some s => name_in lo len S ds v s | None, None => True | _, _ => False end.
Proof.
  intros Hs Ho Hl Hwf Hsh Hv. destruct o as [v|]; cbn [map_opt]; [|by exists None].
  destruct (Hv v eq_refl) as (s & Hin). exists (Some s). rewrite (name_in_memory m segs lo len S ds v s) by done. done.
Qed.

(** The hash table's header is mapped; without versions this is all that is read. *)
Lemma symbols_in_memory m segs lo len S ds p h :
  segments_ok segs -> seg_offset segs = lo -> seg_len segs = len -> dyn_refs lo len S ds ->
  last_val DT_GNU_HASH ds = Some h -> Forall (shows m (base segs) data) S ->
  exists st, SymbolTable_new m (dynamic_of segs p h ds) = Ok st /\
    strtab st = mk_strtab (default 0 (last_val DT_STRTAB ds) + base segs) /\
    symtab st = default 0 (last_val DT_SYMTAB ds) + base segs /\ version st = None /\
    parse m (h + base segs) = Ok (hashtab st).
Proof.
  intros Hs Ho Hl Hr Hh Hsh. destruct (dr_hash _ _ _ _ Hr h Hh) as (off & Hf & Hend).
  destruct (shows_in_file _ _ _ _ _ _ _ Hsh Hf) as [Hoff Hshift].
  assert (Hmap : mapped_range m (h + base segs) 16).
  { intros i Hi. replace i with (base segs + h + (i - base segs - h)) by lia. rewrite Hshift by lia.
    rewrite file_lookup by lia. apply lookup_lt_is_Some_2. lia. }
  assert (Hread : forall k, 0 <= k <= 12 -> exists x, read_u32 m (h + base segs + k) = Ok x).
  { intros k Hk. apply is_ok_inv. apply load_le_mapped. intros i Hi. apply Hmap. lia. }
  destruct (Hread 0 ltac:(lia)) as [a Ha], (Hread 4 ltac:(lia)) as [b Hb], (Hread 8 ltac:(lia)) as [c Hc],
    (Hread 12 ltac:(lia)) as [d Hd]. rewrite Z.add_0_r in Ha.
  assert (Hparse : exists ht, parse m (h + base segs) = Ok ht).
  { unfold parse. rewrite Ha, bind_Ok, Hb, bind_Ok, Hc, bind_Ok, Hd, bind_Ok. by eexists. }
  destruct Hparse as [ht Hht]. unfold SymbolTable_new. cbn [hashtab_addr dynamic_of strtab_addr symtab_addr version_idx].
  rewrite Hht, bind_Ok. cbv zeta.
  destruct (dr_version _ _ _ _ Hr) as [Hfv|Hvs]; [rewrite Hfv|rewrite Hvs; cbn [fmap option_fmap option_map]].
  - rewrite bind_Ok. by eexists.
  - destruct feature_version; cbn; by eexists.
Qed.

(** The relocation tables can be taken apart. *)
Lemma ElfRelocation_new_parts (plt dyn : option slice) (count : option Z) :
  let p := default empty_slice plt in
  let d := default empty_slice dyn in
  let n := default 0 count in
  0 <= n <= sl_len d -> 0 <= sl_len p -> sl_len d < U64_LIM ->
  (sl_end RELA_SIZE d = sl_end RELA_SIZE p -> n + sl_len p <= sl_len d) ->
  ElfRelocation_new plt dyn count =
    Ok (mk_relocation (mk_slice (sl_ptr d) n) p
          (mk_slice (padd (sl_ptr d) (RELA_SIZE * n))
             (if sl_end RELA_SIZE d =? sl_end RELA_SIZE p then sl_len d - n - sl_len p else sl_len d - n))).
Proof.
  intros p d n Hn Hp Hd Hend. unfold ElfRelocation_new. fold p d n. unfold slice_to, slice_from.
  rewrite (proj2 (Z.leb_le _ _)), !bind_Ok by lia. cbn [sl_len sl_ptr].
  destruct (Z.eqb_spec (sl_end RELA_SIZE d) (sl_end RELA_SIZE p)) as [He|]; [specialize (Hend He)|done].
  rewrite usub_ok, bind_Ok by lia. by rewrite (proj2 (Z.leb_le _ _)) by lia.
Qed.

(** A table of relocations in memory. *)
Lemma table_in_memory segs lo len ds off sz :
  segments_ok segs -> seg_offset segs = lo -> seg_len segs = len ->
  link_array lo len (last_val off ds) (last_val sz ds) ->
  let t := default empty_slice (spec_slice segs RELA_SIZE ds off sz) in
  0 <= sl_len t < U64_LIM /\ sl_len t = table_len ds off sz /\
  match last_val off ds with
  | Some a => sl_end RELA_SIZE t = base segs + a + RELA_SIZE * table_len ds off sz /\
              memory_ptr segs <= sl_end RELA_SIZE t
  | None => sl_end RELA_SIZE t = 8
  end.
Proof.
  intros Hs <- <- Ht. pose proof (base_ok segs Hs) as Hb. pose proof Hs as ([Hp1 Hp2] & Ho & Hl).
  unfold spec_slice, table_len, link_array, link_in, sl_end, RELA_SIZE in *.
  destruct (last_val off ds) as [a|] eqn:Ea; simpl; [|done].
  destruct (Ht a eq_refl) as (Ha & n & -> & Hn & Han). simpl.
  pose proof (Z.div_pos n 24 Hn ltac:(lia)). pose proof (Z.mul_div_le n 24 ltac:(lia)).
  rewrite padd_small by lia. lia.
Qed.

Lemma relocation_in_memory segs lo len S ds :
  segments_ok segs -> seg_offset segs = lo -> seg_len segs = len -> memory_ptr segs mod 4096 = 0 ->
  dyn_refs lo len S ds ->
  let n := default 0 (last_val DT_RELACOUNT ds) in
  let d := default empty_slice (spec_slice segs RELA_SIZE ds DT_RELA DT_RELASZ) in
  let plt := default empty_slice (spec_slice segs RELA_SIZE ds DT_JMPREL DT_PLTRELSZ) in
  ElfRelocation_new (spec_slice segs RELA_SIZE ds DT_JMPREL DT_PLTRELSZ) (spec_slice segs RELA_SIZE ds DT_RELA DT_RELASZ)
    (last_val DT_RELACOUNT ds) =
    Ok (mk_relocation (mk_slice (sl_ptr d) n) plt
          (mk_slice (padd (sl_ptr d) (RELA_SIZE * n))
             (if ends_together ds then sl_len d - n - sl_len plt else sl_len d - n))).
Proof.
  intros Hs Ho Hl Hal Hr n d plt. pose proof (dr_wf _ _ _ _ Hr) as Hwf. pose proof Hs as ([Hp1 Hp2] & _).
  pose proof (table_in_memory segs lo len ds DT_RELA DT_RELASZ Hs Ho Hl (dl_rela _ _ _ Hwf)) as (Hd & Hdl & Hde).
  pose proof (table_in_memory segs lo len ds DT_JMPREL DT_PLTRELSZ Hs Ho Hl (dl_plt _ _ _ Hwf)) as (Hp & Hpl & Hpe).
  fold d in Hd, Hdl, Hde. fold plt in Hp, Hpl, Hpe. pose proof (dr_count _ _ _ _ Hr) as Hc. fold n in Hc.
  pose proof (dr_tail _ _ _ _ Hr) as Ht. fold n in Ht.
  assert (Hbig : 8 < memory_ptr segs) by zlia.
  assert (Hsame : (sl_end RELA_SIZE d =? sl_end RELA_SIZE plt) = true /\ ends_together ds = true \/
    (sl_end RELA_SIZE d =? sl_end RELA_SIZE plt) = false /\ ends_together ds = false \/
    sl_len plt = 0 /\ ends_together ds = false).
  { unfold ends_together, table_len in *. destruct (last_val DT_RELA ds), (last_val DT_JMPREL ds) eqn:Ej; lia. }
  rewrite ElfRelocation_new_parts; fold d plt n.
  - f_equal. f_equal. f_equal. destruct Hsame as [[-> ->]|[[-> ->]|[? ->]]]; [done..|].
    destruct (_ =? _); lia.
  - lia.
  - lia.
  - lia.
  - intros He%Z.eqb_eq. destruct Hsame as [[_ He']|[[? _]|[? _]]]; [specialize (Ht He'); lia|congruence|lia].
Qed.
End names.

(** ** What the other headers leave in the builder *)

(** The last header of a type: it overwrites what the earlier ones left. *)
Fixpoint last_of (t : Z) (l : list ElfPhdr) : option ElfPhdr :=
  match l with
  | [] => None
  | p :: l' => match last_of t l' with Some q => Some q | None => if p_type p =? t then Some p else None end
  end.

Lemma last_of_Some t l p : last_of t l = Some p -> p ∈ l /\ p_type p = t.
Proof.
  induction l as [|x l IH]; simpl; [done|]. destruct (last_of t l) as [q|].
  - intros [= <-]. destruct (IH eq_refl). split; [by right|done].
  - destruct (Z.eqb_spec (p_type x) t); [|done]. intros [= <-]. split; [by left|done].
Qed.

Lemma last_of_is_Some t l p : p ∈ l -> p_type p = t -> is_Some (last_of t l).
Proof.
  intros Hp Ht. induction Hp as [x l|x y l _ IH]; simpl.
  - destruct (last_of t l); [by eexists|]. rewrite Ht, Z.eqb_refl. by eexists.
  - destruct (IH Ht) as [q ->]. by eexists.
Qed.

Lemma last_of_skip t p l : p_type p <> t -> last_of t (p :: l) = last_of t l.
Proof. intros Ht. simpl. rewrite (proj2 (Z.eqb_neq _ _) Ht). by destruct (last_of t l). Qed.

Lemma last_of_here t p l : p_type p = t -> last_of t (p :: l) = Some (default p (last_of t l)).
Proof. intros Ht. simpl. rewrite Ht, Z.eqb_refl. by destruct (last_of t l). Qed.

Section builds.
Context `{Mmap} (Q : list ElfPhdr -> list Dyn -> Prop) (data : bytes).

Definition loadable (ps : list ElfPhdr) : list ElfPhdr := filter is_load ps.

Record built (segs : ElfSegments) (A : list ElfPhdr) (b : Builder) (l : list ElfPhdr) (b' : Builder) : Prop := {
  bt_name : b_name b' = b_name b;
  bt_lazy : b_lazy_bind b' = b_lazy_bind b;
  bt_ehdr : b_ehdr b' = b_ehdr b;
  bt_user : b_user_data b' = b_user_data b;
  bt_segs : b_segments b' = b_segments b;
  bt_init : b_init_params b' = b_init_params b;
  bt_relro : b_relro b' = match last_of PT_GNU_RELRO l with
    | Some p => Some (mk_relro (base segs + p_vaddr p) (p_memsz p) mprotect) | None => b_relro b end;
  bt_phdr : phdr_mmap b' = match last_of PT_PHDR l with
    | Some p => Some (mk_slice (base segs + p_vaddr p) (p_memsz p / PHDR_SIZE)) | None => phdr_mmap b end;
  bt_dynamic : match last_of PT_DYNAMIC l with
    | Some p => exists S h ds, S ⊆ A /\ dyn_in_file data S (p_paddr p) ds /\ last_val DT_GNU_HASH ds = Some h /\
        Q S ds /\ b_dynamic b' = Some (dynamic_of segs (base segs + p_paddr p) h ds)
    | None => b_dynamic b' = b_dynamic b end;
  bt_interp : match last_of PT_INTERP l with
    | Some p => exists S s, S ⊆ A /\ str_in_file data S (p_vaddr p) s /\ b_interp b' = Some s
    | None => b_interp b' = b_interp b end;
}.

(** A header that changes nothing. *)
Lemma built_skip segs A b p l b' :
  p_type p ∉ [PT_DYNAMIC; PT_GNU_RELRO; PT_PHDR; PT_INTERP] -> built segs A b l b' -> built segs A b (p :: l) b'.
Proof.
  rewrite !not_elem_of_cons. intros (H1 & H2 & H3 & H4 & _) []. by constructor; rewrite ?last_of_skip by done.
Qed.

Lemma built_note segs A S b p b1 l b' :
  S ⊆ A -> notes data Q segs S p b b1 -> built segs A b1 l b' -> built segs A b (p :: l) b'.
Proof.
  intros HS Hn Hb. destruct Hn as [h ds Ht|Ht|Ht|s Ht|Ht]; [..|by apply built_skip];
    destruct Hb as [? ? ? ? ? ? Hr Hp Hd Hi]; cbn in *; constructor; try done;
    first [rewrite last_of_skip by (rewrite Ht; done); done|rewrite (last_of_here _ p l Ht)];
    match goal with |- context [last_of ?t l] => destruct (last_of t l) end; naive_solver.
Qed.

Lemma builds_built segs S b l b' :
  builds Q data segs S b l b' -> forall A, S ⊆ A -> loadable l ⊆ A -> built segs A b l b'.
Proof.
  induction 1 as [S b|S b p l b' Hl _ IH|S b p l b1 b' Hl Hn _ IH]; intros A HS HA.
  - by constructor.
  - unfold loadable in HA. rewrite filter_cons_True in HA by done. apply built_skip; [|apply IH; set_solver].
    unfold is_load in Hl. rewrite Hl. by apply (bool_decide_unpack _).
  - unfold loadable in HA. rewrite filter_cons_False in HA by done. eapply built_note; [|exact Hn|by apply IH]. done.
Qed.
End builds.

(** ** The headers of the file *)

(** The file starts with an ELF header that the loader accepts, and has its program
    headers, [ps], where the header says. *)
Record elf_headers `{Arch} (data : bytes) (h : ElfHeader) (ps : list ElfPhdr) : Prop := {
  fh_size : MAX_BUF_SIZE <= Z.of_nat (length data);
  fh_ehdr : read_ehdr_at (store_bytes ∅ 0 data) 0 = Ok h;
  fh_valid : vaildate h = Ok tt;
  fh_phoff : 0 <= e_phoff h;
  fh_phnum : 0 <= e_phnum h;
  fh_phentsize : e_phentsize h = PHDR_SIZE;
  fh_end : e_phoff h + PHDR_SIZE * e_phnum h <= Z.of_nat (length data);
  fh_phdrs : read_array read_phdr_at PHDR_SIZE (store_bytes ∅ 0 data) (e_phoff h) (Z.to_nat (e_phnum h)) = Ok ps;
}.

(** And it is a shared library. *)
Record file_headers `{Arch} (data : bytes) (h : ElfHeader) (ps : list ElfPhdr) : Prop := {
  fh_elf : elf_headers data h ps;
  fh_dylib : is_dylib h = true;
}.

Lemma read_ehdr_shift m1 m2 :
  (forall i, 0 <= i < EHDR_SIZE -> m1 !! i = m2 !! i) -> read_ehdr_at m1 0 = read_ehdr_at m2 0.
Proof.
  unfold EHDR_SIZE. intros Hall. unfold read_ehdr_at, read_bytes, read_u16, read_u32, read_u64.
  rewrite (load_bytes_shift m1 m2 0 0) by (intros i Hi; rewrite !Z.add_0_l; apply Hall; lia).
  assert (Hs : forall n o, 0 <= o -> o + Z.of_nat n <= 64 -> load_le m1 (0 + o) n = load_le m2 (0 + o) n).
  { intros n. by apply (load_le_shift m1 m2 0 0 0 64). }
  rewrite (Hs 2%nat 16), (Hs 2%nat 18), (Hs 4%nat 20), (Hs 8%nat 24), (Hs 8%nat 32), (Hs 8%nat 40), (Hs 4%nat 48),
    (Hs 2%nat 52), (Hs 2%nat 54), (Hs 2%nat 56), (Hs 2%nat 58), (Hs 2%nat 60), (Hs 2%nat 62) by lia. done.
Qed.

Section file.
Context `{Config} `{Arch} `{EO : ElfObject T} (o : T) (data : bytes) `{!Serves o data}.

Lemma prepare_reads l accept (h : ElfHeader) ps w :
  elf_headers data h ps -> accept h = true ->
  exists buf1 w1 buf2 w2, prepare l o accept w = (Ok (h, set_buf l buf1), w1) /\
    prepare_phdr buf1 h o w1 = (Ok (ps, buf2), w2) /\ mem w2 = mem w.
Proof.
  intros Hf Hacc. pose proof (fh_size _ _ _ Hf) as Hsz.
  destruct (read_buf_serves o data 0 MAX_BUF_SIZE w) as (w1 & Hr & Hm1); [unfold MAX_BUF_SIZE in *; lia..|].
  set (buf1 := mk_buf (store_bytes (stack_buf (ld_buf l)) 0 (slice_of data 0 MAX_BUF_SIZE)) (heap_buf (ld_buf l))).
  assert (Hnew : ElfHeader_new (stack_buf buf1) MAX_BUF_SIZE = Ok h).
  { unfold ElfHeader_new. replace (debug_assert (EHDR_SIZE <=? MAX_BUF_SIZE)) with (Ok tt : outcome unit)
      by (unfold debug_assert; destruct debug_assertions; done). rewrite bind_Ok.
    rewrite (read_ehdr_shift _ (store_bytes ∅ 0 data)), (fh_ehdr _ _ _ Hf), bind_Ok, (fh_valid _ _ _ Hf); [done|].
    unfold EHDR_SIZE, MAX_BUF_SIZE in *. intros i Hi. cbn [buf1 stack_buf].
    rewrite !store_bytes_lookup, length_slice_of by lia. rewrite !decide_True by lia.
    rewrite slice_of_lookup by lia. f_equal. }
  assert (Hprep : prepare_ehdr (ld_buf l) o w = (Ok (h, buf1), w1)).
  { unfold prepare_ehdr. rewrite (bind_run _ _ _ _ _ Hr). cbv zeta. fold buf1.
    unfold bind at 1, lift at 1. by rewrite Hnew. }
  destruct (prepare_phdr_reads o data (ld_buf l) buf1 h w w1 Hsz Hprep (fh_phoff _ _ _ Hf) (fh_phnum _ _ _ Hf)
              (fh_phentsize _ _ _ Hf) (fh_end _ _ _ Hf)) as (ps' & buf2 & w2 & Hp & Hps & Hm2).
  rewrite (fh_phdrs _ _ _ Hf) in Hps. injection Hps as <-. exists buf1, w1, buf2, w2. split; [|split; [done|congruence]].
  unfold prepare. apply on_unwind_run. rewrite (bind_run _ _ _ _ _ Hprep). by rewrite Hacc.
Qed.
End file.

(** ** The program headers in memory *)

(** [PT_PHDR] headers say where the table is; without one a loadable segment holds
    it. *)
Record table_mapped (h : ElfHeader) (ps : list ElfPhdr) : Prop := {
  tm_phdr : forall p, p ∈ ps -> p_type p = PT_PHDR ->
    p_memsz p = PHDR_SIZE * e_phnum h /\ in_file (loadable ps) (p_vaddr p) (p_memsz p) (e_phoff h);
  tm_some : Exists (fun p => p_type p = PT_PHDR) ps \/
    Exists (fun p => is_load p /\ p_offset p <= e_phoff h /\ e_phoff h + PHDR_SIZE * e_phnum h < p_offset p + p_filesz p) ps;
  tm_bound : forall p, p ∈ ps -> is_load p -> p_vaddr p + e_phoff h < U64_LIM;
}.

(** A range inside the image of an object. *)
Definition in_image (segs : ElfSegments) (a n : Z) : Prop :=
  memory_ptr segs <= a /\ a + n <= memory_ptr segs + seg_len segs.

Section table.
Context `{Config}.

Lemma find_phdrs_some segs h ps :
  segments_ok segs -> 0 <= e_phoff h -> 0 <= e_phnum h ->
  Forall (fun p => is_load p -> seg_wf segs p /\ p_vaddr p + e_phoff h < U64_LIM) ps ->
  Exists (fun p => is_load p /\ p_offset p <= e_phoff h /\ e_phoff h + PHDR_SIZE * e_phnum h < p_offset p + p_filesz p) ps ->
  exists s, find_phdrs segs h (e_phoff h) (e_phoff h + PHDR_SIZE * e_phnum h) ps = Ok (Some s) /\
    in_image segs (sl_ptr s) (PHDR_SIZE * sl_len s).
Proof.
  intros Hs Hoff Hnum Hall Hex. unfold find_phdrs. unfold PHDR_SIZE in *.
  pose proof Hs as ([Hp1 Hp2] & Ho1 & Hl). pose proof (base_ok segs Hs) as Hbase.
  induction Hall as [|p ps Hp Hall IH]; [by inversion Hex|].
  destruct (decide (is_load p)) as [Hld|Hnl]; cycle 1.
  { rewrite filter_cons_False by done. apply IH. inversion Hex; naive_solver. }
  rewrite filter_cons_True by done. cbn [find_map_outcome].
  destruct (Hp Hld) as [[(Hv & Hf & Hm & Hb & Ho) Hc Hfile [Hin1 Hin2]] Hov].
  pose proof (page_down_facts (p_vaddr p)) as F1. pose proof (page_up_facts (p_vaddr p + p_memsz p)) as F2.
  fold (seg_lo p) in F1. fold (seg_hi p) in F2.
  rewrite (uadd_ok (p_offset p)), bind_Ok by lia.
  destruct ((p_offset p <=? e_phoff h) && (e_phoff h <? p_offset p + p_filesz p) &&
            ((p_offset p <=? e_phoff h + 56 * e_phnum h) && (e_phoff h + 56 * e_phnum h <? p_offset p + p_filesz p)))
    eqn:Hr.
  - assert (Hrange : p_offset p <= e_phoff h /\ e_phoff h + 56 * e_phnum h < p_offset p + p_filesz p) by lia.
    rewrite (uadd_ok (p_vaddr p)), bind_Ok by lia. rewrite (usub_ok (p_vaddr p + e_phoff h)), bind_Ok by lia.
    rewrite (umul_ok (e_phnum h)), bind_Ok by lia.
    rewrite get_slice_ok by (try done; unfold in_segments; lia). rewrite !bind_Ok. eexists. split; [done|].
    unfold in_image. cbn [sl_ptr sl_len]. rewrite Z.div_mul by done. unfold base in *. lia.
  - rewrite bind_Ok. apply IH. inversion Hex as [? ? (_ & Hin)|]; [lia|done].
Qed.
End table.

(** More segments in memory, more that can be read. *)
Section monotone.
Context `{Config} (data : bytes) (S A : list ElfPhdr) (Hsub : S ⊆ A).

Lemma in_file_mono a n off : in_file S a n off -> in_file A a n off.
Proof. intros (q & Hq & ?). exists q. split; [by apply Hsub|done]. Qed.

Lemma str_in_file_mono a s : str_in_file data S a s -> str_in_file data A a s.
Proof. intros (off & Hf & ?). exists off. split; [by apply in_file_mono|done]. Qed.

Lemma name_in_mono lo len ds v s : name_in data lo len S ds v s -> name_in data lo len A ds v s.
Proof. intros (? & ? & ?). split_and!; [done..|]. by apply str_in_file_mono. Qed.

Lemma dyn_refs_mono lo len ds : dyn_refs data lo len S ds -> dyn_refs data lo len A ds.
Proof.
  intros [Hwf Hh Hn Hr Hu Hc Ht Hv]. constructor; try done.
  - intros h Hx. destruct (Hh h Hx) as (off & Hf & ?). exists off. split; [by apply in_file_mono|done].
  - eapply Forall_impl; [exact Hn|]. intros v (s & ?). exists s. by apply name_in_mono.
  - intros v Hx. destruct (Hr v Hx) as (s & ?). exists s. by apply name_in_mono.
  - intros v Hx. destruct (Hu v Hx) as (s & ?). exists s. by apply name_in_mono.
Qed.
End monotone.

(** ** The handle *)

(** [R] relates what was asked for to what there is. *)
Definition opt_rel {A B} (R : A -> B -> Prop) (x : option A) (y : option B) : Prop :=
  match x, y with Some a, Some b => R a b | None, None => True | _, _ => False end.

Section handle.
Context `{Config} `{Mmap} (data : bytes).

(** What the handle [c] says of the library whose dynamic section is [ds] at link
    address [a], loaded at [segs]. *)
Record handle_dynamic (m : memory) (segs : ElfSegments) (A : list ElfPhdr) (a : Z) (ds : list Dyn) (c : ElfCommonPart) : Prop := {
  hd_segments : segments (inner (c_core c)) = segs;
  hd_dynamic : cc_dynamic (inner (c_core c)) = NonNull_new (base segs + a);
  hd_symbols : exists st, symbols (inner (c_core c)) = Some st /\
    strtab st = mk_strtab (default 0 (last_val DT_STRTAB ds) + base segs) /\
    symtab st = default 0 (last_val DT_SYMTAB ds) + base segs /\ version st = None /\
    (forall h, last_val DT_GNU_HASH ds = Some h -> parse m (h + base segs) = Ok (hashtab st));
  hd_got : c_got c = Z.add (base segs) <$> last_val DT_PLTGOT ds;
  hd_relocation : ElfRelocation_new (spec_slice segs RELA_SIZE ds DT_JMPREL DT_PLTRELSZ)
    (spec_slice segs RELA_SIZE ds DT_RELA DT_RELASZ) (last_val DT_RELACOUNT ds) = Ok (c_relocation c);
  hd_fini : cc_fini_fn (inner (c_core c)) = Z.add (base segs) <$> last_val DT_FINI ds /\
    cc_fini_array_fn (inner (c_core c)) = spec_slice segs 8 ds DT_FINI_ARRAY DT_FINI_ARRAYSZ;
  hd_needed : Forall2 (name_in data (seg_offset segs) (seg_len segs) A ds) (all_vals DT_NEEDED ds)
    (cc_needed_libs (inner (c_core c)));
  hd_rpath : opt_rel (name_in data (seg_offset segs) (seg_len segs) A ds) (last_val DT_RPATH ds) (c_rpath c);
  hd_runpath : opt_rel (name_in data (seg_offset segs) (seg_len segs) A ds) (last_val DT_RUNPATH ds) (c_runpath c);
}.

(** What it says of the builder. *)
Record handle_builder (b : Builder) (ds : list Dyn) (s : slice) (c : ElfCommonPart) : Prop := {
  hb_name : cc_name (inner (c_core c)) = b_name b;
  hb_phdrs : cc_phdrs (inner (c_core c)) = s;
  hb_user : user_data (inner (c_core c)) = b_user_data b;
  hb_scope : lazy_scope (inner (c_core c)) = None;
  hb_entry : c_entry c = e_entry (b_ehdr b);
  hb_relro : c_relro c = b_relro b;
  hb_interp : c_interp c = b_interp b;
  hb_lazy : c_lazy c = default (negb (Z.testbit (default 0 (last_val DT_FLAGS ds)) 3)) (b_lazy_bind b);
  hb_init : c_init c = mk_init (b_init_params b) (Z.add (base (b_segments b)) <$> last_val DT_INIT ds)
    (spec_slice (b_segments b) 8 ds DT_INIT_ARRAY DT_INIT_ARRAYSZ);
}.

Context `{AA : ArcAlloc}.

Lemma create_common_runs dy b ps A a h ds s w :
  let segs := b_segments b in
  segments_ok segs -> memory_ptr segs mod 4096 = 0 ->
  b_dynamic b = Some (dynamic_of segs (base segs + a) h ds) -> last_val DT_GNU_HASH ds = Some h ->
  dyn_refs data (seg_offset segs) (seg_len segs) A ds -> Forall (shows (mem w) (base segs) data) A ->
  (forall phdr_start phdr_end, phdr_range (b_ehdr b) = Ok (phdr_start, phdr_end) ->
     match phdr_mmap b with
     | Some s => Ok s
     | None => r ← find_phdrs segs (b_ehdr b) phdr_start phdr_end ps; unwrap r
     end = Ok s) ->
  is_ok (phdr_range (b_ehdr b)) = true ->
  exists c w', create_common b ps dy w = (Ok c, w') /\ mem w' = mem w /\
    arcs w' !! arc_ptr (c_core c) = Some (mk_cell 1 0 false) /\
    handle_dynamic (mem w) segs A a ds c /\ handle_builder b ds s c.
Proof.
  intros segs Hs Hal Hd Hh Hr Hsh Hph [[phdr_start phdr_end] Hrange]%is_ok_inv.
  specialize (Hph _ _ Hrange).
  pose proof (relocation_in_memory data segs _ _ A ds Hs eq_refl eq_refl Hal Hr) as Hrel. cbv zeta in Hrel.
  destruct (symbols_in_memory data (mem w) segs _ _ A ds (base segs + a) h Hs eq_refl eq_refl Hr Hh Hsh)
    as (st & Hst & Hstr & Hsym & Hver & Hpar).
  pose proof (dr_wf _ _ _ _ _ Hr) as Hwf.
  destruct (names_in_memory data (mem w) segs _ _ A ds _ Hs eq_refl eq_refl Hwf Hsh (dr_needed _ _ _ _ _ Hr)) as (libs & Hlibs & Hn).
  destruct (opt_name_in_memory data (mem w) segs _ _ A ds _ Hs eq_refl eq_refl Hwf Hsh (dr_rpath _ _ _ _ _ Hr)) as (rp & Hrp & Hrpn).
  destruct (opt_name_in_memory data (mem w) segs _ _ A ds _ Hs eq_refl eq_refl Hwf Hsh (dr_runpath _ _ _ _ _ Hr)) as (rup & Hrup & Hrupn).
  do 2 eexists. split.
  - unfold create_common. apply on_unwind_run. rewrite Hd. unfold bind, lift, reads. rewrite Hrange. cbv beta iota.
    fold segs. rewrite Hph. cbn [pltrel dynrel rela_count dynamic_of]. fold RELA_SIZE. rewrite Hrel, Hst, Hstr.
    cbn [needed_libs rpath_off runpath_off dynamic_of]. rewrite Hlibs, Hrp, Hrup. reflexivity.
  - cbn. split; [done|]. split; [apply lookup_insert_eq|]. split; constructor; cbn; try done.
    exists st. do 4 (split; [done|]). rewrite Hh. by intros h' [= <-].
Qed.
End handle.

(** ** A well-formed library loads *)

Section whole.
Context `{Config} `{Arch} `{Mm : Mmap} (file : Z -> Z -> Z) `{!MmapLaws Mm file}.
Context (room limit : Z) `{!MmapGrants Mm room limit} `{AA : ArcAlloc}.
Context `{EO : ElfObject T} (o : T) (data : bytes) `{!Serves o data}.
Hypothesis Hfile : forall fd j b, as_fd o = Some fd -> data !! j = Some b -> file fd (Z.of_nat j) = b.

(** The handle [c] of a library with header [ehdr] and program headers [ps], in
    memory [m]; [Q] is what is known of its dynamic section, given some of the
    loadable segments. *)
Record library_of (Q : list ElfPhdr -> list Dyn -> Prop) (name : bytes) (lazy : option bool) (init : option InitParams) (ehdr : ElfHeader)
    (ps : list ElfPhdr) (m : memory) (c : ElfCommonPart) : Prop := {
  lb_name : cc_name (inner (c_core c)) = name;
  lb_entry : c_entry c = e_entry ehdr;
  lb_image : forall p, p ∈ ps -> is_load p -> shows m (base (segments (inner (c_core c)))) data p;
  lb_phdrs : read_slice read_phdr_at PHDR_SIZE m (cc_phdrs (inner (c_core c))) = Ok ps;
  lb_table : in_image (segments (inner (c_core c))) (sl_ptr (cc_phdrs (inner (c_core c))))
    (PHDR_SIZE * sl_len (cc_phdrs (inner (c_core c))));
  lb_relro : c_relro c = (fun p => mk_relro (base (segments (inner (c_core c))) + p_vaddr p) (p_memsz p) mprotect) <$>
    last_of PT_GNU_RELRO ps;
  lb_interp : opt_rel (fun p s => str_in_file data (loadable ps) (p_vaddr p) s) (last_of PT_INTERP ps) (c_interp c);
  lb_user : user_data (inner (c_core c)) = user_data_empty /\ lazy_scope (inner (c_core c)) = None;
  lb_dynamic : exists p ds, last_of PT_DYNAMIC ps = Some p /\ dyn_in_file data (loadable ps) (p_paddr p) ds /\
    (exists S, S ⊆ loadable ps /\ Q S ds) /\
    handle_dynamic data m (segments (inner (c_core c))) (loadable ps) (p_paddr p) ds c /\
    c_lazy c = default (negb (Z.testbit (default 0 (last_val DT_FLAGS ds)) 3)) lazy /\
    c_init c = mk_init init (Z.add (base (segments (inner (c_core c)))) <$> last_val DT_INIT ds)
      (spec_slice (segments (inner (c_core c))) 8 ds DT_INIT_ARRAY DT_INIT_ARRAYSZ);
}.

(** The table of program headers is found, and reads as in the file. *)
Lemma table_found segs ehdr ps ps' b m :
  ps' = ps \/ Exists (fun p => p_type p = PT_PHDR) ps ->
  segments_ok segs -> elf_headers data ehdr ps -> table_mapped ehdr ps ->
  Forall (fun p => is_load p -> seg_wf segs p) ps ->
  (forall p, p ∈ ps -> is_load p -> shows m (base segs) data p) ->
  phdr_mmap b = (fun p => mk_slice (base segs + p_vaddr p) (p_memsz p / PHDR_SIZE)) <$> last_of PT_PHDR ps ->
  exists s,
    match phdr_mmap b with
    | Some s => Ok s
    | None => r ← find_phdrs segs ehdr (e_phoff ehdr) (e_phoff ehdr + PHDR_SIZE * e_phnum ehdr) ps'; unwrap r
    end = Ok s /\ read_slice read_phdr_at PHDR_SIZE m s = Ok ps /\ in_image segs (sl_ptr s) (PHDR_SIZE * sl_len s).
Proof.
  intros Hps' Hs Hf [Ht1 Ht2 Ht3] Hwf Hsh ->. pose proof (fh_phoff _ _ _ Hf) as Hoff. pose proof (fh_phnum _ _ _ Hf) as Hnum.
  destruct (last_of PT_PHDR ps) as [p|] eqn:Hl.
  - apply last_of_Some in Hl as [Hp Hty]. destruct (Ht1 p Hp Hty) as [Hsz Hin]. eexists. split; [done|].
    cbn [sl_ptr sl_len]. unfold read_slice. cbn [sl_ptr sl_len].
    assert (Hn : p_memsz p / PHDR_SIZE = e_phnum ehdr) by by rewrite Hsz, Z.mul_comm, Z.div_mul. rewrite Hn. split.
    2: { rewrite <- Hsz. destruct Hin as (q & [Hq1 Hq2]%list_elem_of_filter & ? & ? & ? & _ & _). rewrite Forall_forall in Hwf.
      destruct (Hwf q Hq2 Hq1) as [(? & ? & ? & _) _ _ [? ?]]. pose proof (base_ok segs Hs) as Hbase.
      pose proof (page_down_facts (p_vaddr q)) as F1. pose proof (page_up_facts (p_vaddr q + p_memsz q)) as F2.
      fold (seg_lo q) in F1. fold (seg_hi q) in F2. unfold in_image. lia. }
    rewrite <- (fh_phdrs _ _ _ Hf). apply read_phdrs_shift. intros i Hi.
    assert (HshA : Forall (shows m (base segs) data) (loadable ps)).
    { apply Forall_forall. intros q [Hq1 Hq2]%list_elem_of_filter. by apply Hsh. }
    destruct (shows_in_file _ _ _ _ _ _ _ HshA Hin) as [_ Hshift]. apply Hshift. lia.
  - assert (Hno : ~ Exists (fun p => p_type p = PT_PHDR) ps).
    { intros (p & Hp & Hty)%Exists_exists. destruct (last_of_is_Some _ _ _ Hp Hty). congruence. }
    destruct Hps' as [->|?]; [|done]. destruct Ht2 as [|Hex]; [done|].
    destruct (find_phdrs_some segs ehdr ps) as (s & Hfind & Hins); [done..| |done|].
    { rewrite Forall_forall in Hwf |- *. intros p Hp Hld. split; [by apply Hwf|by apply Ht3]. }
    exists s. cbn. rewrite Hfind. split; [done|]. split; [|done]. rewrite <- (fh_phdrs _ _ _ Hf).
    apply (phdrs_in_memory m segs ehdr data ps s); [done..| |done].
    rewrite Forall_forall in Hwf |- *. intros p Hp Hld. split_and!; [by apply Hwf|by apply Hsh|by apply Ht3].
Qed.

Lemma first_segs_loadable lo ps : first_segs lo ps ⊆ loadable ps.
Proof. intros p [[Hl _] Hp]%list_elem_of_filter. by apply list_elem_of_filter. Qed.

Lemma phdr_range_ok ehdr ps :
  elf_headers data ehdr ps -> phdr_range ehdr = Ok (e_phoff ehdr, e_phoff ehdr + PHDR_SIZE * e_phnum ehdr).
Proof.
  intros Hf. pose proof (fh_phoff _ _ _ Hf). pose proof (fh_phnum _ _ _ Hf). pose proof (fh_end _ _ _ Hf).
  pose proof (serves_size (o := o) (data := data)). unfold phdr_range. rewrite (fh_phentsize _ _ _ Hf). unfold PHDR_SIZE in *.
  rewrite umul_ok, bind_Ok by lia. by rewrite uadd_ok, bind_Ok by lia.
Qed.

(** *** The run behind the theorems below

    Reading the header, loading the segments and making the handle, for a library or
    an executable [dy]. *)
Definition load_common (dy : bool) (accept : ElfHeader -> bool) (l : Loader) (lazy : option bool) : M (ElfCommonPart * Loader) :=
  let! '(ehdr, l) := prepare l o accept in
  let! '(builder, phdrs, l) := load_impl l ehdr o lazy in
  let! c := create_common builder (if dy then phdrs else []) dy in
  ret (c, l).

(** Where the image of the handle [c] is: what it replaced in [m] was not in use, if
    the platform gives fresh pages, and nothing else has changed in [m']. *)
Record image_at (m m' : memory) (lo len : Z) (c : ElfCommonPart) : Prop := {
  ia_offset : seg_offset (segments (inner (c_core c))) = lo;
  ia_len : seg_len (segments (inner (c_core c))) = len;
  ia_segments : segments_ok (segments (inner (c_core c)));
  ia_aligned : memory_ptr (segments (inner (c_core c))) mod 4096 = 0;
  ia_outside : same_outside m m' (memory_ptr (segments (inner (c_core c)))) (seg_len (segments (inner (c_core c))));
  ia_placed : placed Mm m (memory_ptr (segments (inner (c_core c)))) (seg_len (segments (inner (c_core c))));
  ia_mapped : mapped_range m' (memory_ptr (segments (inner (c_core c)))) (seg_len (segments (inner (c_core c))));
}.

(** Reading the header and loading the segments. *)
Lemma load_image_runs Q accept l lazy w ehdr ps param lo :
  MmapAnswers Mm room limit (first_addr (is_dylib ehdr) lo) -> (is_dylib ehdr = false -> 0 < lo) ->
  ld_hook l = None ->
  (forall w, exists w', obj_drop o w = (Ok tt, w') /\ mem w' = mem w) ->
  elf_headers data ehdr ps -> accept ehdr = true -> image_wf data ps ->
  create_segments ps true = Ok (param, lo) -> lo <= room -> pm_len param <= limit ->
  headers_ok Q data lo (pm_len param) (first_segs lo ps) ps ->
  exists b l1 l2 w1 w3, prepare l o accept w = (Ok (ehdr, l1), w1) /\
    load_impl l1 ehdr o lazy w1 = (Ok (b, ps, l2), w3) /\
    built Q data (b_segments b) (loadable ps) (Builder_new (b_segments b) (file_name o) lazy ehdr (init_params l)) ps b /\
    segments_ok (b_segments b) /\ memory_ptr (b_segments b) mod 4096 = 0 /\
    seg_offset (b_segments b) = lo /\ lo <= memory_ptr (b_segments b) /\ seg_len (b_segments b) = pm_len param /\
    (forall p, p ∈ ps -> is_load p -> shows (mem w3) (base (b_segments b)) data p) /\
    same_outside (mem w) (mem w3) (memory_ptr (b_segments b)) (seg_len (b_segments b)) /\
    placed Mm (mem w) (memory_ptr (b_segments b)) (seg_len (b_segments b)) /\
    mapped_range (mem w3) (memory_ptr (b_segments b)) (seg_len (b_segments b)) /\
    (is_dylib ehdr = false -> free_range (mem w) lo (pm_len param) -> memory_ptr (b_segments b) = lo).
Proof.
  intros Hans Hdy Hhook Hdrop Hf Hacc Hwf Hc Hroom Hlim Hok.
  destruct (prepare_reads o data l accept ehdr ps w Hf Hacc) as (buf1 & w1 & buf2 & w2 & Hprep & Hph & Hm2).
  destruct (load_impl_runs file room limit Q o data Hfile (set_buf l buf1) ehdr lazy w1 ps buf2 w2 param lo)
    as (b & w3 & Hload & Hs & Hal & Hso & Hmp & Hsl & Hshows & Hb & Hout & Hpl & Hmapd & Hfree); try done.
  rewrite Hm2 in Hfree, Hout, Hpl.
  apply builds_built with (A := loadable ps) in Hb; [|apply first_segs_loadable|done].
  by exists b, (set_buf l buf1), (set_buf (set_buf l buf1) buf2), w1, w3.
Qed.

Lemma load_common_runs Q accept l lazy w ehdr ps param lo :
  (forall S ds, Q S ds -> dyn_refs data lo (pm_len param) S ds) ->
  MmapAnswers Mm room limit (first_addr (is_dylib ehdr) lo) -> (is_dylib ehdr = false -> 0 < lo) ->
  ld_hook l = None ->
  (forall w, exists w', obj_drop o w = (Ok tt, w') /\ mem w' = mem w) ->
  elf_headers data ehdr ps -> accept ehdr = true -> image_wf data ps ->
  create_segments ps true = Ok (param, lo) -> lo <= room -> pm_len param <= limit ->
  headers_ok Q data lo (pm_len param) (first_segs lo ps) ps ->
  Exists (fun p => p_type p = PT_DYNAMIC) ps -> table_mapped ehdr ps ->
  (is_dylib ehdr = false -> Exists (fun p => p_type p = PT_PHDR) ps) ->
  exists c l' w', load_common (is_dylib ehdr) accept l lazy w = (Ok (c, l'), w') /\
    library_of Q (file_name o) lazy (init_params l) ehdr ps (mem w') c /\
    image_at (mem w) (mem w') lo (pm_len param) c /\
    arcs w' !! arc_ptr (c_core c) = Some (mk_cell 1 0 false) /\
    (is_dylib ehdr = false -> free_range (mem w) lo (pm_len param) -> memory_ptr (segments (inner (c_core c))) = lo).
Proof.
  intros HQr Hans Hdy Hhook Hdrop Hf Hacc Hwf Hc Hroom Hlim Hok Hdyn Htab Hph0.
  destruct (load_image_runs Q accept l lazy w ehdr ps param lo)
    as (b & l1 & l2 & w1 & w3 & Hprep & Hload & [Bn Bl Be Bu Bs Bi Br Bp Bd Bt] & Hs & Hal & Hso & Hmp & Hsl & Hshows & Hout & Hpl & Hmapd & Hfree); try done.
  pose proof (segments_inside o data ps param lo (b_segments b) Hwf Hc Hso Hsl) as Hin.
  cbn [Builder_new b_name b_lazy_bind b_ehdr b_user_data b_init_params b_relro phdr_mmap b_dynamic b_interp] in *.
  set (ps' := if is_dylib ehdr then ps else []).
  assert (Hps' : ps' = ps \/ Exists (fun p => p_type p = PT_PHDR) ps).
  { unfold ps'. destruct (is_dylib ehdr); [by left|right; by apply Hph0]. }
  destruct (table_found (b_segments b) ehdr ps ps' b (mem w3) Hps' Hs Hf Htab) as (s & Hfind & Hread & Hins);
    [|done|by rewrite Bp; destruct (last_of _ _)|].
  { eapply Forall_impl; [exact Hin|]. naive_solver. }
  apply Exists_exists in Hdyn as (p0 & Hp0 & Ht0). destruct (last_of_is_Some _ _ _ Hp0 Ht0) as [p Hl]. rewrite Hl in Bd.
  destruct Bd as (S & h & ds & HS & Hds & Hh & HQ & Bd).
  pose proof (dyn_refs_mono data S (loadable ps) HS _ _ _ (HQr S ds HQ)) as Hrefs. rewrite <- Hso, <- Hsl in Hrefs.
  destruct (create_common_runs data (is_dylib ehdr) b ps' (loadable ps) (p_paddr p) h ds s w3 Hs Hal Bd Hh Hrefs)
    as (c & w4 & Hcr & Hm4 & Harc & Hhd & Hhb).
  { apply Forall_forall. intros q [Hq1 Hq2]%list_elem_of_filter. by apply Hshows. }
  { intros phdr_start phdr_end. rewrite Be, (phdr_range_ok _ _ Hf). by intros [= <- <-]. }
  { by rewrite Be, (phdr_range_ok _ _ Hf). }
  exists c, l2, w4. split.
  { unfold load_common. rewrite (bind_run _ _ _ _ _ Hprep), (bind_run _ _ _ _ _ Hload). fold ps'.
    by rewrite (bind_run _ _ _ _ _ Hcr). }
  pose proof (hd_segments _ _ _ _ _ _ _ Hhd) as Hseg. destruct Hhb as [Cn Cp Cu Cs Ce Cr Ct Cl Ci].
  split; [|split; [|split; [done|by rewrite Hseg]]].
  2: { constructor; rewrite ?Hseg, ?Hm4; done. }
  constructor; rewrite ?Hseg, ?Hm4.
  - congruence.
  - congruence.
  - done.
  - by rewrite Cp.
  - by rewrite Cp.
  - rewrite Cr, Br. by destruct (last_of _ _).
  - rewrite Ct. destruct (last_of PT_INTERP ps) as [q|]; [|by rewrite Bt].
    destruct Bt as (S' & str & HS' & Hstr & ->). by apply (str_in_file_mono data S').
  - split; [congruence|done].
  - exists p, ds. split; [done|]. split.
    { destruct Hds as (off & Hdf & ?). exists off. split; [by apply (in_file_mono S)|done]. }
    split; [by exists S|]. split; [done|]. rewrite Cl, Ci, Bl, Bi. done.
Qed.

(** A load is the common part and the type of the handle. *)
Lemma load_dylib_common l lazy w c l' w' :
  load_common true is_dylib l lazy w = (Ok (c, l'), w') ->
  load_dylib l o lazy w = (Ok (mk_dylib c, l'), w').
Proof.
  intros Hrun. unfold load_common in Hrun. unfold load_dylib.
  apply bind_run_inv in Hrun as ([ehdr' l1] & w1 & Hp & Hrun). rewrite (bind_run _ _ _ _ _ Hp).
  apply bind_run_inv in Hrun as ([[b ps] l2] & w2 & Hl & Hrun). rewrite (bind_run _ _ _ _ _ Hl).
  apply bind_run_inv in Hrun as (c' & w3 & Hc & Hrun). injection Hrun as <- <- <-. unfold create_dylib.
  rewrite (bind_run _ _ _ _ _ (bind_run _ _ _ _ _ Hc)). done.
Qed.

Lemma load_dylib_runs Q l lazy w ehdr ps param lo :
  (forall S ds, Q S ds -> dyn_refs data lo (pm_len param) S ds) ->
  ld_hook l = None ->
  (forall w, exists w', obj_drop o w = (Ok tt, w') /\ mem w' = mem w) ->
  file_headers data ehdr ps -> image_wf data ps ->
  create_segments ps true = Ok (param, lo) -> lo <= room -> pm_len param <= limit ->
  headers_ok Q data lo (pm_len param) (first_segs lo ps) ps ->
  Exists (fun p => p_type p = PT_DYNAMIC) ps -> table_mapped ehdr ps ->
  exists c l' w', load_dylib l o lazy w = (Ok (mk_dylib c, l'), w') /\
    library_of Q (file_name o) lazy (init_params l) ehdr ps (mem w') c /\
    seg_offset (segments (inner (c_core c))) = lo /\ seg_len (segments (inner (c_core c))) = pm_len param /\
    segments_ok (segments (inner (c_core c))) /\ memory_ptr (segments (inner (c_core c))) mod 4096 = 0 /\
    arcs w' !! arc_ptr (c_core c) = Some (mk_cell 1 0 false) /\
    same_outside (mem w) (mem w') (memory_ptr (segments (inner (c_core c)))) (seg_len (segments (inner (c_core c)))) /\
    placed Mm (mem w) (memory_ptr (segments (inner (c_core c)))) (seg_len (segments (inner (c_core c)))) /\
    mapped_range (mem w') (memory_ptr (segments (inner (c_core c)))) (seg_len (segments (inner (c_core c)))).
Proof.
  intros HQr Hhook Hdrop [Hf Hdy] Hwf Hc Hroom Hlim Hok Hdyn Htab.
  destruct (load_common_runs Q is_dylib l lazy w ehdr ps param lo) as (c & l' & w' & Hrun & Hlib & [] & Harc & _); try done;
    rewrite ?Hdy; try done; [exact (free_answers Mm file room limit)|].
  rewrite Hdy in Hrun. exists c, l', w'. split; [|done]. by apply load_dylib_common.
Qed.

(** C11: a well-formed shared library loads, and its handle describes it.  The
    file starts with a valid header, its headers fit together, its dynamic section
    stays inside the image and refers to strings and tables that are there; the
    platform refuses no sound request.  Then [load_dylib] returns a handle, and in
    memory is what the handle says: the segments at their place, the program
    headers, the dynamic section with its tables and names, the RELRO range and the
    interpreter; binding is lazy as asked for or, by default, as the section's flags
    say, and the handle is the only one. *)
Theorem load_dylib_loads l lazy w ehdr ps param lo :
  ld_hook l = None ->
  (forall w, exists w', obj_drop o w = (Ok tt, w') /\ mem w' = mem w) ->
  file_headers data ehdr ps -> image_wf data ps ->
  create_segments ps true = Ok (param, lo) -> lo <= room -> pm_len param <= limit ->
  headers_ok (dyn_refs data lo (pm_len param)) data lo (pm_len param) (first_segs lo ps) ps ->
  Exists (fun p => p_type p = PT_DYNAMIC) ps -> table_mapped ehdr ps ->
  exists c l' w', load_dylib l o lazy w = (Ok (mk_dylib c, l'), w') /\
    library_of (dyn_refs data lo (pm_len param)) (file_name o) lazy (init_params l) ehdr ps (mem w') c /\
    seg_offset (segments (inner (c_core c))) = lo /\ seg_len (segments (inner (c_core c))) = pm_len param /\
    arcs w' !! arc_ptr (c_core c) = Some (mk_cell 1 0 false).
Proof.
  intros. destruct (load_dylib_runs (dyn_refs data lo (pm_len param)) l lazy w ehdr ps param lo)
    as (c & l' & w' & Hrun & Hlib & Hlo & Hlen & _ & _ & Harc & _); [done..|]. by exists c, l', w'.
Qed.
End whole.

(** ** Example

    A library of 800 bytes: its headers, and a dynamic section that needs
    [libc.so]; its one relative relocation rebases its array of initialisers. *)

(** The headers of a file of [n] bytes that is one segment, with a dynamic section of
    [k] bytes at 240. *)
Definition one_segment (n k : Z) : list ElfPhdr :=
  [mk_phdr PT_PHDR 4 64 64 64 168 168 8; mk_phdr PT_LOAD 6 0 0 0 n n 4096;
   mk_phdr PT_DYNAMIC 6 240 240 240 k k 8].
Definition one_segment_ehdr : ElfHeader :=
  mk_ehdr (ELFMAGIC ++ [2; 1; 1; 0] ++ replicate 8 0) 3 62 1 0 64 0 0 64 56 3 0 0 0.

Definition whole_phdrs : list ElfPhdr := one_segment 800 176.
Definition whole_dyns : list Dyn :=
  [mk_dyn DT_GNU_HASH 416; mk_dyn DT_SYMTAB 432; mk_dyn DT_STRTAB 456; mk_dyn DT_NEEDED 1;
   mk_dyn DT_RELA 472; mk_dyn DT_RELASZ 24; mk_dyn DT_RELACOUNT 1;
   mk_dyn DT_INIT 300; mk_dyn DT_INIT_ARRAY 700; mk_dyn DT_INIT_ARRAYSZ 8].
Definition whole_elf : bytes :=
  ehdr_bytes 62 64 3 ++ mjoin (phdr_bytes <$> whole_phdrs) ++ replicate 8 0 ++
  dyn_bytes (whole_dyns ++ [mk_dyn DT_NULL 0]) ++ pack [(4%nat, 1); (4%nat, 1); (4%nat, 1); (4%nat, 6)] ++
  replicate 24 0 ++ [0] ++ bytes_of "libc.so" ++ replicate 8 0 ++ pack [(8%nat, 700); (8%nat, 8); (8%nat, 256)] ++
  replicate 304 0.
Definition whole_object : ElfObject ElfFile := @LibcFile.object (demo_files (fun _ => whole_elf)).

Lemma whole_length : Z.of_nat (length whole_elf) = 800.
Proof. vm_compute. reflexivity. Qed.

Lemma whole_headers : @file_headers demo_arch whole_elf one_segment_ehdr whole_phdrs.
Proof.
  constructor; [constructor|]; try (vm_compute; first [reflexivity|discriminate]).
Qed.

Lemma whole_serves : Serves (H := whole_object) (mk_file (bytes_of "whole") 3) whole_elf.
Proof.
  apply (ElfFile_serves (F := demo_files (fun _ => whole_elf)) (fun _ => whole_elf) world_pos (bytes_of "whole") 3).
  rewrite whole_length. reflexivity.
Qed.

Lemma one_segment_image_wf data n k : 0 < n < 2 ^ 40 -> Z.of_nat (length data) = n -> image_wf data (one_segment n k).
Proof.
  intros Hn Hl. constructor.
  - unfold file_ok. rewrite Hl. repeat constructor; simpl; unfold load_ok, is_load; simpl; intros; try done; lia.
  - apply Exists_cons_tl. by apply Exists_cons_hd.
  - repeat constructor; done.
  - intros p Hp Hld _. repeat (apply elem_of_cons in Hp as [->|Hp]; [done|]). by apply not_elem_of_nil in Hp.
Qed.

Lemma one_segment_in_file n S a len :
  mk_phdr PT_LOAD 6 0 0 0 n n 4096 ∈ S -> 0 <= a -> a + len <= n -> in_file S a len a.
Proof. intros HS H1 H2. eexists. split; [exact HS|]. simpl. lia. Qed.

Lemma one_segment_headers data n k (ds : list Dyn) (Q : list ElfPhdr -> list Dyn -> Prop) :
  240 < n <= 4096 -> 0 <= k -> 240 + k <= n -> k = DYN_SIZE * (Z.of_nat (length ds) + 1) ->
  dyn_array (store_bytes ∅ 0 data) 240 ds -> Forall value_ok ds -> is_Some (last_val DT_GNU_HASH ds) -> dyn_link_wf 0 4096 ds ->
  (forall S, mk_phdr PT_LOAD 6 0 0 0 n n 4096 ∈ S -> Q S ds) ->
  headers_ok Q data 0 4096 (first_segs 0 (one_segment n k)) (one_segment n k).
Proof.
  intros Hn Hk Hkn Hlen Hds Hok Hh Hwf HQ. cbn [headers_ok one_segment]. rewrite decide_False, decide_True, decide_False by done.
  split; [|split; [|done]].
  - by split_and!.
  - split_and!; try done. intros _. split; [unfold link_in; simpl; lia|]. exists ds. split_and!; [|done..|apply HQ; by left].
    exists 240. split; [|done]. apply (one_segment_in_file n); [by left|cbn; unfold DYN_SIZE in *; lia..].
Qed.

Lemma one_segment_table n k : 232 <= n -> table_mapped one_segment_ehdr (one_segment n k).
Proof.
  intros Hn. constructor.
  - intros p Hp Ht. apply elem_of_cons in Hp as [->|Hp].
    + split; [done|]. apply (one_segment_in_file n); [by left|simpl; lia..].
    + repeat (apply elem_of_cons in Hp as [->|Hp]; [done|]). by apply not_elem_of_nil in Hp.
  - left. by apply Exists_cons_hd.
  - intros p Hp Hl. repeat (apply elem_of_cons in Hp as [->|Hp]; [done|]). by apply not_elem_of_nil in Hp.
Qed.

Lemma whole_image_wf : image_wf whole_elf whole_phdrs.
Proof. by apply one_segment_image_wf; [|exact whole_length]. Qed.

Lemma whole_in_file S a n :
  mk_phdr PT_LOAD 6 0 0 0 800 800 4096 ∈ S -> 0 <= a -> a + n <= 800 -> in_file S a n a.
Proof. apply one_segment_in_file. Qed.

(** The values of a concrete section. *)
Ltac link_wf ds :=
  constructor; unfold link_ptr, link_array, link_table, link_in;
    match goal with
    | |- context [last_val ?t ds] =>
        let v := eval vm_compute in (last_val t ds) in change (last_val t ds) with v
    end; try done; try (intros ? [= <-]); try (split; [lia|]; by eexists); simpl; lia.

Lemma whole_wf : dyn_link_wf 0 4096 whole_dyns.
Proof. link_wf whole_dyns. Qed.

Lemma whole_refs S :
  mk_phdr PT_LOAD 6 0 0 0 800 800 4096 ∈ S -> @dyn_refs dev_config whole_elf 0 4096 S whole_dyns.
Proof.
  intros HS. constructor.
  - exact whole_wf.
  - intros h [= <-]. exists 416. rewrite whole_length. split; [apply whole_in_file; [done|lia..]|lia].
  - constructor; [|constructor]. exists (bytes_of "libc.so"). split; [done|]. split; [vm_compute; done|].
    exists 457. split; [apply whole_in_file; [done|vm_compute; discriminate..]|].
    split_and!; [vm_compute; reflexivity..|]. apply (bool_decide_unpack _). vm_compute. done.
  - discriminate.
  - discriminate.
  - split; vm_compute; discriminate.
  - discriminate.
  - right. reflexivity.
Qed.

Lemma whole_headers_with (Q : list ElfPhdr -> list Dyn -> Prop) :
  (forall S, mk_phdr PT_LOAD 6 0 0 0 800 800 4096 ∈ S -> Q S whole_dyns) ->
  headers_ok Q whole_elf 0 4096 (first_segs 0 whole_phdrs) whole_phdrs.
Proof.
  intros HQ. apply (one_segment_headers _ _ _ whole_dyns); try done.
  - cbn [dyn_array whole_dyns]. split_and!; try (by vm_compute). exists (mk_dyn DT_NULL 0). by vm_compute.
  - repeat constructor; intros _; done.
  - exact whole_wf.
Qed.

Lemma whole_headers_ok :
  headers_ok (@dyn_refs dev_config whole_elf 0 4096) whole_elf 0 4096 (first_segs 0 whole_phdrs) whole_phdrs.
Proof. apply whole_headers_with. intros S HS. by apply whole_refs. Qed.

Lemma whole_table : table_mapped one_segment_ehdr whole_phdrs.
Proof. by apply one_segment_table. Qed.

Lemma load_dylib_loads_witness :
  exists c l' w',
    @load_dylib dev_config demo_arch (@Libc.MmapImpl (demo_kernel whole_elf)) demo_alloc ElfFile whole_object
      Loader_new (mk_file (bytes_of "whole") 3) None empty_world = (Ok (mk_dylib c, l'), w') /\
    @library_of dev_config (@Libc.MmapImpl (demo_kernel whole_elf)) whole_elf
      (@dyn_refs dev_config whole_elf 0 4096) (bytes_of "whole") None None one_segment_ehdr
      whole_phdrs (mem w') c.
Proof.
  destruct (@load_dylib_loads dev_config demo_arch (@Libc.MmapImpl (demo_kernel whole_elf)) (demo_file whole_elf) _
    65536 (2 ^ 47) _ demo_alloc ElfFile whole_object (mk_file (bytes_of "whole") 3) whole_elf whole_serves
    ltac:(intros fd j b _ Hx; unfold demo_file; by rewrite Nat2Z.id, Hx) Loader_new None empty_world one_segment_ehdr whole_phdrs
    (mk_param None 4096 3 MAP_PRIVATE (mk_range 800 0)) 0) as (c & l' & w' & Hrun & Hlib & _).
  - reflexivity.
  - intros w. by eexists.
  - exact whole_headers.
  - exact whole_image_wf.
  - vm_compute. reflexivity.
  - discriminate.
  - discriminate.
  - exact whole_headers_ok.
  - apply Exists_cons_tl, Exists_cons_tl. by apply Exists_cons_hd.
  - exact whole_table.
  - exists c, l', w'. split; [exact Hrun|exact Hlib].
Defined.
