(* ===== verification/Run.v ===== *)
(** * Run: a library from its file to its initialisers

    [load_dylib] followed by [easy_relocate], for a library whose dynamic
    relocations are all relative: the theorems of [Whole.v] and [Complete.v] put
    together, with every condition stated of the file. *)

From S2P Require Import Prelude Machine Arch StrTab Version Mmap Segment Dynamic Symbol Object UserData Loader Image Core.
From S2P Require Import Relocation Format Complete Whole.
#[local] Open Scope Z_scope.

(** ** What the file says *)

Section file.
Context `{Config} `{Arch} (data : bytes).

(** An entry that rebases a word of a segment; the word points into the image. *)
Record relative_entry (lo len : Z) (A : list ElfPhdr) (x : ElfRela) : Prop := {
  re_type : r_type x = REL_RELATIVE;
  re_addend : lo <= r_addend x <= lo + len;
  re_slot : exists q, q ∈ A /\ p_vaddr q <= r_offset x /\ r_offset x + 8 <= p_vaddr q + p_memsz q;
}.

(** An array of functions, which is made of words that are rebased, [I]. *)
Definition rebased_array (tag size : Z) (R I : list ElfRela) (ds : list Dyn) : Prop :=
  match last_val tag ds with
  | Some a => I ⊆ R /\ default 0 (last_val size ds) / 8 = Z.of_nat (length I) /\
      forall i x, I !! i = Some x -> r_offset x = a + 8 * Z.of_nat i
  | None => I = []
  end.

(** The array of initialisers. *)
Definition rebased_inits : list ElfRela -> list ElfRela -> list Dyn -> Prop := rebased_array DT_INIT_ARRAY DT_INIT_ARRAYSZ.

(** The dynamic section of a library that needs no symbol: [R] are the entries of
    its one table, all counted by [DT_RELACOUNT]. *)
Record relative_library (lo len : Z) (R I : list ElfRela) (init : option Z) (S : list ElfPhdr) (ds : list Dyn) : Prop := {
  rl_refs : dyn_refs data lo len S ds;
  rl_rela : exists a off, last_val DT_RELA ds = Some a /\ in_file S a (RELA_SIZE * Z.of_nat (length R)) off /\
    read_array read_rela RELA_SIZE (store_bytes ∅ 0 data) off (length R) = Ok R;
  rl_size : table_len ds DT_RELA DT_RELASZ = Z.of_nat (length R);
  rl_count : default 0 (last_val DT_RELACOUNT ds) = Z.of_nat (length R);
  rl_plt : last_val DT_JMPREL ds = None;
  rl_init : last_val DT_INIT ds = init;
  rl_inits : rebased_inits R I ds;
}.

(** Its calls are bound at once: because the loader is told so, or by its flags. *)
Definition binds_now (lazy : option bool) (ds : list Dyn) : Prop :=
  default (negb (Z.testbit (default 0 (last_val DT_FLAGS ds)) 3)) lazy = false.

Definition relative_file (lazy : option bool) (lo len : Z) (R I : list ElfRela) (init : option Z) (S : list ElfPhdr) (ds : list Dyn) : Prop :=
  relative_library lo len R I init S ds /\ binds_now lazy ds.

Lemma relative_library_mono lo len R I init S A ds :
  S ⊆ A -> relative_library lo len R I init S ds -> relative_library lo len R I init A ds.
Proof.
  intros Hsub [Hr (a & off & Ha & Hin & Hread) Hs Hc Hp Hi Hia]. constructor; try done.
  - by apply (dyn_refs_mono data S).
  - exists a, off. split_and!; [done|by apply (in_file_mono S)|done].
Qed.

(** The slots do not overlap. *)
Definition entries_apart (R : list ElfRela) : Prop :=
  ForallOrdPairs (fun x y => r_offset x + 8 <= r_offset y \/ r_offset y + 8 <= r_offset x) R.

(** What runs first: the [init] function, then the array. *)
Definition init_list (b : Z) (init : option Z) (I : list ElfRela) : list Z :=
  let fs := (fun x => b + r_addend x) <$> I in
  match init with Some v => b + v :: fs | None => fs end.
End file.

(** The functions, once the words are rebased. *)
Lemma functions_in_memory `{Config} tag size segs R I fn init ds m' :
  rebased_array tag size R I ds -> last_val fn ds = init ->
  (forall x, x ∈ R -> read_u64 m' (slot (base segs) x) = Ok (base segs + r_addend x)) ->
  fn_list m' (Z.add (base segs) <$> last_val fn ds) (spec_slice segs 8 ds tag size) =
    Ok (init_list (base segs) init I).
Proof.
  intros Hi Hinit Hw. unfold rebased_array in Hi.
  assert (Harr : read_slice read_fn 8 m' (default empty_slice (spec_slice segs 8 ds tag size)) =
    Ok ((fun x => base segs + r_addend x) <$> I)).
  { unfold spec_slice. destruct (last_val tag ds) as [a|]; [|by subst]. destruct Hi as (Hsub & Hlen & Hoff).
    change (read_slice read_fn 8 m' (mk_slice (base segs + a) (default 0 (last_val size ds) / 8)) =
      Ok ((fun x => base segs + r_addend x) <$> I)). unfold read_slice. cbn [sl_ptr sl_len].
    apply read_array_lookup. rewrite length_fmap. split; [rewrite Hlen; lia|].
    intros i v Hv. rewrite list_lookup_fmap in Hv. destruct (I !! i) as [x|] eqn:Hx; [|done]. injection Hv as <-.
    assert (HxR : x ∈ R) by (apply Hsub; by apply list_elem_of_lookup_2 in Hx).
    replace (base segs + a + 8 * Z.of_nat i) with (slot (base segs) x) by (unfold slot; rewrite (Hoff i x Hx); lia).
    by apply Hw. }
  unfold fn_list, init_list. rewrite Harr, bind_Ok, Hinit. by destruct init.
Qed.

(** ** From the file to the memory *)

Section steps.
Context `{Config} `{Arch} `{Native} (data : bytes).
Context (segs : ElfSegments) (m : memory) (A : list ElfPhdr) (R I : list ElfRela) (init : option Z) (ds : list Dyn).
Hypothesis Hs : segments_ok segs.
Hypothesis Hal : memory_ptr segs mod 4096 = 0.
Hypothesis Hsh : Forall (shows m (base segs) data) A.
Hypothesis HA : Forall (fun q => load_ok q /\ file_ok data q /\ seg_wf segs q) A.
Hypothesis Hlib : relative_library data (seg_offset segs) (seg_len segs) R I init A ds.
Hypothesis HR : Forall (relative_entry (seg_offset segs) (seg_len segs) A) R.

Lemma shows_mapped q a : q ∈ A -> p_vaddr q <= a < p_vaddr q + p_memsz q -> is_Some (m !! (base segs + a)).
Proof.
  intros Hq Ha. rewrite Forall_forall in Hsh. rewrite Forall_forall in HA.
  destruct (HA q Hq) as ((? & ? & ? & ? & ?) & Hf & _). unfold file_ok in Hf.
  replace (base segs + a) with (base segs + p_vaddr q + (a - p_vaddr q)) by lia. rewrite (Hsh q Hq) by lia.
  case_match; [|done]. apply lookup_lt_is_Some_2. lia.
Qed.

(** Where the slots and their values lie. *)
Lemma entry_range x : x ∈ R ->
  r_type x = REL_RELATIVE /\ 0 <= slot (base segs) x /\ slot (base segs) x + 8 < U64_LIM /\
  0 <= base segs + r_addend x < U64_LIM /\ slot_mapped m (slot (base segs) x).
Proof.
  intros Hx. rewrite Forall_forall in HR. destruct (HR x Hx) as [Ht Ha (q & Hq & Hq1 & Hq2)].
  pose proof (base_ok segs Hs) as Hb. pose proof Hs as ([Hp1 Hp2] & Ho & Hl).
  assert (Hqs : Forall (fun q => load_ok q /\ file_ok data q /\ seg_wf segs q) A) by exact HA.
  rewrite Forall_forall in Hqs. destruct (Hqs q Hq) as ((? & ? & ? & ? & ?) & _ & [_ _ _ [Hi1 Hi2]]).
  pose proof (page_down_facts (p_vaddr q)) as F1. pose proof (page_up_facts (p_vaddr q + p_memsz q)) as F2.
  fold (seg_lo q) in F1. fold (seg_hi q) in F2. unfold slot in *.
  split; [done|]. split; [lia|]. split; [lia|]. split; [lia|].
  intros i Hi. replace i with (base segs + (i - base segs)) by lia. apply (shows_mapped q); [done|lia].
Qed.

Lemma relas_in_memory a :
  last_val DT_RELA ds = Some a -> read_slice read_rela RELA_SIZE m (mk_slice (base segs + a) (Z.of_nat (length R))) = Ok R.
Proof.
  intros Ha. destruct (rl_rela _ _ _ _ _ _ _ _ Hlib) as (a' & off & Ha' & Hin & Hread).
  rewrite Ha in Ha'. injection Ha' as <-. unfold read_slice. cbn [sl_ptr sl_len]. rewrite Nat2Z.id, <- Hread.
  apply read_relas_shift. intros i Hi. destruct (shows_in_file _ _ _ _ _ _ _ Hsh Hin) as [_ Hshift]. by apply Hshift.
Qed.

Definition relative_writes : list (Z * bytes) := relative_write (base segs) <$> R.

Lemma relative_apart : entries_apart R -> slots_apart relative_writes.
Proof.
  unfold entries_apart, relative_writes, slots_apart. generalize R. clear. induction 1 as [|x l Hx _ IH]; cbn; constructor; [|done].
  apply Forall_fmap. eapply Forall_impl; [exact Hx|]. intros y Hy. unfold compose, relative_write.
  rewrite !wr_end_word. cbn [word fst]. unfold slot. simpl in Hy. lia.
Qed.

(** The relocation tables of the handle: everything is relative. *)
Lemma relative_relocation r :
  ElfRelocation_new (spec_slice segs RELA_SIZE ds DT_JMPREL DT_PLTRELSZ)
    (spec_slice segs RELA_SIZE ds DT_RELA DT_RELASZ) (last_val DT_RELACOUNT ds) = Ok r ->
  exists a, last_val DT_RELA ds = Some a /\ rl_relative r = mk_slice (base segs + a) (Z.of_nat (length R)) /\
    sl_len (rl_pltrel r) = 0 /\ sl_len (rl_dynrel r) = 0.
Proof.
  intros Hr. destruct (rl_rela _ _ _ _ _ _ _ _ Hlib) as (a & off & Ha & _ & _).
  pose proof (relocation_in_memory data segs _ _ A ds Hs eq_refl eq_refl Hal (rl_refs _ _ _ _ _ _ _ _ Hlib)) as Hrel.
  cbv zeta in Hrel. rewrite Hrel in Hr. injection Hr as <-. clear Hrel.
  pose proof (rl_size _ _ _ _ _ _ _ _ Hlib) as Hsz. pose proof (rl_count _ _ _ _ _ _ _ _ Hlib) as Hc.
  pose proof (rl_plt _ _ _ _ _ _ _ _ Hlib) as Hp. exists a. split; [done|]. cbn [rl_relative rl_pltrel rl_dynrel sl_len].
  unfold ends_together. rewrite Hp, Ha, Hc. unfold table_len in Hsz. rewrite Ha in Hsz.
  unfold spec_slice. rewrite Ha, Hp. cbn. split; [done|]. split; [done|]. lia.
Qed.

(** The handle can be relocated. *)
Lemma relative_relocatable common scope pre_find w :
  segments (inner (c_core common)) = segs -> mem w = m -> entries_apart R ->
  (exists st, core_symtab (c_core common) = Some st) ->
  ElfRelocation_new (spec_slice segs RELA_SIZE ds DT_JMPREL DT_PLTRELSZ)
    (spec_slice segs RELA_SIZE ds DT_RELA DT_RELASZ) (last_val DT_RELACOUNT ds) = Ok (c_relocation common) ->
  relocatable common scope pre_find (mk_tables R [] [] (fun _ => None) (fun _ => []) (fun _ => None) (fun _ => [])) w /\
  table_writes (core_base (c_core common)) (mk_tables R [] [] (fun _ => None) (fun _ => []) (fun _ => None) (fun _ => [])) =
    relative_writes.
Proof.
  intros Hseg Hm Hap [st Hst] Hrel. destruct (relative_relocation _ Hrel) as (a & Ha & Hr & Hp & Hd).
  unfold core_base. rewrite Hseg. set (t := mk_tables _ _ _ _ _ _ _).
  assert (Hws : table_writes (base segs) t = relative_writes) by (unfold table_writes; simpl; by rewrite app_nil_r).
  split; [|done]. constructor; unfold core_base; rewrite ?Hseg, ?Hws, ?Hm.
  - exists st. repeat split; [done|constructor|constructor].
  - rewrite Hr. by apply relas_in_memory.
  - intros m' _. unfold read_slice. by rewrite Hd.
  - intros m' _. unfold read_slice. by rewrite Hp.
  - apply Forall_forall. intros x Hx. by destruct (entry_range x Hx) as (? & _ & _ & ? & _).
  - apply Forall_fmap, Forall_forall. intros x Hx. destruct (entry_range x Hx) as (_ & ? & ? & _ & ?).
    split; [cbn; lia|]. by apply write_mapped_word.
  - by apply relative_apart.
Qed.
End steps.

(** ** Protecting RELRO *)

Section protect.
Context `{Config} `{Mmap}.

(** A platform on which making pages read-only succeeds and leaves [es] in the log. *)
Definition read_only_logs (es : Z -> Z -> list event) : Prop :=
  forall a n v, mprotect a n PROT_READ v = (Ok tt, after (mem v) (es a n) v).

Lemma relro_protected (es : Z -> Z -> list event) segs p :
  read_only_logs es -> segments_ok segs -> memory_ptr segs mod 4096 = 0 ->
  seg_offset segs <= p_vaddr p -> 0 <= p_memsz p -> seg_len segs mod 4096 = 0 -> p_vaddr p + p_memsz p < seg_offset segs + seg_len segs ->
  exists l, protects (Some (mk_relro (base segs + p_vaddr p) (p_memsz p) mprotect)) l.
Proof.
  intros Hlog Hs Hal H1 H2 H3 H4. pose proof (base_ok segs Hs) as Hb. pose proof Hs as ([Hp1 Hp2] & Ho & Hl).
  assert (memory_ptr segs + seg_len segs + 4096 <= U64_LIM) by zlia.
  assert (Hrun : exists a n, forall v, relro (mk_relro (base segs + p_vaddr p) (p_memsz p) mprotect) v = mprotect a n PROT_READ v).
  { unfold relro. cbn [relro_addr relro_len relro_mprotect].
    destruct (relro_runs (mk_relro (base segs + p_vaddr p) (p_memsz p) mprotect) empty_world) as (a & n & _);
      cbn [relro_addr relro_len]; [lia..|].
    unfold bind, lift. rewrite uadd_ok by lia. rewrite page_round_up_ok by lia.
    match goal with |- context [usub ?x ?y] => destruct (is_ok_inv (usub x y)) as [z Hz] end.
    { rewrite land_MASK by lia. rewrite usub_ok; [done|zlia]. }
    rewrite Hz. by do 2 eexists. }
  destruct Hrun as (a & n & Hrun). exists (es a n). intros v. rewrite Hrun. apply Hlog.
Qed.
End protect.

(** ** From the file to the initialisers *)

Section run.
Context `{Config} `{Arch} `{!ArchOk _} `{Native} `{Mm : Mmap} (file : Z -> Z -> Z) `{!MmapLaws Mm file}.
Context (room limit : Z) `{!MmapGrants Mm room limit} `{AA : ArcAlloc}.
Context `{EO : ElfObject T} (o : T) (data : bytes) `{!Serves o data}.
Hypothesis Hfile : forall fd j b, as_fd o = Some fd -> data !! j = Some b -> file fd (Z.of_nat j) = b.

(** [load_dylib], then [easy_relocate]. *)
Definition load_and_relocate (l : Loader) (lazy : option bool) (scope : list RelocatedDylib) (pre_find : PreFind) :
    M (RelocatedDylib * Loader) :=
  let! '(d, l) := load_dylib l o lazy in
  let! r := dylib_easy_relocate d scope pre_find in
  ret (r, l).

Lemma image_length_aligned ps param lo :
  image_wf data ps -> create_segments ps true = Ok (param, lo) -> pm_len param mod 4096 = 0.
Proof.
  intros [Hall Hex _ _] Hc.
  assert (Hall' : Forall (fun p => is_load p -> load_ok p) ps).
  { eapply Forall_impl; [exact Hall|]. simpl. intros p Hp Hld. by destruct (Hp Hld). }
  destruct (create_segments_extent ps true Hall' Hex) as (e & _ & Hc'). rewrite Hc' in Hc. injection Hc as <- _.
  cbn [pm_len]. unfold page_up, page_down. zlia.
Qed.

(** The memory when the first initialiser starts: the image of the file, rebased. *)
Record rebased (segs : ElfSegments) (ps : list ElfPhdr) (R : list ElfRela) (m : memory) : Prop := {
  rb_words : forall x, x ∈ R -> read_u64 m (slot (base segs) x) = Ok (base segs + r_addend x);
  rb_image : forall p i, p ∈ ps -> is_load p -> 0 <= i < p_memsz p ->
    (forall x, x ∈ R -> ~ (r_offset x <= p_vaddr p + i < r_offset x + 8)) ->
    m !! (base segs + p_vaddr p + i) = if i <? p_filesz p then data !! Z.to_nat (p_offset p + i) else Some 0;
}.

Lemma relocated_rebased segs ps R m m' :
  (forall p, p ∈ ps -> is_load p -> shows m (base segs) data p) ->
  (forall x, x ∈ R -> 0 <= base segs + r_addend x < U64_LIM) ->
  relocated (relative_write (base segs) <$> R) m m' -> rebased segs ps R m'.
Proof.
  intros Hsh Hval [[_ Hout] Hw]. constructor.
  - intros x Hx. apply read_word; [by apply Hval|]. apply Hw. by apply (list_elem_of_fmap_2 (relative_write (base segs))).
  - intros p i Hp Hld Hi Hno. rewrite <- (Hsh p Hp Hld i Hi). apply Hout. apply Forall_fmap, Forall_forall.
    intros x Hx. unfold compose, relative_write. rewrite wr_end_word. cbn [word fst]. specialize (Hno x Hx).
    unfold slot. lia.
Qed.

(** The libraries of a scope have symbol tables. *)
Lemma helpers_found scope :
  Forall (fun lib => is_Some (core_symtab (rd_core lib))) scope -> exists hs, map_outcome helper_of scope = Ok hs.
Proof.
  induction 1 as [|lib scope [st Hst] _ [hs Hhs]]; cbn [map_outcome]; [by eexists|].
  assert (helper_of lib = Ok (mk_helper (core_base (rd_core lib)) st)) as -> by (unfold helper_of, rd_symtab; by rewrite Hst).
  rewrite bind_Ok, Hhs. by eexists.
Qed.

(** Relocating a handle is the relocation of its tables. *)
Lemma easy_relocate_runs c scope hs pre_find w1 w2 :
  c_lazy c = false -> map_outcome helper_of scope = Ok hs ->
  relocate_impl c hs pre_find (fun rela core => no_unknown rela core scope) None w1 = (Ok (c_core c), w2) ->
  dylib_easy_relocate (mk_dylib c) scope pre_find w1 = (Ok (mk_relocated_dylib (c_core c)), w2).
Proof.
  intros Hlazy Hhs Himpl.
  assert (Hloc : local_scope c scope pre_find w1 = (Ok None, w1)) by (unfold local_scope, is_lazy; by rewrite Hlazy).
  unfold dylib_easy_relocate. cbn [dylib_common]. rewrite (bind_run _ _ _ _ _ Hloc).
  assert (Hhelp : lift (map_outcome helper_of scope) w1 = (Ok hs, w1)) by (unfold lift; by rewrite Hhs).
  unfold dylib_relocate. rewrite (bind_run _ _ _ _ _ Hhelp). cbn [dylib_common].
  by rewrite (bind_run _ _ _ _ _ Himpl).
Qed.

(** The RELRO range of a library that was loaded can be protected. *)
Lemma library_protected Q name lazy ip ehdr ps m c es param lo :
  image_wf data ps -> create_segments ps true = Ok (param, lo) ->
  library_of data Q name lazy ip ehdr ps m c ->
  let segs := segments (inner (c_core c)) in
  seg_offset segs = lo -> seg_len segs = pm_len param -> segments_ok segs -> memory_ptr segs mod 4096 = 0 ->
  (forall p, last_of PT_GNU_RELRO ps = Some p ->
     lo <= p_vaddr p /\ 0 <= p_memsz p /\ p_vaddr p + p_memsz p < lo + pm_len param) -> read_only_logs es ->
  exists l, protects (c_relro c) l.
Proof.
  intros Hwf Hc Hlib segs Hso Hsl Hs Hal Hrelro Hes.
  rewrite (lb_relro _ _ _ _ _ _ _ _ _ Hlib). fold segs.
  destruct (last_of PT_GNU_RELRO ps) as [q|] eqn:Hq; cbn [fmap option_fmap option_map]; [|by exists []].
  destruct (Hrelro q eq_refl) as (? & ? & ?). apply (relro_protected es segs q); try done; [lia| |lia].
  rewrite Hsl. by apply (image_length_aligned ps param lo).
Qed.

(** The loadable segments, as they are in the file and in memory. *)
Lemma library_segments Q name lazy ip ehdr ps m c param lo :
  Z.of_nat (length data) < 2 ^ 63 -> image_wf data ps -> create_segments ps true = Ok (param, lo) ->
  library_of data Q name lazy ip ehdr ps m c ->
  let segs := segments (inner (c_core c)) in
  seg_offset segs = lo -> seg_len segs = pm_len param ->
  Forall (shows m (base segs) data) (loadable ps) /\
  Forall (fun q => load_ok q /\ file_ok data q /\ seg_wf segs q) (loadable ps).
Proof.
  intros Hsize Hwf Hc Hlib segs Hso Hsl. split; apply Forall_forall; intros q [Hq1 Hq2]%list_elem_of_filter.
  - by apply (lb_image _ _ _ _ _ _ _ _ _ Hlib).
  - pose proof (segments_inside_file data ps param lo segs Hsize Hwf Hc Hso Hsl) as Hin. rewrite Forall_forall in Hin.
    destruct (Hin q Hq2 Hq1) as [Hw ?]. split; [apply Hw|done].
Qed.

(** What relocating the handle [c] of such a library in the world [w1] does. *)
Record relocates (scope : list RelocatedDylib) (pre_find : PreFind) (ps : list ElfPhdr) (R I : list ElfRela)
    (init : option Z) (c : ElfCommonPart) (w1 w' : world) : Prop := {
  rs_run : dylib_easy_relocate (mk_dylib c) scope pre_find w1 = (Ok (mk_relocated_dylib (c_core c)), w');
  rs_tables : exists hs unknown wt, map_outcome helper_of scope = Ok hs /\
    relocate_tables c hs pre_find unknown None w1 = (Ok (c_core c), wt) /\
    rebased (segments (inner (c_core c))) ps R (mem wt);
  rs_log : exists protect, log w' = log w1 ++ protect ++
    ((fun f => EvCall f (init_args (c_init c))) <$> init_list (base (segments (inner (c_core c)))) init I);
  rs_cell : arcs w' !! arc_ptr (c_core c) = Some (mk_cell 1 0 true);
}.

Lemma relative_relocates lazy c scope pre_find es w1 ps lo param R I init name lp ehdr :
  image_wf data ps -> create_segments ps true = Ok (param, lo) ->
  let segs := segments (inner (c_core c)) in
  seg_offset segs = lo -> seg_len segs = pm_len param -> segments_ok segs -> memory_ptr segs mod 4096 = 0 ->
  library_of data (relative_file data lazy lo (pm_len param) R I init) name lazy lp ehdr ps (mem w1) c ->
  arcs w1 !! arc_ptr (c_core c) = Some (mk_cell 1 0 false) ->
  Forall (relative_entry lo (pm_len param) (loadable ps)) R -> entries_apart R ->
  (forall p, last_of PT_GNU_RELRO ps = Some p ->
     lo <= p_vaddr p /\ 0 <= p_memsz p /\ p_vaddr p + p_memsz p < lo + pm_len param) -> read_only_logs es ->
  Forall (fun lib => is_Some (core_symtab (rd_core lib))) scope ->
  (forall v f, is_Some (native_call v f (init_args (c_init c)))) ->
  exists w', relocates scope pre_find ps R I init c w1 w'.
Proof.
  intros Hwf Hc segs Hso Hsl Hs Hal Hlib Harc HR Hap Hrelro Hes Hscope Hnat.
  destruct (lb_dynamic _ _ _ _ _ _ _ _ _ Hlib) as (p & ds & _ & _ & (S & HS & HQ & Hnow) & Hhd & Hlazy & Hinit). unfold binds_now in Hnow. rewrite <- Hlazy in Hnow. fold segs in Hhd, Hinit.
  apply (relative_library_mono data _ _ _ _ _ _ (loadable ps) _ HS) in HQ.
  destruct (library_segments _ _ _ _ _ _ _ _ _ _ (serves_size (o := o)) Hwf Hc Hlib Hso Hsl) as [Hsh HA]. fold segs in Hsh, HA.
  rewrite <- Hso, <- Hsl in HQ, HR.
  destruct (helpers_found scope Hscope) as [hs Hhs].
  set (unknown := fun rela core => no_unknown rela core scope).
  destruct (hd_symbols _ _ _ _ _ _ _ Hhd) as (st & Hst & _).
  destruct (relative_relocatable data segs (mem w1) (loadable ps) R I init ds Hs Hal Hsh HA HQ HR c hs pre_find w1)
    as [Hrel Hws]; [done|done|done|by exists st|apply (hd_relocation _ _ _ _ _ _ _ Hhd)|].
  destruct (library_protected _ _ _ _ _ _ _ _ es _ _ Hwf Hc Hlib Hso Hsl Hs Hal Hrelro Hes) as [prot Hpro].
  pose proof (relocate_impl_completes_run c hs pre_find unknown None _ prot (init_list (base segs) init I) (mk_cell 1 0 false) w1 Hrel) as Hrun.
  rewrite Hws in Hrun. destruct Hrun as (wt & w2 & w' & Htab & Hmem & Hlog & Harc' & _ & Hdrop & Himpl); try done.
  { intros m' Hm'. rewrite Hinit. cbn [i_init_fn i_init_array_fn].
    apply (functions_in_memory DT_INIT_ARRAY DT_INIT_ARRAYSZ segs R); [apply HQ|apply HQ|]. intros x Hx. destruct Hm' as [_ Hw].
    pose proof (entry_range data segs (mem w1) (loadable ps) R Hs Hsh HA HR x Hx) as (_ & _ & _ & Hval & _).
    apply read_word; [done|]. apply Hw. by apply (list_elem_of_fmap_2 (relative_write (base segs))). }
  { intros v. by exists v. }
  injection Hdrop as <-. exists w2. constructor.
  - by apply (easy_relocate_runs c scope hs).
  - exists hs, unknown, wt. split; [done|]. split; [done|]. fold segs. apply (relocated_rebased _ _ _ (mem w1)); [|  |done].
    + intros q Hq1 Hq2. by apply (lb_image _ _ _ _ _ _ _ _ _ Hlib).
    + intros x Hx. by apply (entry_range data segs (mem w1) (loadable ps) R Hs Hsh HA HR x Hx).
  - exists prot. rewrite Hlog. fold segs. done.
  - rewrite Harc'. apply lookup_insert_eq.
Qed.

(** From the file to the initialisers.  A well-formed library that needs no
    symbol, all of whose relocations are relative, is loaded and relocated without an
    error: when its first initialiser starts the memory is the image of the file in
    which every slot of the table holds load base plus addend; the initialisers that
    are called are the [init] function and the rebased words of the array, in order;
    and the only handle is to an initialised object. *)
Theorem load_and_relocate_runs l lazy scope pre_find es w ehdr ps param lo R I init :
  ld_hook l = None ->
  (forall w, exists w', obj_drop o w = (Ok tt, w') /\ mem w' = mem w) ->
  file_headers data ehdr ps -> image_wf data ps ->
  create_segments ps true = Ok (param, lo) -> lo <= room -> pm_len param <= limit ->
  headers_ok (relative_file data lazy lo (pm_len param) R I init) data lo (pm_len param) (first_segs lo ps) ps ->
  Exists (fun p => p_type p = PT_DYNAMIC) ps -> table_mapped ehdr ps ->
  Forall (relative_entry lo (pm_len param) (loadable ps)) R -> entries_apart R ->
  (forall p, last_of PT_GNU_RELRO ps = Some p ->
     lo <= p_vaddr p /\ 0 <= p_memsz p /\ p_vaddr p + p_memsz p < lo + pm_len param) -> read_only_logs es ->
  Forall (fun lib => is_Some (core_symtab (rd_core lib))) scope ->
  (forall v f args, is_Some (native_call v f args)) ->
  exists c l' w1 w',
    load_dylib l o lazy w = (Ok (mk_dylib c, l'), w1) /\
    load_and_relocate l lazy scope pre_find w = (Ok (mk_relocated_dylib (c_core c), l'), w') /\
    relocates scope pre_find ps R I init c w1 w'.
Proof.
  intros Hhook Hdrop Hf Hwf Hc Hroom Hlim Hok Hdyn Htab HR Hap Hrelro Hes Hscope Hnat.
  destruct (load_dylib_runs file room limit o data Hfile (relative_file data lazy lo (pm_len param) R I init) l lazy
    w ehdr ps param lo) as (c & l' & w1 & Hload & Hlib & Hso & Hsl & Hs & Hal & Harc & _); try done.
  { by intros S ds [[] _]. }
  destruct (relative_relocates lazy c scope pre_find es w1 ps lo param R I init _ _ _ Hwf Hc Hso Hsl Hs Hal Hlib Harc HR Hap
    Hrelro Hes Hscope) as [w' Hrel]; [done|].
  exists c, l', w1, w'. split; [done|]. split; [|done]. unfold load_and_relocate. rewrite (bind_run _ _ _ _ _ Hload).
  by rewrite (bind_run _ _ _ _ _ (rs_run _ _ _ _ _ _ _ _ _ Hrel)).
Qed.
End run.

(** ** Example: the library of [Whole.v] *)

Definition whole_relas : list ElfRela := [mk_rela 700 8 256].

Lemma whole_relative_library S :
  mk_phdr PT_LOAD 6 0 0 0 800 800 4096 ∈ S ->
  @relative_library dev_config whole_elf 0 4096 whole_relas whole_relas (Some 300) S whole_dyns.
Proof.
  intros HS. constructor.
  - by apply whole_refs.
  - exists 472, 472. split; [reflexivity|]. split; [apply whole_in_file; [done|vm_compute; discriminate..]|].
    vm_compute. reflexivity.
  - reflexivity.
  - reflexivity.
  - reflexivity.
  - reflexivity.
  - unfold rebased_inits, rebased_array. change (last_val DT_INIT_ARRAY whole_dyns) with (Some 700). split; [done|]. split; [reflexivity|].
    intros [|i] x Hx; [by injection Hx as <-|done].
Qed.

Lemma whole_relative_headers :
  headers_ok (@relative_file dev_config whole_elf (Some false) 0 4096 whole_relas whole_relas (Some 300)) whole_elf 0 4096
    (first_segs 0 whole_phdrs) whole_phdrs.
Proof. apply whole_headers_with. intros S HS. split; [by apply whole_relative_library|done]. Qed.

Lemma load_and_relocate_runs_witness :
  exists c l' w1 w',
    @load_dylib dev_config demo_arch (@Libc.MmapImpl (demo_kernel whole_elf)) demo_alloc ElfFile whole_object
      Loader_new (mk_file (bytes_of "whole") 3) (Some false) empty_world = (Ok (mk_dylib c, l'), w1) /\
    @relocates dev_config demo_arch demo_native whole_elf [] demo_pre_find whole_phdrs whole_relas whole_relas (Some 300)
      c w1 w'.
Proof.
  destruct (@load_and_relocate_runs dev_config demo_arch _ demo_native (@Libc.MmapImpl (demo_kernel whole_elf))
    (demo_file whole_elf) _ 65536 (2 ^ 47) _ demo_alloc ElfFile whole_object (mk_file (bytes_of "whole") 3) whole_elf
    whole_serves ltac:(intros fd j b _ Hx; unfold demo_file; by rewrite Nat2Z.id, Hx) Loader_new (Some false) [] demo_pre_find
    (fun a n => [EvMprotect a n PROT_READ true]) empty_world one_segment_ehdr whole_phdrs
    (mk_param None 4096 3 MAP_PRIVATE (mk_range 800 0)) 0 whole_relas whole_relas (Some 300))
    as (c & l' & w1 & w' & Hload & _ & Hrel).
  - reflexivity.
  - intros w. by eexists.
  - exact whole_headers.
  - exact whole_image_wf.
  - vm_compute. reflexivity.
  - discriminate.
  - discriminate.
  - exact whole_relative_headers.
  - apply Exists_cons_tl, Exists_cons_tl. by apply Exists_cons_hd.
  - exact whole_table.
  - constructor; [|constructor]. constructor; [reflexivity|by split|].
    exists (mk_phdr PT_LOAD 6 0 0 0 800 800 4096). split; [by left|by split].
  - repeat constructor.
  - discriminate.
  - intros a n v. reflexivity.
  - constructor.
  - intros f v args. by eexists.
  - exists c, l', w1, w'. split; [exact Hload|exact Hrel].
Defined.
