(* ===== verification/LinkedRun.v ===== *)
(** * LinkedRun: a library with symbols, from its file to its initialisers

    [load_dylib] followed by [easy_relocate] against a scope of libraries: the
    theorems of [Whole.v] and [Linked.v] put together.  What is asked of the file is
    said at link addresses, in [link_image]; what is asked of the scope is said of
    the memory before the library is loaded. *)

From S2P Require Import Prelude Machine Arch StrTab Version Mmap Segment Dynamic Symbol Object UserData Loader Image Core.
From S2P Require Import Relocation Format Complete Linked Whole Run.
#[local] Open Scope Z_scope.

(** ** The image at link addresses *)

Section image.
Context (data : bytes) (A : list ElfPhdr).

Definition link_image : memory :=
  foldr (fun q m => store_bytes m (p_vaddr q) (slice_of data (p_offset q) (p_filesz q))) ∅ A.

(** Memory that shows the segments has the image at the load base. *)
Lemma link_image_shows m b a :
  Forall (shows m b data) A -> Forall (fun q => load_ok q /\ file_ok data q) A ->
  is_Some (link_image !! a) -> m !! (b + a) = link_image !! a.
Proof.
  unfold link_image. intros Hsh HA. revert a. induction A as [|q l IH]; intros a [x Hx]; [done|].
  apply Forall_cons in Hsh as [Hq Hsh]. apply Forall_cons in HA as [((? & ? & ? & ? & ?) & Hf) HA]. unfold file_ok in Hf.
  cbn [foldr] in Hx |- *. rewrite store_bytes_lookup, length_slice_of in Hx |- * by lia. case_decide as Hin; [|apply IH; [done..|by exists x]].
  rewrite slice_of_lookup by lia. replace (b + a) with (b + p_vaddr q + (a - p_vaddr q)) by lia.
  rewrite (Hq (a - p_vaddr q)) by lia. rewrite (proj2 (Z.ltb_lt _ _)) by lia. f_equal. lia.
Qed.

Lemma moved_image m b rs :
  Forall (shows m b data) A -> Forall (fun q => load_ok q /\ file_ok data q) A ->
  (forall a, covered rs a -> is_Some (link_image !! a)) -> moved b rs link_image m.
Proof. intros Hsh HA Hrs a Ha. apply link_image_shows; [done..|]. by apply Hrs. Qed.
End image.

(** What has been read is mapped. *)
Lemma load_le_inv (m : memory) p n v : load_le m p n = Ok v -> forall i, p <= i < p + Z.of_nat n -> is_Some (m !! i).
Proof.
  unfold load_le. intros Hl i Hi. destruct (load_bytes m p n) eqn:Hb; [|done].
  replace i with (p + Z.of_nat (Z.to_nat (i - p))) by lia. apply (load_bytes_mapped m p n); [by eexists|lia].
Qed.

(** One of the fields read so far holds the byte. *)
Ltac in_field Hi :=
  match goal with
  | Hl : load_le _ ?p ?n = Ok _ |- is_Some (_ !! ?i) => apply (load_le_inv _ p n _ Hl i); lia
  | Hl : _ ?m ?p = Ok ?v |- is_Some (?m !! ?i) => apply (load_le_inv m p _ v Hl i); lia
  end.

Lemma read_rela_inv (m : memory) p x : read_rela m p = Ok x -> forall i, p <= i < p + RELA_SIZE -> is_Some (m !! i).
Proof.
  unfold read_rela, read_u64, RELA_SIZE. intros Hr i Hi. inv_bind Hr. inv_bind Hr. inv_bind Hr.
  destruct (decide (i < p + 8)); [|destruct (decide (i < p + 16))]; in_field Hi.
Qed.

Lemma read_symbol_inv (m : memory) p x : read_symbol m p = Ok x -> forall i, p <= i < p + SYM_SIZE -> is_Some (m !! i).
Proof.
  unfold read_symbol, read_u8, read_u16, read_u32, read_u64, SYM_SIZE. intros Hr i Hi. do 6 inv_bind Hr.
  destruct (decide (i < p + 4)); [|destruct (decide (i < p + 5)); [|destruct (decide (i < p + 6));
    [|destruct (decide (i < p + 8)); [|destruct (decide (i < p + 16))]]]]; in_field Hi.
Qed.

Lemma read_relas_inv (m : memory) n : forall p l, read_array read_rela RELA_SIZE m p n = Ok l ->
  forall i, p <= i < p + RELA_SIZE * Z.of_nat n -> is_Some (m !! i).
Proof.
  induction n as [|n IH]; intros p l Hr i Hi; [unfold RELA_SIZE in *; lia|]. cbn [read_array] in Hr. inv_bind Hr. inv_bind Hr.
  destruct (decide (i < p + RELA_SIZE)); [by apply (read_rela_inv m p _ Ha); lia|].
  apply (IH _ _ Ha0). unfold RELA_SIZE in *. lia.
Qed.

Lemma cstr_inv (m : memory) p s : cstr_at m p s -> forall i, p <= i < p + Z.of_nat (length s) + 1 -> is_Some (m !! i).
Proof.
  intros (Hl & Hz & _) i Hi. destruct (decide (i = p + Z.of_nat (length s))) as [->|]; [by eexists|].
  replace i with (p + Z.of_nat (Z.to_nat (i - p))) by lia. apply (load_bytes_mapped m p (length s)); [by eexists|lia].
Qed.

Lemma own_in_mapped st own m k a : own_in st own m k -> covered (own_ranges st own k) a -> is_Some (m !! a).
Proof.
  intros [_ Hs Hn] Ha. unfold covered, own_ranges in Ha. apply Exists_cons in Ha as [Ha|Ha]; [by apply (read_symbol_inv _ _ _ Hs)|].
  apply Exists_cons in Ha as [Ha|Ha]; [|by apply Exists_nil in Ha]. unfold str_range in Ha. cbn [fst snd] in Ha.
  apply (cstr_inv _ _ _ Hn). lia.
Qed.

Lemma own_in_ext st st' own m k : symtab st' = symtab st -> strtab st' = strtab st -> own_in st own m k -> own_in st' own m k.
Proof. intros H1 H2 [Hr Hs Hn]. constructor; unfold own_ranges, str_range in *; by rewrite ?H1, ?H2. Qed.

(** ** What the file says *)

(** The entry has a slot. *)
Definition stores `{Arch} (x : ElfRela) : Prop := r_type x <> REL_NONE.
#[global] Instance stores_dec `{Arch} x : Decision (stores x).
Proof. unfold stores. solve_decision. Defined.

Section file.
Context `{Config} `{Arch} `{!ArchOk _} (data : bytes) (A : list ElfPhdr) (libs : list library) (pre : bytes -> option Z).
Context (own : Z -> ElfSymbol * bytes) (D P R I : list ElfRela) (init : option Z).

(** The object's symbol table at link addresses; the hash table is not read. *)
Definition link_symtab (ds : list Dyn) : SymbolTable :=
  mk_symtab (mk_gnu_hash (mk_gnu_header 0 0 0 0) 0 0 0) (default 0 (last_val DT_SYMTAB ds))
    (mk_strtab (default 0 (last_val DT_STRTAB ds))) None.

(** [l] are entries of the table of tag [off], after [skip] others. *)
Definition file_entries (ds : list Dyn) (off skip : Z) (l : list ElfRela) : Prop :=
  match last_val off ds with
  | Some a => read_array read_rela RELA_SIZE (link_image data A) (a + RELA_SIZE * skip) (length l) = Ok l
  | None => l = []
  end.

Definition entries_range (ds : list Dyn) (off skip : Z) (l : list ElfRela) : Z * Z :=
  (default 0 (last_val off ds) + RELA_SIZE * skip, RELA_SIZE * Z.of_nat (length l)).

(** What the passes read of the image while they write to it. *)
Definition link_reads (ds : list Dyn) : list (Z * Z) :=
  entries_range ds DT_RELA (Z.of_nat (length R)) D :: entries_range ds DT_JMPREL 0 P ::
  (filter (fun x => needs_symbol x = true) (D ++ P) ≫= fun x => own_ranges (link_symtab ds) own (r_symbol x)).

(** The dynamic section of a library with the tables [R], [D] and [P]. *)
Record linked_library (lo len : Z) (S : list ElfPhdr) (ds : list Dyn) : Prop := {
  ll_refs : dyn_refs data lo len S ds;
  ll_relative : file_entries ds DT_RELA 0 R;
  ll_dynrel : file_entries ds DT_RELA (Z.of_nat (length R)) D;
  ll_pltrel : file_entries ds DT_JMPREL 0 P;
  ll_size : table_len ds DT_RELA DT_RELASZ =
    Z.of_nat (length R) + Z.of_nat (length D) + (if ends_together ds then Z.of_nat (length P) else 0);
  ll_plt_size : table_len ds DT_JMPREL DT_PLTRELSZ = Z.of_nat (length P);
  ll_count : default 0 (last_val DT_RELACOUNT ds) = Z.of_nat (length R);
  ll_init : last_val DT_INIT ds = init;
  ll_inits : rebased_inits R I ds;
  ll_own : forall x, x ∈ D ++ P -> needs_symbol x = true ->
    own_in (link_symtab ds) own (link_image data A) (r_symbol x) /\
    ranges_in 0 (lo + len) (own_ranges (link_symtab ds) own (r_symbol x));
  ll_apart : forall x r, x ∈ R ++ D ++ P -> stores x -> r ∈ link_reads ds ->
    r_offset x + 8 <= r.1 \/ r.1 + r.2 <= r_offset x;
}.

(** The entries: every reference can be resolved, wherever the image goes. *)
Record linkable_entries (lo len : Z) : Prop := {
  le_relative : Forall (fun x => r_type x = REL_RELATIVE /\ lo <= r_addend x <= lo + len) R;
  le_resolved : forall b, 0 <= b -> b + lo + len < U64_LIM ->
    Forall (dyn_entry_ok libs pre own b) D /\ Forall (plt_entry_ok libs pre own b) P;
  le_slot : forall x, x ∈ R ++ D ++ P -> stores x ->
    exists q, q ∈ A /\ p_vaddr q <= r_offset x /\ r_offset x + 8 <= p_vaddr q + p_memsz q;
  le_apart : entries_apart (filter stores (R ++ D ++ P));
}.

(** They can be resolved where the image is. *)
Record linkable_at (b lo len : Z) : Prop := {
  la_relative : Forall (fun x => r_type x = REL_RELATIVE /\ lo <= r_addend x <= lo + len) R;
  la_resolved : Forall (dyn_entry_ok libs pre own b) D /\ Forall (plt_entry_ok libs pre own b) P;
  la_slot : forall x, x ∈ R ++ D ++ P -> stores x ->
    exists q, q ∈ A /\ p_vaddr q <= r_offset x /\ r_offset x + 8 <= p_vaddr q + p_memsz q;
  la_apart : entries_apart (filter stores (R ++ D ++ P));
}.

Lemma linkable_entries_at lo len : linkable_entries lo len ->
  forall segs, segments_ok segs -> seg_offset segs = lo -> seg_len segs = len -> linkable_at (base segs) lo len.
Proof.
  intros [Hr Hres Hs Ha] segs Hok <- <-. pose proof (base_ok segs Hok). pose proof Hok as ([? ?] & ? & ?).
  constructor; try done. apply Hres; lia.
Qed.
End file.

(** ** From the file to the memory *)

Section steps.
Context `{Config} `{Arch} `{!ArchOk _} `{Native} (data : bytes).
Context (libs : list library) (pre_find : PreFind) (pre : bytes -> option Z) (own : Z -> ElfSymbol * bytes).
Context (D P R I : list ElfRela) (init : option Z).
Context (segs : ElfSegments) (w : world) (A S : list ElfPhdr) (ds : list Dyn).
Hypothesis Hs : segments_ok segs.
Hypothesis Hal : memory_ptr segs mod 4096 = 0.
Hypothesis Hsh : Forall (shows (mem w) (base segs) data) A.
Hypothesis HA : Forall (fun q => load_ok q /\ file_ok data q /\ seg_wf segs q) A.
Hypothesis Hlib : linked_library data A own D P R I init (seg_offset segs) (seg_len segs) S ds.
Hypothesis Hent : linkable_at A libs pre own D P R (base segs) (seg_offset segs) (seg_len segs).

Local Notation b := (base segs).
Local Notation entries := (R ++ D ++ P).
Local Notation writes := (link_writes libs pre own b D P R).

Lemma bounds : b = memory_ptr segs - seg_offset segs /\ 0 <= b /\ 8 < memory_ptr segs /\
  b + seg_offset segs + seg_len segs < U64_LIM /\ 0 <= seg_offset segs.
Proof. pose proof (base_ok segs Hs). pose proof Hs as ([? ?] & ? & ?). split_and!; try lia. zlia. Qed.

Lemma image_in_memory a : is_Some (link_image data A !! a) -> mem w !! (b + a) = link_image data A !! a.
Proof. apply link_image_shows; [done|]. eapply Forall_impl; [exact HA|]. naive_solver. Qed.

(** A table of the file in memory. *)
Lemma table_moved off skip l a :
  last_val off ds = Some a -> file_entries data A ds off skip l ->
  read_array read_rela RELA_SIZE (mem w) (b + a + RELA_SIZE * skip) (length l) = Ok l.
Proof.
  unfold file_entries. intros -> Hl. rewrite <- Hl. apply read_relas_shift. intros i Hi. rewrite <- !Z.add_assoc. apply image_in_memory.
  apply (read_relas_inv _ _ _ _ Hl). lia.
Qed.

(** The slots lie in the image. *)
Lemma slot_inside x : x ∈ entries -> stores x ->
  memory_ptr segs <= slot b x /\ slot b x + 8 <= memory_ptr segs + seg_len segs /\ slot_mapped (mem w) (slot b x).
Proof.
  intros Hx Hst. destruct (la_slot _ _ _ _ _ _ _ _ _ _ Hent x Hx Hst) as (q & Hq & Hq1 & Hq2).
  pose proof bounds as (Hb & _). pose proof HA as HA'. rewrite Forall_forall in HA'.
  destruct (HA' q Hq) as ((? & ? & ? & ? & ?) & Hf & [_ _ _ [Hi1 Hi2]]).
  pose proof (page_down_facts (p_vaddr q)) as F1. pose proof (page_up_facts (p_vaddr q + p_memsz q)) as F2.
  fold (seg_lo q) in F1. fold (seg_hi q) in F2. unfold slot. split; [lia|]. split; [lia|].
  intros i Hi. replace i with (b + (i - b)) by lia. apply (shows_mapped data segs (mem w) A Hsh HA q); [done|lia].
Qed.

Lemma relative_types : Forall (fun x => r_type x = REL_RELATIVE) R.
Proof. eapply Forall_impl; [apply (la_relative _ _ _ _ _ _ _ _ _ _ Hent)|]. naive_solver. Qed.

Lemma resolved : Forall (dyn_entry_ok libs pre own b) D /\ Forall (plt_entry_ok libs pre own b) P.
Proof. apply (la_resolved _ _ _ _ _ _ _ _ _ _ Hent). Qed.

(** Every write is to the slot of an entry that stores. *)
Lemma write_entry s : s ∈ writes -> exists x v, x ∈ entries /\ stores x /\ s = word (slot b x) v.
Proof.
  intros (x & v & Hx & Hv & ->)%link_write_elem; [|apply relative_types]. exists x, v. split; [done|]. split; [|done].
  intros Hn. by rewrite stored_none in Hv.
Qed.

Lemma link_slots_apart : slots_apart writes.
Proof.
  rewrite link_writes_eq by apply relative_types. pose proof (la_apart _ _ _ _ _ _ _ _ _ _ Hent) as Hap.
  unfold entries_apart, slots_apart in *. revert Hap. generalize entries. induction l as [|x l IH]; intros Hap; [constructor|].
  cbn [omap list_omap]. rewrite filter_cons in Hap.
  assert (Hrest : ForallOrdPairs (fun x y : ElfRela => r_offset x + 8 <= r_offset y \/ r_offset y + 8 <= r_offset x) (filter stores l)).
  { destruct (decide (stores x)); [by inversion Hap|done]. }
  destruct (entry_write _ _ _ _ x) as [s|] eqn:Hw; [|by apply IH]. apply fmap_Some in Hw as (v & Hv & ->).
  assert (Hst : stores x) by (intros Hn; by rewrite stored_none in Hv).
  constructor; [|by apply IH]. rewrite decide_True in Hap by done. inversion Hap as [|? ? Hx _]; subst.
  rewrite Forall_forall in Hx. apply Forall_forall. intros s (y & Hy & (u & Hu & ->)%fmap_Some)%list_elem_of_omap.
  assert (Hsty : stores y) by (intros Hn; by rewrite stored_none in Hu).
  rewrite !wr_end_word. cbn [word fst]. specialize (Hx y). rewrite list_elem_of_filter in Hx. unfold slot. specialize (Hx (conj Hsty Hy)). lia.
Qed.

(** The symbols of the object in memory. *)
Section own.
Context (st : SymbolTable).
Hypothesis Hstr : strtab st = mk_strtab (default 0 (last_val DT_STRTAB ds) + b).
Hypothesis Hsym : symtab st = default 0 (last_val DT_SYMTAB ds) + b.

Lemma own_ranges_at k r : r ∈ own_ranges st own k -> (r.1 - b, r.2) ∈ own_ranges (link_symtab ds) own k.
Proof.
  unfold own_ranges, str_range, link_symtab. rewrite Hstr, Hsym. cbn [symtab strtab strtab_data].
  intros Hr. apply elem_of_cons in Hr as [->|[->|[]%elem_of_nil]%elem_of_cons]; cbn [fst snd].
  - apply elem_of_cons. left. f_equal. lia.
  - apply elem_of_cons. right. apply elem_of_cons. left. f_equal. lia.
Qed.

Lemma own_in_memory x : x ∈ D ++ P -> needs_symbol x = true -> own_in st own (mem w) (r_symbol x).
Proof.
  intros Hx Hn. destruct (ll_own _ _ _ _ _ _ _ _ _ _ _ _ Hlib x Hx Hn) as [Ho Hr]. destruct bounds as (Hb & ? & _ & ? & ?).
  apply (own_in_ext (move_table b (link_symtab ds))).
  - rewrite Hsym. cbn. lia.
  - rewrite Hstr. cbn. f_equal. lia.
  - apply (own_in_move b (seg_offset segs + seg_len segs) _ _ (link_image data A)); [done|lia|done|done|].
    intros a Ha. apply image_in_memory. by apply (own_in_mapped _ _ _ _ _ Ho).
Qed.

Lemma writes_apart_own x r s : x ∈ D ++ P -> needs_symbol x = true -> r ∈ own_ranges st own (r_symbol x) -> s ∈ writes ->
  wr_end s <= r.1 \/ r.1 + r.2 <= s.1.
Proof.
  intros Hx Hn Hr%own_ranges_at (y & v & Hy & Hst & ->)%write_entry. rewrite wr_end_word. cbn [word fst].
  destruct (ll_apart _ _ _ _ _ _ _ _ _ _ _ _ Hlib y (r.1 - b, r.2) Hy Hst) as [?|?]; unfold slot; cbn [fst snd] in *; [|lia..].
  right. right. apply list_elem_of_bind. exists x. split; [done|]. by apply list_elem_of_filter.
Qed.
End own.

(** A scope whose tables the passes do not write to. *)
Hypothesis Hlibs : Forall (library_in (mem w)) libs.
Hypothesis Hkept : Forall (fun r => forall x, x ∈ entries -> stores x -> slot b x + 8 <= r.1 \/ r.1 + r.2 <= slot b x)
  (libs ≫= fun l => gnu_ranges (lib_table l) (lib_syms l)).
Hypothesis Hpre : forall name w', pre_find name w' = (Ok (pre name), w').
Hypothesis Hpre_range : forall name v, pre name = Some v -> 0 <= v < U64_LIM.

Lemma object_linkable core st :
  core_base core = b -> version st = None ->
  strtab st = mk_strtab (default 0 (last_val DT_STRTAB ds) + b) -> symtab st = default 0 (last_val DT_SYMTAB ds) + b ->
  linkable core st libs pre_find pre own w D P writes.
Proof.
  intros Hb Hv Hstr Hsym. destruct resolved. constructor; rewrite ?Hb; try done.
  - intros x. by apply own_in_memory.
  - unfold apart_from, read_ranges. apply Forall_forall. intros s Hw. apply Forall_app. split.
    + eapply Forall_impl; [exact Hkept|]. intros r Hr. destruct (write_entry s Hw) as (x & v & Hx & Hst & ->).
      rewrite wr_end_word. cbn [word fst]. specialize (Hr x Hx Hst). lia.
    + apply Forall_forall. intros r (x & Hr & [Hn Hx]%list_elem_of_filter)%list_elem_of_bind. by apply (writes_apart_own st Hstr Hsym x).
Qed.

(** The tables of the handle. *)
Record object_tables (r : ElfRelocation) : Prop := {
  ot_relative : read_slice read_rela RELA_SIZE (mem w) (rl_relative r) = Ok R;
  ot_dynrel : read_slice read_rela RELA_SIZE (mem w) (rl_dynrel r) = Ok D;
  ot_pltrel : read_slice read_rela RELA_SIZE (mem w) (rl_pltrel r) = Ok P;
  ot_apart : apart_from [table_range (rl_dynrel r); table_range (rl_pltrel r)] writes;
}.

(** A table is where the entries range says, or it is empty and low. *)
Definition placed (s : slice) (off skip : Z) (l : list ElfRela) : Prop :=
  sl_len s = Z.of_nat (length l) /\
  match last_val off ds with
  | Some a => sl_ptr s = b + a + RELA_SIZE * skip
  | None => sl_ptr s = 8 /\ l = []
  end.

Lemma placed_reads s off skip l :
  placed s off skip l -> file_entries data A ds off skip l -> read_slice read_rela RELA_SIZE (mem w) s = Ok l.
Proof.
  intros [Hl Hp] Ht. unfold read_slice. rewrite Hl, Nat2Z.id. destruct (last_val off ds) as [a|] eqn:Ha.
  - rewrite Hp. by apply (table_moved off skip l a).
  - destruct Hp as [_ ->]. done.
Qed.

Lemma placed_apart s off skip l :
  placed s off skip l -> entries_range ds off skip l ∈ link_reads own D P R ds ->
  Forall (fun x => wr_end x <= (table_range s).1 \/ (table_range s).1 + (table_range s).2 <= x.1) writes.
Proof.
  intros [Hl Hp] Hin. apply Forall_forall. intros x (y & v & Hy & Hst & ->)%write_entry.
  rewrite wr_end_word. unfold table_range. cbn [word fst snd]. rewrite Hl, Nat2Z.id.
  destruct (slot_inside y Hy Hst) as (Hlo & _ & _). destruct bounds as (_ & _ & ? & _).
  pose proof (ll_apart _ _ _ _ _ _ _ _ _ _ _ _ Hlib y _ Hy Hst Hin) as Hr. clear Hin. unfold entries_range, slot, RELA_SIZE in *.
  destruct (last_val off ds) as [a|]; cbn in Hr; [lia|]. destruct Hp as [-> ->]. cbn. lia.
Qed.

Lemma object_relocation :
  exists r, object_tables r /\
    ElfRelocation_new (spec_slice segs RELA_SIZE ds DT_JMPREL DT_PLTRELSZ) (spec_slice segs RELA_SIZE ds DT_RELA DT_RELASZ)
      (last_val DT_RELACOUNT ds) = Ok r.
Proof.
  pose proof (ll_refs _ _ _ _ _ _ _ _ _ _ _ _ Hlib) as Hrefs.
  pose proof (relocation_in_memory data segs _ _ S ds Hs eq_refl eq_refl Hal Hrefs) as Hrel. cbv zeta in Hrel.
  pose proof (dr_wf _ _ _ _ _ Hrefs) as Hwf.
  pose proof (table_in_memory segs _ _ ds DT_RELA DT_RELASZ Hs eq_refl eq_refl (dl_rela _ _ _ Hwf)) as (_ & Hdl & Hde).
  pose proof (table_in_memory segs _ _ ds DT_JMPREL DT_PLTRELSZ Hs eq_refl eq_refl (dl_plt _ _ _ Hwf)) as (_ & Hpl & _).
  pose proof (ll_size _ _ _ _ _ _ _ _ _ _ _ _ Hlib) as Hsz. pose proof (ll_plt_size _ _ _ _ _ _ _ _ _ _ _ _ Hlib) as Hpsz.
  rewrite (ll_count _ _ _ _ _ _ _ _ _ _ _ _ Hlib) in Hrel. rewrite Hsz in Hdl. rewrite Hpsz in Hpl.
  set (d := default empty_slice (spec_slice segs RELA_SIZE ds DT_RELA DT_RELASZ)) in *.
  set (plt := default empty_slice (spec_slice segs RELA_SIZE ds DT_JMPREL DT_PLTRELSZ)) in *.
  eexists. split; [|exact Hrel]. clear Hrel.
  assert (Hnil : last_val DT_RELA ds = None -> R = [] /\ D = []).
  { unfold table_len in Hsz. intros Hn. rewrite Hn in Hsz. destruct (ends_together ds);
      (split; apply nil_length_inv; lia). }
  assert (HnilP : last_val DT_JMPREL ds = None -> P = []).
  { unfold table_len in Hpsz. intros Hn. rewrite Hn in Hpsz. apply nil_length_inv. lia. }
  assert (HT1 : placed (mk_slice (sl_ptr d) (Z.of_nat (length R))) DT_RELA 0 R).
  { split; [done|]. cbn [sl_ptr]. unfold d, spec_slice. destruct (last_val DT_RELA ds); cbn; [lia|].
    split; [done|by apply Hnil]. }
  assert (HT2 : placed (mk_slice (padd (sl_ptr d) (RELA_SIZE * Z.of_nat (length R)))
    (if ends_together ds then sl_len d - Z.of_nat (length R) - sl_len plt else sl_len d - Z.of_nat (length R)))
    DT_RELA (Z.of_nat (length R)) D).
  { split; [cbn [sl_len]; destruct (ends_together ds); lia|]. cbn [sl_ptr]. unfold d, spec_slice, RELA_SIZE in *.
    destruct (last_val DT_RELA ds) as [a|] eqn:Ha; cbn.
    - apply padd_small. destruct (dl_rela _ _ _ Hwf a Ha) as (Hin & n & Hn & ?). unfold table_len in Hsz. rewrite Ha, Hn in Hsz.
      unfold link_in, RELA_SIZE in *. change (default 0 (Some n)) with n in Hsz. pose proof (Z.mul_div_le n 24). destruct bounds as (? & ? & ? & ? & ?).
      destruct (ends_together ds); lia.
    - destruct (Hnil eq_refl) as [-> ->]. done. }
  assert (HT3 : placed plt DT_JMPREL 0 P).
  { split; [done|]. unfold plt, spec_slice. destruct (last_val DT_JMPREL ds); cbn; [lia|]. split; [done|by apply HnilP]. }
  constructor; cbn [rl_relative rl_dynrel rl_pltrel].
  - apply (placed_reads _ _ _ _ HT1). by apply Hlib.
  - apply (placed_reads _ _ _ _ HT2). by apply Hlib.
  - apply (placed_reads _ _ _ _ HT3). by apply Hlib.
  - unfold apart_from.
    pose proof (placed_apart _ _ _ _ HT2 ltac:(by left)) as A2. pose proof (placed_apart _ _ _ _ HT3 ltac:(right; by left)) as A3.
    rewrite Forall_forall in A2, A3. apply Forall_forall. intros x Hx. constructor; [by apply A2|]. constructor; [by apply A3|constructor].
Qed.

(** The handle can be linked. *)
Lemma object_links c st :
  segments (inner (c_core c)) = segs -> symbols (inner (c_core c)) = Some st ->
  strtab st = mk_strtab (default 0 (last_val DT_STRTAB ds) + b) -> symtab st = default 0 (last_val DT_SYMTAB ds) + b ->
  version st = None ->
  ElfRelocation_new (spec_slice segs RELA_SIZE ds DT_JMPREL DT_PLTRELSZ) (spec_slice segs RELA_SIZE ds DT_RELA DT_RELASZ)
    (last_val DT_RELACOUNT ds) = Ok (c_relocation c) ->
  links c libs pre_find pre own w D P R st.
Proof.
  intros Hseg Hst Hstr Hsym Hv Hrel. destruct object_relocation as (r & [HR HD HP Hap] & Hr).
  rewrite Hr in Hrel. injection Hrel as ->. destruct bounds as (Hb & ? & ? & ? & ?).
  assert (Hbase : core_base (c_core c) = b) by (unfold core_base; by rewrite Hseg).
  constructor; rewrite ?Hbase; try done.
  - by apply object_linkable.
  - apply resolved.
  - eapply Forall_impl; [apply (la_relative _ _ _ _ _ _ _ _ _ _ Hent)|]. intros x [? ?]. split; [done|]. lia.
  - apply Forall_forall. intros s (x & v & Hx & Hstx & ->)%write_entry. destruct (slot_inside x Hx Hstx) as (? & ? & ?).
    split; [cbn [word fst]; lia|by apply write_mapped_word].
  - apply link_slots_apart.
Qed.
End steps.

(** ** From the file to the initialisers *)

Section run.
Context `{Config} `{Arch} `{!ArchOk _} `{Native} `{Mm : Mmap} (file : Z -> Z -> Z) `{!MmapLaws Mm file}.
Context (room limit : Z) `{!MmapGrants Mm room limit} `{AA : ArcAlloc}.
Context `{EO : ElfObject T} (o : T) (data : bytes) `{!Serves o data}.
Hypothesis Hfile : forall fd j b, as_fd o = Some fd -> data !! j = Some b -> file fd (Z.of_nat j) = b.
Context (libs : list library) (pre : bytes -> option Z) (own : Z -> ElfSymbol * bytes).
Context (D P R I : list ElfRela) (init : option Z).

Local Notation entries := (R ++ D ++ P).

(** The memory when the first initialiser starts: the words of the linker, less the
    addends that the code drops, in their slots, in the image of the file, in the
    memory [m0] before the load. *)
Record linked (segs : ElfSegments) (ps : list ElfPhdr) (m0 m : memory) : Prop := {
  lm_words : forall x v, x ∈ entries -> word_of libs pre own (base segs) x = Some v ->
    read_u64 m (slot (base segs) x) = Ok (v - dropped_addend x);
  lm_image : forall p i, p ∈ ps -> is_load p -> 0 <= i < p_memsz p ->
    (forall x, x ∈ entries -> stores x -> ~ (r_offset x <= p_vaddr p + i < r_offset x + 8)) ->
    m !! (base segs + p_vaddr p + i) = if i <? p_filesz p then data !! Z.to_nat (p_offset p + i) else Some 0;
  lm_outside : same_outside m0 m (memory_ptr segs) (seg_len segs);
}.

(** What the passes over the tables of the handle [c] and its initialisers do, in the
    world [w1]. *)
Record impl_run (unknown : DealUnknown) (pre_find : PreFind) (ps : list ElfPhdr) (m0 : memory)
    (c : ElfCommonPart) (w1 w' : world) : Prop := {
  ir_run : relocate_impl c (lib_helper <$> libs) pre_find unknown None w1 = (Ok (c_core c), w');
  ir_tables : exists wt,
    relocate_tables c (lib_helper <$> libs) pre_find unknown None w1 = (Ok (c_core c), wt) /\
    linked (segments (inner (c_core c))) ps m0 (mem wt) /\
    (forall a, (forall x, x ∈ entries -> stores x ->
      ~ (slot (base (segments (inner (c_core c)))) x <= a < slot (base (segments (inner (c_core c)))) x + 8)) ->
      mem wt !! a = mem w1 !! a) /\
    same_dom (mem w1) (mem wt) /\ forall K, native_keeps K -> K (mem wt) -> K (mem w');
  ir_log : exists protect, log w' = log w1 ++ protect ++
    ((fun f => EvCall f (init_args (c_init c))) <$> init_list (base (segments (inner (c_core c)))) init I);
  ir_arcs : arcs w' = <[arc_ptr (c_core c) := mk_cell 1 0 true]> (arcs w1);
}.

(** What relocating the handle [c] in the world [w1] does. *)
Record link_run (scope : list RelocatedDylib) (pre_find : PreFind) (ps : list ElfPhdr) (m0 : memory)
    (c : ElfCommonPart) (w1 w' : world) : Prop := {
  lr_run : dylib_easy_relocate (mk_dylib c) scope pre_find w1 = (Ok (mk_relocated_dylib (c_core c)), w');
  lr_tables : exists unknown wt,
    relocate_tables c (lib_helper <$> libs) pre_find unknown None w1 = (Ok (c_core c), wt) /\
    linked (segments (inner (c_core c))) ps m0 (mem wt) /\
    (forall a, (forall x, x ∈ entries -> stores x ->
      ~ (slot (base (segments (inner (c_core c)))) x <= a < slot (base (segments (inner (c_core c)))) x + 8)) ->
      mem wt !! a = mem w1 !! a) /\
    same_dom (mem w1) (mem wt) /\ forall K, native_keeps K -> K (mem wt) -> K (mem w');
  lr_log : exists protect, log w' = log w1 ++ protect ++
    ((fun f => EvCall f (init_args (c_init c))) <$> init_list (base (segments (inner (c_core c)))) init I);
  lr_arcs : arcs w' = <[arc_ptr (c_core c) := mk_cell 1 0 true]> (arcs w1);
}.

Definition linked_file (lazy : option bool) (lo len : Z) (ps S : list ElfPhdr) (ds : list Dyn) : Prop :=
  linked_library data (loadable ps) own D P R I init lo len S ds /\ binds_now lazy ds.

(** A handle, once the object is in memory: the libraries [libs] are there too, and
    no slot is in their tables. *)
Lemma handle_links lazy c pre_find unknown es m0 w1 ps lo param name lp ehdr :
  Z.of_nat (length data) < 2 ^ 63 -> image_wf data ps -> create_segments ps true = Ok (param, lo) ->
  let segs := segments (inner (c_core c)) in
  seg_offset segs = lo -> seg_len segs = pm_len param -> segments_ok segs -> memory_ptr segs mod 4096 = 0 ->
  library_of data (linked_file lazy lo (pm_len param) ps) name lazy lp ehdr ps (mem w1) c ->
  arcs w1 !! arc_ptr (c_core c) = Some (mk_cell 1 0 false) ->
  same_outside m0 (mem w1) (memory_ptr segs) (seg_len segs) ->
  Forall (library_in (mem w1)) libs ->
  Forall (fun r => forall x, x ∈ entries -> stores x -> slot (base segs) x + 8 <= r.1 \/ r.1 + r.2 <= slot (base segs) x)
    (libs ≫= fun l => gnu_ranges (lib_table l) (lib_syms l)) ->
  (forall name w', pre_find name w' = (Ok (pre name), w')) -> (forall name v, pre name = Some v -> 0 <= v < U64_LIM) ->
  linkable_at (loadable ps) libs pre own D P R (base segs) lo (pm_len param) ->
  (forall p, last_of PT_GNU_RELRO ps = Some p ->
     lo <= p_vaddr p /\ 0 <= p_memsz p /\ p_vaddr p + p_memsz p < lo + pm_len param) -> read_only_logs es ->
  (forall v f, is_Some (native_call v f (init_args (c_init c)))) ->
  c_lazy c = false /\ exists w', impl_run unknown pre_find ps m0 c w1 w'.
Proof.
  intros Hsize Hwf Hc segs Hso Hsl Hs Hal Hlib Harc Hout Hlibs Hkept Hpre Hpr Hent Hrelro Hes Hnat.
  destruct (lb_dynamic _ _ _ _ _ _ _ _ _ Hlib) as (p & ds & _ & _ & (S & HS & HQ & Hnow) & Hhd & Hlazy & Hinit). fold segs in Hhd, Hinit.
  unfold binds_now in Hnow. rewrite <- Hlazy in Hnow. split; [done|].
  destruct (library_segments data _ _ _ _ _ _ _ _ _ _ Hsize Hwf Hc Hlib Hso Hsl) as [Hsh HA]. fold segs in Hsh, HA.
  destruct (library_protected data _ _ _ _ _ _ _ _ es _ _ Hwf Hc Hlib Hso Hsl Hs Hal Hrelro Hes) as [prot Hpro].
  rewrite <- Hso, <- Hsl in HQ, Hent.
  destruct (hd_symbols _ _ _ _ _ _ _ Hhd) as (st & Hst & Hstr & Hsym & Hv & _).
  assert (Hl : links c libs pre_find pre own w1 D P R st).
  { eapply (object_links data libs pre_find pre own D P R I init segs w1); try done. apply Hhd. }
  destruct (relocate_impl_links_run c libs pre_find pre own w1 D P R st unknown None prot
    (init_list (base segs) init I) (mk_cell 1 0 false) Hl) as (wt & w2 & w' & Htab & Hmem & Hlog & Harc' & Hkeep & Hdrop & Himpl).
  { done. }
  { done. }
  { intros m' Hm'. rewrite Hinit. cbn [i_init_fn i_init_array_fn]. apply (functions_in_memory DT_INIT_ARRAY DT_INIT_ARRAYSZ segs R); [apply HQ|apply HQ|].
    intros x Hx. destruct (links_linked c libs pre_find pre own w1 D P R st m' Hl Hm') as [Hw _].
    apply Hw; [apply elem_of_app; by left|]. apply stored_relative.
    pose proof (la_relative _ _ _ _ _ _ _ _ _ _ Hent) as HR. rewrite Forall_forall in HR. by apply HR. }
  { intros f v _. by apply Hnat. }
  { done. }
  { intros v. by exists v. }
  injection Hdrop as <-. exists w2. destruct (links_linked c libs pre_find pre own w1 D P R st (mem wt) Hl Hmem) as [Hw Ho].
  assert (Hout' : forall a, (forall x, x ∈ entries -> stores x -> ~ (slot (base segs) x <= a < slot (base segs) x + 8)) ->
    mem wt !! a = mem w1 !! a).
  { intros a Ha. apply Ho. intros x Hx [v Hxv]. apply Ha; [done|]. intros Hn. by rewrite stored_none in Hxv. }
  constructor.
  - done.
  - exists wt. split; [done|]. split; [|split_and!; [done|apply Hmem|done]]. constructor.
    + intros x u Hx Hu. apply Hw; [done|]. by apply stored_of_word.
    + intros q i Hq1 Hq2 Hi Hno. fold segs. rewrite <- (lb_image _ _ _ _ _ _ _ _ _ Hlib q Hq1 Hq2 i Hi).
      apply Hout'. intros x Hx Hstx. specialize (Hno x Hx Hstx). unfold slot. fold segs. lia.
    + fold segs. intros a Ha. rewrite Hout'; [by apply Hout|]. intros x Hx Hstx.
      destruct (slot_inside data libs pre own D P R segs w1 (loadable ps) Hs Hal Hsh HA Hent x Hx Hstx) as (? & ? & _). lia.
  - exists prot. rewrite Hlog. fold segs. done.
  - exact Harc'.
Qed.

(** A library of the scope stays as it was if the image is not mapped over its tables,
    and no slot is in them. *)
Lemma scope_apart segs m0 m1 :
  Forall (range_apart (memory_ptr segs) (seg_len segs)) (libs ≫= fun l => gnu_ranges (lib_table l) (lib_syms l)) ->
  Forall (library_in m0) libs -> same_outside m0 m1 (memory_ptr segs) (seg_len segs) ->
  (forall x, x ∈ entries -> stores x -> in_image segs (slot (base segs) x) 8) ->
  Forall (library_in m1) libs /\
  Forall (fun r => forall x, x ∈ entries -> stores x -> slot (base segs) x + 8 <= r.1 \/ r.1 + r.2 <= slot (base segs) x)
    (libs ≫= fun l => gnu_ranges (lib_table l) (lib_syms l)).
Proof.
  intros Hav Hlibs Hout Hin. split.
  - rewrite Forall_forall in Hlibs |- *. intros l Hl. apply (library_in_moved m0); [by apply Hlibs|].
    intros a (r & Hr & Ha)%Exists_exists. rewrite Z.add_0_l. apply Hout. rewrite Forall_forall in Hav.
    specialize (Hav r). rewrite list_elem_of_bind in Hav. destruct (Hav ltac:(by exists l)); lia.
  - eapply Forall_impl; [exact Hav|]. intros r Hr x Hx Hst. destruct (Hin x Hx Hst). unfold range_apart in Hr. lia.
Qed.

(** The slots of a file in its image. *)
Lemma slots_in_image segs ps lo len :
  segments_ok segs -> Forall (fun q => load_ok q /\ file_ok data q /\ seg_wf segs q) (loadable ps) ->
  linkable_at (loadable ps) libs pre own D P R (base segs) lo len ->
  forall x, x ∈ entries -> stores x -> in_image segs (slot (base segs) x) 8.
Proof.
  intros Hs HA Hent x Hx Hst. destruct (la_slot _ _ _ _ _ _ _ _ _ _ Hent x Hx Hst) as (q & Hq & Hq1 & Hq2).
  rewrite Forall_forall in HA. destruct (HA q Hq) as (_ & _ & [_ _ _ [Hi1 Hi2]]).
  pose proof (page_down_facts (p_vaddr q)) as F1. pose proof (page_up_facts (p_vaddr q + p_memsz q)) as F2.
  fold (seg_lo q) in F1. fold (seg_hi q) in F2. pose proof (base_ok segs Hs) as Hb. unfold slot, in_image. lia.
Qed.

(** A library against the libraries of a scope. *)
Lemma library_links lazy c scope pre_find es m0 w1 ps lo param name lp ehdr :
  Z.of_nat (length data) < 2 ^ 63 -> image_wf data ps -> create_segments ps true = Ok (param, lo) ->
  let segs := segments (inner (c_core c)) in
  seg_offset segs = lo -> seg_len segs = pm_len param -> segments_ok segs -> memory_ptr segs mod 4096 = 0 ->
  library_of data (linked_file lazy lo (pm_len param) ps) name lazy lp ehdr ps (mem w1) c ->
  arcs w1 !! arc_ptr (c_core c) = Some (mk_cell 1 0 false) ->
  same_outside m0 (mem w1) (memory_ptr segs) (seg_len segs) ->
  Forall (range_apart (memory_ptr segs) (seg_len segs)) (libs ≫= fun l => gnu_ranges (lib_table l) (lib_syms l)) ->
  Forall (library_in m0) libs -> map_outcome helper_of scope = Ok (lib_helper <$> libs) ->
  (forall name w', pre_find name w' = (Ok (pre name), w')) -> (forall name v, pre name = Some v -> 0 <= v < U64_LIM) ->
  linkable_entries (loadable ps) libs pre own D P R lo (pm_len param) ->
  (forall p, last_of PT_GNU_RELRO ps = Some p ->
     lo <= p_vaddr p /\ 0 <= p_memsz p /\ p_vaddr p + p_memsz p < lo + pm_len param) -> read_only_logs es ->
  (forall v f, is_Some (native_call v f (init_args (c_init c)))) ->
  exists w', link_run scope pre_find ps m0 c w1 w'.
Proof.
  intros Hsize Hwf Hc segs Hso Hsl Hs Hal Hlib Harc Hout Hav Hlibs Hhs Hpre Hpr Hent Hrelro Hes Hnat.
  pose proof (linkable_entries_at _ _ _ _ _ _ _ _ _ Hent segs Hs Hso Hsl) as Hat.
  destruct (library_segments data _ _ _ _ _ _ _ _ _ _ Hsize Hwf Hc Hlib Hso Hsl) as [_ HA].
  destruct (scope_apart segs m0 (mem w1) Hav Hlibs Hout) as [Hlibs1 Hkept]; [by apply (slots_in_image segs ps lo (pm_len param))|].
  destruct (handle_links lazy c pre_find (fun rela core => no_unknown rela core scope) es m0 w1 ps lo param name lp ehdr)
    as [Hlazy [w' [Hrun (wt & Htab) Hlog Harcs]]]; try done.
  exists w'. constructor; [by apply (easy_relocate_runs c scope (lib_helper <$> libs))| |done..].
  by exists (fun rela core => no_unknown rela core scope), wt.
Qed.

(** C1: from the file to the initialisers, with symbols.  A well-formed library without
    symbol versions, whose references are of the kinds of [dyn_entry_ok] and
    [plt_entry_ok] and resolve to definitions without a resolver function, and whose
    functions return when they are called, is loaded and linked against the libraries of a scope that the platform does not map over.
    When the first initialiser starts each slot holds the word of the abstract linker
    less the addend that the code drops: the word itself, but for a REL_SYMBOLIC entry
    with an addend, whose slot gets S where the linker has S + A.  The rest of the image
    is the file's, and the memory outside of the image is as it was before the load.
    The initialisers that are called are the [init] function and the rebased words of
    the array, in order, and the only handle is to an initialised object. *)
Theorem load_and_relocate_links l lazy scope pre_find es w ehdr ps param lo :
  ld_hook l = None ->
  (forall w, exists w', obj_drop o w = (Ok tt, w') /\ mem w' = mem w) ->
  file_headers data ehdr ps -> image_wf data ps ->
  create_segments ps true = Ok (param, lo) -> lo <= room -> pm_len param <= limit ->
  headers_ok (linked_file lazy lo (pm_len param) ps) data lo (pm_len param) (first_segs lo ps) ps ->
  Exists (fun p => p_type p = PT_DYNAMIC) ps -> table_mapped ehdr ps ->
  linkable_entries (loadable ps) libs pre own D P R lo (pm_len param) ->
  (forall p, last_of PT_GNU_RELRO ps = Some p ->
     lo <= p_vaddr p /\ 0 <= p_memsz p /\ p_vaddr p + p_memsz p < lo + pm_len param) -> read_only_logs es ->
  map_outcome helper_of scope = Ok (lib_helper <$> libs) -> Forall (library_in (mem w)) libs ->
  MmapAvoids Mm (libs ≫= fun l => gnu_ranges (lib_table l) (lib_syms l)) ->
  (forall name w', pre_find name w' = (Ok (pre name), w')) -> (forall name v, pre name = Some v -> 0 <= v < U64_LIM) ->
  (forall v f args, is_Some (native_call v f args)) ->
  exists c l' w1 w',
    load_dylib l o lazy w = (Ok (mk_dylib c, l'), w1) /\
    load_and_relocate o l lazy scope pre_find w = (Ok (mk_relocated_dylib (c_core c), l'), w') /\
    link_run scope pre_find ps (mem w) c w1 w'.
Proof.
  intros Hhook Hdrop Hf Hwf Hc Hroom Hlim Hok Hdyn Htab Hent Hrelro Hes Hscope Hlibs Hav Hpre Hpr Hnat.
  destruct (load_dylib_runs file room limit o data Hfile (linked_file lazy lo (pm_len param) ps) l lazy
    w ehdr ps param lo) as (c & l' & w1 & Hload & Hlib & Hso & Hsl & Hs & Hal & Harc & Hout & Hap & _); try done.
  { by intros S ds [[] _]. }
  destruct (library_links lazy c scope pre_find es (mem w) w1 ps lo param _ _ _ (serves_size (o := o)) Hwf Hc Hso Hsl Hs Hal Hlib Harc Hout (placed_avoids Mm _ _ _ _ Hap) Hlibs
    Hscope Hpre Hpr Hent Hrelro Hes) as [w' Hrel]; [done|].
  exists c, l', w1, w'. split; [done|]. split; [|done]. unfold load_and_relocate. rewrite (bind_run _ _ _ _ _ Hload).
  by rewrite (bind_run _ _ _ _ _ (lr_run _ _ _ _ _ _ _ Hrel)).
Qed.
End run.

(** ** Example

    A library of 3200 bytes with the symbol table of [Symbol.v], that refers to
    [alpha] by a word and to [foo] by a call: the user chooses the first, the second
    is found in the library of the scope, at 131072. *)

Definition bound_phdrs : list ElfPhdr := one_segment 3200 192.
Definition bound_dyns : list Dyn :=
  [mk_dyn DT_GNU_HASH 1000; mk_dyn DT_SYMTAB 2000; mk_dyn DT_STRTAB 3000; mk_dyn DT_RELA 3040; mk_dyn DT_RELASZ 48;
   mk_dyn DT_RELACOUNT 1; mk_dyn DT_JMPREL 3088; mk_dyn DT_PLTRELSZ 24;
   mk_dyn DT_INIT 300; mk_dyn DT_INIT_ARRAY 3112; mk_dyn DT_INIT_ARRAYSZ 8].
Definition bound_relative : list ElfRela := [mk_rela 3112 8 256].
Definition bound_dynrel : list ElfRela := [mk_rela 3120 (Z.shiftl 2 32 + 6) 0].
Definition bound_pltrel : list ElfRela := [mk_rela 3128 (Z.shiftl 3 32 + 7) 0].
Definition bound_elf : bytes :=
  ehdr_bytes 62 64 3 ++ mjoin (phdr_bytes <$> bound_phdrs) ++ replicate 8 0 ++
  dyn_bytes (bound_dyns ++ [mk_dyn DT_NULL 0]) ++ replicate 568 0 ++
  default [] (load_bytes demo_symbol_memory 1000 44) ++ replicate 956 0 ++
  replicate 24 0 ++ mjoin (symbol_bytes ∘ gs_sym <$> demo_syms) ++ replicate 904 0 ++
  [0] ++ mjoin ((fun s => gs_name s ++ [0]) <$> demo_syms) ++ replicate 23 0 ++
  mjoin (rela_bytes <$> bound_relative ++ bound_dynrel ++ bound_pltrel) ++ replicate 88 0.
Definition bound_object : ElfObject ElfFile := @LibcFile.object (demo_files (fun _ => bound_elf)).
Definition bound_libs : list library := [mk_library 131072 demo_symtab demo_syms].
Definition bound_scope : list RelocatedDylib :=
  [mk_relocated_dylib (mk_core 901 (mk_inner (bytes_of "liba.so") (Some demo_symtab) None None empty_slice None None []
     user_data_empty None (mk_segments 131072 0 4096 (fun p n => emit (EvMunmap p n true)))))].
Definition bound_world : world := mk_world demo_symbol_memory [] 0 ∅.

Lemma bound_length : Z.of_nat (length bound_elf) = 3200.
Proof. vm_compute. reflexivity. Qed.

Lemma bound_headers : @file_headers demo_arch bound_elf one_segment_ehdr bound_phdrs.
Proof. constructor; [constructor|]; try (vm_compute; first [reflexivity|discriminate]). Qed.

Lemma bound_serves : Serves (H := bound_object) (mk_file (bytes_of "bound") 3) bound_elf.
Proof.
  apply (ElfFile_serves (F := demo_files (fun _ => bound_elf)) (fun _ => bound_elf) world_pos (bytes_of "bound") 3).
  rewrite bound_length. reflexivity.
Qed.

Lemma bound_wf : dyn_link_wf 0 4096 bound_dyns.
Proof. link_wf bound_dyns. Qed.

Lemma bound_refs S :
  mk_phdr PT_LOAD 6 0 0 0 3200 3200 4096 ∈ S -> @dyn_refs dev_config bound_elf 0 4096 S bound_dyns.
Proof.
  intros HS. constructor.
  - exact bound_wf.
  - intros h [= <-]. exists 1000. rewrite bound_length. split; [apply (one_segment_in_file 3200); [done|lia..]|lia].
  - constructor.
  - discriminate.
  - discriminate.
  - split; vm_compute; discriminate.
  - discriminate.
  - right. reflexivity.
Qed.

Lemma bound_own_in k : k = 2 \/ k = 3 ->
  @own_in (link_symtab bound_dyns) linked_own (link_image bound_elf (loadable bound_phdrs)) k /\
  ranges_in 0 4096 (own_ranges (link_symtab bound_dyns) linked_own k).
Proof.
  intros Hk. assert (Hr : ranges_in 0 4096 (own_ranges (link_symtab bound_dyns) linked_own k)).
  { destruct Hk as [-> | ->]; apply (bool_decide_unpack _); by vm_compute. }
  split; [|done]. destruct Hk as [-> | ->]; (constructor; [by exists 4096|by vm_compute|apply cstr_at_check; by vm_compute]).
Qed.

(** A check of all pairs. *)
Lemma apart_check `{Arch} (l : list ElfRela) (rs : list (Z * Z)) :
  Forall (fun x => Forall (fun r => r_offset x + 8 <= r.1 \/ r.1 + r.2 <= r_offset x) rs) l ->
  forall x r, x ∈ l -> stores x -> r ∈ rs -> r_offset x + 8 <= r.1 \/ r.1 + r.2 <= r_offset x.
Proof.
  intros Hall x r Hx _ Hr. rewrite Forall_forall in Hall. specialize (Hall x Hx). rewrite Forall_forall in Hall. by apply Hall.
Qed.

Lemma bound_library S :
  mk_phdr PT_LOAD 6 0 0 0 3200 3200 4096 ∈ S ->
  @linked_file dev_config (x86_64 0) bound_elf linked_own bound_dynrel bound_pltrel bound_relative bound_relative (Some 300)
    (Some false) 0 4096 bound_phdrs S bound_dyns.
Proof.
  intros HS. split; [|done]. constructor.
  - by apply bound_refs.
  - vm_compute. reflexivity.
  - vm_compute. reflexivity.
  - vm_compute. reflexivity.
  - vm_compute. reflexivity.
  - vm_compute. reflexivity.
  - reflexivity.
  - reflexivity.
  - unfold rebased_inits, rebased_array. change (last_val DT_INIT_ARRAY bound_dyns) with (Some 3112). split; [done|]. split; [reflexivity|].
    intros [|i] x Hx; [by injection Hx as <-|done].
  - intros x Hx _. apply bound_own_in. cbn in Hx.
    repeat (apply elem_of_cons in Hx as [->|Hx]; [by (left + right)|]). by apply elem_of_nil in Hx.
  - apply apart_check. apply (bool_decide_unpack _). by vm_compute.
Qed.

Lemma bound_resolvable b x : x ∈ bound_dynrel ++ bound_pltrel ->
  @resolvable (x86_64 0) bound_libs linked_pre linked_own b x.
Proof.
  intros Hx. cbn in Hx. repeat (apply elem_of_cons in Hx as [->|Hx]; [constructor; [by eexists| |done]|]);
    [| |by apply elem_of_nil in Hx].
  - done.
  - intros _ b' s Hd. vm_compute in Hd. injection Hd as <- <-. by split.
Qed.

Lemma bound_entries :
  @linkable_entries (x86_64 0) (loadable bound_phdrs) bound_libs linked_pre linked_own bound_dynrel bound_pltrel bound_relative
    0 4096.
Proof.
  constructor.
  - constructor; [|constructor]. by split.
  - intros b _ _. split; (constructor; [|constructor]).
    + apply deo_symbol; [by left|]. apply bound_resolvable. by left.
    + split; [done|]. apply bound_resolvable. right. by left.
  - intros x Hx _. exists (mk_phdr PT_LOAD 6 0 0 0 3200 3200 4096). split; [by left|]. cbn in Hx.
    repeat (apply elem_of_cons in Hx as [->|Hx]; [by split|]). by apply elem_of_nil in Hx.
  - unfold entries_apart. cbn. repeat (constructor; [repeat (constructor; [cbn; lia|]); constructor|]). constructor.
Qed.

Lemma bound_avoids : MmapAvoids (@Libc.MmapImpl (demo_kernel bound_elf)) (bound_libs ≫= fun l => gnu_ranges (lib_table l) (lib_syms l)).
Proof.
  apply libc_avoids. constructor. intros w addr len prot flags fd off r Hf (Hp & _)%demo_kernel_inv. rewrite Hp, Hf.
  assert (Hall : Forall (fun r : Z * Z => r.1 + r.2 <= 65536) (bound_libs ≫= fun l => gnu_ranges (lib_table l) (lib_syms l)))
    by (apply (bool_decide_unpack _); by vm_compute).
  eapply Forall_impl; [exact Hall|]. intros q Hq. by right.
Qed.

Lemma bound_headers_with (Q : list ElfPhdr -> list Dyn -> Prop) :
  (forall S, mk_phdr PT_LOAD 6 0 0 0 3200 3200 4096 ∈ S -> Q S bound_dyns) ->
  headers_ok Q bound_elf 0 4096 (first_segs 0 bound_phdrs) bound_phdrs.
Proof.
  intros HQ. apply (one_segment_headers _ _ _ bound_dyns); try done.
  - cbn [dyn_array bound_dyns]. split_and!; try (by vm_compute). exists (mk_dyn DT_NULL 0). by vm_compute.
  - repeat constructor; intros _; done.
  - exact bound_wf.
Qed.

Lemma bound_pre_range name v : linked_pre name = Some v -> 0 <= v < U64_LIM.
Proof. unfold linked_pre. case_bool_decide; [|done]. by intros [= <-]. Qed.

Lemma load_and_relocate_links_witness :
  exists c l' w1 w',
    @load_dylib dev_config (x86_64 0) (@Libc.MmapImpl (demo_kernel bound_elf)) demo_alloc ElfFile bound_object
      Loader_new (mk_file (bytes_of "bound") 3) (Some false) bound_world = (Ok (mk_dylib c, l'), w1) /\
    @link_run dev_config (x86_64 0) demo_native bound_elf bound_libs linked_pre linked_own bound_dynrel bound_pltrel
      bound_relative bound_relative (Some 300) bound_scope demo_pre_find bound_phdrs demo_symbol_memory c w1 w'.
Proof.
  destruct (@load_and_relocate_links dev_config (x86_64 0) _ demo_native (@Libc.MmapImpl (demo_kernel bound_elf))
    (demo_file bound_elf) _ 65536 (2 ^ 47) _ demo_alloc ElfFile bound_object (mk_file (bytes_of "bound") 3) bound_elf
    bound_serves ltac:(intros fd j b _ Hx; unfold demo_file; by rewrite Nat2Z.id, Hx) bound_libs linked_pre linked_own
    bound_dynrel bound_pltrel bound_relative bound_relative (Some 300) Loader_new (Some false) bound_scope demo_pre_find
    (fun a n => [EvMprotect a n PROT_READ true]) bound_world one_segment_ehdr bound_phdrs
    (mk_param None 4096 3 MAP_PRIVATE (mk_range 3200 0)) 0)
    as (c & l' & w1 & w' & Hload & _ & Hrel).
  - reflexivity.
  - intros w. by eexists.
  - exact bound_headers.
  - by apply one_segment_image_wf; [|exact bound_length].
  - vm_compute. reflexivity.
  - discriminate.
  - discriminate.
  - apply bound_headers_with. exact bound_library.
  - apply Exists_cons_tl, Exists_cons_tl. by apply Exists_cons_hd.
  - by apply one_segment_table.
  - exact bound_entries.
  - discriminate.
  - intros a n v. reflexivity.
  - reflexivity.
  - constructor; [apply demo_library_in|constructor].
  - exact bound_avoids.
  - done.
  - exact bound_pre_range.
  - intros f v args. by eexists.
  - exists c, l', w1, w'. split; [exact Hload|exact Hrel].
Defined.
