(* ===== verification/Exports.v ===== *)
(** * Exports: what a library that was loaded exports

    The symbols of a library, from its file to [RelocatedDylib::get]: a hash table
    that is well formed in the file is one in memory, so that the library resolves
    its own names and can be in the scope of the next. *)

From S2P Require Import Prelude Machine Arch StrTab Version Mmap Segment Dynamic Symbol Object UserData Loader Image Core.
From S2P Require Import Relocation Format Complete Linked Lazy Whole Run LinkedRun.
#[local] Open Scope Z_scope.

(** ** The hash table in the file and in memory *)

Definition move_hash (b : Z) (ht : ElfGnuHash) : ElfGnuHash :=
  mk_gnu_hash (header ht) (b + blooms ht) (b + buckets ht) (b + chains ht).

(** The header is read the same where the image was moved, and the tables after it
    move along. *)
Lemma parse_moved m m' b h ht :
  parse m h = Ok ht -> (forall i, 0 <= i < 16 -> is_Some (m !! (h + i)) -> m' !! (b + h + i) = m !! (h + i)) ->
  0 <= b -> 0 <= h -> 0 <= blooms ht -> 0 <= nbloom (header ht) -> 0 <= nbucket (header ht) ->
  h + 16 + 8 * nbloom (header ht) + 4 * nbucket (header ht) + b < U64_LIM ->
  parse m' (b + h) = Ok (move_hash b ht).
Proof.
  unfold parse. intros Hp Hm Hb Hh Hbl Hnl Hnb Hend. do 4 inv_bind Hp. injection Hp as <-.
  cbn [header nbucket symbias nbloom nshift blooms] in *.
  assert (Hread : forall k x, 0 <= k <= 12 -> read_u32 m (h + k) = Ok x -> read_u32 m' (b + h + k) = Ok x).
  { intros k x Hk Hx. rewrite <- Hx. unfold read_u32, load_le. rewrite (load_bytes_shift m' m (b + h + k) (h + k)); [done|].
    intros i Hi. rewrite <- !Z.add_assoc, (Z.add_assoc b h). apply Hm; [lia|].
    rewrite Z.add_assoc. apply (load_le_inv m (h + k) 4 x Hx). lia. }
  rewrite <- (Z.add_0_r h) in Ha. apply Hread in Ha; [|lia]. rewrite Z.add_0_r in Ha. rewrite Ha, bind_Ok.
  rewrite (Hread 4 a0), bind_Ok by (done || lia). rewrite (Hread 8 a1), bind_Ok by (done || lia).
  rewrite (Hread 12 a2), bind_Ok by (done || lia). unfold move_hash. cbn [header blooms buckets chains].
  rewrite (padd_small h 16), (padd_small (b + h) 16) by lia.
  rewrite (padd_small (h + 16)), (padd_small (b + h + 16)) by lia.
  rewrite (padd_small (h + 16 + a1 * 8)), (padd_small (b + h + 16 + a1 * 8)) by lia. f_equal. f_equal; lia.
Qed.

Section exports.
Context `{Config} (data : bytes) (A : list ElfPhdr).

(** The library exports [syms]: its symbol table, at link addresses, is [st]. *)
Record exports (lo len : Z) (ds : list Dyn) (st : SymbolTable) (syms : list gsym) : Prop := {
  ex_tables : symtab st = default 0 (last_val DT_SYMTAB ds) /\ strtab st = mk_strtab (default 0 (last_val DT_STRTAB ds)) /\
    version st = None;
  ex_hash : exists h, last_val DT_GNU_HASH ds = Some h /\ lo <= h /\
    h + 16 + 8 * nbloom (header (hashtab st)) + 4 * nbucket (header (hashtab st)) <= lo + len /\
    parse (link_image data A) h = Ok (hashtab st);
  ex_table : gnu_table (link_image data A) st syms;
  ex_ranges : ranges_in lo (lo + len) (gnu_ranges st syms);
  ex_mapped : forall a, covered (gnu_ranges st syms) a -> is_Some (link_image data A !! a);
  ex_typed : forall i s, syms !! i = Some s -> 0 <= sym_st_info (gs_sym s) < U8_LIM;
}.

(** The symbol table of a handle is the one of the file, moved to the load base. *)
Lemma handle_exports m segs a ds c st syms :
  segments_ok segs -> Forall (shows m (base segs) data) A ->
  Forall (fun q => load_ok q /\ file_ok data q /\ seg_wf segs q) A ->
  handle_dynamic data m segs A a ds c -> exports (seg_offset segs) (seg_len segs) ds st syms ->
  symbols (inner (c_core c)) = Some (move_table (base segs) st) /\
  library_in m (mk_library (base segs) (move_table (base segs) st) syms).
Proof.
  intros Hs Hsh HA Hhd [(Hsym & Hstr & Hver) (h & Hh & Hh0 & Hend & Hpar) Htab Hr Hmap Hty].
  pose proof (base_ok segs Hs) as Hb. pose proof Hs as ([? ?] & ? & ?).
  apply (ranges_in_lower _ 0) in Hr; [|lia].
  assert (HA' : Forall (fun q => load_ok q /\ file_ok data q) A) by (eapply Forall_impl; [exact HA|]; naive_solver).
  pose proof (gt_placed _ _ _ Htab) as [Pn Pl _ _ _ _].
  split.
  - destruct (hd_symbols _ _ _ _ _ _ _ Hhd) as (st' & -> & Hstr' & Hsym' & Hver' & Hpar'). specialize (Hpar' h Hh).
    assert (Hb0 : (blooms (hashtab st), 8 * nbloom (header (hashtab st))) ∈ gnu_ranges st syms) by (unfold gnu_ranges; set_solver).
    pose proof (ranges_in_elem _ _ _ _ Hr Hb0) as Rb. cbn [fst snd] in Rb.
    rewrite Z.add_comm, (parse_moved (link_image data A) m (base segs) h (hashtab st) Hpar) in Hpar'; try lia.
    + f_equal. destruct st' as [ht' sy' sr' v'], st as [ht sy sr v]. cbn in *. subst. injection Hpar' as <-.
      unfold move_table, move_hash. cbn. f_equal; [lia|f_equal; lia].
    + intros i Hi Hx. rewrite <- Z.add_assoc. by apply link_image_shows.
  - constructor; cbn [lib_table lib_syms]; [|done|].
    + apply (gnu_table_moved (base segs) 0 (seg_offset segs + seg_len segs) (link_image data A)); try done; [lia..|].
      by apply moved_image.
    + exists (base segs + (seg_offset segs + seg_len segs)). split; [lia|].
      unfold ranges_in, gnu_ranges in *. cbn [move_table hashtab symtab header blooms buckets chains].
      rewrite !Forall_app in Hr |- *. destruct Hr as [Hr1 Hr2]. split.
      * rewrite !Forall_cons in Hr1 |- *. cbn [fst snd] in *. destruct Hr1 as (? & ? & ? & ? & _). split_and!; [lia..|constructor].
      * rewrite !Forall_fmap in Hr2 |- *. eapply Forall_impl; [exact Hr2|]. intros s Hx. unfold compose, str_range in *.
        cbn [move_table strtab strtab_data fst snd] in *. lia.
Qed.
End exports.

(** ** From the file to [get] *)

Lemma library_of_weaken `{Config} `{Mmap} data (Q Q' : list ElfPhdr -> list Dyn -> Prop) name lazy init ehdr ps m c :
  (forall S ds, Q S ds -> Q' S ds) -> library_of data Q name lazy init ehdr ps m c ->
  library_of data Q' name lazy init ehdr ps m c.
Proof.
  intros HQ [? ? ? ? ? ? ? ? (p & ds & Hp & Hds & (S & HS & HQS) & Hrest)]. constructor; try done.
  exists p, ds. split; [done|]. split; [done|]. split; [|done]. exists S. split; [done|by apply HQ].
Qed.

Section run.
Context `{Config} `{Arch} `{!ArchOk _} `{Native} `{Mm : Mmap} (file : Z -> Z -> Z) `{!MmapLaws Mm file}.
Context (room limit : Z) `{!MmapGrants Mm room limit} `{AA : ArcAlloc}.
Context `{EO : ElfObject T} (o : T) (data : bytes) `{!Serves o data}.
Hypothesis Hfile : forall fd j b, as_fd o = Some fd -> data !! j = Some b -> file fd (Z.of_nat j) = b.
Context (libs : list library) (pre : bytes -> option Z) (own : Z -> ElfSymbol * bytes).
Context (D P R I : list ElfRela) (init : option Z) (st : SymbolTable) (syms : list gsym).

(** A library that can be linked, exports [syms], and whose relocation leaves its symbol
    table alone. *)
Record exporting_file (lazy : option bool) (lo len : Z) (ps S : list ElfPhdr) (ds : list Dyn) : Prop := {
  ef_linked : linked_file data own D P R I init lazy lo len ps S ds;
  ef_exports : exports data (loadable ps) lo len ds st syms;
  ef_apart : forall x r, x ∈ R ++ D ++ P -> stores x -> r ∈ gnu_ranges st syms ->
    r_offset x + 8 <= r.1 \/ r.1 + r.2 <= r_offset x;
}.

(** The library as an element of a scope. *)
Definition loaded (c : ElfCommonPart) : library := mk_library (core_base (c_core c)) (move_table (core_base (c_core c)) st) syms.

(** The ranges of the moved table are the ranges of the file's. *)
Lemma gnu_ranges_move b r : r ∈ gnu_ranges (move_table b st) syms -> (r.1 - b, r.2) ∈ gnu_ranges st syms.
Proof.
  unfold gnu_ranges. cbn [move_table hashtab symtab header blooms buckets chains]. rewrite !elem_of_app.
  intros [Hr|(s & -> & Hs)%list_elem_of_fmap].
  - left. rewrite !elem_of_cons in Hr |- *. destruct Hr as [->|[->|[->|[->|[]%elem_of_nil]]]]; cbn [fst snd];
      [left|right; left|right; right; left|right; right; right; left]; f_equal; lia.
  - right. apply list_elem_of_fmap. exists s. split; [|done]. unfold str_range. cbn [move_table strtab strtab_data fst snd]. f_equal; lia.
Qed.

(** C2: a library that was loaded resolves its names.  A well-formed library with a hash
    table is loaded and relocated; from when its first initialiser starts, and for as
    long as its tables stay as they are, [get] answers a name with the address of the
    first symbol the file exports under it, load base plus value, and knows no other
    name; and its handle provides a library that the next one can be linked against. *)
Theorem loaded_library_exports l lazy scope pre_find es w ehdr ps param lo :
  ld_hook l = None ->
  (forall w, exists w', obj_drop o w = (Ok tt, w') /\ mem w' = mem w) ->
  file_headers data ehdr ps -> image_wf data ps ->
  create_segments ps true = Ok (param, lo) -> lo <= room -> pm_len param <= limit ->
  headers_ok (exporting_file lazy lo (pm_len param) ps) data lo (pm_len param) (first_segs lo ps) ps ->
  Exists (fun p => p_type p = PT_DYNAMIC) ps -> table_mapped ehdr ps ->
  linkable_entries (loadable ps) libs pre own D P R lo (pm_len param) ->
  (forall p, last_of PT_GNU_RELRO ps = Some p ->
     lo <= p_vaddr p /\ 0 <= p_memsz p /\ p_vaddr p + p_memsz p < lo + pm_len param) -> read_only_logs es ->
  map_outcome helper_of scope = Ok (lib_helper <$> libs) -> Forall (library_in (mem w)) libs ->
  MmapAvoids Mm (libs ≫= fun l => gnu_ranges (lib_table l) (lib_syms l)) ->
  (forall name w', pre_find name w' = (Ok (pre name), w')) -> (forall name v, pre name = Some v -> 0 <= v < U64_LIM) ->
  (forall v f args, is_Some (native_call v f args)) ->
  exists c l' w1 wt w' unknown,
    load_dylib l o lazy w = (Ok (mk_dylib c, l'), w1) /\
    relocate_tables c (lib_helper <$> libs) pre_find unknown None w1 = (Ok (c_core c), wt) /\
    load_and_relocate o l lazy scope pre_find w = (Ok (mk_relocated_dylib (c_core c), l'), w') /\
    provides (c_core c) (loaded c) /\
    forall v, moved 0 (gnu_ranges (lib_table (loaded c)) syms) (mem wt) (mem v) ->
      library_in (mem v) (loaded c) /\
      forall name, (forall s, exported name (loaded c) = Some s ->
          st_type s <> STT_GNU_IFUNC /\ 0 <= core_base (c_core c) + st_value s < U64_LIM) ->
        get (mk_relocated_dylib (c_core c)) name v =
          (Ok ((fun s => core_base (c_core c) + st_value s) <$> exported name (loaded c)), v).
Proof.
  intros Hhook Hdrop Hf Hwf Hc Hroom Hlim Hok Hdyn Htab Hent Hrelro Hes Hscope Hlibs Hav Hpre Hpr Hnat.
  destruct (load_dylib_runs file room limit o data Hfile (exporting_file lazy lo (pm_len param) ps) l lazy
    w ehdr ps param lo) as (c & l' & w1 & Hload & Hlib & Hso & Hsl & Hs & Hal & Harc & Hout & Hap & _); try done.
  { by intros S ds [[[] _] _ _]. }
  assert (Hlib' := library_of_weaken data _ _ _ _ _ _ _ _ _ (fun S ds HQ => ef_linked _ _ _ _ _ _ HQ) Hlib).
  destruct (library_links data libs pre own D P R I init lazy c scope pre_find es (mem w) w1 ps lo param _ _ _ (serves_size (o := o)) Hwf Hc Hso Hsl Hs Hal Hlib' Harc Hout (placed_avoids Mm _ _ _ _ Hap) Hlibs
    Hscope Hpre Hpr Hent Hrelro Hes) as [w' [Hrun (unknown & wt & Hwt & _ & Hrest & _) _ _]]; [done|].
  exists c, l', w1, wt, w', unknown. split; [done|]. split; [done|]. split.
  { unfold load_and_relocate. rewrite (bind_run _ _ _ _ _ Hload). by rewrite (bind_run _ _ _ _ _ Hrun). }
  destruct (lb_dynamic _ _ _ _ _ _ _ _ _ Hlib) as (p & ds & _ & _ & (S & HS & HQ) & Hhd & _).
  destruct (library_segments data _ _ _ _ _ _ _ _ _ _ (serves_size (o := o)) Hwf Hc Hlib Hso Hsl) as [Hsh HA].
  pose proof (ef_exports _ _ _ _ _ _ HQ) as Hex. rewrite <- Hso, <- Hsl in Hex.
  destruct (handle_exports data (loadable ps) (mem w1) _ _ ds c st syms Hs Hsh HA Hhd Hex) as [Hst Hin].
  assert (Hpv : provides (c_core c) (loaded c)) by done. split; [done|]. intros v Hv.
  assert (Hinv : library_in (mem v) (loaded c)).
  { apply (library_in_moved (mem wt)); [|done]. apply (library_in_moved (mem w1)); [done|].
    intros a (r & Hr & Ha)%Exists_exists. rewrite Z.add_0_l. apply Hrest. intros x Hx Hstx.
    apply gnu_ranges_move in Hr. destruct (ef_apart _ _ _ _ _ _ HQ x _ Hx Hstx Hr) as [?|?]; unfold slot; cbn [fst snd] in *;
      unfold core_base in *; lia. }
  split; [done|]. intros name Hn. by apply get_exported.
Qed.
End run.

(** ** Example: the library of [LinkedRun.v] *)

(** Two memories agree on the ranges. *)
Definition agree (rs : list (Z * Z)) (m m' : memory) : Prop :=
  Forall (fun r => Forall (fun a => is_Some (m !! a) /\ m !! a = m' !! a) (seqZ r.1 r.2)) rs.

Lemma agree_covered rs m m' a : agree rs m m' -> covered rs a -> is_Some (m !! a) /\ m !! a = m' !! a.
Proof.
  intros Hag (r & Hr & Ha)%Exists_exists. unfold agree in Hag. rewrite Forall_forall in Hag. specialize (Hag r Hr).
  rewrite Forall_forall in Hag. apply Hag. apply elem_of_seqZ. lia.
Qed.

Lemma bound_agree : agree (gnu_ranges demo_symtab demo_syms) (link_image bound_elf (loadable bound_phdrs)) demo_symbol_memory.
Proof. apply (bool_decide_unpack _). by vm_compute. Qed.

Lemma bound_exports : exports bound_elf (loadable bound_phdrs) 0 4096 bound_dyns demo_symtab demo_syms.
Proof.
  destruct (demo_library_in 0) as [Ht Hty _]. constructor.
  - done.
  - exists 1000. split_and!; [reflexivity|done|by vm_compute|by vm_compute].
  - rewrite <- (move_table_0 demo_symtab). apply (gnu_table_moved 0 0 9000 demo_symbol_memory); [done..|exact demo_ranges|exact Ht|].
    intros a Ha. by apply (agree_covered _ _ _ _ bound_agree).
  - apply (bool_decide_unpack _). by vm_compute.
  - intros a Ha. by apply (agree_covered _ _ _ _ bound_agree).
  - exact Hty.
Qed.

Lemma bound_exporting S :
  mk_phdr PT_LOAD 6 0 0 0 3200 3200 4096 ∈ S ->
  @exporting_file dev_config (x86_64 0) bound_elf linked_own bound_dynrel bound_pltrel bound_relative bound_relative (Some 300)
    demo_symtab demo_syms (Some false) 0 4096 bound_phdrs S bound_dyns.
Proof.
  intros HS. constructor; [by apply bound_library|exact bound_exports|].
  apply apart_check. apply (bool_decide_unpack _). by vm_compute.
Qed.

(** Where the library goes. *)
Lemma bound_base :
  match @load_dylib dev_config (x86_64 0) (@Libc.MmapImpl (demo_kernel bound_elf)) demo_alloc ElfFile bound_object
      Loader_new (mk_file (bytes_of "bound") 3) (Some false) bound_world with
  | (Ok (d, _), _) => core_base (c_core (dylib_common d)) = 65536
  | _ => False
  end.
Proof. vm_compute. reflexivity. Qed.

Lemma bound_alpha c : exported (bytes_of "alpha") (loaded demo_symtab demo_syms c) = Some (mk_symbol 7 18 0 7 4660 8).
Proof. reflexivity. Qed.

Lemma loaded_library_exports_witness :
  exists c l' w1 wt,
    @load_dylib dev_config (x86_64 0) (@Libc.MmapImpl (demo_kernel bound_elf)) demo_alloc ElfFile bound_object
      Loader_new (mk_file (bytes_of "bound") 3) (Some false) bound_world = (Ok (mk_dylib c, l'), w1) /\
    library_in (mem wt) (loaded demo_symtab demo_syms c) /\
    @get dev_config demo_native (mk_relocated_dylib (c_core c)) (bytes_of "alpha") wt = (Ok (Some (65536 + 4660)), wt).
Proof.
  destruct (@loaded_library_exports dev_config (x86_64 0) _ demo_native (@Libc.MmapImpl (demo_kernel bound_elf))
    (demo_file bound_elf) _ 65536 (2 ^ 47) _ demo_alloc ElfFile bound_object (mk_file (bytes_of "bound") 3) bound_elf
    bound_serves ltac:(intros fd j b _ Hx; unfold demo_file; by rewrite Nat2Z.id, Hx) bound_libs linked_pre linked_own
    bound_dynrel bound_pltrel bound_relative bound_relative (Some 300) demo_symtab demo_syms Loader_new (Some false) bound_scope demo_pre_find
    (fun a n => [EvMprotect a n PROT_READ true]) bound_world one_segment_ehdr bound_phdrs
    (mk_param None 4096 3 MAP_PRIVATE (mk_range 3200 0)) 0)
    as (c & l' & w1 & wt & w' & unknown & Hload & _ & _ & _ & Hget).
  - reflexivity.
  - intros w. by eexists.
  - exact bound_headers.
  - by apply one_segment_image_wf; [|exact bound_length].
  - vm_compute. reflexivity.
  - discriminate.
  - discriminate.
  - apply bound_headers_with. exact bound_exporting.
  - apply Exists_cons_tl, Exists_cons_tl. by apply Exists_cons_hd.
  - by apply one_segment_table.
  - exact bound_entries.
  - discriminate.
  - intros a n v. reflexivity.
  - reflexivity.
  - constructor; [apply demo_library_in|constructor].
  - exact bound_avoids.
  - done.
  - exact bound_pre_range.
  - intros f v args. by eexists.
  - exists c, l', w1, wt. split; [exact Hload|]. destruct (Hget wt) as [Hin Hnames]; [intros a _; by rewrite Z.add_0_l|].
    split; [exact Hin|].
    assert (Hb : core_base (c_core c) = 65536) by (pose proof bound_base as Hb; by rewrite Hload in Hb).
    rewrite (Hnames (bytes_of "alpha")); rewrite bound_alpha, ?Hb; [reflexivity|].
    intros s [= <-]. split; [discriminate|split; [discriminate|reflexivity]].
Defined.
