(* ===== verification/Chain.v ===== *)
(** * Chain: several libraries in one program

    Loading, relocating, using and dropping a library while others are in memory: what
    each of the steps does to its library, and that it leaves the others alone.  A
    program that loads some libraries and links one against the other is a sequence of
    these steps. *)

From S2P Require Import Prelude Machine Arch StrTab Version Mmap Trace Segment Dynamic Symbol Object UserData Loader Image Core.
From S2P Require Import Relocation Format Quiet Complete Linked Lazy Whole Run LinkedRun Exports.
#[local] Open Scope Z_scope.

(** ** Memory that stays the same *)

Definition same_range (m m' : memory) (p n : Z) : Prop := forall a, p <= a < p + n -> m' !! a = m !! a.

(** What changes only [p, p + n) keeps a range that is apart. *)
Lemma same_outside_range m m' p n q k :
  same_outside m m' p n -> p + n <= q \/ q + k <= p -> same_range m m' q k.
Proof. intros Ho Hap a Ha. apply Ho. lia. Qed.

Lemma load_le_same m m' p n a k :
  same_range m m' p n -> p <= a -> a + Z.of_nat k <= p + n -> load_le m' a k = load_le m a k.
Proof. intros Hs H1 H2. unfold load_le. rewrite (load_bytes_shift m' m a a); [done|]. intros i Hi. apply Hs. lia. Qed.

Lemma parse_same m m' p n a :
  same_range m m' p n -> p <= a -> a + 16 <= p + n -> parse m' a = parse m a.
Proof.
  intros Hs H1 H2. unfold parse, read_u32. by rewrite !(load_le_same m m' p n) by (done || lia).
Qed.

(** A range that is in use, and one that is not. *)
Lemma mapped_free_apart m p n q k :
  mapped_range m p n -> free_range m q k -> 0 < n -> 0 < k -> q + k <= p \/ p + n <= q.
Proof.
  intros Hm Hf Hn Hk. destruct (decide (q + k <= p)) as [|H1]; [by left|]. destruct (decide (p + n <= q)) as [|H2]; [by right|].
  exfalso. destruct (Hm (Z.max p q)) as [x Hx]; [lia|]. by rewrite (Hf (Z.max p q)) in Hx by lia.
Qed.

(** How much memory is in use. *)
Lemma size_outside m m' p n : same_outside m m' p n -> 0 <= n -> Z.of_nat (size m') <= Z.of_nat (size m) + n.
Proof.
  intros Ho Hn.
  assert (Hsub : dom m' ⊆ dom m ∪ list_to_set (seqZ p n)).
  { intros a Ha. apply elem_of_union. destruct (decide (p <= a < p + n)) as [Hin|Hout].
    - right. apply elem_of_list_to_set, elem_of_seqZ. lia.
    - left. apply elem_of_dom. apply elem_of_dom in Ha. by rewrite <- (Ho a). }
  apply subseteq_size in Hsub. rewrite size_union_alt in Hsub.
  pose proof (subseteq_size (list_to_set (seqZ p n) ∖ dom m) (list_to_set (C := gset Z) (seqZ p n)) ltac:(set_solver)) as H1.
  rewrite size_list_to_set, length_seqZ in H1 by apply NoDup_seqZ. rewrite !size_dom in Hsub. lia.
Qed.

(** ** A library file and its handle *)

(** What there is to know of a file: its bytes and headers, the mapping they ask for,
    the entries of its tables, its functions to run first and last, the symbols it
    refers to and those it exports. *)
Record lib_file := mk_lib_file {
  lf_data : bytes;
  lf_ehdr : ElfHeader;
  lf_phdrs : list ElfPhdr;
  lf_param : MmapParam;
  lf_lo : Z;
  lf_relative : list ElfRela;
  lf_dynrel : list ElfRela;
  lf_pltrel : list ElfRela;
  lf_init : option Z;
  lf_inits : list ElfRela;
  lf_fini : option Z;
  lf_finis : list ElfRela;
  lf_own : Z -> ElfSymbol * bytes;
  lf_symtab : SymbolTable;
  lf_syms : list gsym;
}.

Definition lf_entries (L : lib_file) : list ElfRela := lf_relative L ++ lf_dynrel L ++ lf_pltrel L.

(** The library as an element of a scope, once it is loaded. *)
Definition lib_of (L : lib_file) (c : ElfCommonPart) : library := loaded (lf_symtab L) (lf_syms L) c.

Notation image_of c := (segments (inner (c_core c))).
Notation image_start c := (memory_ptr (segments (inner (c_core c)))).
Notation image_len c := (seg_len (segments (inner (c_core c)))).

(** The handle's image has the size that the file asks for. *)
Definition image_for (L : lib_file) (c : ElfCommonPart) : Prop :=
  segments_ok (image_of c) /\ seg_offset (image_of c) = lf_lo L /\ image_len c = pm_len (lf_param L).

Section files.
Context `{Config} `{Arch} `{!ArchOk _} `{Mm : Mmap} (room limit : Z) (lazy : option bool).

(** Its dynamic section: it can be linked and exports its symbols, and its functions
    are where it says. *)
Record dynamic_of_file (L : lib_file) (S : list ElfPhdr) (ds : list Dyn) : Prop := {
  df_exporting : exporting_file (lf_data L) (lf_own L) (lf_dynrel L) (lf_pltrel L) (lf_relative L) (lf_inits L) (lf_init L)
    (lf_symtab L) (lf_syms L) lazy (lf_lo L) (pm_len (lf_param L)) (lf_phdrs L) S ds;
  df_fini : last_val DT_FINI ds = lf_fini L;
  df_finis : rebased_array DT_FINI_ARRAY DT_FINI_ARRAYSZ (lf_relative L) (lf_finis L) ds;
}.

(** A well-formed file. *)
Record good_file (L : lib_file) : Prop := {
  gf_size : Z.of_nat (length (lf_data L)) < 2 ^ 63;
  gf_headers : file_headers (lf_data L) (lf_ehdr L) (lf_phdrs L);
  gf_image : image_wf (lf_data L) (lf_phdrs L);
  gf_param : create_segments (lf_phdrs L) true = Ok (lf_param L, lf_lo L);
  gf_room : lf_lo L <= room;
  gf_limit : pm_len (lf_param L) <= limit;
  gf_dynamic : headers_ok (dynamic_of_file L) (lf_data L) (lf_lo L) (pm_len (lf_param L)) (first_segs (lf_lo L) (lf_phdrs L))
    (lf_phdrs L);
  gf_has_dynamic : Exists (fun p => p_type p = PT_DYNAMIC) (lf_phdrs L);
  gf_table : table_mapped (lf_ehdr L) (lf_phdrs L);
  gf_relro : forall p, last_of PT_GNU_RELRO (lf_phdrs L) = Some p ->
    lf_lo L <= p_vaddr p /\ 0 <= p_memsz p /\ p_vaddr p + p_memsz p < lf_lo L + pm_len (lf_param L);
}.

Lemma good_file_len L : good_file L -> 0 <= pm_len (lf_param L).
Proof.
  intros Hg. pose proof (segments_inside_file (lf_data L) (lf_phdrs L) _ _ (mk_segments 0 (lf_lo L) (pm_len (lf_param L)) munmap)
    (gf_size L Hg) (gf_image L Hg) (gf_param L Hg) eq_refl eq_refl) as Hin.
  destruct (gf_image L Hg) as [_ Hex _ _]. apply Exists_exists in Hex as (q & Hq & Hld). rewrite Forall_forall in Hin.
  destruct (Hin q Hq Hld) as [[(? & ? & ? & _) _ _ [? ?]] _]. cbn [seg_offset seg_len] in *.
  pose proof (page_down_facts (p_vaddr q)) as F1. pose proof (page_up_facts (p_vaddr q + p_memsz q)) as F2.
  fold (seg_lo q) in F1. fold (seg_hi q) in F2. lia.
Qed.

(** The handle [c] of the file once it is loaded, and not relocated yet, in memory [m]. *)
Record ready (L : lib_file) (c : ElfCommonPart) (m : memory) : Prop := {
  rd_library : library_of (lf_data L) (dynamic_of_file L) (cc_name (inner (c_core c))) lazy (init_param (c_init c))
    (lf_ehdr L) (lf_phdrs L) m c;
  rd_offset : seg_offset (image_of c) = lf_lo L;
  rd_len : image_len c = pm_len (lf_param L);
  rd_segments : segments_ok (image_of c);
  rd_aligned : image_start c mod 4096 = 0;
  rd_mapped : mapped_range m (image_start c) (image_len c);
  rd_munmap : seg_munmap (image_of c) = munmap;
}.

Lemma ready_image L c m : ready L c m -> image_for L c.
Proof. by intros []. Qed.

Lemma dynamic_exports L S ds : dynamic_of_file L S ds ->
  exports (lf_data L) (loadable (lf_phdrs L)) (lf_lo L) (pm_len (lf_param L)) ds (lf_symtab L) (lf_syms L).
Proof. intros [[? Hex _] _ _]. exact Hex. Qed.

(** It is ready as long as its image stays as it is. *)
Lemma ready_same L c m m' :
  good_file L -> ready L c m -> same_range m m' (image_start c) (image_len c) -> ready L c m'.
Proof.
  intros Hg [Hlib Hso Hsl Hs Hal Hmap Hmu] Hsame.
  assert (Hmap' : mapped_range m' (image_start c) (image_len c)) by (intros a Ha; rewrite Hsame by done; by apply Hmap).
  constructor; try done. clear Hmap Hmap'.
  pose proof (segments_inside_file (lf_data L) (lf_phdrs L) _ _ (image_of c) (gf_size L Hg) (gf_image L Hg) (gf_param L Hg) Hso Hsl) as Hin.
  pose proof Hs as ([? ?] & ? & ?). pose proof (base_ok _ Hs) as Hb.
  destruct Hlib as [Ln Le Li Lp Lt Lr Lint Lu (p & ds & Hp & Hds & (S & HS & HQ) & Hhd & Hrest)]. constructor; try done.
  - intros q Hq Hld i Hi. rewrite Forall_forall in Hin. destruct (Hin q Hq Hld) as [[(? & ? & ? & _) _ _ [? ?]] _].
    pose proof (page_down_facts (p_vaddr q)) as F1. pose proof (page_up_facts (p_vaddr q + p_memsz q)) as F2.
    fold (seg_lo q) in F1. fold (seg_hi q) in F2. rewrite Hsame by lia. by apply Li.
  - unfold read_slice in *. rewrite <- Lp. destruct Lt as [Lt1 Lt2]. apply read_phdrs_shift. intros i Hi. apply Hsame.
    unfold PHDR_SIZE in *. lia.
  - exists p, ds. split; [done|]. split; [done|]. split; [by exists S|]. split; [|done]. destruct Hhd as [? ? Hsy ? ? ? ? ? ?].
    constructor; try done. destruct Hsy as (st & ? & ? & ? & ? & Hpar). exists st. do 4 (split; [done|]).
    intros h Hh. rewrite <- (Hpar h Hh). pose proof (dynamic_exports L S ds HQ) as Hex.
    destruct (ex_hash _ _ _ _ _ _ _ Hex) as (h' & Hh' & Hlo & Hend & _). rewrite Hh in Hh'. injection Hh' as <-.
    pose proof (gt_placed _ _ _ (ex_table _ _ _ _ _ _ _ Hex)) as [? ? _ _ _ _].
    apply (parse_same m m' (image_start c) (image_len c)); [done|lia..].
Qed.
End files.

(** ** Loading *)

Section load.
Context `{Config} `{Arch} `{!ArchOk _} `{Mm : Mmap} (file : Z -> Z -> Z) `{!MmapLaws Mm file}.
Context (room limit budget : Z) `{!MmapGrants Mm room limit} `{!MmapFresh Mm budget} `{!MmapQuiet same_arcs Mm}.
Context `{AA : ArcAlloc} `{!ArcFresh AA} (lazy : option bool) `{EO : ElfObject T}.

(** An object that serves the file: its descriptor, if it has one, is the file's. *)
Record serves_file (o : T) (L : lib_file) : Prop := {
  so_serves : Serves o (lf_data L);
  so_file : forall fd j b, as_fd o = Some fd -> lf_data L !! j = Some b -> file fd (Z.of_nat j) = b;
  so_drop : forall w, exists w', obj_drop o w = (Ok tt, w') /\ mem w' = mem w;
  so_read_quiet : ObjectQuiet same_arcs o;
  so_drop_quiet : quiet same_arcs (obj_drop o);
}.

(** What a load leaves behind: the handle, in pages nobody used, and the rest of the
    world as it was. *)
Record load_step (L : lib_file) (o : T) (l : Loader) (w : world) (c : ElfCommonPart) (l' : Loader) (w' : world) : Prop := {
  ls_run : load_dylib l o lazy w = (Ok (mk_dylib c, l'), w');
  ls_ready : ready lazy L c (mem w');
  ls_init : init_param (c_init c) = init_params l;
  ls_free : free_range (mem w) (image_start c) (image_len c);
  ls_outside : same_outside (mem w) (mem w') (image_start c) (image_len c);
  ls_arcs : arcs w' = <[arc_ptr (c_core c) := mk_cell 1 0 false]> (arcs w);
  ls_fresh : arcs w !! arc_ptr (c_core c) = None;
}.

Lemma load_step_runs L o l w :
  good_file room limit lazy L -> serves_file o L -> ld_hook l = None -> Z.of_nat (size (mem w)) <= budget ->
  exists c l' w', load_step L o l w c l' w'.
Proof.
  intros Hg [Hsv Hfile Hdrop Hrq Hdq] Hhook Hsize.
  destruct (load_dylib_runs file room limit o (lf_data L) Hfile (dynamic_of_file lazy L) l lazy w (lf_ehdr L) (lf_phdrs L)
    (lf_param L) (lf_lo L)) as (c & l' & w' & Hrun & Hlib & Hso & Hsl & Hs & Hal & Harc & Hout & Hpl & Hmap); try apply Hg; try done.
  { by intros S ds [[[[] _] _ _] _ _]. }
  assert (Hq : hook_quiet same_arcs (ld_hook l)) by (rewrite Hhook; by intros f).
  destruct (load_dylib_allocates o l lazy w c l' w' Hq Hdq Hrun) as (w1 & Ha1 & Hp & Ha).
  assert (Hip : init_param (c_init c) = init_params l).
  { destruct (lb_dynamic _ _ _ _ _ _ _ _ _ Hlib) as (p & ds & _ & _ & _ & _ & _ & ->). done. }
  exists c, l', w'. constructor; try done.
  - constructor; try done; [|by apply (load_dylib_munmap o l lazy w c l' w')].
    pose proof (lb_name _ _ _ _ _ _ _ _ _ Hlib) as ->. by rewrite Hip.
  - by apply (placed_fresh Mm budget).
  - rewrite Hp, <- Ha1. apply arc_fresh.
Qed.
End load.

(** ** Relocating *)

Section link.
Context `{Config} `{Arch} `{!ArchOk _} `{Nat : Native} `{Mm : Mmap} (file : Z -> Z -> Z) `{!MmapLaws Mm file}.
Context (room limit : Z) `{!MmapGrants Mm room limit} `{AA : ArcAlloc} (lazy : option bool).
Context (pre : bytes -> option Z) (libs : list library).

(** The handle [c] of the file once it is linked against [libs], in memory [m]: it
    exports its symbols, its slots hold the words that the code stores for those of the
    linker, and its functions to run last are in their array. *)
Record linked_lib (L : lib_file) (c : ElfCommonPart) (m : memory) : Prop := {
  kl_provides : provides (c_core c) (lib_of L c);
  kl_segments : segments_ok (image_of c);
  kl_aligned : image_start c mod 4096 = 0;
  kl_offset : seg_offset (image_of c) = lf_lo L;
  kl_len : image_len c = pm_len (lf_param L);
  kl_mapped : mapped_range m (image_start c) (image_len c);
  kl_library : library_in m (lib_of L c);
  kl_inside : Forall (fun r => in_image (image_of c) r.1 r.2) (gnu_ranges (lib_table (lib_of L c)) (lf_syms L));
  kl_words : forall x v, x ∈ lf_entries L -> stored_word libs pre (lf_own L) (base (image_of c)) x = Some v ->
    in_image (image_of c) (slot (base (image_of c)) x) 8 /\ read_u64 m (slot (base (image_of c)) x) = Ok v;
  kl_fini : exists ds, Forall (fun x => r_type x = REL_RELATIVE) (lf_relative L) /\
    rebased_array DT_FINI_ARRAY DT_FINI_ARRAYSZ (lf_relative L) (lf_finis L) ds /\ last_val DT_FINI ds = lf_fini L /\
    cc_fini_fn (inner (c_core c)) = Z.add (base (image_of c)) <$> last_val DT_FINI ds /\
    cc_fini_array_fn (inner (c_core c)) = spec_slice (image_of c) 8 ds DT_FINI_ARRAY DT_FINI_ARRAYSZ;
  kl_scope : lazy_scope (inner (c_core c)) = None;
  kl_munmap : seg_munmap (image_of c) = munmap;
}.

(** It stays linked as long as its image stays as it is. *)
Lemma linked_same L c m m' :
  linked_lib L c m -> same_range m m' (image_start c) (image_len c) -> linked_lib L c m'.
Proof.
  intros [? ? ? ? ? Hmap Hl Hin Hw ? ? ?] Hsame. constructor; try done.
  - intros a Ha. rewrite Hsame by done. by apply Hmap.
  - apply (library_in_moved m); [done|]. intros a (r & Hr & Ha)%Exists_exists. rewrite Z.add_0_l. apply Hsame.
    rewrite Forall_forall in Hin. destruct (Hin r Hr). unfold in_image in *. lia.
  - intros x v Hx Hv. destruct (Hw x v Hx Hv) as [[? ?] <-]. split; [done|].
    apply (load_le_same m m' (image_start c) (image_len c)); [done|lia..].
Qed.

(** The functions to run last. *)
Lemma linked_finis L c m :
  linked_lib L c m -> fn_list m (cc_fini_fn (inner (c_core c))) (cc_fini_array_fn (inner (c_core c))) =
    Ok (init_list (base (image_of c)) (lf_fini L) (lf_finis L)).
Proof.
  intros [_ _ _ _ _ _ _ _ Hw (ds & HR & Harr & Hf & -> & ->) _ _].
  apply (functions_in_memory DT_FINI_ARRAY DT_FINI_ARRAYSZ (image_of c) (lf_relative L)); [done|done|].
  intros x Hx. rewrite Forall_forall in HR. apply Hw; [apply elem_of_app; by left|]. by apply stored_relative, HR.
Qed.

(** What a relocation does. *)
Record link_step (L : lib_file) (c : ElfCommonPart) (scope : list RelocatedDylib) (pre_find : PreFind) (w w' : world) : Prop := {
  lk_run : dylib_easy_relocate (mk_dylib c) scope pre_find w = (Ok (mk_relocated_dylib (c_core c)), w');
  lk_linked : linked_lib L c (mem w');
  lk_arcs : arcs w' = <[arc_ptr (c_core c) := mk_cell 1 0 true]> (arcs w);
  lk_log : exists protect, log w' = log w ++ protect ++
    ((fun f => EvCall f (init_args (c_init c))) <$> init_list (base (image_of c)) (lf_init L) (lf_inits L));
  lk_keeps : forall K, native_keeps K -> (forall m, same_outside (mem w) m (image_start c) (image_len c) -> K m) -> K (mem w');
}.

Lemma link_step_runs L c scope pre_find es w :
  good_file room limit lazy L -> ready lazy L c (mem w) -> arcs w !! arc_ptr (c_core c) = Some (mk_cell 1 0 false) ->
  Forall (range_apart (image_start c) (image_len c)) (libs ≫= fun l => gnu_ranges (lib_table l) (lib_syms l)) ->
  Forall (library_in (mem w)) libs -> map_outcome helper_of scope = Ok (lib_helper <$> libs) ->
  (forall name w', pre_find name w' = (Ok (pre name), w')) -> (forall name v, pre name = Some v -> 0 <= v < U64_LIM) ->
  linkable_entries (loadable (lf_phdrs L)) libs pre (lf_own L) (lf_dynrel L) (lf_pltrel L) (lf_relative L) (lf_lo L)
    (pm_len (lf_param L)) ->
  read_only_logs es -> (forall v f args, is_Some (native_call v f args)) -> native_keeps (linked_lib L c) ->
  exists w', link_step L c scope pre_find w w'.
Proof.
  intros Hg [Hlib Hso Hsl Hs Hal Hmap Hmu] Harc Hap Hlibs Hscope Hpre Hpr Hent Hes Hnat Hkeep.
  assert (Hlib' := library_of_weaken (lf_data L) _ _ _ _ _ _ _ _ _
    (fun S ds HQ => ef_linked _ _ _ _ _ _ _ _ _ _ _ _ _ _ _ (df_exporting _ _ _ _ HQ)) Hlib).
  destruct (library_links (lf_data L) libs pre (lf_own L) (lf_dynrel L) (lf_pltrel L) (lf_relative L) (lf_inits L) (lf_init L)
    lazy c scope pre_find es (mem w) w (lf_phdrs L) (lf_lo L) (lf_param L) _ _ _ (gf_size _ _ _ _ Hg) (gf_image _ _ _ _ Hg)
    (gf_param _ _ _ _ Hg) Hso Hsl Hs Hal Hlib' Harc ltac:(by intros i Hi) Hap Hlibs Hscope Hpre Hpr Hent (gf_relro _ _ _ _ Hg) Hes)
    as [w' [Hrun (unknown & wt & _ & [Hw _ Hout] & Hrest & Hdom & Hk) Hlog Harcs]]; [done|].
  exists w'. constructor; try done.
  - apply Hk; [done|].
    destruct (lb_dynamic _ _ _ _ _ _ _ _ _ Hlib) as (p & ds & _ & _ & (S & HS & HQ) & Hhd & _).
    destruct (library_segments (lf_data L) _ _ _ _ _ _ _ _ _ _ (gf_size _ _ _ _ Hg) (gf_image _ _ _ _ Hg) (gf_param _ _ _ _ Hg)
      Hlib Hso Hsl) as [Hsh HA].
    pose proof (dynamic_exports lazy L S ds HQ) as Hex. rewrite <- Hso, <- Hsl in Hex.
    destruct (handle_exports (lf_data L) (loadable (lf_phdrs L)) (mem w) _ _ ds c _ _ Hs Hsh HA Hhd Hex) as [Hst Hin].
    pose proof (base_ok _ Hs) as Hb. pose proof Hs as ([? ?] & ? & ?).
    assert (Hins : Forall (fun r => in_image (image_of c) r.1 r.2) (gnu_ranges (lib_table (lib_of L c)) (lf_syms L))).
    { apply Forall_forall. intros r Hr. apply gnu_ranges_move in Hr.
      pose proof (ranges_in_elem _ _ _ _ (ex_ranges _ _ _ _ _ _ _ Hex) Hr) as Hrr. unfold in_image, core_base in *. cbn [fst snd] in Hrr. lia. }
    assert (Hslot : forall x, x ∈ lf_entries L -> stores x -> in_image (image_of c) (slot (base (image_of c)) x) 8 /\
        slot_mapped (mem w) (slot (base (image_of c)) x)).
    { intros x Hx Hstx. pose proof (linkable_entries_at _ _ _ _ _ _ _ _ _ Hent (image_of c) Hs Hso Hsl) as Hat. rewrite <- Hso, <- Hsl in Hat.
      destruct (slot_inside (lf_data L) libs pre (lf_own L) (lf_dynrel L) (lf_pltrel L) (lf_relative L) _ w _ Hs Hal Hsh HA Hat x Hx Hstx)
        as (? & ? & ?). by split. }
    constructor; try done.
    + intros a Ha. apply Hdom. by apply Hmap.
    + apply (library_in_moved (mem w)); [done|]. intros a (r & Hr & Ha)%Exists_exists. rewrite Z.add_0_l. apply Hrest.
      intros x Hx Hstx. apply gnu_ranges_move in Hr.
      destruct (ef_apart _ _ _ _ _ _ _ _ _ _ _ _ _ _ _ (df_exporting _ _ _ _ HQ) x _ Hx Hstx Hr) as [?|?];
        unfold slot, core_base in *; cbn [fst snd] in *; lia.
    + intros x v Hx Hv. split; [apply Hslot; [done|]; intros Hn; by rewrite stored_none in Hv|].
      apply word_of_stored in Hv as (u & Hu & ->). by apply Hw.
    + exists ds. pose proof (le_relative _ _ _ _ _ _ _ _ _ Hent) as HR. destruct (hd_fini _ _ _ _ _ _ _ Hhd) as [-> ->].
      destruct HQ as [_ Hf Hfs]. split_and!; try done. eapply Forall_impl; [exact HR|]. naive_solver.
    + by destruct (lb_user _ _ _ _ _ _ _ _ _ Hlib).
  - intros K HK Hm. apply Hk; [done|]. apply Hm. exact Hout.
Qed.
End link.

(** ** Dropping *)

Section drop.
Context `{Config} `{Arch} `{!ArchOk _} `{Nat : Native} `{Mm : Mmap} `{!MmapReleases Mm}.
Context (pre : bytes -> option Z) (libs : list library).

(** What dropping the only handle does: the functions to run last, then the image goes. *)
Record drop_step (L : lib_file) (c : ElfCommonPart) (w w' : world) : Prop := {
  ds_run : drop_core (c_core c) w = (Ok tt, w');
  ds_arcs : arcs w' = delete (arc_ptr (c_core c)) (arcs w);
  ds_log : exists e, (e = EvMunmap (image_start c) (image_len c) true \/ e = EvDealloc (image_start c) (image_len c)) /\
    log w' = log w ++ ((fun f => EvCall f []) <$> init_list (base (image_of c)) (lf_fini L) (lf_finis L)) ++ [e];
  ds_keeps : forall K, native_keeps K -> K (mem w) -> (forall m m', same_outside m m' (image_start c) (image_len c) -> K m -> K m') ->
    K (mem w');
}.

Lemma drop_step_runs L c w :
  linked_lib pre libs L c (mem w) -> arcs w !! arc_ptr (c_core c) = Some (mk_cell 1 0 true) ->
  (forall v f args, is_Some (native_call v f args)) -> exists w', drop_step L c w w'.
Proof.
  intros Hl Harc Hnat. pose proof (linked_finis pre libs L c (mem w) Hl) as Hfs. destruct Hl as [_ _ _ _ _ _ _ _ _ _ Hscope Hmu].
  set (fs := init_list (base (image_of c)) (lf_fini L) (lf_finis L)) in *. set (p := arc_ptr (c_core c)) in *.
  set (w1 := set_arcs (<[p := mk_cell 0 0 true]> (arcs w)) w).
  destruct (calls_return [] fs w1) as (w2 & Hcalls & Hk); [intros; apply Hnat|].
  destruct (for_each_calls _ _ _ _ Hcalls) as [Hlog Harcs].
  destruct (mmap_release (image_start c) (image_len c) w2) as (e & He & Hun).
  set (w3 := push_event e (set_mem (unmap_range (mem w2) (image_start c) (image_len c)) w2)) in *.
  assert (Hinner : drop_inner true (inner (c_core c)) w1 = (Ok tt, w3)).
  { unfold drop_inner. eapply finally_run; [eapply finally_run|].
    - assert (Hr : reads (fun m => fn_list m (cc_fini_fn (inner (c_core c))) (cc_fini_array_fn (inner (c_core c)))) w1 = (Ok fs, w1))
        by (unfold reads; cbn [w1 set_arcs mem]; by rewrite Hfs).
      by rewrite (bind_run _ _ _ _ _ Hr).
    - by rewrite Hscope.
    - unfold drop_segments. by rewrite Hmu, Hun. }
  exists (set_arcs (delete p (arcs w3)) w3). constructor.
  - unfold drop_core. fold p. unfold bind at 1, update_cell. rewrite Harc. cbn [unwrap_unchecked].
    unfold bind. change (set_arcs _ w) with w1. cbn [w1 set_arcs arcs]. rewrite lookup_insert_eq. cbn.
    unfold finally. change (set_arcs _ w) with w1. rewrite Hinner. unfold run_drop, release. cbn [w3 push_event set_mem arcs].
    rewrite Harcs. cbn [w1 set_arcs arcs]. rewrite lookup_insert_eq. done.
  - cbn [set_arcs arcs w3 push_event set_mem]. rewrite Harcs. cbn [w1 set_arcs arcs]. apply delete_insert_eq.
  - exists e. split; [done|]. cbn [set_arcs log w3 push_event set_mem]. rewrite Hlog. by rewrite app_assoc.
  - intros K HK Hm Hst. cbn [set_arcs mem w3 push_event set_mem]. apply (Hst (mem w2)); [|by apply Hk].
    intros i Hi. rewrite unmap_range_lookup. by rewrite decide_False.
Qed.
End drop.

(** ** Side by side *)

Definition images_apart (c c0 : ElfCommonPart) : Prop :=
  image_start c + image_len c <= image_start c0 \/ image_start c0 + image_len c0 <= image_start c.

Lemma images_apart_sym c c0 : images_apart c c0 -> images_apart c0 c.
Proof. unfold images_apart. naive_solver. Qed.

(** What does not depend on the image of [c]. *)
Definition elsewhere (c : ElfCommonPart) (K : memory -> Prop) : Prop :=
  forall m m', same_outside m m' (image_start c) (image_len c) -> K m -> K m'.

Lemma elsewhere_and c K1 K2 : elsewhere c K1 -> elsewhere c K2 -> elsewhere c (fun m => K1 m /\ K2 m).
Proof. intros H1 H2 m m' Hm [? ?]. split; [by apply (H1 m)|by apply (H2 m)]. Qed.

Section frames.
Context `{Config} `{Arch} `{!ArchOk _} `{Nat : Native} `{Mm : Mmap} (room limit : Z) `{AA : ArcAlloc} `{EO : ElfObject T}.
Context (lazy : option bool) (pre : bytes -> option Z).

(** An image is not empty. *)
Lemma ready_len L c m : ready lazy L c m -> 0 < image_len c.
Proof.
  intros [Hlib _ Hsl _ _ _ _]. destruct (lb_dynamic _ _ _ _ _ _ _ _ _ Hlib) as (p & ds & _ & _ & (S & HS & HQ) & _).
  pose proof (dynamic_exports lazy L S ds HQ) as Hex. destruct (ex_hash _ _ _ _ _ _ _ Hex) as (h & _ & ? & ? & _).
  pose proof (gt_placed _ _ _ (ex_table _ _ _ _ _ _ _ Hex)) as [? ? _ _ _ _]. lia.
Qed.

(** Loading a library next to what is in memory. *)
Lemma load_step_apart L (o : T) l w c l' w' c0 :
  load_step lazy L o l w c l' w' -> mapped_range (mem w) (image_start c0) (image_len c0) -> 0 < image_len c0 ->
  images_apart c c0 /\ same_range (mem w) (mem w') (image_start c0) (image_len c0).
Proof.
  intros Hst Hmap Hl. pose proof (ready_len _ _ _ (ls_ready _ _ _ _ _ _ _ _ Hst)) as Hc.
  assert (Hap : images_apart c c0).
  { apply (mapped_free_apart (mem w) (image_start c0) (image_len c0)); [done|apply (ls_free _ _ _ _ _ _ _ _ Hst)|done..]. }
  split; [done|]. apply (same_outside_range _ _ (image_start c) (image_len c)); [apply (ls_outside _ _ _ _ _ _ _ _ Hst)|done].
Qed.

(** Relocating or dropping a library next to others. *)
Lemma ready_elsewhere L0 c0 c : good_file room limit lazy L0 -> images_apart c c0 -> elsewhere c (ready lazy L0 c0).
Proof.
  intros Hg Hap m m' Hm Hr. apply (ready_same room limit lazy L0 c0 m); [done..|].
  by apply (same_outside_range _ _ (image_start c) (image_len c)).
Qed.

Lemma linked_elsewhere libs0 L0 c0 c : images_apart c c0 -> elsewhere c (linked_lib pre libs0 L0 c0).
Proof.
  intros Hap m m' Hm Hr. apply (linked_same pre libs0 L0 c0 m); [done|].
  by apply (same_outside_range _ _ (image_start c) (image_len c)).
Qed.

Lemma link_step_keeps libs L c scope pre_find w w' K :
  link_step pre libs L c scope pre_find w w' -> native_keeps K -> elsewhere c K -> K (mem w) -> K (mem w').
Proof. intros Hst HK He Hw. apply (lk_keeps _ _ _ _ _ _ _ _ Hst); [done|]. intros m Hm. by apply (He (mem w)). Qed.

Lemma drop_step_keeps L c w w' K : drop_step L c w w' -> native_keeps K -> elsewhere c K -> K (mem w) -> K (mem w').
Proof. intros Hst HK He Hw. by apply (ds_keeps _ _ _ _ Hst). Qed.

(** A library that is linked can be in the scope of the next. *)
Lemma linked_in_scope libs0 L0 c0 m c :
  linked_lib pre libs0 L0 c0 m -> images_apart c c0 ->
  Forall (range_apart (image_start c) (image_len c)) ([lib_of L0 c0] ≫= fun l => gnu_ranges (lib_table l) (lib_syms l)) /\
  Forall (library_in m) [lib_of L0 c0] /\
  map_outcome helper_of [mk_relocated_dylib (c_core c0)] = Ok (lib_helper <$> [lib_of L0 c0]).
Proof.
  intros Hl Hap. split; [|split].
  - apply Forall_forall. intros r (l & Hr & ->%list_elem_of_singleton)%list_elem_of_bind.
    pose proof (kl_inside _ _ _ _ _ Hl) as Hin. rewrite Forall_forall in Hin. destruct (Hin r Hr).
    unfold range_apart, images_apart in *. lia.
  - constructor; [apply (kl_library _ _ _ _ _ Hl)|constructor].
  - destruct (kl_provides _ _ _ _ _ Hl) as [Hb Hst]. cbn [map_outcome fmap list_fmap]. unfold helper_of, rd_symtab. cbn [rd_core].
    rewrite Hst. cbn [unwrap_unchecked]. rewrite !bind_Ok. by rewrite Hb.
Qed.
End frames.
