(* ===== verification/Demo.v ===== *)
(** * Demo: a platform and three libraries

    A kernel with a bounded address space that never maps over memory in use, an
    allocator of reference counts, a directory with three files, and the three files:
    small libraries that export and import what the libraries of [src/example_dylib]
    do.  The theorems of [Examples.v] are applied to them. *)

From S2P Require Import Prelude Machine Arch StrTab Version Mmap Trace Segment Dynamic Symbol Object UserData Loader Image Core.
From S2P Require Import Relocation Format Quiet Macros Complete Linked Lazy Whole Run LinkedRun Exports Chain.
#[local] Open Scope Z_scope.

(** ** The platform *)

(** The address space in slots of 2^20 bytes, and those in use. *)
Definition SLOT := 2 ^ 20.
Definition slots_used (m : memory) : list Z := (fun a => a / SLOT) <$> elements (dom m).

Definition BUDGET := 10000.
Definition free_slot (m : memory) : Z :=
  match list_find (fun k => k ∉ slots_used m) (seqZ 1 (BUDGET + 1)) with Some (_, k) => k | None => 1 end.

Lemma free_slot_range m : 1 <= free_slot m <= BUDGET + 1.
Proof.
  unfold free_slot. destruct (list_find _ _) as [[i k]|] eqn:Hf; [|unfold BUDGET; lia].
  apply list_find_Some in Hf as (Hk%list_elem_of_lookup_2 & _ & _). apply elem_of_seqZ in Hk. lia.
Qed.

(** As long as few bytes are in use a slot is free. *)
Lemma free_slot_free m a :
  Z.of_nat (size m) <= BUDGET -> free_slot m * SLOT <= a < free_slot m * SLOT + SLOT -> m !! a = None.
Proof.
  intros Hsize Ha. unfold free_slot in Ha. destruct (list_find _ _) as [[i k]|] eqn:Hf.
  - apply list_find_Some in Hf as (_ & Hk & _). apply eq_None_not_Some. intros Hs. apply Hk. unfold slots_used.
    apply list_elem_of_fmap. exists a. split; [unfold SLOT in *; zlia|]. apply elem_of_elements. by apply elem_of_dom.
  - exfalso. apply list_find_None in Hf. rewrite Forall_forall in Hf.
    assert (Hsub : seqZ 1 (BUDGET + 1) ⊆+ slots_used m).
    { apply NoDup_submseteq; [apply NoDup_seqZ|]. intros x Hx. specialize (Hf x Hx). by apply dec_stable. }
    apply submseteq_length in Hsub. unfold slots_used in Hsub. rewrite length_seqZ, length_fmap in Hsub.
    change (length (elements (dom m))) with (size (dom m)) in Hsub. rewrite size_dom in Hsub. unfold BUDGET in *. lia.
Qed.

Definition all_free (m : memory) (p len : Z) : bool := forallb (fun a => bool_decide (m !! a = None)) (seqZ p len).

Lemma all_free_spec m p len : all_free m p len = true <-> free_range m p len.
Proof.
  unfold all_free, free_range. rewrite forallb_forall. split.
  - intros Hall a Ha. apply (bool_decide_unpack _), Is_true_true, Hall, list_elem_of_In, elem_of_seqZ. lia.
  - intros Hall a Ha%list_elem_of_In%elem_of_seqZ. apply bool_decide_eq_true. apply Hall. lia.
Qed.

(** Where a request is answered: as it is asked when it is fixed, at its hint when
    nothing is there, in a free slot otherwise. *)
Definition place (m : memory) (addr len flags : Z) : Z :=
  if negb (Z.land MAP_FIXED flags =? 0) || ((0 <? addr) && (addr + len <? U64_LIM) && all_free m addr len) then addr
  else free_slot m * SLOT.

Definition slot_kernel (contents : Z -> bytes) : Kernel := {|
  sys_mmap w addr len _ flags fd off :=
    let p := place (mem w) addr len flags in
    if (0 <? p) && (p + len <? U64_LIM) && (negb (Z.land MAP_FIXED flags =? 0) || (len <=? SLOT)) then
      Some (mk_mapping p (fun i => if Z.land MAP_ANONYMOUS flags =? 0 then demo_file (contents fd) fd (off + i) else 0))
    else None;
  sys_munmap _ _ _ := true;
  sys_mprotect _ _ _ _ := true;
|}.

Section kernel.
Context (contents : Z -> bytes).

Lemma place_fixed m addr len flags : Z.land MAP_FIXED flags <> 0 -> place m addr len flags = addr.
Proof. intros Hf. unfold place. by rewrite (proj2 (Z.eqb_neq _ _)). Qed.

Lemma place_free m addr len flags :
  Z.land MAP_FIXED flags = 0 ->
  place m addr len flags = addr /\ range_ok addr len /\ free_range m addr len \/
  place m addr len flags = free_slot m * SLOT /\ ~ (range_ok addr len /\ free_range m addr len).
Proof.
  intros Hf. unfold place, range_ok. rewrite Hf. cbn [Z.eqb negb orb]. rewrite <- all_free_spec.
  destruct (Z.ltb_spec 0 addr), (Z.ltb_spec (addr + len) U64_LIM), (all_free m addr len) eqn:Ha; cbn [andb];
    [left|right..]; (split; [done|]); naive_solver lia.
Qed.

Lemma slot_kernel_inv w addr len prot flags fd off r :
  @sys_mmap (slot_kernel contents) w addr len prot flags fd off = Some r ->
  map_ptr r = place (mem w) addr len flags /\ range_ok (map_ptr r) len /\
  (Z.land MAP_FIXED flags = 0 -> len <= SLOT) /\
  map_byte r = (fun i => if Z.land MAP_ANONYMOUS flags =? 0 then demo_file (contents fd) fd (off + i) else 0).
Proof.
  cbn [sys_mmap slot_kernel]. cbv zeta. destruct (_ && _) eqn:Hc; [|done]. intros [= <-]. cbn [map_ptr map_byte]. unfold range_ok.
  split_and!; [done|lia..| |done]. intros Hf. rewrite Hf in Hc. cbn [Z.eqb negb orb] in Hc. lia.
Qed.

Lemma slot_kernel_runs w addr len prot flags fd off :
  range_ok (place (mem w) addr len flags) len -> (Z.land MAP_FIXED flags = 0 -> len <= SLOT) ->
  exists r, @sys_mmap (slot_kernel contents) w addr len prot flags fd off = Some r /\ map_ptr r = place (mem w) addr len flags.
Proof.
  intros [Hp Hl] Hs. cbn [sys_mmap slot_kernel]. cbv zeta.
  rewrite (proj2 (Z.ltb_lt 0 _)), (proj2 (Z.ltb_lt (_ + len) _)) by lia. cbn [andb].
  destruct (Z.eqb_spec (Z.land MAP_FIXED flags) 0) as [Hf|Hf]; cbn [negb orb]; [rewrite (proj2 (Z.leb_le len _)) by auto|]; by eexists.
Qed.

Lemma free_slot_ok m len :
  len <= SLOT -> range_ok (free_slot m * SLOT) len /\ (free_slot m * SLOT) mod 4096 = 0 /\ SLOT <= free_slot m * SLOT.
Proof.
  intros Hl. pose proof (free_slot_range m) as Hs. unfold BUDGET, SLOT, range_ok in *. split_and!; [lia..| |lia].
  replace (free_slot m * 2 ^ 20) with (free_slot m * 256 * 4096) by lia. by apply Z.mod_mul.
Qed.

#[export] Instance slot_kernel_laws : KernelLaws (slot_kernel contents) (fun fd i => demo_file (contents fd) fd i).
Proof.
  constructor.
  - by intros w addr len prot flags fd off r (_ & Hr & _)%slot_kernel_inv.
  - intros w addr len prot flags fd off r (-> & _)%slot_kernel_inv Hf. by apply place_fixed.
  - intros w addr len prot flags fd off r i (_ & _ & _ & ->)%slot_kernel_inv Ha _. by rewrite (proj2 (Z.eqb_eq _ _)).
  - intros w addr len prot flags fd off r i (_ & _ & _ & ->)%slot_kernel_inv Ha _. by rewrite (proj2 (Z.eqb_neq _ _)).
Qed.

#[export] Instance slot_kernel_grants : KernelGrants (slot_kernel contents) SLOT SLOT.
Proof.
  constructor; [|done]. intros w addr len prot flags fd off Hl _ _ _ Ha Hr. destruct (decide (Z.land MAP_FIXED flags = 0)) as [Hf|Hf].
  - destruct (free_slot_ok (mem w) len Hr) as (Hs1 & Hs2 & Hs3).
    destruct (place_free (mem w) addr len flags Hf) as [(Hp & Ha0 & _)|[Hp _]];
      destruct (slot_kernel_runs w addr len prot flags fd off) as (r & Hrun & Hptr); rewrite ?Hp; try done;
      exists r; rewrite Hptr, Hp; (split_and!; [done..|]); unfold range_ok in *; lia.
  - destruct (slot_kernel_runs w addr len prot flags fd off) as (r & Hrun & Hptr); rewrite ?place_fixed by done; try done.
    exists r. by rewrite Hptr, place_fixed.
Qed.

#[export] Instance slot_kernel_fresh : KernelFresh (slot_kernel contents) BUDGET.
Proof.
  constructor. intros w addr len prot flags fd off r Hf Hm (Hp & _ & Hl & _)%slot_kernel_inv a Ha. specialize (Hl Hf). rewrite Hp in Ha.
  destruct (place_free (mem w) addr len flags Hf) as [(Hp' & _ & Hfree)|[Hp' _]]; rewrite Hp' in Ha; [by apply Hfree|].
  apply free_slot_free; [done|]. lia.
Qed.

#[export] Instance slot_kernel_hints : KernelHints (slot_kernel contents) SLOT SLOT.
Proof.
  constructor. intros w addr len prot flags fd off Hl Hlim _ _ _ Ha Hr Hf. destruct (free_slot_ok (mem w) len Hlim) as (Hs1 & Hs2 & Hs3).
  destruct (place_free (mem w) addr len flags Hf) as [(Hp & _ & Hfree)|[Hp Hno]];
    destruct (slot_kernel_runs w addr len prot flags fd off) as (r & Hrun & Hptr); rewrite ?Hp; try done;
    exists r; rewrite Hptr, Hp; (split; [done|]).
  - split_and!; [done|by left|done].
  - split_and!; [done|by right|]. intros Hfree. by destruct Hno.
Qed.

#[export] Instance slot_kernel_releases : KernelReleases (slot_kernel contents).
Proof. by constructor. Qed.
End kernel.

(** Reference counts go to the first address that is not in use. *)
Definition fresh_alloc : ArcAlloc := {| arc_address w := fresh (dom (arcs w) : gset Z) |}.
#[export] Instance fresh_alloc_fresh : ArcFresh fresh_alloc.
Proof. constructor. intros w. apply (not_elem_of_dom (D := gset Z)). exact (is_fresh (dom (arcs w) : gset Z)). Qed.

(** The files of a directory, by path; descriptors count from 3. *)
Definition dir_contents (dir : list (bytes * bytes)) (fd : Z) : bytes := default [] (snd <$> dir !! Z.to_nat (fd - 3)).
Definition dir_fd (dir : list (bytes * bytes)) (path : bytes) : Z :=
  match list_find (fun e => e.1 = path) dir with Some (i, _) => 3 + Z.of_nat i | None => -1 end.
Definition dir_files (dir : list (bytes * bytes)) : Files :=
  let F := demo_files (dir_contents dir) in {|
  sys_open _ path := dir_fd dir path;
  sys_lseek := @sys_lseek F;
  sys_read := @sys_read F;
  sys_close := @sys_close F;
  errno_string := @errno_string F;
|}.

#[export] Instance dir_file_laws dir : FileLaws (dir_files dir) (dir_contents dir) world_pos.
Proof. destruct (demo_file_laws (dir_contents dir)). by constructor. Qed.

(** ** The libraries

    A library is 1000 bytes in one segment: its dynamic section is at 240, its hash
    table at 496, its symbols at 536, their names at 656, its relocations at 696, its
    words at 824, its code at 864 and what it says at 928. *)

Record tiny := mk_tiny {
  ty_imports : list bytes;
  ty_exports : list (bytes * Z * Z);   (** name, type and binding, link address *)
  ty_got : list (Z * Z);               (** symbol, link address of the word *)
  ty_plt : list (Z * Z);
}.

Fixpoint with_offsets (o : Z) (syms : list (bytes * Z * Z * Z)) : list gsym :=
  match syms with
  | [] => []
  | (n, info, shndx, value) :: l => mk_gsym n (mk_symbol o info 0 shndx value 8) :: with_offsets (o + Z.of_nat (length n) + 1) l
  end.

Section tiny.
Context (t : tiny).

Definition ty_symbols : list gsym :=
  with_offsets 1 (((fun n => (n, 16, 0, 0)) <$> ty_imports t) ++ ((fun e => (e.1.1, e.1.2, 7, e.2)) <$> ty_exports t)).
Definition ty_syms : list gsym := drop (length (ty_imports t)) ty_symbols.
Definition ty_own (k : Z) : ElfSymbol * bytes :=
  match ty_symbols !! Z.to_nat (k - 1) with Some s => (gs_sym s, gs_name s) | None => (mk_symbol 0 0 0 0 0 0, []) end.
Definition ty_bias : Z := 1 + Z.of_nat (length (ty_imports t)).
Definition ty_symtab : SymbolTable :=
  mk_symtab (mk_gnu_hash (mk_gnu_header 1 ty_bias 1 6) 512 520 524) 536 (mk_strtab 656) None.

(** One bucket, and a filter that lets every name pass. *)
Fixpoint ty_chains (l : list gsym) : list Z :=
  match l with
  | [] => []
  | [s] => [Z.lor (gs_hash s) 1]
  | s :: l' => Z.ldiff (gs_hash s) 1 :: ty_chains l'
  end.
Definition ty_hash : bytes :=
  pack [(4%nat, 1); (4%nat, ty_bias); (4%nat, 1); (4%nat, 6); (8%nat, 2 ^ 64 - 1); (4%nat, ty_bias)] ++
  pack ((fun c => (4%nat, c)) <$> ty_chains ty_syms).

Definition ty_relative : list ElfRela := [mk_rela 824 8 872; mk_rela 832 8 888].
Definition ty_dynrel : list ElfRela := (fun e => mk_rela e.2 (Z.shiftl e.1 32 + 6) 0) <$> ty_got t.
Definition ty_pltrel : list ElfRela := (fun e => mk_rela e.2 (Z.shiftl e.1 32 + 7) 0) <$> ty_plt t.
Definition ty_rela : list ElfRela := ty_relative ++ ty_dynrel.

Definition ty_dyns : list Dyn :=
  [mk_dyn DT_GNU_HASH 496; mk_dyn DT_SYMTAB 536; mk_dyn DT_STRTAB 656; mk_dyn DT_RELA 696;
   mk_dyn DT_RELASZ (RELA_SIZE * Z.of_nat (length ty_rela)); mk_dyn DT_RELACOUNT 2] ++
  (if ty_pltrel then [] else
     [mk_dyn DT_JMPREL (696 + RELA_SIZE * Z.of_nat (length ty_rela));
      mk_dyn DT_PLTRELSZ (RELA_SIZE * Z.of_nat (length ty_pltrel))]) ++
  [mk_dyn DT_INIT 864; mk_dyn DT_INIT_ARRAY 824; mk_dyn DT_INIT_ARRAYSZ 8;
   mk_dyn DT_FINI 880; mk_dyn DT_FINI_ARRAY 832; mk_dyn DT_FINI_ARRAYSZ 8; mk_dyn DT_FLAGS 8].
Definition ty_dyn_len : Z := DYN_SIZE * (Z.of_nat (length ty_dyns) + 1).

Definition ty_memory : memory := image
  [(0, ehdr_bytes 62 64 3); (64, mjoin (phdr_bytes <$> one_segment 1000 ty_dyn_len));
   (240, dyn_bytes (ty_dyns ++ [mk_dyn DT_NULL 0])); (496, ty_hash);
   (536, replicate 24 0 ++ mjoin (symbol_bytes ∘ gs_sym <$> ty_symbols));
   (656, [0] ++ mjoin ((fun s => gs_name s ++ [0]) <$> ty_symbols));
   (696, mjoin (rela_bytes <$> ty_rela ++ ty_pltrel))].
Definition ty_data : bytes := let m := ty_memory in (fun a => default 0 (m !! a)) <$> seqZ 0 1000.

Definition tiny_lib : lib_file :=
  mk_lib_file ty_data one_segment_ehdr (one_segment 1000 ty_dyn_len) (mk_param None 4096 3 MAP_PRIVATE (mk_range 1000 0)) 0
    ty_relative ty_dynrel ty_pltrel (Some 864) [mk_rela 824 8 872] (Some 880) [mk_rela 832 8 888] ty_own ty_symtab ty_syms.
End tiny.

(** What [src/example_dylib] exports and imports. *)
Definition tiny_a : tiny := mk_tiny [] [(bytes_of "a", 18, 896); (bytes_of "HELLO", 17, 928)] [] [].
Definition tiny_b : tiny :=
  mk_tiny (bytes_of <$> ["print"; "a"; "HELLO"]%string) [(bytes_of "b", 18, 904)] [(3, 840)] [(1, 848); (2, 856)].
Definition tiny_c : tiny :=
  mk_tiny (bytes_of <$> ["print"; "b"]%string) [(bytes_of "c", 18, 912)] [] [(1, 840); (2, 848)].
Definition tinies : list tiny := [tiny_a; tiny_b; tiny_c].

(** A fact that is checked of each of the three. *)
Lemma each_tiny (K : tiny -> Prop) : K tiny_a -> K tiny_b -> K tiny_c -> forall t, t ∈ tinies -> K t.
Proof.
  intros Ka Kb Kc t Ht. repeat (apply elem_of_cons in Ht as [->|Ht]; [done|]). by apply not_elem_of_nil in Ht.
Qed.
Ltac each_tiny := match goal with |- forall t, t ∈ tinies -> @?K t => apply (each_tiny K) end.

Lemma tiny_length t : Z.of_nat (length (ty_data t)) = 1000.
Proof. unfold ty_data. by rewrite length_fmap, length_seqZ. Qed.

Lemma tiny_headers : forall t, t ∈ tinies -> @file_headers demo_arch (ty_data t) one_segment_ehdr (one_segment 1000 (ty_dyn_len t)).
Proof. each_tiny; (constructor; [constructor|]); try (vm_compute; first [reflexivity|discriminate]). Qed.

Lemma tiny_wf : forall t, t ∈ tinies -> dyn_link_wf 0 4096 (ty_dyns t).
Proof. each_tiny; [link_wf (ty_dyns tiny_a)|link_wf (ty_dyns tiny_b)|link_wf (ty_dyns tiny_c)]. Qed.

Lemma tiny_refs S : mk_phdr PT_LOAD 6 0 0 0 1000 1000 4096 ∈ S ->
  forall t, t ∈ tinies -> @dyn_refs dev_config (ty_data t) 0 4096 S (ty_dyns t).
Proof.
  intros HS t Ht. constructor.
  - by apply tiny_wf.
  - intros h Hh. replace h with 496 by (revert t Ht Hh; each_tiny; by intros [= <-]). exists 496. rewrite tiny_length. split; [apply (one_segment_in_file 1000); [done|lia..]|lia].
  - revert t Ht. each_tiny; constructor.
  - revert t Ht. each_tiny; discriminate.
  - revert t Ht. each_tiny; discriminate.
  - revert t Ht. each_tiny; split; vm_compute; discriminate.
  - revert t Ht. each_tiny; discriminate.
  - right. revert t Ht. each_tiny; reflexivity.
Qed.

Local Notation ty_image t := (link_image (ty_data t) (loadable (one_segment 1000 (ty_dyn_len t)))).

(** Entry by entry. *)
Ltac each_symbol i s H :=
  intros s H; destruct i as [|[|i]]; vm_compute in H; try discriminate H; injection H as <-.

Ltac check_chain :=
  eexists; split; [by vm_compute|]; split; [by vm_compute|]; split;
    [intros Hc; first [by vm_compute in Hc|eexists; split; [reflexivity|by vm_compute]]
    |intros (s' & Hs' & Hb); first [by vm_compute|discriminate Hs']].

Lemma tiny_table : forall t, t ∈ tinies -> gnu_table (ty_image t) (ty_symtab t) (ty_syms t).
Proof.
  each_tiny; constructor.
  all: try match goal with |- gnu_placed _ _ => by constructor; vm_compute end.
  all: try (intros i; each_symbol i s Hs; (split; [by vm_compute|apply cstr_at_check; by vm_compute])).
  all: try (intros i; each_symbol i s Hs; check_chain).
  all: try (intros i j s s' _ Hs Hs'; unfold bucket_of; cbn [ty_symtab hashtab header nbucket]; by rewrite !Z.mod_1_r).
  all: try (cbn [ty_symtab hashtab header nbucket nbloom]; intros b Hb; assert (b = 0) as -> by lia;
    first [by vm_compute|eexists; by vm_compute]).
  all: intros i s w Hs; revert s Hs w; each_symbol i s Hs; intros w Hw; vm_compute in Hw; injection Hw as <-; by vm_compute.
Qed.

(** The symbols a library refers to. *)
Lemma tiny_own_in : forall t, t ∈ tinies -> forall x, x ∈ ty_dynrel t ++ ty_pltrel t ->
  own_in (link_symtab (ty_dyns t)) (ty_own t) (ty_image t) (r_symbol x) /\
  ranges_in 0 4096 (own_ranges (link_symtab (ty_dyns t)) (ty_own t) (r_symbol x)).
Proof.
  assert (Hall : forall t, t ∈ tinies -> Forall (fun x => ranges_in 0 4096 (own_ranges (link_symtab (ty_dyns t)) (ty_own t) (r_symbol x)))
    (ty_dynrel t ++ ty_pltrel t)) by (each_tiny; apply (bool_decide_unpack _); by vm_compute).
  intros t Ht x Hx. specialize (Hall t Ht). rewrite Forall_forall in Hall. split; [|by apply Hall].
  apply Hall in Hx as Hr. clear Hall. revert x Hx Hr. revert t Ht.
  each_tiny; intros x Hx; cbn in Hx; repeat (apply elem_of_cons in Hx as [->|Hx];
    [intros Hr; constructor; [by exists 4096|by vm_compute|apply cstr_at_check; by vm_compute]|]); by apply elem_of_nil in Hx.
Qed.

(** An array of one function. *)
Lemma rebased_one off size R x ds :
  x ∈ R -> last_val off ds = Some (r_offset x) -> default 0 (last_val size ds) / 8 = 1 -> rebased_array off size R [x] ds.
Proof.
  intros Hx Ha Hn. unfold rebased_array. rewrite Ha. split; [set_solver|]. split; [done|].
  intros [|i] y Hy; [injection Hy as <-; lia|done].
Qed.

Lemma tiny_library S : mk_phdr PT_LOAD 6 0 0 0 1000 1000 4096 ∈ S -> forall t, t ∈ tinies ->
  @linked_file dev_config (x86_64 0) (ty_data t) (ty_own t) (ty_dynrel t) (ty_pltrel t) ty_relative [mk_rela 824 8 872] (Some 864)
    None 0 4096 (one_segment 1000 (ty_dyn_len t)) S (ty_dyns t).
Proof.
  intros HS t Ht. split; [|revert t Ht; each_tiny; vm_compute; done]. constructor.
  - by apply tiny_refs.
  - revert t Ht. each_tiny; vm_compute; reflexivity.
  - revert t Ht. each_tiny; vm_compute; reflexivity.
  - revert t Ht. each_tiny; vm_compute; reflexivity.
  - revert t Ht. each_tiny; vm_compute; reflexivity.
  - revert t Ht. each_tiny; vm_compute; reflexivity.
  - revert t Ht. each_tiny; reflexivity.
  - revert t Ht. each_tiny; reflexivity.
  - apply rebased_one; revert t Ht; each_tiny; first [set_solver|reflexivity].
  - intros x Hx _. by apply tiny_own_in.
  - apply apart_check. revert t Ht. each_tiny; apply (bool_decide_unpack _); by vm_compute.
Qed.

Definition all_mapped (m : memory) (rs : list (Z * Z)) : bool :=
  forallb (fun r => forallb (fun a => bool_decide (is_Some (m !! a))) (seqZ r.1 r.2)) rs.

Lemma mapped_check m rs : all_mapped m rs = true -> forall a, covered rs a -> is_Some (m !! a).
Proof.
  intros Hall a (r & Hr & Ha)%Exists_exists. unfold all_mapped in Hall. rewrite forallb_forall in Hall.
  specialize (Hall r (proj1 (list_elem_of_In _ _) Hr)). rewrite forallb_forall in Hall.
  apply (bool_decide_unpack _). apply Is_true_true, Hall, list_elem_of_In, elem_of_seqZ. lia.
Qed.

Lemma tiny_exports : forall t, t ∈ tinies ->
  exports (ty_data t) (loadable (one_segment 1000 (ty_dyn_len t))) 0 4096 (ty_dyns t) (ty_symtab t) (ty_syms t).
Proof.
  intros t Ht. constructor.
  - revert t Ht. each_tiny; done.
  - revert t Ht. each_tiny; exists 496; (split_and!; [reflexivity|done|by vm_compute|by vm_compute]).
  - by apply tiny_table.
  - revert t Ht. each_tiny; apply (bool_decide_unpack _); by vm_compute.
  - apply mapped_check. revert t Ht. each_tiny; by vm_compute.
  - revert t Ht. each_tiny; intros i; each_symbol i s Hs; by vm_compute.
Qed.

Lemma tiny_exporting S : mk_phdr PT_LOAD 6 0 0 0 1000 1000 4096 ∈ S -> forall t, t ∈ tinies ->
  @dynamic_of_file dev_config (x86_64 0) None (tiny_lib t) S (ty_dyns t).
Proof.
  intros HS t Ht. constructor; [constructor|..]; cbn [tiny_lib lf_data lf_own lf_dynrel lf_pltrel lf_relative lf_inits lf_init lf_symtab
    lf_syms lf_lo lf_param pm_len lf_phdrs lf_fini lf_finis].
  - by apply tiny_library.
  - by apply tiny_exports.
  - apply apart_check. revert t Ht. each_tiny; apply (bool_decide_unpack _); by vm_compute.
  - revert t Ht. each_tiny; reflexivity.
  - apply rebased_one; revert t Ht; each_tiny; first [set_solver|reflexivity].
Qed.

Lemma tiny_array : forall t, t ∈ tinies -> dyn_array (store_bytes ∅ 0 (ty_data t)) 240 (ty_dyns t).
Proof.
  each_tiny; cbn [dyn_array ty_dyns app ty_pltrel ty_plt tiny_a tiny_b tiny_c fmap list_fmap]; (split_and!; try (by vm_compute));
    exists (mk_dyn DT_NULL 0); by vm_compute.
Qed.

Lemma tiny_good : forall t, t ∈ tinies -> @good_file dev_config (x86_64 0) SLOT SLOT None (tiny_lib t).
Proof.
  intros t Ht. constructor; cbn [tiny_lib lf_data lf_ehdr lf_phdrs lf_lo lf_param pm_len].
  - by rewrite tiny_length.
  - by apply tiny_headers.
  - by apply one_segment_image_wf; [|apply tiny_length].
  - revert t Ht. each_tiny; vm_compute; reflexivity.
  - done.
  - done.
  - apply (one_segment_headers _ _ _ (ty_dyns t)).
    + done.
    + revert t Ht. each_tiny; vm_compute; discriminate.
    + revert t Ht. each_tiny; vm_compute; discriminate.
    + reflexivity.
    + by apply tiny_array.
    + revert t Ht. each_tiny; repeat constructor; intros _; done.
    + revert t Ht. each_tiny; by eexists.
    + by apply tiny_wf.
    + intros S HS. by apply tiny_exporting.
  - apply Exists_cons_tl, Exists_cons_tl. by apply Exists_cons_hd.
  - by apply one_segment_table.
  - discriminate.
Qed.

(** ** Linking them

    The user gives [print]; the rest comes from the library before. *)

Definition demo_print : Z := 4242.
Definition demo_pre (name : bytes) : option Z := (<[bytes_of "print" := demo_print]> ∅ : gmap bytes Z) !! name.

(** The libraries of the scope, or the user, have the name. *)
Definition available (libs : list library) (n : bytes) : Prop :=
  is_Some (demo_pre n) \/
  exists b s, find_map (fun l => pair (lib_base l) <$> exported n l) libs = Some (b, s) /\
    st_type s <> STT_GNU_IFUNC /\ 0 <= b + st_value s < U64_LIM.

Section linking.
#[local] Existing Instance demo_arch.
Context (libs : list library).

Definition import_ok (t : tiny) (x : ElfRela) : Prop :=
  r_type x ∈ [REL_GOT; REL_JUMP_SLOT] /\ is_local (ty_own t (r_symbol x)).1 = false /\
  is_weak (ty_own t (r_symbol x)).1 = false /\ (ty_own t (r_symbol x)).2 ∈ ty_imports t.

Lemma available_resolvable t b x : import_ok t x -> Forall (available libs) (ty_imports t) -> resolvable libs demo_pre (ty_own t) b x.
Proof.
  intros (Ht & Hl & Hw & Hn) Hav. rewrite Forall_forall in Hav. specialize (Hav _ Hn). constructor.
  - destruct (stored_symbolic libs demo_pre (ty_own t) b x) as [_ ->].
    { rewrite !elem_of_cons, elem_of_nil in Ht. naive_solver. }
    unfold resolve_address. destruct Hav as [[v ->]|(b0 & s & Hs & _)]; [by eexists|]. destruct (demo_pre _); [by eexists|].
    unfold definition. rewrite Hl, Hs. by eexists.
  - intros Hp. destruct Hav as [[v Hv]|(b0 & s & Hs & ? & ?)]; [by rewrite Hv in Hp|].
    intros b1 s1. unfold definition. rewrite Hl, Hs. by intros [= <- <-].
  - by rewrite Hw.
Qed.

Lemma tiny_imports : forall t, t ∈ tinies ->
  Forall (import_ok t) (ty_dynrel t) /\ Forall (import_ok t) (ty_pltrel t) /\
  Forall (fun x => r_type x = REL_GOT) (ty_dynrel t) /\ Forall (fun x => r_type x = REL_JUMP_SLOT) (ty_pltrel t).
Proof. each_tiny; unfold import_ok; (split_and!; apply (bool_decide_unpack _); by vm_compute). Qed.

Lemma tiny_linkable t : t ∈ tinies -> Forall (available libs) (ty_imports t) ->
  linkable_entries (loadable (one_segment 1000 (ty_dyn_len t))) libs demo_pre (ty_own t) (ty_dynrel t) (ty_pltrel t) ty_relative 0 4096.
Proof.
  intros Ht Hav. destruct (tiny_imports t Ht) as (Hd & Hp & Hdt & Hpt). rewrite Forall_forall in Hd, Hp, Hdt, Hpt. constructor.
  - apply (bool_decide_unpack _). by vm_compute.
  - intros b _ _. split; apply Forall_forall; intros x Hx.
    + apply deo_symbol; [left; by apply Hdt|]. apply available_resolvable; auto.
    + split; [by apply Hpt|]. apply available_resolvable; auto.
  - intros x Hx _. exists (mk_phdr PT_LOAD 6 0 0 0 1000 1000 4096). split; [by left|]. cbn [p_vaddr p_memsz].
    enough (Hall : Forall (fun x => 0 <= r_offset x /\ r_offset x + 8 <= 1000) (ty_relative ++ ty_dynrel t ++ ty_pltrel t)).
    { rewrite Forall_forall in Hall. by apply Hall. }
    clear - Ht. revert t Ht. each_tiny; apply (bool_decide_unpack _); by vm_compute.
  - clear Hd Hp Hdt Hpt Hav. revert t Ht. each_tiny; unfold entries_apart; cbn; repeat (constructor; [repeat (constructor; [cbn; lia|]); constructor|]); constructor.
Qed.
End linking.

Lemma available_print libs : available libs (bytes_of "print").
Proof. left. exists demo_print. reflexivity. Qed.

(** What a library exports is available to the next, wherever it was loaded. *)
Lemma available_export t c n s :
  exported n (mk_library 0 (ty_symtab t) (ty_syms t)) = Some s -> st_type s <> STT_GNU_IFUNC -> 0 <= st_value s < 4096 ->
  image_for (tiny_lib t) c -> available [lib_of (tiny_lib t) c] n.
Proof.
  intros Hs Ht Hv (Hseg & Ho & Hl). right. exists (base (image_of c)), s. cbn [find_map].
  change (exported n (lib_of (tiny_lib t) c)) with (exported n (mk_library 0 (ty_symtab t) (ty_syms t))). rewrite Hs.
  split; [done|]. split; [done|]. pose proof (base_ok _ Hseg) as Hb. destruct Hseg as ([? ?] & ? & ?).
  change (lf_lo (tiny_lib t)) with 0 in Ho. change (pm_len (lf_param (tiny_lib t))) with 4096 in Hl. lia.
Qed.

Lemma link_tiny_a : @linkable_entries demo_arch (loadable (lf_phdrs (tiny_lib tiny_a))) [] demo_pre (ty_own tiny_a)
  (ty_dynrel tiny_a) (ty_pltrel tiny_a) ty_relative 0 4096.
Proof. apply tiny_linkable; [by left|constructor]. Qed.

Lemma link_tiny_b c : image_for (tiny_lib tiny_a) c ->
  @linkable_entries demo_arch (loadable (lf_phdrs (tiny_lib tiny_b))) [lib_of (tiny_lib tiny_a) c] demo_pre (ty_own tiny_b)
    (ty_dynrel tiny_b) (ty_pltrel tiny_b) ty_relative 0 4096.
Proof.
  intros Hc. apply tiny_linkable; [right; by left|]. apply Forall_cons; split; [apply available_print|].
  repeat (apply Forall_cons; split; [by eapply available_export; [reflexivity|..]|]). constructor.
Qed.

Lemma link_tiny_c c : image_for (tiny_lib tiny_b) c ->
  @linkable_entries demo_arch (loadable (lf_phdrs (tiny_lib tiny_c))) [lib_of (tiny_lib tiny_b) c] demo_pre (ty_own tiny_c)
    (ty_dynrel tiny_c) (ty_pltrel tiny_c) ty_relative 0 4096.
Proof.
  intros Hc. apply tiny_linkable; [right; right; by left|]. apply Forall_cons; split; [apply available_print|].
  repeat (apply Forall_cons; split; [by eapply available_export; [reflexivity|..]|]). constructor.
Qed.

(** ** Their code

    Functions are known by their place in the page; what they leave of the memory is
    what was there. *)
Definition tiny_native : Native := {|
  native_call w f _ :=
    let o := f mod 4096 in
    Some (if o =? 896 then 1 else if o =? 904 then 2 else if o =? 912 then 3 else 0, mem w)
|}.

Lemma tiny_native_keeps K : @native_keeps tiny_native K.
Proof. intros w f args r m HK. by intros [= _ <-]. Qed.

(** ** Finding them *)

Lemma dir_serves dir i path (L : lib_file) :
  list_find (fun e => e.1 = path) dir = Some (i, (path, lf_data L)) -> bool_decide (0 ∈ path) = false ->
  Z.of_nat (length (lf_data L)) < 2 ^ 63 ->
  forall w, exists file0 w0, @from_path (@libc_fs (dir_files dir)) path w = (Ok file0, w0) /\
    serves_file (EO := @fs_object (@libc_fs (dir_files dir))) (fun fd j => demo_file (dir_contents dir fd) fd j) file0 L /\
    mem w0 = mem w /\ arcs w0 = arcs w.
Proof.
  intros Hf H0 Hl w. apply list_find_Some in Hf as Hd. destruct Hd as (Hi & _ & _).
  assert (Hfd : @sys_open (dir_files dir) w path = 3 + Z.of_nat i) by (cbn [dir_files sys_open]; unfold dir_fd; by rewrite Hf).
  assert (Hc : dir_contents dir (3 + Z.of_nat i) = lf_data L).
  { unfold dir_contents. replace (Z.to_nat (3 + Z.of_nat i - 3)) with i by lia. by rewrite Hi. }
  exists (mk_file path (3 + Z.of_nat i)), (push_event (EvOpen path (3 + Z.of_nat i)) w). split; [|split; [|done]].
  - cbn [from_path libc_fs]. unfold LibcFile.from_path, CString_new. rewrite H0. unfold bind, lift. cbn [outcome_bind]. rewrite Hfd.
    by rewrite (proj2 (Z.eqb_neq _ _)) by lia.
  - constructor.
    + rewrite <- Hc. apply (ElfFile_serves (F := dir_files dir) (dir_contents dir) world_pos path (3 + Z.of_nat i)).
      by rewrite Hc, bool_decide_true.
    + intros fd j b [= <-] Hj. cbn [f_fd]. rewrite Hc. unfold demo_file. by rewrite Nat2Z.id, Hj.
    + intros v. by eexists.
    + apply libc_object_quiet, _.
    + intros v. done.
Qed.
