(* ===== verification/Exec.v ===== *)
(** * Exec: executables, from their file to their entry point

    [load_exec] and [load] for executables, static and dynamic, and what relocating
    them does.  An executable asks for the address it was linked at; the platform may
    answer with another.  The theorems say where it ends up and what its handle holds,
    and link a dynamic executable against itself and the libraries of a scope. *)

From S2P Require Import Prelude Machine Arch StrTab Version Mmap Trace Segment Dynamic Symbol Object UserData Loader Image Core.
From S2P Require Import Relocation Format Quiet Macros Complete Linked Lazy Whole Run LinkedRun Exports Chain Demo.
#[local] Open Scope Z_scope.

(** ** The entry points of the loader *)

Section entry_points.
Context `{Config} `{Arch} `{Mm : Mmap} `{AA : ArcAlloc} `{EO : ElfObject T} (o : T).

Definition not_dylib (h : ElfHeader) : bool := negb (is_dylib h).

Lemma load_exec_common l lazy w c l' w' :
  load_common o false not_dylib l lazy w = (Ok (c, l'), w') -> load_exec l o lazy w = (Ok (mk_exec c, l'), w').
Proof.
  intros Hrun. unfold load_common in Hrun. unfold load_exec.
  apply bind_run_inv in Hrun as ([ehdr' l1] & w1 & Hp & Hrun). rewrite (bind_run _ _ _ _ _ Hp).
  apply bind_run_inv in Hrun as ([[b ps] l2] & w2 & Hl & Hrun). rewrite (bind_run _ _ _ _ _ Hl).
  apply bind_run_inv in Hrun as (c' & w3 & Hc & Hrun). injection Hrun as <- <- <-. unfold create_exec.
  rewrite (bind_run _ _ _ _ _ (bind_run _ _ _ _ _ Hc)). done.
Qed.

(** [load] makes the handle that the file type asks for. *)
Definition elf_of (dy : bool) (c : ElfCommonPart) : Elf := if dy then Elf_Dylib (mk_dylib c) else Elf_Exec (mk_exec c).

Lemma prepare_any l accept w h l1 w1 :
  prepare l o accept w = (Ok (h, l1), w1) -> accept h = true /\ prepare l o (fun _ => true) w = (Ok (h, l1), w1).
Proof.
  unfold prepare. intros Hp%on_unwind_inv. apply bind_run_inv in Hp as ([h' buf] & w2 & Hp & Hr).
  destruct (accept h') eqn:Ha; [|done]. injection Hr as <- <- <-. split; [done|].
  apply on_unwind_run. by rewrite (bind_run _ _ _ _ _ Hp).
Qed.

Lemma load_elf_common dy accept l lazy w c l' w' :
  (forall h, accept h = true -> is_dylib h = dy) ->
  load_common o dy accept l lazy w = (Ok (c, l'), w') -> load l o lazy w = (Ok (elf_of dy c, l'), w').
Proof.
  intros Hdy Hrun. unfold load_common in Hrun. unfold load.
  apply bind_run_inv in Hrun as ([ehdr' l1] & w1 & [Ha Hp]%prepare_any & Hrun). rewrite (bind_run _ _ _ _ _ Hp). cbv zeta.
  rewrite (Hdy _ Ha).
  apply bind_run_inv in Hrun as ([[b ps] l2] & w2 & Hl & Hrun). rewrite (bind_run _ _ _ _ _ Hl).
  apply bind_run_inv in Hrun as (c' & w3 & Hc & Hrun). injection Hrun as <- <- <-. unfold create_elf, create_dylib, create_exec.
  destruct dy; by rewrite (bind_run _ _ _ _ _ (bind_run _ _ _ _ _ (bind_run _ _ _ _ _ Hc))).
Qed.

Lemma not_dylib_false h : not_dylib h = true -> is_dylib h = false.
Proof. unfold not_dylib. by destruct (is_dylib h). Qed.
End entry_points.

(** ** Executables without a dynamic section *)

Section static.
Context `{Config} `{Arch} `{Mm : Mmap} (data : bytes).

(** The handle of an executable that has no dynamic section. *)
Record static_exec (name : bytes) (lazy : option bool) (init : option InitParams) (ehdr : ElfHeader) (ps : list ElfPhdr)
    (m : memory) (c : ElfCommonPart) : Prop := {
  se_name : cc_name (inner (c_core c)) = name;
  se_entry : c_entry c = e_entry ehdr;
  se_image : forall p, p ∈ ps -> is_load p -> shows m (base (segments (inner (c_core c)))) data p;
  se_relro : c_relro c = (fun p => mk_relro (base (segments (inner (c_core c))) + p_vaddr p) (p_memsz p) mprotect) <$>
    last_of PT_GNU_RELRO ps;
  se_interp : opt_rel (fun p s => str_in_file data (loadable ps) (p_vaddr p) s) (last_of PT_INTERP ps) (c_interp c);
  se_tables : symbols (inner (c_core c)) = None /\ cc_dynamic (inner (c_core c)) = None /\
    cc_phdrs (inner (c_core c)) = empty_slice /\ cc_needed_libs (inner (c_core c)) = [];
  se_fini : cc_fini_fn (inner (c_core c)) = None /\ cc_fini_array_fn (inner (c_core c)) = None;
  se_relocation : is_empty (c_relocation c) = true;
  se_init : c_init c = mk_init init None None;
  se_lazy : c_lazy c = default false lazy;
}.

Lemma no_relocation : exists r, ElfRelocation_new None None None = Ok r /\ is_empty r = true.
Proof. eexists. split; [by apply (ElfRelocation_new_parts None None None)|done]. Qed.
End static.

(** Nothing in a list has the type. *)
Lemma last_of_None t l : ~ Exists (fun p => p_type p = t) l -> last_of t l = None.
Proof.
  intros Hno. destruct (last_of t l) as [p|] eqn:Hl; [|done]. apply last_of_Some in Hl as [Hp Ht].
  destruct Hno. apply Exists_exists. by exists p.
Qed.

Section static_run.
Context `{Config} `{Arch} `{Mm : Mmap} (file : Z -> Z -> Z) `{!MmapLaws Mm file}.
Context (room limit : Z) `{!MmapGrants Mm room limit} `{AA : ArcAlloc}.
Context `{EO : ElfObject T} (o : T) (data : bytes) `{!Serves o data}.
Hypothesis Hfile : forall fd j b, as_fd o = Some fd -> data !! j = Some b -> file fd (Z.of_nat j) = b.

(** The files: executables without a dynamic section. *)
Record static_file (ehdr : ElfHeader) (ps : list ElfPhdr) (param : MmapParam) (lo : Z) : Prop := {
  sf_headers : elf_headers data ehdr ps;
  sf_exec : is_dylib ehdr = false;
  sf_image : image_wf data ps;
  sf_param : create_segments ps true = Ok (param, lo);
  sf_room : 0 < lo <= room;
  sf_limit : pm_len param <= limit;
  sf_notes : headers_ok (fun _ _ => True) data lo (pm_len param) (first_segs lo ps) ps;
  sf_static : ~ Exists (fun p => p_type p = PT_DYNAMIC) ps;
}.

Lemma static_common_runs l lazy w ehdr ps param lo :
  MmapAnswers Mm room limit (Some lo) -> ld_hook l = None ->
  (forall w, exists w', obj_drop o w = (Ok tt, w') /\ mem w' = mem w) ->
  static_file ehdr ps param lo ->
  exists c l' w', load_common o false not_dylib l lazy w = (Ok (c, l'), w') /\
    static_exec data (file_name o) lazy (init_params l) ehdr ps (mem w') c /\
    image_at (mem w) (mem w') lo (pm_len param) c /\
    (free_range (mem w) lo (pm_len param) -> memory_ptr (segments (inner (c_core c))) = lo).
Proof.
  intros Hans Hhook Hdrop [Hf Hx Hwf Hc [Hlo Hroom] Hlim Hok Hno].
  destruct (load_image_runs file room limit o data Hfile (fun _ _ => True) not_dylib l lazy w ehdr ps param lo)
    as (b & l1 & l2 & w1 & w3 & Hprep & Hload & [Bn Bl Be Bu Bs Bi Br Bp Bd Bt] & Hs & Hal & Hso & Hmp & Hsl & Hsh & Hout & Hpl & Hmap & Hfree);
    rewrite ?Hx; try done; [by unfold not_dylib; rewrite Hx|].
  cbn [Builder_new b_name b_lazy_bind b_ehdr b_user_data b_init_params b_relro phdr_mmap b_dynamic b_interp] in *.
  rewrite (last_of_None _ _ Hno) in Bd. destruct no_relocation as (r & Hr & Hre).
  do 3 eexists. split; [|split; [|split]].
  - unfold load_common. rewrite (bind_run _ _ _ _ _ Hprep), (bind_run _ _ _ _ _ Hload).
    unfold create_common. rewrite Bd, Hr. done.
  - constructor; cbn; try done; [congruence|..]; rewrite ?Be, ?Bi, ?Bl; try done.
    + destruct (last_of PT_INTERP ps) as [q|]; [|by rewrite Bt]. destruct Bt as (S' & str & HS' & Hstr & ->).
      by apply (str_in_file_mono data S').
  - by constructor.
  - cbn. by apply Hfree.
Qed.

(** C15: a static executable runs where it was linked.  A well-formed executable without a
    dynamic section is loaded by [load_exec] and [load] alike, without an error; its
    handle has the entry point of the header and knows no symbols, libraries or program
    headers.  If nothing was mapped at the addresses it was linked at, that is where
    its segments are, and relocating it hands out the entry point and touches nothing. *)
Theorem static_exec_loads l lazy w ehdr ps param lo :
  MmapAnswers Mm room limit (Some lo) -> ld_hook l = None ->
  (forall w, exists w', obj_drop o w = (Ok tt, w') /\ mem w' = mem w) ->
  static_file ehdr ps param lo ->
  exists c l' w', load_exec l o lazy w = (Ok (mk_exec c, l'), w') /\ load l o lazy w = (Ok (Elf_Exec (mk_exec c), l'), w') /\
    static_exec data (file_name o) lazy (init_params l) ehdr ps (mem w') c /\
    (free_range (mem w) lo (pm_len param) -> forall p, p ∈ ps -> is_load p -> shows (mem w') 0 data p) /\
    forall `{Native} scope pre_find unknown v,
      exec_relocate (mk_exec c) scope pre_find unknown None v = (Ok (mk_relocated_exec (e_entry ehdr) (c_core c)), v).
Proof.
  intros Hans Hhook Hdrop Hf.
  destruct (static_common_runs l lazy w ehdr ps param lo Hans Hhook Hdrop Hf) as (c & l' & w' & Hrun & Hst & Him & Hfree).
  exists c, l', w'. split; [by apply load_exec_common|]. split; [by apply (load_elf_common o false _ _ _ _ _ _ _ not_dylib_false Hrun)|].
  split; [done|]. split.
  - intros Hfr p Hp Hld. pose proof (se_image _ _ _ _ _ _ _ _ Hst p Hp Hld) as Hsh.
    rewrite (base_ok _ (ia_segments _ _ _ _ _ Him)), (ia_offset _ _ _ _ _ Him), (Hfree Hfr), Z.sub_diag in Hsh. exact Hsh.
  - intros Nat scope pre_find unknown v. unfold exec_relocate. cbn [exec_common].
    rewrite (se_relocation _ _ _ _ _ _ _ _ Hst), (se_entry _ _ _ _ _ _ _ _ Hst). done.
Qed.

(** C36: an executable's address is a hint.  If a byte at its entry point is in use, the
    platform maps the segments somewhere else: loading and relocating succeed all the
    same, and the entry point handed out is the address in the file, where there still
    is what was there before; [ElfCommonPart::entry] adds the load base, but
    [RelocatedExec::entry] does not. *)
Theorem exec_entry_elsewhere budget l lazy w ehdr ps param lo :
  MmapFresh Mm budget -> Z.of_nat (size (mem w)) <= budget ->
  MmapAnswers Mm room limit (Some lo) -> ld_hook l = None ->
  (forall w, exists w', obj_drop o w = (Ok tt, w') /\ mem w' = mem w) ->
  static_file ehdr ps param lo -> lo <= e_entry ehdr < lo + pm_len param -> is_Some (mem w !! e_entry ehdr) ->
  exists c l' w', load_exec l o lazy w = (Ok (mk_exec c, l'), w') /\
    base (segments (inner (c_core c))) <> 0 /\
    (forall p, p ∈ ps -> is_load p -> shows (mem w') (base (segments (inner (c_core c)))) data p) /\
    mem w' !! e_entry ehdr = mem w !! e_entry ehdr /\
    (base (segments (inner (c_core c))) + e_entry ehdr < U64_LIM ->
       entry c = Ok (base (segments (inner (c_core c))) + e_entry ehdr)) /\
    forall `{Native} scope pre_find unknown v, exists r,
      exec_relocate (mk_exec c) scope pre_find unknown None v = (Ok r, v) /\ re_entry r = e_entry ehdr.
Proof.
  intros Hfr Hsize Hans Hhook Hdrop Hf Hent Hused.
  destruct (static_common_runs l lazy w ehdr ps param lo Hans Hhook Hdrop Hf) as (c & l' & w' & Hrun & Hst & [Ho Hl Hs _ Hout Hpl _] & _).
  pose proof (placed_fresh Mm budget _ _ _ Hpl Hsize) as Hfree. rewrite Hl in Hfree. destruct Hused as [x Hx].
  assert (Hno : ~ (memory_ptr (segments (inner (c_core c))) <= e_entry ehdr < memory_ptr (segments (inner (c_core c))) + pm_len param))
    by (intros Hin; by rewrite (Hfree _ Hin) in Hx).
  pose proof (base_ok _ Hs) as Hb. pose proof Hs as ([? ?] & ? & ?). pose proof (sf_room _ _ _ _ Hf).
  exists c, l', w'. split; [by apply load_exec_common|]. split; [lia|]. split; [apply (se_image _ _ _ _ _ _ _ _ Hst)|].
  split; [apply Hout; lia|]. split.
  - intros Hlt. unfold entry, core_base. rewrite (se_entry _ _ _ _ _ _ _ _ Hst), uadd_ok by lia. f_equal. lia.
  - intros Nat scope pre_find unknown v. exists (mk_relocated_exec (e_entry ehdr) (c_core c)). split; [|done].
    unfold exec_relocate. cbn [exec_common]. by rewrite (se_relocation _ _ _ _ _ _ _ _ Hst), (se_entry _ _ _ _ _ _ _ _ Hst).
Qed.
End static_run.

(** ** Executables with a dynamic section

    They are linked against themselves first, then against the libraries of the
    scope, in order. *)

Lemma read_array_length {A} (rd : memory -> Z -> outcome A) size m n : forall p l, read_array rd size m p n = Ok l -> length l = n.
Proof.
  induction n as [|n IH]; intros p l Hr; cbn [read_array] in Hr; [by injection Hr as <-|].
  inv_bind Hr. inv_bind Hr. injection Hr as <-. cbn. f_equal. by eapply IH.
Qed.

(** Tables with an entry are not empty. *)
Lemma not_empty_reads `{Config} m r R D P :
  read_slice read_rela RELA_SIZE m (rl_relative r) = Ok R -> read_slice read_rela RELA_SIZE m (rl_dynrel r) = Ok D ->
  read_slice read_rela RELA_SIZE m (rl_pltrel r) = Ok P -> R ++ D ++ P <> [] -> is_empty r = false.
Proof.
  unfold read_slice. intros HR%read_array_length HD%read_array_length HP%read_array_length Hne.
  unfold is_empty, sl_is_empty. apply not_true_is_false. intros He. apply Hne.
  assert (Hz : sl_len (rl_relative r) = 0 /\ sl_len (rl_dynrel r) = 0 /\ sl_len (rl_pltrel r) = 0) by lia.
  destruct Hz as (Z1 & Z2 & Z3). rewrite Z1 in HR. rewrite Z2 in HD. rewrite Z3 in HP.
  apply nil_length_inv in HR, HD, HP. by subst.
Qed.

Section dynamic_run.
Context `{Config} `{Arch} `{!ArchOk _} `{Native} `{Mm : Mmap} (file : Z -> Z -> Z) `{!MmapLaws Mm file}.
Context (room limit : Z) `{!MmapGrants Mm room limit} `{AA : ArcAlloc}.
Context `{EO : ElfObject T} (o : T) (data : bytes) `{!Serves o data}.
Hypothesis Hfile : forall fd j b, as_fd o = Some fd -> data !! j = Some b -> file fd (Z.of_nat j) = b.
Context (libs : list library) (pre : bytes -> option Z) (own : Z -> ElfSymbol * bytes).
Context (D P R I : list ElfRela) (init : option Z) (st : SymbolTable) (syms : list gsym).

Local Notation itself b := (mk_library b (move_table b st) syms).

(** The files: executables that can be linked, wherever they are, against their own
    symbols and the libraries. *)
Record dynamic_file (lazy : option bool) (ehdr : ElfHeader) (ps : list ElfPhdr) (param : MmapParam) (lo : Z) : Prop := {
  xf_headers : elf_headers data ehdr ps;
  xf_exec : is_dylib ehdr = false;
  xf_image : image_wf data ps;
  xf_param : create_segments ps true = Ok (param, lo);
  xf_room : 0 < lo <= room;
  xf_limit : pm_len param <= limit;
  xf_notes : headers_ok (exporting_file data own D P R I init st syms lazy lo (pm_len param) ps) data lo (pm_len param)
    (first_segs lo ps) ps;
  xf_dynamic : Exists (fun p => p_type p = PT_DYNAMIC) ps;
  xf_phdr : Exists (fun p => p_type p = PT_PHDR) ps;
  xf_table : table_mapped ehdr ps;
  xf_relro : forall p, last_of PT_GNU_RELRO ps = Some p ->
    lo <= p_vaddr p /\ 0 <= p_memsz p /\ p_vaddr p + p_memsz p < lo + pm_len param;
  xf_some : R ++ D ++ P <> [];
  xf_linkable : forall b, 0 <= b -> b + lo + pm_len param < U64_LIM ->
    linkable_at (loadable ps) (itself b :: libs) pre own D P R b lo (pm_len param);
}.

(** The handle, once the executable is in memory. *)
Lemma exec_links lazy c scope pre_find es m0 w1 ps param lo name lp ehdr :
  Z.of_nat (length data) < 2 ^ 63 -> dynamic_file lazy ehdr ps param lo ->
  library_of data (exporting_file data own D P R I init st syms lazy lo (pm_len param) ps) name lazy lp ehdr ps (mem w1) c ->
  image_at m0 (mem w1) lo (pm_len param) c -> arcs w1 !! arc_ptr (c_core c) = Some (mk_cell 1 0 false) ->
  map_outcome helper_of scope = Ok (lib_helper <$> libs) -> Forall (library_in m0) libs ->
  Forall (range_apart (image_start c) (image_len c)) (libs ≫= fun l => gnu_ranges (lib_table l) (lib_syms l)) ->
  (forall name w', pre_find name w' = (Ok (pre name), w')) -> (forall name v, pre name = Some v -> 0 <= v < U64_LIM) ->
  read_only_logs es -> (forall v f, is_Some (native_call v f (init_args (c_init c)))) ->
  exists w', exec_easy_relocate (mk_exec c) scope pre_find w1 = (Ok (mk_relocated_exec (e_entry ehdr) (c_core c)), w') /\
    impl_run data (loaded st syms c :: libs) pre own D P R I init (fun rela core => no_unknown rela core scope) pre_find ps m0 c w1 w'.
Proof.
  intros Hsize [Hf Hx Hwf Hc Hlo Hlim _ _ _ _ Hrelro Hne Hlk] Hlib [Hso Hsl Hs Hal Hout Hpl _] Harc Hscope Hlibs Hav Hpre Hpr Hes Hnat.
  destruct (library_segments data _ _ _ _ _ _ _ _ _ _ Hsize Hwf Hc Hlib Hso Hsl) as [Hsh HA].
  assert (Hlib' := library_of_weaken data _ _ _ _ _ _ _ _ _ (fun S ds HQ => ef_linked _ _ _ _ _ _ _ _ _ _ _ _ _ _ _ HQ) Hlib).
  destruct (lb_dynamic _ _ _ _ _ _ _ _ _ Hlib) as (p & ds & _ & _ & (S & HS & HQ) & Hhd & _).
  pose proof (base_ok _ Hs) as Hb. pose proof Hs as ([? ?] & ? & ?).
  pose proof (ef_exports _ _ _ _ _ _ _ _ _ _ _ _ _ _ _ HQ) as Hex. rewrite <- Hso, <- Hsl in Hex.
  destruct (handle_exports data (loadable ps) (mem w1) _ _ ds c st syms Hs Hsh HA Hhd Hex) as [Hst Hin].
  assert (Hat : linkable_at (loadable ps) (loaded st syms c :: libs) pre own D P R (base (image_of c)) lo (pm_len param))
    by (apply Hlk; lia).
  pose proof (slots_in_image _ _ _ _ _ _ _ (image_of c) ps lo (pm_len param) Hs HA Hat) as Hslots.
  destruct (scope_apart libs D P R (image_of c) m0 (mem w1) Hav Hlibs Hout Hslots) as [Hlibs1 Hkept].
  assert (Hall : Forall (fun r => forall x, x ∈ R ++ D ++ P -> stores x ->
      slot (base (image_of c)) x + 8 <= r.1 \/ r.1 + r.2 <= slot (base (image_of c)) x)
    ((loaded st syms c :: libs) ≫= fun l => gnu_ranges (lib_table l) (lib_syms l))).
  { cbn [mbind list_bind]. apply Forall_app. split; [|done]. apply Forall_forall. intros r Hr x Hxe Hstx. apply gnu_ranges_move in Hr.
    destruct (ef_apart _ _ _ _ _ _ _ _ _ _ _ _ _ _ _ HQ x _ Hxe Hstx Hr) as [?|?]; unfold slot, core_base in *; cbn [fst snd] in *; lia. }
  destruct (handle_links data (loaded st syms c :: libs) pre own D P R I init lazy c pre_find (fun rela core => no_unknown rela core scope) es m0 w1
    ps lo param name lp ehdr) as [Hlazy [w' Himp]]; try done.
  { by constructor. }
  exists w'. split; [|done].
  assert (Hemp : is_empty (c_relocation c) = false).
  { pose proof (hd_relocation _ _ _ _ _ _ _ Hhd) as Hrel. rewrite <- Hso, <- Hsl in Hat.
    assert (Hll := proj1 (ef_linked _ _ _ _ _ _ _ _ _ _ _ _ _ _ _ HQ)). rewrite <- Hso, <- Hsl in Hll.
    destruct (object_relocation data (loaded st syms c :: libs) pre own D P R I init (image_of c) w1 (loadable ps) S ds Hs Hal Hsh HA Hll Hat Hall)
      as (r & [HR HD HP _] & Hr).
    rewrite Hr in Hrel. injection Hrel as ->. by apply (not_empty_reads (mem w1) _ R D P). }
  assert (Hloc : local_scope c scope pre_find w1 = (Ok None, w1)) by (unfold local_scope, is_lazy; by rewrite Hlazy).
  unfold exec_easy_relocate. cbn [exec_common]. rewrite (bind_run _ _ _ _ _ Hloc). unfold exec_relocate. cbn [exec_common].
  rewrite Hemp. unfold core_symtab. rewrite Hst.
  assert (Hhelp : lift (map_outcome helper_of scope) w1 = (Ok (lib_helper <$> libs), w1)) by (unfold lift; by rewrite Hscope).
  rewrite (bind_run _ _ _ _ _ Hhelp). pose proof (ir_run _ _ _ _ _ _ _ _ _ _ _ _ _ _ _ _ Himp) as Hir. cbn [fmap list_fmap lib_helper loaded lib_base lib_table] in Hir.
  unfold core_base in *. rewrite (bind_run _ _ _ _ _ Hir). by rewrite (lb_entry _ _ _ _ _ _ _ _ _ Hlib).
Qed.

(** C5: a dynamic executable, from its file to its entry point.  A well-formed executable
    without symbol versions, whose references resolve to definitions without a resolver
    function, and whose functions return when they are called, is loaded by [load_exec] and [load] alike and linked against itself, then
    against the libraries of the scope.  When the first initialiser starts each slot
    holds the word of the abstract linker for that order less the addend that the code
    drops (S where a REL_SYMBOLIC entry with an addend calls for S + A, the word itself
    in every other case), the rest of the image is the file's and the memory outside is
    as it was; the initialisers are called in order, and the entry point of the header
    is handed out.  If nothing was mapped at the addresses it was linked at, the load
    base is 0 and that entry point is in its image. *)
Theorem load_exec_links l lazy scope pre_find es w ehdr ps param lo :
  MmapAnswers Mm room limit (Some lo) -> ld_hook l = None ->
  (forall w, exists w', obj_drop o w = (Ok tt, w') /\ mem w' = mem w) ->
  dynamic_file lazy ehdr ps param lo -> lo <= e_entry ehdr < lo + pm_len param ->
  map_outcome helper_of scope = Ok (lib_helper <$> libs) -> Forall (library_in (mem w)) libs ->
  MmapAvoids Mm (libs ≫= fun l => gnu_ranges (lib_table l) (lib_syms l)) ->
  (forall name w', pre_find name w' = (Ok (pre name), w')) -> (forall name v, pre name = Some v -> 0 <= v < U64_LIM) ->
  read_only_logs es -> (forall v f args, is_Some (native_call v f args)) ->
  exists c l' w1 w',
    load_exec l o lazy w = (Ok (mk_exec c, l'), w1) /\ load l o lazy w = (Ok (Elf_Exec (mk_exec c), l'), w1) /\
    exec_easy_relocate (mk_exec c) scope pre_find w1 = (Ok (mk_relocated_exec (e_entry ehdr) (c_core c)), w') /\
    impl_run data (loaded st syms c :: libs) pre own D P R I init (fun rela core => no_unknown rela core scope) pre_find ps (mem w) c w1 w' /\
    (free_range (mem w) lo (pm_len param) -> base (image_of c) = 0 /\ in_image (image_of c) (e_entry ehdr) 1).
Proof.
  intros Hans Hhook Hdrop Hd Hent Hscope Hlibs Hav Hpre Hpr Hes Hnat. pose proof Hd as [Hf Hx Hwf Hc [Hlo Hroom] Hlim Hok Hdyn Hph Htab _ _ _].
  destruct (load_common_runs file room limit o data Hfile (exporting_file data own D P R I init st syms lazy lo (pm_len param) ps) not_dylib
    l lazy w ehdr ps param lo) as (c & l' & w1 & Hrun & Hlib & Him & Harc & Hfree); rewrite ?Hx; try done.
  { by intros S ds [[[] _] _ _]. }
  { unfold not_dylib. by rewrite Hx. }
  rewrite Hx in Hrun.
  destruct (exec_links lazy c scope pre_find es (mem w) w1 ps param lo _ _ _ (serves_size (o := o)) Hd Hlib Him Harc Hscope Hlibs
    (placed_avoids Mm _ _ _ _ (ia_placed _ _ _ _ _ Him)) Hpre Hpr Hes) as (w' & Hrel & Himp); [done|].
  exists c, l', w1, w'. split; [by apply load_exec_common|]. split; [by apply (load_elf_common o false _ _ _ _ _ _ _ not_dylib_false Hrun)|].
  split; [done|]. split; [done|]. intros Hfr. destruct Him as [Ho Hl Hs _ _ _ _]. rewrite (base_ok _ Hs). unfold in_image.
  rewrite Hl, Ho, (Hfree Hx Hfr). lia.
Qed.
End dynamic_run.

(** ** Example: a static executable

    800 bytes in one segment at 65536, with its entry point after the headers. *)

Definition exec_ehdr (entry phnum : Z) : ElfHeader :=
  mk_ehdr (ELFMAGIC ++ [2; 1; 1; 0] ++ replicate 8 0) 2 62 1 entry 64 0 0 64 56 phnum 0 0 0.
Definition exec_ehdr_bytes (entry phnum : Z) : bytes :=
  ELFMAGIC ++ [2; 1; 1; 0] ++ replicate 8 0 ++
  pack [(2%nat, 2); (2%nat, 62); (4%nat, 1); (8%nat, entry); (8%nat, 64); (8%nat, 0); (4%nat, 0);
        (2%nat, 64); (2%nat, 56); (2%nat, phnum); (2%nat, 0); (2%nat, 0); (2%nat, 0)].

Definition static_phdrs : list ElfPhdr := [mk_phdr PT_LOAD 5 0 65536 65536 800 800 4096].
Definition static_elf : bytes :=
  exec_ehdr_bytes 65656 1 ++ mjoin (phdr_bytes <$> static_phdrs) ++ replicate 680 144.
Definition static_object : ElfObject ElfFile := @LibcFile.object (demo_files (fun _ => static_elf)).
Definition static_param : MmapParam := mk_param None 4096 5 MAP_PRIVATE (mk_range 800 0).

Lemma static_length : Z.of_nat (length static_elf) = 800.
Proof. vm_compute. reflexivity. Qed.

Lemma static_serves : Serves (H := static_object) (mk_file (bytes_of "prog") 3) static_elf.
Proof.
  apply (ElfFile_serves (F := demo_files (fun _ => static_elf)) (fun _ => static_elf) world_pos (bytes_of "prog") 3).
  by rewrite static_length.
Qed.

Lemma static_image_wf data : Z.of_nat (length data) = 800 -> image_wf data static_phdrs.
Proof.
  intros Hl. constructor.
  - unfold file_ok. rewrite Hl. repeat constructor; simpl; unfold load_ok, is_load; simpl; intros; try done; lia.
  - by apply Exists_cons_hd.
  - repeat constructor; done.
  - intros p Hp Hld _. by apply list_elem_of_singleton in Hp as ->.
Qed.

Lemma static_headers : @elf_headers demo_arch static_elf (exec_ehdr 65656 1) static_phdrs.
Proof. constructor; try (vm_compute; first [reflexivity|discriminate]). Qed.

Lemma static_demo_file : @static_file dev_config demo_arch SLOT SLOT static_elf (exec_ehdr 65656 1) static_phdrs static_param 65536.
Proof.
  constructor; [exact static_headers|done|exact (static_image_wf _ static_length)|vm_compute; reflexivity|done|done|vm_compute; exact I|].
  by intros [?|[]%Exists_nil]%Exists_cons.
Qed.

Notation static_load l w := (@load_exec dev_config demo_arch (@Libc.MmapImpl (slot_kernel (fun _ => static_elf))) demo_alloc ElfFile
  static_object l (mk_file (bytes_of "prog") 3) None w).

Lemma static_exec_loads_witness :
  exists c l' w', static_load Loader_new empty_world = (Ok (mk_exec c, l'), w') /\
    shows (mem w') 0 static_elf (mk_phdr PT_LOAD 5 0 65536 65536 800 800 4096) /\
    @exec_relocate dev_config demo_arch demo_native (mk_exec c) [] demo_pre_find no_unknown None w' =
      (Ok (mk_relocated_exec 65656 (c_core c)), w').
Proof.
  destruct (@static_exec_loads dev_config demo_arch (@Libc.MmapImpl (slot_kernel (fun _ => static_elf))) (demo_file static_elf) _
    SLOT SLOT _ demo_alloc ElfFile static_object (mk_file (bytes_of "prog") 3) static_elf static_serves
    ltac:(intros fd j b _ Hx; unfold demo_file; by rewrite Nat2Z.id, Hx) Loader_new None empty_world (exec_ehdr 65656 1) static_phdrs
    static_param 65536) as (c & l' & w' & Hrun & _ & _ & Hshow & Hrel).
  - exact (libc_answers (demo_file static_elf) SLOT SLOT 65536).
  - reflexivity.
  - intros w. by eexists.
  - exact static_demo_file.
  - exists c, l', w'. split; [exact Hrun|]. split; [|exact (Hrel demo_native [] demo_pre_find no_unknown w')].
    apply Hshow; [intros a _; reflexivity|by left|reflexivity].
Defined.

(** The same, where a byte is in use. *)
Definition taken_world : world := mk_world {[65656 := 204]} [] 0 ∅.

Lemma exec_entry_elsewhere_witness :
  exists c l' w', static_load Loader_new taken_world = (Ok (mk_exec c, l'), w') /\
    base (segments (inner (c_core c))) <> 0 /\ mem w' !! 65656 = Some 204 /\
    exists r, @exec_relocate dev_config demo_arch demo_native (mk_exec c) [] demo_pre_find no_unknown None w' = (Ok r, w') /\
      re_entry r = 65656.
Proof.
  destruct (@exec_entry_elsewhere dev_config demo_arch (@Libc.MmapImpl (slot_kernel (fun _ => static_elf))) (demo_file static_elf) _
    SLOT SLOT _ demo_alloc ElfFile static_object (mk_file (bytes_of "prog") 3) static_elf static_serves
    ltac:(intros fd j b _ Hx; unfold demo_file; by rewrite Nat2Z.id, Hx) BUDGET Loader_new None taken_world (exec_ehdr 65656 1) static_phdrs
    static_param 65536) as (c & l' & w' & Hrun & Hb & _ & Hkept & _ & Hrel).
  - exact (libc_fresh BUDGET).
  - vm_compute. discriminate.
  - exact (libc_answers (demo_file static_elf) SLOT SLOT 65536).
  - reflexivity.
  - intros w. by eexists.
  - exact static_demo_file.
  - split; [discriminate|reflexivity].
  - by eexists.
  - exists c, l', w'. split; [exact Hrun|]. split; [exact Hb|]. split; [exact Hkept|].
    exact (Hrel demo_native [] demo_pre_find no_unknown w').
Defined.

(** ** Example: a dynamic executable

    Laid out as the libraries of [Demo.v], at 65536.  It calls [print], which the user
    gives, and refers to its own [main]. *)

Definition prog_base : Z := 65536.
Definition prog_tiny : tiny :=
  mk_tiny [bytes_of "print"] [(bytes_of "main", 18, prog_base + 896)] [(2, prog_base + 840)] [(1, prog_base + 848)].
Definition prog_relative : list ElfRela := [mk_rela (prog_base + 824) 8 (prog_base + 872)].
Definition prog_dynrel : list ElfRela := ty_dynrel prog_tiny.
Definition prog_pltrel : list ElfRela := ty_pltrel prog_tiny.
Definition prog_dyns : list Dyn :=
  [mk_dyn DT_GNU_HASH (prog_base + 496); mk_dyn DT_SYMTAB (prog_base + 536); mk_dyn DT_STRTAB (prog_base + 656);
   mk_dyn DT_RELA (prog_base + 696); mk_dyn DT_RELASZ 48; mk_dyn DT_RELACOUNT 1;
   mk_dyn DT_JMPREL (prog_base + 744); mk_dyn DT_PLTRELSZ 24;
   mk_dyn DT_INIT (prog_base + 864); mk_dyn DT_INIT_ARRAY (prog_base + 824); mk_dyn DT_INIT_ARRAYSZ 8; mk_dyn DT_FLAGS 8].
Definition prog_load : ElfPhdr := mk_phdr PT_LOAD 6 0 prog_base prog_base 1000 1000 4096.
Definition prog_phdrs : list ElfPhdr :=
  [mk_phdr PT_PHDR 4 64 (prog_base + 64) (prog_base + 64) 168 168 8; prog_load;
   mk_phdr PT_DYNAMIC 6 240 (prog_base + 240) (prog_base + 240) 208 208 8].
Definition prog_memory : memory := image
  [(0, exec_ehdr_bytes (prog_base + 896) 3); (64, mjoin (phdr_bytes <$> prog_phdrs));
   (240, dyn_bytes (prog_dyns ++ [mk_dyn DT_NULL 0])); (496, ty_hash prog_tiny);
   (536, replicate 24 0 ++ mjoin (symbol_bytes ∘ gs_sym <$> ty_symbols prog_tiny));
   (656, [0] ++ mjoin ((fun s => gs_name s ++ [0]) <$> ty_symbols prog_tiny));
   (696, mjoin (rela_bytes <$> prog_relative ++ prog_dynrel ++ prog_pltrel))].
Definition prog_elf : bytes := let m := prog_memory in (fun a => default 0 (m !! a)) <$> seqZ 0 1000.
Definition prog_symtab : SymbolTable := move_table prog_base (ty_symtab prog_tiny).
Definition prog_syms : list gsym := ty_syms prog_tiny.
Definition prog_param : MmapParam := mk_param None 4096 3 MAP_PRIVATE (mk_range 1000 0).
Definition prog_object : ElfObject ElfFile := @LibcFile.object (demo_files (fun _ => prog_elf)).

Lemma prog_length : Z.of_nat (length prog_elf) = 1000.
Proof. unfold prog_elf. by rewrite length_fmap, length_seqZ. Qed.

Lemma prog_serves : Serves (H := prog_object) (mk_file (bytes_of "prog") 3) prog_elf.
Proof.
  apply (ElfFile_serves (F := demo_files (fun _ => prog_elf)) (fun _ => prog_elf) world_pos (bytes_of "prog") 3).
  by rewrite prog_length.
Qed.

Lemma prog_headers : @elf_headers demo_arch prog_elf (exec_ehdr (prog_base + 896) 3) prog_phdrs.
Proof. constructor; try (vm_compute; first [reflexivity|discriminate]). Qed.

Lemma prog_image_wf data : Z.of_nat (length data) = 1000 -> image_wf data prog_phdrs.
Proof.
  intros Hl. constructor.
  - unfold file_ok. rewrite Hl. unfold prog_phdrs, prog_load, prog_base. repeat constructor; simpl; unfold load_ok, is_load; simpl; intros; try done; lia.
  - apply Exists_cons_tl. by apply Exists_cons_hd.
  - repeat constructor; done.
  - intros p Hp Hld _. repeat (apply elem_of_cons in Hp as [->|Hp]; [done|]). by apply not_elem_of_nil in Hp.
Qed.

Lemma prog_in_file S a len : prog_load ∈ S -> 0 <= a -> a + len <= 1000 -> in_file S (prog_base + a) len a.
Proof. intros HS H1 H2. eexists. split; [exact HS|]. unfold prog_load, prog_base. simpl. lia. Qed.

Lemma prog_table_mapped : table_mapped (exec_ehdr (prog_base + 896) 3) prog_phdrs.
Proof.
  constructor.
  - intros p Hp Ht. apply elem_of_cons in Hp as [->|Hp].
    + split; [done|]. apply prog_in_file; [by left|simpl; lia..].
    + repeat (apply elem_of_cons in Hp as [->|Hp]; [done|]). by apply not_elem_of_nil in Hp.
  - left. by apply Exists_cons_hd.
  - intros p Hp Hl. repeat (apply elem_of_cons in Hp as [->|Hp]; [done|]). by apply not_elem_of_nil in Hp.
Qed.

Lemma prog_wf : dyn_link_wf prog_base 4096 prog_dyns.
Proof. change prog_base with 65536. link_wf prog_dyns. Qed.

Lemma prog_refs S : prog_load ∈ S -> @dyn_refs dev_config prog_elf prog_base 4096 S prog_dyns.
Proof.
  intros HS. constructor.
  - exact prog_wf.
  - intros h [= <-]. exists 496. rewrite prog_length. split; [apply prog_in_file; [done|lia..]|lia].
  - constructor.
  - discriminate.
  - discriminate.
  - split; vm_compute; discriminate.
  - vm_compute. discriminate.
  - right. reflexivity.
Qed.

Local Notation prog_image := (link_image prog_elf (loadable prog_phdrs)).

Lemma prog_table : gnu_table prog_image prog_symtab prog_syms.
Proof.
  constructor.
  - by constructor; vm_compute.
  - intros i; each_symbol i s Hs; (split; [by vm_compute|apply cstr_at_check; by vm_compute]).
  - intros i; each_symbol i s Hs; check_chain.
  - intros i j s s' _ Hs Hs'. unfold bucket_of. change (nbucket (header (hashtab prog_symtab))) with 1. by rewrite !Z.mod_1_r.
  - change (nbucket (header (hashtab prog_symtab))) with 1. intros b Hb. assert (b = 0) as -> by lia. by vm_compute.
  - change (nbloom (header (hashtab prog_symtab))) with 1. intros b Hb. assert (b = 0) as -> by lia. eexists; by vm_compute.
  - intros i s w Hs; revert s Hs w; each_symbol i s Hs; intros w Hw; vm_compute in Hw; injection Hw as <-; by vm_compute.
Qed.

Lemma prog_own_in x : x ∈ prog_dynrel ++ prog_pltrel ->
  own_in (link_symtab prog_dyns) (ty_own prog_tiny) prog_image (r_symbol x) /\
  ranges_in 0 (prog_base + 4096) (own_ranges (link_symtab prog_dyns) (ty_own prog_tiny) (r_symbol x)).
Proof.
  intros Hx.
  assert (Hall : Forall (fun x => ranges_in 0 (prog_base + 4096) (own_ranges (link_symtab prog_dyns) (ty_own prog_tiny) (r_symbol x)))
    (prog_dynrel ++ prog_pltrel)) by (apply (bool_decide_unpack _); by vm_compute).
  rewrite Forall_forall in Hall. specialize (Hall x Hx). split; [|exact Hall]. revert Hall. cbn in Hx.
  repeat (apply elem_of_cons in Hx as [->|Hx];
    [intros Hr; constructor; [by exists (prog_base + 4096)|by vm_compute|apply cstr_at_check; by vm_compute]|]). by apply elem_of_nil in Hx.
Qed.

Lemma prog_library S : prog_load ∈ S ->
  @linked_file dev_config (x86_64 0) prog_elf (ty_own prog_tiny) prog_dynrel prog_pltrel prog_relative prog_relative
    (Some (prog_base + 864)) None prog_base 4096 prog_phdrs S prog_dyns.
Proof.
  intros HS. split; [|vm_compute; done]. constructor.
  - by apply prog_refs.
  - vm_compute. reflexivity.
  - vm_compute. reflexivity.
  - vm_compute. reflexivity.
  - vm_compute. reflexivity.
  - vm_compute. reflexivity.
  - reflexivity.
  - reflexivity.
  - apply rebased_one; [by left|reflexivity..].
  - intros x Hx _. by apply prog_own_in.
  - apply apart_check. apply (bool_decide_unpack _). by vm_compute.
Qed.

Lemma prog_exports : exports prog_elf (loadable prog_phdrs) prog_base 4096 prog_dyns prog_symtab prog_syms.
Proof.
  constructor.
  - done.
  - exists (prog_base + 496). split_and!; [reflexivity|done|by vm_compute|by vm_compute].
  - exact prog_table.
  - apply (bool_decide_unpack _). by vm_compute.
  - apply mapped_check. by vm_compute.
  - intros i; each_symbol i s Hs; by vm_compute.
Qed.

Lemma prog_exporting S : prog_load ∈ S ->
  @exporting_file dev_config (x86_64 0) prog_elf (ty_own prog_tiny) prog_dynrel prog_pltrel prog_relative prog_relative
    (Some (prog_base + 864)) prog_symtab prog_syms None prog_base 4096 prog_phdrs S prog_dyns.
Proof.
  intros HS. constructor; [by apply prog_library|exact prog_exports|]. apply apart_check. apply (bool_decide_unpack _). by vm_compute.
Qed.

Lemma prog_notes :
  headers_ok (@exporting_file dev_config (x86_64 0) prog_elf (ty_own prog_tiny) prog_dynrel prog_pltrel prog_relative prog_relative
    (Some (prog_base + 864)) prog_symtab prog_syms None prog_base 4096 prog_phdrs) prog_elf prog_base 4096
    (first_segs prog_base prog_phdrs) prog_phdrs.
Proof.
  cbn [headers_ok prog_phdrs]. rewrite decide_False, decide_True, decide_False by done. split; [|split; [|done]].
  - by split_and!.
  - split_and!; try done. intros _. split; [unfold link_in, prog_base; simpl; lia|]. exists prog_dyns. split_and!.
    + exists 240. split; [apply prog_in_file; [by left|vm_compute; discriminate..]|]. cbn [dyn_array prog_dyns].
      split_and!; try (by vm_compute). exists (mk_dyn DT_NULL 0). by vm_compute.
    + repeat constructor; intros _; done.
    + by eexists.
    + exact prog_wf.
    + apply prog_exporting. by left.
Qed.

(** [main] is found in the executable itself, [print] is the user's. *)
Lemma prog_linkable b : 0 <= b -> b + prog_base + 4096 < U64_LIM ->
  @linkable_at (x86_64 0) (loadable prog_phdrs) [mk_library b (move_table b prog_symtab) prog_syms] demo_pre (ty_own prog_tiny)
    prog_dynrel prog_pltrel prog_relative b prog_base 4096.
Proof.
  intros Hb Hb'. unfold prog_base in Hb'. constructor.
  - apply (bool_decide_unpack _). by vm_compute.
  - split; (constructor; [|constructor]).
    + apply deo_symbol; [by left|]. constructor.
      * by eexists.
      * intros _ b1 s1 Hd. vm_compute in Hd. injection Hd as <- <-. split; [discriminate|]. change (0 <= b + 66432 < U64_LIM). lia.
      * done.
    + split; [done|]. constructor; [by eexists|intros Hp; by vm_compute in Hp|done].
  - intros x Hx _. exists prog_load. split; [by left|]. cbn in Hx.
    repeat (apply elem_of_cons in Hx as [->|Hx]; [by split|]). by apply elem_of_nil in Hx.
  - unfold entries_apart. cbn. repeat (constructor; [repeat (constructor; [cbn; lia|]); constructor|]). constructor.
Qed.

Lemma prog_file : @dynamic_file dev_config (x86_64 0) SLOT SLOT prog_elf [] demo_pre (ty_own prog_tiny) prog_dynrel prog_pltrel
  prog_relative prog_relative (Some (prog_base + 864)) prog_symtab prog_syms None (exec_ehdr (prog_base + 896) 3) prog_phdrs prog_param prog_base.
Proof.
  constructor; [exact prog_headers|done|exact (prog_image_wf _ prog_length)|vm_compute; reflexivity|done|done|exact prog_notes| | | |done|done| ].
  - apply Exists_cons_tl, Exists_cons_tl. by apply Exists_cons_hd.
  - by apply Exists_cons_hd.
  - exact prog_table_mapped.
  - exact prog_linkable.
Qed.

Lemma load_exec_links_witness :
  exists c l' w1 w',
    @load_exec dev_config (x86_64 0) (@Libc.MmapImpl (slot_kernel (fun _ => prog_elf))) demo_alloc ElfFile prog_object
      Loader_new (mk_file (bytes_of "prog") 3) None empty_world = (Ok (mk_exec c, l'), w1) /\
    @exec_easy_relocate dev_config (x86_64 0) tiny_native (mk_exec c) [] (fun name => ret (demo_pre name)) w1 =
      (Ok (mk_relocated_exec 66432 (c_core c)), w') /\
    base (image_of c) = 0 /\
    exists wt, read_u64 (mem wt) 66384 = Ok demo_print /\ read_u64 (mem wt) 66376 = Ok 66432.
Proof.
  destruct (@load_exec_links dev_config (x86_64 0) _ tiny_native (@Libc.MmapImpl (slot_kernel (fun _ => prog_elf)))
    (demo_file prog_elf) _ SLOT SLOT _ demo_alloc ElfFile prog_object (mk_file (bytes_of "prog") 3) prog_elf prog_serves
    ltac:(intros fd j b _ Hx; unfold demo_file; by rewrite Nat2Z.id, Hx) [] demo_pre (ty_own prog_tiny) prog_dynrel prog_pltrel
    prog_relative prog_relative (Some (prog_base + 864)) prog_symtab prog_syms Loader_new None [] (fun name => ret (demo_pre name))
    (fun a n => [EvMprotect a n PROT_READ true]) empty_world (exec_ehdr (prog_base + 896) 3) prog_phdrs prog_param prog_base)
    as (c & l' & w1 & w' & Hload & _ & Hrel & Himp & Hfree).
  - exact (libc_answers (demo_file prog_elf) SLOT SLOT prog_base).
  - reflexivity.
  - intros w. by eexists.
  - exact prog_file.
  - done.
  - reflexivity.
  - constructor.
  - constructor. intros. constructor.
  - done.
  - intros name v Hv. unfold demo_pre in Hv. apply lookup_insert_Some in Hv as [[_ <-]|[_ ?]]; [by split|done].
  - intros a n v. reflexivity.
  - intros f v args. by eexists.
  - destruct Hfree as [Hb _]; [intros a _; reflexivity|].
    destruct (ir_tables _ _ _ _ _ _ _ _ _ _ _ _ _ _ _ _ Himp) as (wt & _ & [Hw _ _] & _). rewrite Hb in Hw.
    exists c, l', w1, w'. split; [exact Hload|]. split; [exact Hrel|]. split; [exact Hb|]. exists wt. split.
    + apply (Hw (mk_rela 66384 (Z.shiftl 1 32 + 7) 0) demo_print); [right; right; by left|reflexivity].
    + apply (Hw (mk_rela 66376 (Z.shiftl 2 32 + 6) 0) (prog_base + 896)); [right; by left|].
      unfold loaded, core_base. rewrite Hb. reflexivity.
Defined.
