(* ===== verification/MiniRun.v ===== *)
(** * MiniRun: the mini-loader, from its first instruction to its last

    [rust_main] of [src/mini-loader/src/main.rs] put together: it relocates itself, loads
    the program and the interpreter that the program names, and hands over the stack.
    The program and the interpreter are shared objects or executables with a dynamic
    section; the theorem says what the one that is jumped to finds in memory.  The
    mini-loader's own heap is set up by a parameter; what is allocated in it while the
    files are loaded is not modelled, so nothing is said of its bytes. *)

From S2P Require Import Prelude Machine Arch StrTab Version Mmap Trace Segment Dynamic Symbol Object UserData Loader Image Core.
From S2P Require Import Relocation Format Quiet MiniLoader Complete Linked Whole Chain Demo Exec.
#[local] Open Scope Z_scope.

(** ** Program files *)

(** The bytes and headers of a file, and the mapping they ask for. *)
Record prog_file := mk_prog_file {
  pf_data : bytes;
  pf_ehdr : ElfHeader;
  pf_phdrs : list ElfPhdr;
  pf_param : MmapParam;
  pf_lo : Z;
}.

Definition pf_len (P : prog_file) : Z := pm_len (pf_param P).

Section files.
Context `{Config} `{Arch} (room limit : Z).

(** A well-formed file with a dynamic section. *)
Record loadable_file (P : prog_file) : Prop := {
  lo_size : Z.of_nat (length (pf_data P)) < 2 ^ 63;
  lo_headers : elf_headers (pf_data P) (pf_ehdr P) (pf_phdrs P);
  lo_kind : is_dylib (pf_ehdr P) = false -> 0 < pf_lo P /\ Exists (fun p => p_type p = PT_PHDR) (pf_phdrs P);
  lo_image : image_wf (pf_data P) (pf_phdrs P);
  lo_param : create_segments (pf_phdrs P) true = Ok (pf_param P, pf_lo P);
  lo_room : pf_lo P <= room;
  lo_limit : pf_len P <= limit;
  lo_notes : headers_ok (dyn_refs (pf_data P) (pf_lo P) (pf_len P)) (pf_data P) (pf_lo P) (pf_len P)
    (first_segs (pf_lo P) (pf_phdrs P)) (pf_phdrs P);
  lo_dynamic : Exists (fun p => p_type p = PT_DYNAMIC) (pf_phdrs P);
  lo_table : table_mapped (pf_ehdr P) (pf_phdrs P);
  lo_entry : pf_lo P <= e_entry (pf_ehdr P) < pf_lo P + pf_len P;
}.

(** The handle [c] of the file in memory [m]: the image, the program headers, the entry
    point and the name of the interpreter. *)
Record in_place (P : prog_file) (c : ElfCommonPart) (m : memory) : Prop := {
  pl_image : forall p, p ∈ pf_phdrs P -> is_load p -> shows m (base (image_of c)) (pf_data P) p;
  pl_phdrs : read_slice read_phdr_at PHDR_SIZE m (core_phdrs (c_core c)) = Ok (pf_phdrs P);
  pl_table : in_image (image_of c) (sl_ptr (core_phdrs (c_core c))) (PHDR_SIZE * sl_len (core_phdrs (c_core c)));
  pl_segments : segments_ok (image_of c);
  pl_offset : seg_offset (image_of c) = pf_lo P;
  pl_len : image_len c = pf_len P;
  pl_mapped : mapped_range m (image_start c) (image_len c);
  pl_entry : c_entry c = e_entry (pf_ehdr P);
  pl_interp : opt_rel (fun p s => str_in_file (pf_data P) (loadable (pf_phdrs P)) (p_vaddr p) s)
    (last_of PT_INTERP (pf_phdrs P)) (c_interp c);
}.

(** Where the program starts. *)
Definition start_of (P : prog_file) (c : ElfCommonPart) : Z := base (image_of c) + e_entry (pf_ehdr P).

Lemma in_place_start P c m : loadable_file P -> in_place P c m ->
  entry c = Ok (start_of P c) /\ in_image (image_of c) (start_of P c) 1 /\ 0 <= start_of P c < U64_LIM.
Proof.
  intros Hl Hp. pose proof (lo_entry P Hl) as He. destruct Hp as [_ _ _ Hs Ho Hlen _ Hc _].
  pose proof (base_ok _ Hs) as Hb. pose proof Hs as ([? ?] & ? & ?). unfold start_of, in_image, entry, core_base.
  split; [rewrite Hc, uadd_ok by lia; f_equal; lia|lia].
Qed.

(** The header table is not empty, and is a slice of the address space. *)
Lemma in_place_table P c m : loadable_file P -> in_place P c m ->
  0 <= sl_ptr (core_phdrs (c_core c)) < U64_LIM /\ 0 <= sl_len (core_phdrs (c_core c)) < U64_LIM.
Proof.
  intros Hl [_ Hr [Ht1 Ht2] Hs _ _ _ _ _]. unfold read_slice in Hr. apply read_array_length in Hr.
  assert (Hne : (0 < length (pf_phdrs P))%nat) by (destruct (lo_dynamic P Hl); simpl; lia).
  pose proof Hs as ([? ?] & ? & ?). unfold PHDR_SIZE in *. lia.
Qed.

(** What is in place stays there as long as its image is not written to. *)
Lemma in_place_same P c m m' :
  loadable_file P -> in_place P c m -> same_range m m' (image_start c) (image_len c) -> in_place P c m'.
Proof.
  intros Hl [Hi Hr Ht Hs Ho Hlen Hm He Hint] Hsame.
  pose proof (segments_inside_file (pf_data P) (pf_phdrs P) _ _ (image_of c) (lo_size P Hl) (lo_image P Hl) (lo_param P Hl) Ho Hlen) as Hin.
  pose proof Hs as ([? ?] & ? & ?). pose proof (base_ok _ Hs) as Hb. constructor; try done.
  - intros q Hq Hld i Hx. rewrite Forall_forall in Hin. destruct (Hin q Hq Hld) as [[(? & ? & ? & _) _ _ [? ?]] _].
    pose proof (page_down_facts (p_vaddr q)) as F1. pose proof (page_up_facts (p_vaddr q + p_memsz q)) as F2.
    fold (seg_lo q) in F1. fold (seg_hi q) in F2. rewrite Hsame by lia. by apply Hi.
  - unfold read_slice in *. rewrite <- Hr. destruct Ht as [Lt1 Lt2]. apply read_phdrs_shift. intros i Hx. apply Hsame.
    unfold PHDR_SIZE in *. lia.
  - intros a Ha. rewrite Hsame by done. by apply Hm.
Qed.

Lemma in_place_len P c m : loadable_file P -> in_place P c m -> 0 < image_len c.
Proof. intros Hl Hp. rewrite (pl_len _ _ _ Hp). pose proof (lo_entry P Hl). lia. Qed.
End files.

(** ** Loading them *)

Section load.
Context `{Config} `{Arch} `{K : Kernel} `{F : Files} `{AA : ArcAlloc} (file : Z -> Z -> Z) (room limit budget : Z).
Context `{!KernelLaws K file} `{!KernelGrants K room limit} `{!KernelHints K room limit} `{!KernelFresh K budget}.

(** Opening [name] gives a file with the bytes of [P]. *)
Definition finds (name : bytes) (P : prog_file) : Prop :=
  forall w, exists f w0, SyscallFile.from_path name w = (Ok f, w0) /\ mem w0 = mem w /\
    Serves (H := SyscallFile.object) f (pf_data P) /\
    (forall j b, pf_data P !! j = Some b -> file (f_fd f) (Z.of_nat j) = b) /\
    forall v, exists v', SyscallFile.drop_file f v = (Ok tt, v') /\ mem v' = mem v.

Lemma load_path_runs name P w :
  finds name P -> loadable_file room limit P -> Z.of_nat (size (mem w)) <= budget ->
  exists c w', load_path name w = (Ok (elf_of (is_dylib (pf_ehdr P)) c), w') /\ in_place P c (mem w') /\
    free_range (mem w) (image_start c) (image_len c) /\ same_outside (mem w) (mem w') (image_start c) (image_len c).
Proof.
  intros Hfinds Hl Hsize. destruct (Hfinds w) as (f & w0 & Hopen & Hm0 & Hserves & Hfile & Hdrop). rewrite <- Hm0 in *.
  pose proof Hl as [_ Hh Hk Hwf Hc Hroom Hlim Hok Hdyn Htab _].
  assert (Hfile' : forall fd j b, Some (f_fd f) = Some fd -> pf_data P !! j = Some b -> file fd (Z.of_nat j) = b)
    by (intros fd j b [= <-]; apply Hfile).
  destruct (load_common_runs (Mm := Syscall.MmapImpl) (EO := SyscallFile.object) file room limit f (pf_data P) Hfile'
    (dyn_refs (pf_data P) (pf_lo P) (pf_len P)) (fun h => eqb (is_dylib h) (is_dylib (pf_ehdr P))) Loader_new None w0 (pf_ehdr P) (pf_phdrs P) (pf_param P) (pf_lo P))
    as (c & l' & w' & Hrun & Hlib & [Ho Hlen Hs Hal Hout Hpl Hmap] & _ & _); try done.
  { destruct (is_dylib (pf_ehdr P)); [exact (free_answers _ file room limit)|exact (syscall_answers file room limit (pf_lo P))]. }
  { intros Hx. by apply Hk. }
  { by destruct (is_dylib (pf_ehdr P)). }
  { intros Hx. by apply Hk. }
  exists c, w'. split; [|split; [|split; [by apply (placed_fresh Syscall.MmapImpl budget)|done]]].
  - unfold load_path. rewrite (bind_run _ _ _ _ _ Hopen). unfold easy_load.
    assert (Hany : forall h, eqb (is_dylib h) (is_dylib (pf_ehdr P)) = true -> is_dylib h = is_dylib (pf_ehdr P))
      by (intros h; apply eqb_prop).
    by rewrite (bind_run _ _ _ _ _ (load_elf_common (Mm := Syscall.MmapImpl) (EO := SyscallFile.object) f _ _ _ _ _ _ _ _ Hany Hrun)).
  - destruct Hlib as [_ He Hi Hp Ht _ Hint _ _]. by constructor.
Qed.

(** What was in use before is not in the image [c]. *)
Definition beside (m : memory) (c : ElfCommonPart) : Prop :=
  forall p n, 0 < n -> mapped_range m p n -> image_start c + image_len c <= p \/ p + n <= image_start c.

Lemma load_path_beside name P w :
  finds name P -> loadable_file room limit P -> Z.of_nat (size (mem w)) <= budget ->
  exists c w', load_path name w = (Ok (elf_of (is_dylib (pf_ehdr P)) c), w') /\ in_place P c (mem w') /\ beside (mem w) c /\
    (forall p n, 0 < n -> mapped_range (mem w) p n -> same_range (mem w) (mem w') p n) /\
    Z.of_nat (size (mem w')) <= Z.of_nat (size (mem w)) + pf_len P.
Proof.
  intros Hf Hl Hsize. destruct (load_path_runs name P w Hf Hl Hsize) as (c & w' & Hrun & Hp & Hfree & Hout).
  pose proof (in_place_len _ _ _ _ _ Hl Hp) as Hlen.
  assert (Hb : beside (mem w) c) by (intros p n Hn Hm; by apply (mapped_free_apart (mem w))).
  exists c, w'. split_and!; [done|done|done| |].
  - intros p n Hn Hm. apply (same_outside_range _ _ (image_start c) (image_len c)); [done|by apply Hb].
  - rewrite <- (pl_len _ _ _ Hp). apply size_outside with (p := image_start c); [done|lia].
Qed.

(** The interpreter that the program names is there. *)
Definition interp_ok (P : prog_file) (L : option prog_file) : Prop :=
  match last_of PT_INTERP (pf_phdrs P), L with
  | Some p, Some L => loadable_file room limit L /\
      forall s, str_in_file (pf_data P) (loadable (pf_phdrs P)) (p_vaddr p) s -> finds s L
  | None, None => True
  | _, _ => False
  end.

Lemma interp_runs P L c w :
  interp_ok P L -> in_place P c (mem w) -> Z.of_nat (size (mem w)) <= budget ->
  exists d w',
    (match interp c with
     | Some interp_name => let! e := unwrap_result (load_path interp_name) in ret (Some (elf_common e))
     | None => ret None
     end) w = (Ok d, w') /\
    opt_rel (fun L d => loadable_file room limit L /\ in_place L d (mem w') /\ beside (mem w) d) L d /\
    (forall p n, 0 < n -> mapped_range (mem w) p n -> same_range (mem w) (mem w') p n).
Proof.
  intros Hok Hp Hsize. pose proof (pl_interp _ _ _ Hp) as Hint. unfold interp_ok in Hok. unfold interp.
  destruct (last_of PT_INTERP (pf_phdrs P)) as [q|], L as [L|], (c_interp c) as [name|]; try done.
  - destruct Hok as [Hl Hfinds]. destruct (load_path_beside name L w (Hfinds name Hint) Hl Hsize) as (d & w' & Hrun & Hd & Hb & Hsame & _).
    exists (Some d), w'. split; [|done]. rewrite (bind_run _ _ _ _ _ (unwrap_result_run _ _ _ _ Hrun)).
    by destruct (is_dylib (pf_ehdr L)).
  - exists None, w. split_and!; [done|done|]. by intros p n _ _ a _.
Qed.
End load.

(** ** The whole run *)

(** How the mini-loader is started: the stack of the kernel, and its own relocations
    [relas] for its load base [b]; they are not on the stack. *)
Record started `{Arch} (m : memory) (sp dynv : Z) (args envs : list Z) (auxs : list Aux) (v : Z) (relas : list ElfRela) (b : Z) : Prop := {
  st_stack : words_at m sp (stack_words args envs auxs v);
  st_range : 0 <= sp /\ sp + 8 * Z.of_nat (length (stack_words args envs auxs v)) < U64_LIM;
  st_envs : Forall (fun e => e <> 0) envs;
  st_auxs : Forall (fun a => aux_tag a <> 0) auxs;
  st_base : load_base m dynv (fold_left aux_step auxs (mk_aux_info 0 0 0)) b;
  st_table : exists ds rela n, dyn_array m dynv ds /\ last_val DT_RELA ds = Some rela /\ last_val DT_RELACOUNT ds = Some n /\
    0 <= rela + b < U64_LIM /\ read_slice read_rela RELA_SIZE m (mk_slice (rela + b) n) = Ok relas;
  st_slots : Forall (fun r => r_type r = REL_RELATIVE /\ 0 <= slot b r < U64_LIM /\
    0 <= b + r_addend r < U64_LIM /\ slot_mapped m (slot b r)) relas;
  st_apart : slots_apart ((fun r => word (slot b r) (b + r_addend r)) <$> relas);
  st_off_stack : forall r, r ∈ relas ->
    slot b r + 8 <= sp \/ sp + 8 * Z.of_nat (length (stack_words args envs auxs v)) <= slot b r;
}.

(** A string at [p] that is not relocated. *)
Definition argument (m : memory) (relas : list ElfRela) (b p : Z) (s : bytes) : Prop :=
  0 <= p < U64_LIM /\ cstr_at m p s /\ utf8_valid s = true /\
  forall r, r ∈ relas -> slot b r + 8 <= p \/ p + Z.of_nat (length s) + 1 <= slot b r.

(** What the heap is made of: the static [ALLOCATOR], of [asize] bytes, and [HEAP_BUF]. *)
Definition heap_ranges `{StaticHeap} (asize : Z) : list (Z * Z) := [(ALLOCATOR, asize); (HEAP_BUF, HAEP_SIZE)].

(** The statics are in use, and neither the stack of [n] bytes at [sp], nor the string [s]
    at [p], nor a word that is relocated is in them. *)
Record heap_placed `{StaticHeap} (asize : Z) (m : memory) (sp n p : Z) (s : bytes) (relas : list ElfRela) (b : Z) : Prop := {
  hp_mapped : Forall (fun r => mapped_range m r.1 r.2) (heap_ranges asize);
  hp_stack : Forall (range_apart sp n) (heap_ranges asize);
  hp_string : Forall (range_apart p (Z.of_nat (length s) + 1)) (heap_ranges asize);
  hp_slots : forall r, r ∈ relas -> Forall (range_apart (slot b r) 8) (heap_ranges asize);
}.

Lemma apart_uncovered q k rs a : Forall (range_apart q k) rs -> q <= a < q + k -> ~ covered rs a.
Proof.
  intros Hf Ha (r & Hr & Hra)%Exists_exists. rewrite Forall_forall in Hf. specialize (Hf r Hr). unfold range_apart in Hf. lia.
Qed.

(** Only the heap changes when it is set up. *)
Lemma init_heap_run `{SH : StaticHeap} asize `{!StaticHeapLaws SH asize} w :
  Forall (fun r => mapped_range (mem w) r.1 r.2) (heap_ranges asize) ->
  exists m, init_heap w = (Ok tt, set_mem m w) /\ same_dom (mem w) m /\
    (forall a, ~ covered (heap_ranges asize) a -> m !! a = mem w !! a).
Proof.
  intros [HA [HB _]%Forall_cons]%Forall_cons. cbn [fst snd] in HA, HB. unfold init_heap.
  destruct (heap_writes HEAP_BUF HAEP_SIZE (mem w) HB) as [Hd Ho].
  pose proof (heap_value_size HEAP_BUF HAEP_SIZE (mem w)) as Hn.
  set (r := LockedHeap_new _ _ _) in *.
  assert (Hm : forall i, ALLOCATOR <= i < ALLOCATOR + Z.of_nat (length r.1) -> is_Some (r.2 !! i)).
  { intros i Hi. apply Hd, HA. lia. }
  exists (store_bytes r.2 ALLOCATOR r.1). split; [by rewrite write_bytes_run|]. split.
  - etransitivity; [exact Hd|]. by apply store_bytes_same_dom.
  - intros a Ha. rewrite store_bytes_out, Ho; [done| |].
    + intros Hin. apply Ha, Exists_exists. exists (HEAP_BUF, HAEP_SIZE). split; [right; by left|done].
    + intros Hin. apply Ha, Exists_exists. exists (ALLOCATOR, asize). split; [by left|cbn [fst snd]; lia].
Qed.

Lemma size_same_dom m m' : same_dom m m' -> size m' = size m.
Proof.
  intros Hd. rewrite <- !size_dom. f_equal. apply leibniz_equiv. intros a. rewrite !elem_of_dom. symmetry. apply Hd.
Qed.

(** The slots are written, and nothing comes into use or goes out of use. *)
Lemma slots_same_dom m m' (relas : list ElfRela) b :
  (forall r, r ∈ relas -> slot_mapped m (slot b r)) ->
  (forall r, r ∈ relas -> read_u64 m' (slot b r) = Ok (b + r_addend r)) ->
  (forall a, (forall r, r ∈ relas -> ~ (slot b r <= a < slot b r + 8)) -> m' !! a = m !! a) -> same_dom m m'.
Proof.
  intros Hm Hw Hout a. destruct (decide (Exists (fun r => slot b r <= a < slot b r + 8) relas)) as [Hin|Hno].
  - apply Exists_exists in Hin as (r & Hr & Ha). split; intros _; [by apply (read_u64_mapped m' (slot b r) _ (Hw r Hr))|by apply (Hm r Hr)].
  - rewrite Hout; [done|]. intros r Hr Ha. apply Hno, Exists_exists. by exists r.
Qed.

Section main.
Context `{Config} `{Arch} `{Console} `{SH : StaticHeap} (asize : Z) `{!StaticHeapLaws SH asize}.
Context `{K : Kernel} `{F : Files} `{AA : ArcAlloc} (file : Z -> Z -> Z) (room limit budget : Z).
Context `{!KernelLaws K file} `{!KernelGrants K room limit} `{!KernelHints K room limit} `{!KernelFresh K budget}.

(** The start-up, with the heap, and the name of the program. *)
Lemma start_runs sp dynv a0 arg args envs auxs v relas b name w :
  started (mem w) sp dynv (a0 :: arg :: args) envs auxs v relas b -> argument (mem w) relas b arg name ->
  heap_placed asize (mem w) sp (8 * Z.of_nat (length (stack_words (a0 :: arg :: args) envs auxs v))) arg name relas b ->
  exists m0 m,
    bootstrap sp dynv w = (Ok (Z.of_nat (length (a0 :: arg :: args)), auxv_of sp (a0 :: arg :: args) envs), set_mem m0 w) /\
    init_heap (set_mem m0 w) = (Ok tt, set_mem m w) /\
    (forall r, r ∈ relas -> read_u64 m (slot b r) = Ok (b + r_addend r)) /\
    (forall a, (forall r, r ∈ relas -> ~ (slot b r <= a < slot b r + 8)) -> ~ covered (heap_ranges asize) a ->
       m !! a = mem w !! a) /\ same_dom (mem w) m /\
    words_at m sp (stack_words (a0 :: arg :: args) envs auxs v) /\ cstr_at m arg name.
Proof.
  intros [Hst [Hsp Hend] Henv Haux Hbase (ds & rela & n & Hds & Hrela & Hn & Hrb & Hrd) Hslots Hap Hoff] (_ & Hname & _ & Hno).
  intros [Hmap Hstk Hstr Hsl].
  destruct (bootstrap_run sp dynv (a0 :: arg :: args) envs auxs v ds rela n b relas w) as (m0 & Hrun & Hw & Hout); [done..|].
  rewrite Forall_forall in Hslots.
  assert (Hd0 : same_dom (mem w) m0) by (apply (slots_same_dom _ _ relas b); [|done..]; intros r Hr; by apply Hslots).
  destruct (init_heap_run asize (set_mem m0 w)) as (m & Hheap & Hd & Hm); [|cbn [mem set_mem] in Hd, Hm].
  { eapply Forall_impl; [exact Hmap|]. intros r Hr a Ha. by apply Hd0, Hr. }
  exists m0, m. split_and!; [done|done| | | | |].
  - intros r Hr. rewrite <- (Hw r Hr). apply load_le_agree. intros a Ha. apply Hm. by eapply apart_uncovered; [apply (Hsl r Hr)|].
  - intros a Hns Hnh. by rewrite Hm, Hout.
  - by etransitivity.
  - apply (words_at_agree (mem w)); [|done]. intros a Ha. rewrite Hm by (by eapply apart_uncovered; [apply Hstk|]).
    apply Hout. intros r Hr Hx. destruct (Hoff r Hr); lia.
  - apply (cstr_at_shift (mem w) _ arg); [|done]. intros i Hi. symmetry. rewrite Hm by (eapply apart_uncovered; [apply Hstr|lia]).
    apply Hout. intros r Hr Hx. destruct (Hno r Hr); lia.
Qed.

(** A block of words that is in use. *)
Lemma words_mapped_range m p ws : words_at m p ws -> mapped_range m p (8 * Z.of_nat (length ws)).
Proof. intros Hw a Ha. by apply (words_at_mapped m p ws). Qed.

(** The vector that describes the program [c], started by [d]. *)
Definition program_auxs (P : prog_file) (L : option prog_file) (c : ElfCommonPart) (d : option ElfCommonPart) (arg : Z) (auxs : list Aux) : list Aux :=
  rewrite_aux (core_phdrs (c_core c)) (start_of P c) arg (start_of (default P L) (default c d)) <$> auxs.

(** Reading the name of the program. *)
Lemma name_runs sp a0 arg args envs auxs v name w :
  words_at (mem w) sp (stack_words (a0 :: arg :: args) envs auxs v) -> 0 <= sp ->
  sp + 8 * Z.of_nat (length (stack_words (a0 :: arg :: args) envs auxs v)) < U64_LIM ->
  cstr_at (mem w) arg name -> utf8_valid name = true ->
  reads (fun m => read_u64 m (padd (padd sp 8) 8)) w = (Ok arg, w) /\
  reads (fun m => s ← cstr_from_ptr m arg; to_str_unwrap s) w = (Ok name, w).
Proof.
  intros Hw Hsp Hend Hname Hutf. pose proof (stack_parts _ _ _ _ _ _ Hw) as (_ & Hargs & _).
  apply words_at_cons in Hargs as [_ Hargs]. apply words_at_cons in Hargs as [Hp _]. rewrite length_stack_words in Hend. simpl in Hend.
  unfold reads. rewrite (padd_small sp 8), (padd_small (sp + 8) 8), Hp, (cstr_from_ptr_at _ _ _ Hname), bind_Ok by lia.
  unfold to_str_unwrap. by rewrite Hutf.
Qed.

(** The hand-over, with everything in place. *)
Lemma finish_runs sp a0 arg args envs auxs v P L c d w :
  words_at (mem w) sp (stack_words (a0 :: arg :: args) envs auxs v) -> 0 <= arg < U64_LIM -> 0 <= sp ->
  sp + 8 * Z.of_nat (length (stack_words (a0 :: arg :: args) envs auxs v)) < U64_LIM -> Forall (fun a => aux_tag a <> 0) auxs ->
  loadable_file room limit P -> in_place P c (mem w) ->
  opt_rel (fun L d => loadable_file room limit L /\ in_place L d (mem w)) L d ->
  exists m,
    (hand_over c d sp (Z.of_nat (length (a0 :: arg :: args))) (auxv_of sp (a0 :: arg :: args) envs) ;;
     let! e := lift (entry (default c d)) in ret (e, sp)) w = (Ok (start_of (default P L) (default c d), sp), set_mem m w) /\
    words_at m sp (stack_words (arg :: args) envs (program_auxs P L c d arg auxs) v) /\
    (forall a, ~ (sp <= a < sp + 8 * Z.of_nat (length (stack_words (a0 :: arg :: args) envs auxs v))) -> m !! a = mem w !! a).
Proof.
  intros Hw Harg Hsp Hend Haux Hl Hp Hd. destruct (in_place_start _ _ _ _ _ Hl Hp) as (He & _ & Hr).
  destruct (in_place_table _ _ _ _ _ Hl Hp) as [Ht1 Ht2].
  assert (Hi : exists ib, map_opt entry d = Ok ib /\ default (start_of P c) ib = start_of (default P L) (default c d) /\
    entry (default c d) = Ok (start_of (default P L) (default c d)) /\ 0 <= default (start_of P c) ib < U64_LIM).
  { destruct L as [L|], d as [d|]; try done; cbn [default map_opt].
    - destruct Hd as [Hl' Hp']. destruct (in_place_start _ _ _ _ _ Hl' Hp') as (E & _ & ?). exists (Some (start_of L d)).
      cbn [map_opt default from_option id]. rewrite E, bind_Ok. split_and!; [done..|lia|lia].
    - exists None. cbn [map_opt default from_option id]. rewrite He. split_and!; [done..|lia|lia]. }
  destruct Hi as (ib & Hi & Hib & He' & Hr').
  destruct (hand_over_run c d (start_of P c) arg ib He Hi sp a0 args envs auxs v w) as (m & Hrun & Hm & Hout); try done.
  exists m. split; [|split; [|done]].
  - rewrite (bind_run _ _ _ _ _ Hrun). unfold bind, lift. by rewrite He'.
  - unfold program_auxs. rewrite <- Hib. exact Hm.
Qed.

(** C4: the mini-loader starts a program that has a dynamic section.  The program, and the
    interpreter if it names one, are well-formed shared objects, or executables with a
    PT_PHDR header, in files that are read in one go; the kernel maps fresh pages.
    Whatever the kernel left on its stack, the mini-loader relocates itself, sets up its
    heap, loads the program that its first argument names and the interpreter that the
    program names, each into pages nobody used, and jumps to the interpreter or, if there
    is none, to the program.  What is jumped to finds the segments of both in memory, and
    at its stack pointer the arguments without the mini-loader's, the environment, and the
    auxiliary vector of the kernel with the entries for the program headers, the entry
    point and the name made the program's and AT_BASE made the entry point of what is
    jumped to (not the interpreter's load base, which the ABI has there).  Nothing else
    that was in use has changed, except for the mini-loader's own slots, its allocator
    and the heap. *)
Theorem rust_main_runs sp dynv a0 arg args envs auxs v relas b name P L w :
  started (mem w) sp dynv (a0 :: arg :: args) envs auxs v relas b -> argument (mem w) relas b arg name ->
  heap_placed asize (mem w) sp (8 * Z.of_nat (length (stack_words (a0 :: arg :: args) envs auxs v))) arg name relas b ->
  finds file name P -> loadable_file room limit P -> interp_ok file room limit P L ->
  Z.of_nat (size (mem w)) + pf_len P <= budget ->
  exists c d w',
    rust_main sp dynv w = (Ok (start_of (default P L) (default c d), sp), w') /\
    in_place P c (mem w') /\ opt_rel (fun L d => in_place L d (mem w')) L d /\
    words_at (mem w') sp (stack_words (arg :: args) envs (program_auxs P L c d arg auxs) v) /\
    (forall r, r ∈ relas -> read_u64 (mem w') (slot b r) = Ok (b + r_addend r)) /\
    (forall a, is_Some (mem w !! a) -> ~ (sp <= a < sp + 8 * Z.of_nat (length (stack_words (a0 :: arg :: args) envs auxs v))) ->
       (forall r, r ∈ relas -> ~ (slot b r <= a < slot b r + 8)) -> ~ covered (heap_ranges asize) a ->
       mem w' !! a = mem w !! a).
Proof.
  intros Hst Harg Hheap Hfinds Hl Hint Hsize.
  destruct (start_runs sp dynv a0 arg args envs auxs v relas b name w Hst Harg Hheap)
    as (m0 & m & Hboot & Hinit & Hself & Hout & Hdom & Hw & Hname).
  pose proof (in_place_len room limit P) as HlenP. pose proof (lo_entry _ _ _ Hl) as HloP.
  destruct (load_path_beside file room limit budget name P (set_mem m w) Hfinds Hl) as (c & w2 & Hload & Hc & Hbc & Hs2 & Hsz2).
  { cbn [set_mem mem]. rewrite (size_same_dom _ _ Hdom). lia. }
  cbn [set_mem mem] in Hbc, Hs2, Hsz2. rewrite (size_same_dom _ _ Hdom) in Hsz2.
  destruct (interp_runs file room limit budget P L c w2 Hint Hc) as (d & w3 & Hinterp & Hd & Hs3); [lia|].
  set (n := 8 * Z.of_nat (length (stack_words (a0 :: arg :: args) envs auxs v))) in *.
  assert (Hn : 0 < n) by (subst n; rewrite length_stack_words; simpl; lia).
  pose proof (words_mapped_range _ _ _ Hw) as Hmap. fold n in Hmap.
  (* what was in use is in use, and is what it was *)
  assert (Hk : forall p k, 0 < k -> mapped_range m p k -> same_range m (mem w3) p k /\ mapped_range (mem w2) p k).
  { intros p k Hk0 Hm. assert (Hm2 : mapped_range (mem w2) p k) by (intros x Hx; rewrite (Hs2 p k Hk0 Hm x Hx); by apply Hm).
    split; [|done]. intros x Hx. by rewrite (Hs3 p k Hk0 Hm2 x Hx), (Hs2 p k Hk0 Hm x Hx). }
  destruct (Hk sp n Hn Hmap) as [Hstk Hmap2].
  assert (Hc3 : in_place P c (mem w3)).
  { apply (in_place_same room limit P c (mem w2)); [done..|]. apply Hs3; [by apply (HlenP c (mem w2))|apply (pl_mapped _ _ _ Hc)]. }
  destruct (finish_runs sp a0 arg args envs auxs v P L c d w3) as (m4 & Hfin & Hw4 & Hout4); try done; try apply Hst; try apply Harg.
  { apply (words_at_agree m); [|done]. intros a Ha. by apply Hstk. }
  { destruct L, d; try done. by destruct Hd as (? & ? & _). }
  fold n in Hout4.
  assert (H4 : forall p k, 0 < k -> p + k <= sp \/ sp + n <= p -> same_range (mem w3) m4 p k).
  { intros p k _ Hap x Hx. apply Hout4. lia. }
  exists c, d, (set_mem m4 w3). cbn [set_mem mem]. split; [|split; [|split; [|split; [done|split]]]].
  - unfold rust_main. rewrite (bind_run _ _ _ _ _ Hboot), (bind_run _ _ _ _ _ Hinit). rewrite (proj2 (Z.eqb_neq _ 1)) by (simpl; lia). cbv zeta.
    destruct (name_runs sp a0 arg args envs auxs v name (set_mem m w)) as [Hnp Hnm]; [done|apply Hst|apply Hst|done|apply Harg|].
    rewrite (bind_run _ _ _ _ _ Hnp).
    rewrite (bind_run _ _ _ _ _ Hnm), (bind_run _ _ _ _ _ (unwrap_result_run _ _ _ _ Hload)). cbv zeta.
    replace (elf_common (elf_of (is_dylib (pf_ehdr P)) c)) with c by (by destruct (is_dylib (pf_ehdr P))).
    rewrite (bind_run _ _ _ _ _ Hinterp). exact Hfin.
  - apply (in_place_same room limit P c (mem w3)); [done..|]. apply H4; [by apply (HlenP c (mem w2))|]. destruct (Hbc sp n Hn Hmap); lia.
  - destruct L as [L|], d as [d|]; try done. destruct Hd as (HlL & HpL & HbL).
    apply (in_place_same room limit L d (mem w3)); [done..|]. apply H4; [by apply (in_place_len room limit L d (mem w3))|].
    destruct (HbL sp n Hn Hmap2); lia.
  - intros r Hr. rewrite <- (Hself r Hr). destruct (st_off_stack _ _ _ _ _ _ _ _ _ Hst r Hr) as [Ho|Ho]; fold n in Ho.
    all: assert (Hsm : mapped_range m (slot b r) 8) by (intros x Hx; apply (read_u64_mapped m (slot b r) _ (Hself r Hr)); lia);
      destruct (Hk (slot b r) 8 ltac:(lia) Hsm) as [Hsr _];
      apply load_le_agree; intros x Hx; (rewrite Hout4 by lia); apply Hsr; lia.
  - intros a Ha Hns Hno Hnh. rewrite Hout4 by done. rewrite <- (Hout a Hno Hnh).
    assert (Hm1 : mapped_range m a 1) by (intros x Hx; replace x with a by lia; by rewrite (Hout a Hno Hnh)).
    destruct (Hk a 1 ltac:(lia) Hm1) as [Hsr _]. apply Hsr. lia.
Qed.
End main.

(** ** Files that are read in one go

    With system calls a read of a regular file that ends inside it is not split. *)

Class WholeReads (F : Files) (contents : Z -> bytes) (pos : world -> Z -> Z) := {
  whole_seek : forall w fd off, 0 <= off < 2 ^ 63 ->
    sys_lseek w fd off = off /\ pos (push_event (EvLseek fd off off) w) fd = off;
  whole_read : forall w fd n, 0 <= n -> 0 <= pos w fd -> pos w fd + n <= Z.of_nat (length (contents fd)) ->
    sys_read w fd n = (n, slice_of (contents fd) (pos w fd) n);
}.

Lemma syscall_serves `{F : Files} contents pos `{!WholeReads F contents pos} name fd :
  Z.of_nat (length (contents fd)) < 2 ^ 63 -> Serves (H := SyscallFile.object) (mk_file name fd) (contents fd).
Proof.
  intros Hs. constructor; [done|]. intros off len w Ho Hl He. cbn [obj_read SyscallFile.object]. unfold SyscallFile.read. cbn [f_fd]. cbv zeta.
  destruct (whole_seek w fd off ltac:(lia)) as [-> Hp]. rewrite (proj2 (Z.ltb_ge off 0)) by lia.
  rewrite whole_read by (rewrite ?Hp; lia). rewrite Hp, (proj2 (Z.ltb_ge len 0)), Z.eqb_refl by lia. eexists. by split.
Qed.

(** The files of a directory. *)
Definition whole_files (dir : list (bytes * bytes)) : Files := {|
  sys_open _ path := dir_fd dir path;
  sys_lseek _ _ off := off;
  sys_read w fd n := (n, slice_of (dir_contents dir fd) (world_pos w fd) n);
  sys_close _ _ := 0;
  errno_string _ := "errno"%string;
|}.

#[export] Instance whole_files_reads dir : WholeReads (whole_files dir) (dir_contents dir) world_pos.
Proof.
  constructor; [|done]. intros w fd off _. split; [done|]. unfold world_pos, log_pos. simpl. rewrite fold_left_app. simpl.
  by rewrite Z.eqb_refl.
Qed.

Lemma dir_finds dir i path P :
  list_find (fun e => e.1 = path) dir = Some (i, (path, pf_data P)) -> bool_decide (0 ∈ path) = false ->
  Z.of_nat (length (pf_data P)) < 2 ^ 63 ->
  finds (F := whole_files dir) (fun fd j => demo_file (dir_contents dir fd) fd j) path P.
Proof.
  intros Hf H0 Hl w. apply list_find_Some in Hf as Hd. destruct Hd as (Hi & _ & _).
  assert (Hfd : dir_fd dir path = 3 + Z.of_nat i) by (unfold dir_fd; by rewrite Hf).
  assert (Hc : dir_contents dir (3 + Z.of_nat i) = pf_data P).
  { unfold dir_contents. replace (Z.to_nat (3 + Z.of_nat i - 3)) with i by lia. by rewrite Hi. }
  exists (mk_file path (3 + Z.of_nat i)), (push_event (EvOpen path (3 + Z.of_nat i)) w). split; [|split; [done|split; [|split]]].
  - unfold SyscallFile.from_path, CString_new. rewrite H0. unfold bind, lift. cbn [outcome_bind sys_open whole_files]. rewrite Hfd.
    by rewrite (proj2 (Z.ltb_ge _ _)) by lia.
  - rewrite <- Hc. apply (syscall_serves (dir_contents dir) world_pos). by rewrite Hc.
  - intros j b Hj. cbn [f_fd]. rewrite Hc. unfold demo_file. by rewrite Nat2Z.id, Hj.
  - intros v. by eexists.
Qed.

(** ** Example

    An executable of 800 bytes at 65536 that names the interpreter [ld.so]; that is the
    library of [Whole.v]. *)

Definition run_dyns : list Dyn :=
  [mk_dyn DT_GNU_HASH (prog_base + 352); mk_dyn DT_SYMTAB (prog_base + 368); mk_dyn DT_STRTAB (prog_base + 376)].
Definition run_load : ElfPhdr := mk_phdr PT_LOAD 6 0 prog_base prog_base 800 800 4096.
Definition run_phdrs : list ElfPhdr :=
  [mk_phdr PT_PHDR 4 64 (prog_base + 64) (prog_base + 64) 224 224 8; run_load;
   mk_phdr PT_DYNAMIC 6 288 (prog_base + 288) (prog_base + 288) 64 64 8;
   mk_phdr PT_INTERP 4 400 (prog_base + 400) (prog_base + 400) 6 6 1].
Definition run_elf : bytes :=
  exec_ehdr_bytes (prog_base + 500) 4 ++ mjoin (phdr_bytes <$> run_phdrs) ++ dyn_bytes (run_dyns ++ [mk_dyn DT_NULL 0]) ++
  pack [(4%nat, 1); (4%nat, 1); (4%nat, 1); (4%nat, 6)] ++ replicate 32 0 ++ bytes_of "ld.so" ++ [0] ++ replicate 394 0.
Definition run_file : prog_file :=
  mk_prog_file run_elf (exec_ehdr (prog_base + 500) 4) run_phdrs (mk_param None 4096 3 MAP_PRIVATE (mk_range 800 0)) prog_base.
Definition ld_file : prog_file :=
  mk_prog_file whole_elf one_segment_ehdr whole_phdrs (mk_param None 4096 3 MAP_PRIVATE (mk_range 800 0)) 0.
Definition run_dir : list (bytes * bytes) := [(bytes_of "run", run_elf); (bytes_of "ld.so", whole_elf)].

Lemma run_length : Z.of_nat (length run_elf) = 800.
Proof. vm_compute. reflexivity. Qed.

Lemma run_headers : @elf_headers demo_arch run_elf (exec_ehdr (prog_base + 500) 4) run_phdrs.
Proof. constructor; try (vm_compute; first [reflexivity|discriminate]). Qed.

Lemma run_image_wf data : Z.of_nat (length data) = 800 -> image_wf data run_phdrs.
Proof.
  intros Hl. constructor.
  - unfold file_ok. rewrite Hl. unfold run_phdrs, run_load, prog_base. repeat constructor; simpl; unfold load_ok, is_load; simpl; intros; try done; lia.
  - apply Exists_cons_tl. by apply Exists_cons_hd.
  - repeat constructor; done.
  - intros p Hp Hld _. repeat (apply elem_of_cons in Hp as [->|Hp]; [done|]). by apply not_elem_of_nil in Hp.
Qed.

Lemma run_in_file S a len : run_load ∈ S -> 0 <= a -> a + len <= 800 -> in_file S (prog_base + a) len a.
Proof. intros HS H1 H2. eexists. split; [exact HS|]. unfold run_load, prog_base. simpl. lia. Qed.

Lemma run_table : table_mapped (exec_ehdr (prog_base + 500) 4) run_phdrs.
Proof.
  constructor.
  - intros p Hp Ht. apply elem_of_cons in Hp as [->|Hp].
    + split; [done|]. apply run_in_file; [by left|simpl; lia..].
    + repeat (apply elem_of_cons in Hp as [->|Hp]; [done|]). by apply not_elem_of_nil in Hp.
  - left. by apply Exists_cons_hd.
  - intros p Hp Hl. repeat (apply elem_of_cons in Hp as [->|Hp]; [done|]). by apply not_elem_of_nil in Hp.
Qed.

Lemma run_wf : dyn_link_wf prog_base 4096 run_dyns.
Proof. change prog_base with 65536. link_wf run_dyns. Qed.

Lemma run_refs S : run_load ∈ S -> @dyn_refs dev_config run_elf prog_base 4096 S run_dyns.
Proof.
  intros HS. constructor.
  - exact run_wf.
  - intros h [= <-]. exists 352. rewrite run_length. split; [apply run_in_file; [done|lia..]|lia].
  - constructor.
  - discriminate.
  - discriminate.
  - split; vm_compute; discriminate.
  - discriminate.
  - right. reflexivity.
Qed.

Lemma run_interp S : run_load ∈ S -> str_in_file run_elf S (prog_base + 400) (bytes_of "ld.so").
Proof. intros HS. exists 400. split; [by apply run_in_file|apply cstr_at_check; by vm_compute]. Qed.

Lemma run_notes :
  headers_ok (@dyn_refs dev_config run_elf prog_base 4096) run_elf prog_base 4096 (first_segs prog_base run_phdrs) run_phdrs.
Proof.
  assert (HS : run_load ∈ run_load :: first_segs prog_base run_phdrs) by by left.
  cbn [headers_ok run_phdrs]. rewrite decide_False, decide_True, decide_False, decide_False by done. split; [|split; [|split; [|done]]].
  - by split_and!.
  - split_and!; try done. intros _. split; [unfold link_in, prog_base; simpl; lia|]. exists run_dyns. split_and!.
    + exists 288. split; [by apply run_in_file|]. cbn [dyn_array run_dyns].
      split_and!; try (by vm_compute). exists (mk_dyn DT_NULL 0). by vm_compute.
    + repeat constructor; intros _; done.
    + by eexists.
    + exact run_wf.
    + by apply run_refs.
  - split_and!; try done. intros _. split; [unfold link_in, prog_base; simpl; lia|]. exists (bytes_of "ld.so").
    split; [by apply run_interp|reflexivity].
Qed.

Lemma run_loadable : @loadable_file dev_config demo_arch SLOT SLOT run_file.
Proof.
  constructor; cbn [run_file pf_data pf_ehdr pf_phdrs pf_param pf_lo].
  - by rewrite run_length.
  - exact run_headers.
  - intros _. split; [done|by apply Exists_cons_hd].
  - exact (run_image_wf _ run_length).
  - vm_compute. reflexivity.
  - done.
  - done.
  - exact run_notes.
  - apply Exists_cons_tl, Exists_cons_tl. by apply Exists_cons_hd.
  - exact run_table.
  - done.
Qed.

Lemma ld_loadable : @loadable_file dev_config demo_arch SLOT SLOT ld_file.
Proof.
  constructor; cbn [ld_file pf_data pf_ehdr pf_phdrs pf_param pf_lo].
  - by rewrite whole_length.
  - apply whole_headers.
  - discriminate.
  - exact whole_image_wf.
  - vm_compute. reflexivity.
  - done.
  - done.
  - exact whole_headers_ok.
  - apply Exists_cons_tl, Exists_cons_tl. by apply Exists_cons_hd.
  - exact whole_table.
  - done.
Qed.

Notation run_bytes := (fun fd j => demo_file (dir_contents run_dir fd) fd j).

Lemma run_interp_ok : @interp_ok dev_config demo_arch (whole_files run_dir) run_bytes SLOT SLOT run_file (Some ld_file).
Proof.
  split; [exact ld_loadable|]. intros s (off & (q & Hq & _ & _ & _ & _ & ->) & Hs).
  change (loadable (pf_phdrs run_file)) with [run_load] in Hq. apply list_elem_of_singleton in Hq as ->.
  destruct (run_interp [run_load]) as (off' & (q & Hq & _ & _ & _ & _ & ->) & Hs'); [by left|].
  apply list_elem_of_singleton in Hq as ->. apply cstr_from_ptr_at in Hs, Hs'.
  assert (Heq : Ok s = Ok (bytes_of "ld.so")) by (etransitivity; [symmetry; exact Hs|exact Hs']). injection Heq as ->.
  apply (dir_finds run_dir 1); [reflexivity|reflexivity|]. cbn [ld_file pf_data]. by rewrite whole_length.
Qed.

(** The command line [mini-loader run] of [MiniLoader.v], with the name and the statics of
    the heap in memory; the allocator's value is the start and the size of the heap, and
    the first word of the heap is the size of its only hole. *)
Definition run_start : world :=
  mk_world (store_bytes (image [(5200, replicate 16 0); (5216, replicate 4096 0)] ∪ demo_start_memory) 5010 (bytes_of "run" ++ [0]))
    [] 0 ∅.

Definition demo_heap : StaticHeap := {|
  ALLOCATOR := 5200;
  HEAP_BUF := 5216;
  LockedHeap_new p n m := (le_split 8 p ++ le_split 8 n, if 8 <=? n then store_bytes m p (le_split 8 n) else m);
|}.

#[export] Instance demo_heap_laws : StaticHeapLaws demo_heap 16.
Proof.
  constructor; [done|]. intros p n m Hm. cbn [LockedHeap_new demo_heap snd]. destruct (Z.leb_spec 8 n); [|done]. split.
  - apply store_bytes_same_dom. rewrite length_le_split. intros i Hi. apply Hm. lia.
  - intros i Hi. rewrite store_bytes_out; [done|]. rewrite length_le_split. lia.
Qed.

Lemma run_heap : @heap_placed demo_heap 16 (mem run_start) 1000 (8 * Z.of_nat (length (stack_words demo_args demo_envs demo_auxs 0)))
  5010 (bytes_of "run") demo_self 1000.
Proof.
  constructor.
  - assert (Hm : forall p n, forallb (fun i => bool_decide (is_Some (mem run_start !! (p + Z.of_nat i)))) (seq 0 (Z.to_nat n)) = true ->
      mapped_range (mem run_start) p n).
    { intros p n Hall a Ha. rewrite forallb_forall in Hall. specialize (Hall (Z.to_nat (a - p))).
      replace (p + Z.of_nat (Z.to_nat (a - p))) with a in Hall by lia. apply (bool_decide_unpack _). rewrite Hall; [done|].
      apply in_seq. lia. }
    repeat constructor; apply Hm; vm_compute; reflexivity.
  - apply (bool_decide_unpack _). by vm_compute.
  - apply (bool_decide_unpack _). by vm_compute.
  - intros r Hr. apply list_elem_of_singleton in Hr as ->. apply (bool_decide_unpack _). by vm_compute.
Qed.

Lemma run_started : @started demo_arch (mem run_start) 1000 3000 [5000; 5010] demo_envs demo_auxs 0 demo_self 1000.
Proof.
  constructor.
  - apply words_at_check. vm_compute. reflexivity.
  - done.
  - constructor; [discriminate|constructor].
  - repeat (constructor; [discriminate|]). constructor.
  - change 1000 with (3000 - p_vaddr (mk_phdr PT_DYNAMIC 6 0 2000 2000 48 48 8)).
    apply (base_computed _ _ _ [mk_phdr PT_DYNAMIC 6 0 2000 2000 48 48 8] 0 (mk_phdr PT_DYNAMIC 6 0 2000 2000 48 48 8)).
    + reflexivity.
    + vm_compute. reflexivity.
    + reflexivity.
    + reflexivity.
    + intros j q Hj. lia.
    + split; [discriminate|reflexivity].
  - exists demo_self_dyns, 512, 1. split_and!; [|reflexivity|reflexivity|discriminate|reflexivity|vm_compute; reflexivity].
    split; [vm_compute; reflexivity|]. split; [discriminate|].
    split; [vm_compute; reflexivity|]. split; [discriminate|]. exists (mk_dyn DT_NULL 0). split; [vm_compute; reflexivity|reflexivity].
  - constructor; [|constructor]. split_and!; try done. apply slot_mapped_check. vm_compute. reflexivity.
  - constructor; constructor.
  - intros r Hr. apply list_elem_of_singleton in Hr as ->. right. vm_compute. discriminate.
Qed.

Lemma run_argument : argument (mem run_start) demo_self 1000 5010 (bytes_of "run").
Proof.
  split_and!; [done|done|apply cstr_at_check; by vm_compute|reflexivity|].
  intros r Hr. apply list_elem_of_singleton in Hr as ->. left. vm_compute. discriminate.
Qed.

Lemma rust_main_runs_witness :
  exists c d w',
    @rust_main dev_config demo_arch demo_console demo_heap (slot_kernel (dir_contents run_dir)) (whole_files run_dir) demo_alloc 1000 3000 run_start =
      (Ok (base (image_of d), 1000), w') /\
    in_place run_file c (mem w') /\ in_place ld_file d (mem w') /\
    words_at (mem w') 1000 (stack_words [5010] demo_envs
      [mk_aux AT_PHDR (sl_ptr (core_phdrs (c_core c))); mk_aux AT_PHNUM (sl_len (core_phdrs (c_core c))); mk_aux AT_PHENT 56;
       mk_aux AT_BASE (base (image_of d)); mk_aux AT_ENTRY (base (image_of c) + 66036); mk_aux 15 88] 0).
Proof.
  destruct (@rust_main_runs dev_config demo_arch demo_console demo_heap 16 _ (slot_kernel (dir_contents run_dir)) (whole_files run_dir) demo_alloc
    run_bytes SLOT SLOT BUDGET _ _ _ _ 1000 3000 5000 5010 [] demo_envs demo_auxs 0 demo_self 1000 (bytes_of "run") run_file (Some ld_file) run_start)
    as (c & d & w' & Hrun & Hc & Hd & Hw & _).
  - exact run_started.
  - exact run_argument.
  - exact run_heap.
  - apply (dir_finds run_dir 0); [reflexivity|reflexivity|]. cbn [run_file pf_data]. rewrite run_length. reflexivity.
  - exact run_loadable.
  - exact run_interp_ok.
  - vm_compute. discriminate.
  - destruct d as [d|]; [|destruct Hd]. exists c, d, w'.
    assert (Hb : start_of ld_file d = base (image_of d)) by (unfold start_of; cbn; lia).
    assert (Ha : program_auxs run_file (Some ld_file) c (Some d) 5010 demo_auxs =
      [mk_aux AT_PHDR (sl_ptr (core_phdrs (c_core c))); mk_aux AT_PHNUM (sl_len (core_phdrs (c_core c))); mk_aux AT_PHENT 56;
       mk_aux AT_BASE (base (image_of d)); mk_aux AT_ENTRY (base (image_of c) + 66036); mk_aux 15 88]).
    { unfold program_auxs. cbn [default from_option id]. rewrite Hb. reflexivity. }
    rewrite Ha in Hw. cbn [default from_option id] in Hrun. rewrite Hb in Hrun.
    split; [exact Hrun|]. split; [exact Hc|]. split; [exact Hd|exact Hw].
Defined.
