(* ===== verification/Examples.v ===== *)
(** * Examples: the programs of [src/examples]

    [load_dylib.rs], which loads one library and calls a function of it, and
    [relocate_dylib.rs], which builds the libraries [a], [b] and [c] of
    [src/example_dylib], links each against the one before and calls a function of
    each; with the functions of the three libraries. *)

From S2P Require Import Prelude Machine Arch StrTab Version Mmap Trace Segment Dynamic Symbol Object UserData Loader Image Core.
From S2P Require Import Relocation Format Quiet Macros Complete Linked Lazy Whole Run LinkedRun Exports Chain Demo.
#[local] Open Scope Z_scope.

(** ** What the programs use of the standard library *)

(** [println!] on a standard output that takes the text, or not. *)
Class Stdout := { stdout_takes : world -> bytes -> bool }.

Definition print_line `{Stdout} (s : bytes) : M unit := fun w =>
  let text := s ++ [10] in
  if stdout_takes w text then (Ok tt, push_event (EvWrite 1 text (Z.of_nat (length text))) w)
  else (Panic, push_event (EvWrite 1 text (-1)) w).

(** An [i32] in a register; only the low half counts. *)
Definition as_i32 (v : Z) : Z := let u := v mod U32_LIM in if u <? 2 ^ 31 then u else u - U32_LIM.

(** [str::contains] *)
Fixpoint is_prefix (p s : bytes) : bool :=
  match p, s with
  | [], _ => true
  | x :: p', y :: s' => (x =? y) && is_prefix p' s'
  | _ :: _, [] => false
  end.
Fixpoint contains (s p : bytes) : bool :=
  is_prefix p s || match s with [] => false | _ :: s' => contains s' p end.

(** [Path::join], on Unix *)
Definition path_join (p q : bytes) : bytes :=
  match q with
  | 47 :: _ => q
  | _ => match last p with
         | Some 47 | None => p ++ q
         | Some _ => p ++ 47 :: q
         end
  end.

(** [Once], and the static cells of [relocate_dylib.rs]; the commands that were run. *)
Inductive once_state := OnceIncomplete | OncePoisoned | OnceComplete.

Record statics := mk_statics {
  ONCE : once_state;
  TARGET_TRIPLE : option bytes;
  commands : list (list bytes);
}.
Definition fresh_statics : statics := mk_statics OnceIncomplete None [].

(** ** relocate_dylib.rs: building the libraries *)

(** The architecture the example was built for, the directory cargo was told to build
    in, and how a command ends: its success, or [None] when it cannot be started. *)
Class BuildEnv := {
  consts_ARCH : bytes;
  TARGET_DIR : option bytes;
  command_status : list (list bytes) -> list bytes -> option bool;
}.

Section build.
Context `{BuildEnv}.

Definition PACKAGE_NAME : list bytes := bytes_of <$> ["a"; "b"; "c"]%string.

Definition lib_path (st : statics) (file_name : bytes) : outcome bytes :=
  triple ← unwrap (TARGET_TRIPLE st);
  Ok (path_join (path_join (path_join (default (bytes_of "target") TARGET_DIR) triple) (bytes_of "release")) file_name).

Definition target_triple : option bytes :=
  if contains consts_ARCH (bytes_of "x86_64") then Some (bytes_of "x86_64-unknown-linux-gnu")
  else if contains consts_ARCH (bytes_of "riscv64") then Some (bytes_of "riscv64gc-unknown-linux-gnu")
  else if contains consts_ARCH (bytes_of "aarch64") then Some (bytes_of "aarch64-unknown-linux-gnu")
  else if contains consts_ARCH (bytes_of "loongarch64") then Some (bytes_of "loongarch64-unknown-linux-musl")
  else None.

(** [TARGET_TRIPLE.set(..).unwrap()], or [unimplemented!()] *)
Definition set_triple (st : statics) : outcome unit * statics :=
  match target_triple, TARGET_TRIPLE st with
  | Some t, None => (Ok tt, mk_statics (ONCE st) (Some t) (commands st))
  | _, _ => (Panic, st)
  end.

Definition cargo_command (triple name : bytes) : list bytes :=
  [bytes_of "cargo"; bytes_of "rustc"; bytes_of "-r"; bytes_of "-p"; name; bytes_of "--target"; triple;
   bytes_of "--"; bytes_of "-C"; bytes_of "panic=abort"].

Fixpoint build_packages (names : list bytes) (st : statics) : outcome unit * statics :=
  match names with
  | [] => (Ok tt, st)
  | name :: names' =>
      match TARGET_TRIPLE st with
      | None => (Panic, st)
      | Some triple =>
          let cmd := cargo_command triple name in
          let st' := mk_statics (ONCE st) (TARGET_TRIPLE st) (commands st ++ [cmd]) in
          match command_status (commands st) cmd with
          | None => (Panic, st)
          | Some false => (Panic, st')
          | Some true => build_packages names' st'
          end
      end
  end.

(** [ONCE.call_once(..)]: a panic inside poisons it. *)
Definition compile (st : statics) : outcome unit * statics :=
  match ONCE st with
  | OnceComplete => (Ok tt, st)
  | OncePoisoned => (Panic, st)
  | OnceIncomplete =>
      let '(r, st') :=
        match set_triple st with
        | (Ok _, st1) => build_packages PACKAGE_NAME st1
        | r => r
        end in
      (r, mk_statics (if is_ok r then OnceComplete else OncePoisoned) (TARGET_TRIPLE st') (commands st'))
  end.
End build.

(** ** The programs *)

Section programs.
Context `{Config} `{Arch} `{Native} `{Mmap} `{ArcAlloc} `{FileSystem} `{Stdout}.

(** The closure [|name| map.get(name).copied()] *)
Definition pre_find_map (map : gmap bytes Z) : PreFind := fun name => ret (map !! name).

(** The table of both programs; [print] is the address of their function. *)
Definition print_map (print : Z) : gmap bytes Z := <[bytes_of "print" := print]> ∅.

(** [lib.get::<fn() -> i32>(name).unwrap()], and the call of what it gives *)
Definition get_and_call (lib : RelocatedDylib) (name : bytes) : M Z :=
  let! f := get lib name in
  let! f := lift (unwrap f) in
  let! v := invoke f [] in
  ret (as_i32 v).

Definition drop_relocated (lib : RelocatedDylib) : M unit := drop_core (rd_core lib).
Definition drop_dylib (lib : ElfDylib) : M unit := drop_core (c_core (dylib_common lib)).

(** [load_dylib.rs] *)
Definition load_dylib_main (print : Z) : M unit :=
  let pre_find := pre_find_map (print_map print) in
  let! liba := unwrap_result (load_dylib_file (bytes_of "target/liba.so")) in
  let! liba := unwrap_result (dylib_easy_relocate liba [] pre_find) in
  finally
    (let! v := get_and_call liba (bytes_of "a") in
     print_line (bytes_of (pretty v)))
    (drop_relocated liba).

Definition assert_call (lib : RelocatedDylib) (name : bytes) (v : Z) : M unit :=
  let! r := get_and_call lib name in lift (rust_assert (r =? v)).

Definition load_path_of (path : outcome bytes) : M ElfDylib :=
  let! path := lift path in unwrap_result (load_dylib_file path).

(** [relocate_dylib.rs], once the libraries are built: [path] is [lib_path].  What a
    step owns is dropped when a later step panics, the newest first. *)
Definition relocate_dylib_body (path : bytes -> outcome bytes) (print : Z) : M unit :=
  let pre_find := pre_find_map (print_map print) in
  let! liba := load_path_of (path (bytes_of "liba.so")) in
  let! libb := on_unwind (load_path_of (path (bytes_of "libb.so"))) (drop_dylib liba) in
  let! libc := on_unwind (load_path_of (path (bytes_of "libc.so"))) (drop_dylib libb ;; drop_dylib liba) in
  let! a := on_unwind (unwrap_result (dylib_easy_relocate liba [] pre_find)) (drop_dylib libc ;; drop_dylib libb) in
  on_unwind (assert_call a (bytes_of "a") 1) (drop_relocated a ;; drop_dylib libc ;; drop_dylib libb) ;;
  let! b := on_unwind (unwrap_result (dylib_easy_relocate libb [a] pre_find)) (drop_relocated a ;; drop_dylib libc) in
  on_unwind (assert_call b (bytes_of "b") 2) (drop_relocated b ;; drop_relocated a ;; drop_dylib libc) ;;
  let! c := on_unwind (unwrap_result (dylib_easy_relocate libc [b] pre_find)) (drop_relocated b ;; drop_relocated a) in
  finally (assert_call c (bytes_of "c") 3) (drop_relocated c ;; drop_relocated b ;; drop_relocated a).

Definition relocate_dylib_main `{BuildEnv} (print : Z) (st : statics) (w : world) : outcome unit * (statics * world) :=
  match compile st with
  | (Ok _, st') => let '(r, w') := relocate_dylib_body (lib_path st') print w in (r, (st', w'))
  | (r, st') => (r, (st', w))
  end.
End programs.

(** ** The functions of the libraries

    [call] calls a function through its address; the other arguments are the addresses
    that the libraries' slots hold, and where their texts are. *)

Definition fn_a : M Z := ret 1.

(** [S] and [test_identity_struct] *)
Record lib_struct := mk_struct { sa : Z; sb : Z; sc : Z; sd : Z }.
Definition test_identity_struct (x : lib_struct) : lib_struct := x.

Definition HELLO : bytes := bytes_of "Hello!".

(** Built for release: the sum wraps. *)
Definition add_i32 (v n : Z) : Z := as_i32 (as_i32 v + n).

Definition fn_b (call : Z -> list Z -> M Z) (print a hello text : Z) : M Z :=
  call print [text; 8] ;;
  let! p := reads (fun m => read_u64 m hello) in
  let! n := reads (fun m => read_u64 m (hello + 8)) in
  call print [p; n] ;;
  let! v := call a [] in
  ret (add_i32 v 1).

Definition fn_c (call : Z -> list Z -> M Z) (print b text : Z) : M Z :=
  call print [text; 8] ;;
  let! v := call b [] in
  ret (add_i32 v 1).

(** ** Building *)

Section compiling.
Context `{BuildEnv}.

Lemma build_packages_run names : forall st r st',
  build_packages names st = (r, st') ->
  ONCE st' = ONCE st /\ TARGET_TRIPLE st' = TARGET_TRIPLE st /\ (r = Ok tt \/ r = Panic) /\
  (r = Ok tt -> names <> [] -> exists t, TARGET_TRIPLE st = Some t /\ commands st' = commands st ++ (cargo_command t <$> names)).
Proof.
  induction names as [|name names IH]; intros st r st' Hrun; cbn [build_packages] in Hrun.
  { injection Hrun as <- <-. split_and!; try done. by left. }
  destruct (TARGET_TRIPLE st) as [t|] eqn:Ht; [|injection Hrun as <- <-; split_and!; try done; by right].
  destruct (command_status _ _) as [[]|]; [|injection Hrun as <- <-; split_and!; try done; by right..].
  destruct (IH _ _ _ Hrun) as (E1 & E2 & E3 & E4). cbn [ONCE TARGET_TRIPLE commands] in *.
  split_and!; [done|by rewrite E2|done|]. intros Hr _. exists t. split; [done|]. destruct names as [|name' names].
  - cbn [build_packages] in Hrun. injection Hrun as _ <-. cbn [commands]. done.
  - destruct (E4 Hr) as (t' & [= <-] & ->); [done|]. by rewrite <- app_assoc.
Qed.

(** C35: the libraries are built once.  [compile] either succeeds or panics, and whatever it
    did, calling it again only repeats that result: it runs no command a second time,
    and after a panic it panics for ever.  When the call that does the work succeeds,
    cargo has been run for [a], [b] and [c] in this order, for the triple of the
    architecture, and [lib_path] points into that triple's release directory. *)
Theorem compile_once (st st' : statics) (r : outcome unit) :
  compile st = (r, st') ->
  (r = Ok tt \/ r = Panic) /\ compile st' = (r, st') /\
  (r = Ok tt -> ONCE st = OnceIncomplete -> exists t, target_triple = Some t /\ TARGET_TRIPLE st' = Some t /\
     commands st' = commands st ++ (cargo_command t <$> PACKAGE_NAME) /\
     forall file, lib_path st' file =
       Ok (path_join (path_join (path_join (default (bytes_of "target") TARGET_DIR) t) (bytes_of "release")) file)).
Proof.
  unfold compile at 1. destruct (ONCE st) eqn:Honce.
  2: { intros [= <- <-]. split; [by right|]. unfold compile. rewrite Honce. by split. }
  2: { intros [= <- <-]. split; [by left|]. unfold compile. rewrite Honce. by split. }
  unfold set_triple. destruct target_triple as [t|] eqn:Ht.
  2: { intros [= <- <-]. split; [by right|]. by split. }
  destruct (TARGET_TRIPLE st) eqn:Hset.
  { intros [= <- <-]. split; [by right|]. by split. }
  destruct (build_packages _ _) as [r0 st1] eqn:Hb. apply build_packages_run in Hb as (_ & Htr & Hr & Hok).
  cbn [TARGET_TRIPLE commands ONCE] in *. intros [= <- <-]. split; [done|]. split.
  { unfold compile. cbn [ONCE]. destruct Hr as [->| ->]; done. }
  intros Hr' _. destruct (Hok Hr') as (t' & [= <-] & Hc); [done|]. exists t. cbn [TARGET_TRIPLE commands].
  split_and!; [done|by rewrite Htr|done|]. intros file. unfold lib_path. cbn [TARGET_TRIPLE]. by rewrite Htr.
Qed.
End compiling.

(** ** Calling a function of a library *)

Section calls.
Context `{Config} `{Arch} `{!ArchOk _} `{Nat : Native} `{Mm : Mmap} `{AA : ArcAlloc} (pre : bytes -> option Z).

(** The library exports the function [name] at link address [a]. *)
Definition exports_function (L : lib_file) (name : bytes) (a : Z) : Prop :=
  exists s, exported name (mk_library 0 (lf_symtab L) (lf_syms L)) = Some s /\ st_type s <> STT_GNU_IFUNC /\ st_value s = a /\
    lf_lo L <= a < lf_lo L + pm_len (lf_param L).

Lemma get_and_call_run libs L c name a w v m :
  linked_lib pre libs L c (mem w) -> exports_function L name a ->
  native_call w (base (image_of c) + a) [] = Some (v, m) ->
  get_and_call (mk_relocated_dylib (c_core c)) name w =
    (Ok (as_i32 v), push_event (EvCall (base (image_of c) + a) []) (set_mem m w)).
Proof.
  intros Hl (s & Hs & Ht & Ha & Hr) Hc. unfold get_and_call.
  assert (Hget : get (mk_relocated_dylib (c_core c)) name w = (Ok (Some (base (image_of c) + a)), w)).
  { rewrite (get_exported w (c_core c) (lib_of L c) name (kl_library _ _ _ _ _ Hl) (kl_provides _ _ _ _ _ Hl)).
    - change (exported name (lib_of L c)) with (exported name (mk_library 0 (lf_symtab L) (lf_syms L))). rewrite Hs.
      cbn [fmap option_fmap option_map]. by rewrite Ha.
    - intros s' Hs'. change (exported name (lib_of L c)) with (exported name (mk_library 0 (lf_symtab L) (lf_syms L))) in Hs'.
      rewrite Hs in Hs'. injection Hs' as <-. split; [done|]. cbn [lib_of loaded lib_base]. unfold core_base.
      pose proof (kl_segments _ _ _ _ _ Hl) as Hseg. pose proof (base_ok _ Hseg) as Hb. pose proof Hseg as ([? ?] & ? & ?).
      pose proof (kl_offset _ _ _ _ _ Hl). pose proof (kl_len _ _ _ _ _ Hl). lia. }
  rewrite (bind_run _ _ _ _ _ Hget). unfold bind at 1, lift. cbn [unwrap]. unfold bind, invoke. by rewrite Hc.
Qed.
End calls.

(** ** The programs run *)

Section running.
Context `{Config} `{Arch} `{!ArchOk _} `{Nat : Native} `{Mm : Mmap} (file : Z -> Z -> Z) `{!MmapLaws Mm file}.
Context (room limit budget : Z) `{!MmapGrants Mm room limit} `{!MmapFresh Mm budget} `{!MmapQuiet same_arcs Mm}.
Context `{!MmapReleases Mm} `{AA : ArcAlloc} `{!ArcFresh AA} `{fs : FileSystem} `{Stdout} (print : Z) (es : Z -> Z -> list event).

Local Notation pre := (fun name => print_map print !! name).
Local Notation load_step := (load_step (EO := fs_object) None).
Local Notation ready := (ready None).
Local Notation linked_lib := (linked_lib pre).
Local Notation linkable L libs := (linkable_entries (loadable (lf_phdrs L)) libs pre (lf_own L) (lf_dynrel L) (lf_pltrel L)
  (lf_relative L) (lf_lo L) (pm_len (lf_param L))).

Hypothesis print_address : 0 <= print < U64_LIM.
Hypothesis protection : read_only_logs es.
Hypothesis returns : forall v f args, is_Some (native_call v f args).

Lemma pre_range name v : print_map print !! name = Some v -> 0 <= v < U64_LIM.
Proof. unfold print_map. intros [[_ <-]|[_ Hl]]%lookup_insert_Some; [done|by rewrite lookup_empty in Hl]. Qed.

(** Opening and loading a file. *)
Lemma load_dylib_file_step name w file0 w0 c l' w' L :
  from_path name w = (Ok file0, w0) -> load_step L file0 Loader_new w0 c l' w' ->
  load_dylib_file name w = (Ok (mk_dylib c), w').
Proof.
  intros Hf Hst. unfold load_dylib_file. rewrite (bind_run _ _ _ _ _ Hf). unfold with_new_loader, easy_load_dylib.
  by rewrite (bind_run _ _ _ _ _ (ls_run _ _ _ _ _ _ _ _ Hst)).
Qed.

(** The file [L] is found under [name], whatever the world is. *)
Record found (name : bytes) (L : lib_file) : Prop := {
  fd_good : good_file room limit None L;
  fd_open : forall w, exists file0 w0, from_path name w = (Ok file0, w0) /\ serves_file (EO := fs_object) file file0 L /\
    mem w0 = mem w /\ arcs w0 = arcs w;
}.

Lemma found_loads name L w : found name L -> Z.of_nat (size (mem w)) <= budget ->
  exists file0 w0 c l' w', load_dylib_file name w = (Ok (mk_dylib c), w') /\ load_step L file0 Loader_new w0 c l' w' /\
    mem w0 = mem w /\ arcs w0 = arcs w.
Proof.
  intros [Hg Ho] Hsize. destruct (Ho w) as (file0 & w0 & Hf & Hsv & Hm & Ha).
  destruct (load_step_runs (EO := fs_object) file room limit budget None L file0 Loader_new w0 Hg Hsv) as (c & l' & w' & Hst);
    [done|by rewrite Hm|].
  exists file0, w0, c, l', w'. split; [|done]. by apply (load_dylib_file_step name w file0 w0 c l' w' L).
Qed.

(** C14: [load_dylib.rs] works.  If [target/liba.so] is a well-formed library that needs at
    most [print] and exports a function [a], the program loads it, links it, runs its
    initialisers, calls [a] and writes its result in decimal to the standard output;
    then it runs the finalisers and releases the image, and no [Arc] cell is left. *)
Theorem load_dylib_main_runs L a w :
  found (bytes_of "target/liba.so") L -> Z.of_nat (size (mem w)) <= budget -> linkable L [] ->
  exports_function L (bytes_of "a") a -> (forall c, native_keeps (linked_lib [] L c)) ->
  (forall v text, stdout_takes v text = true) ->
  exists c w1 v r m protect e w',
    load_dylib_file (bytes_of "target/liba.so") w = (Ok (mk_dylib c), w1) /\
    native_call v (base (image_of c) + a) [] = Some (r, m) /\
    load_dylib_main print w = (Ok tt, w') /\ arcs w' = arcs w /\
    (e = EvMunmap (image_start c) (image_len c) true \/ e = EvDealloc (image_start c) (image_len c)) /\
    let text := bytes_of (pretty (as_i32 r)) ++ [10] in
    log w' = log w1 ++ protect ++ ((fun f => EvCall f []) <$> init_list (base (image_of c)) (lf_init L) (lf_inits L)) ++
      [EvCall (base (image_of c) + a) []; EvWrite 1 text (Z.of_nat (length text))] ++
      ((fun f => EvCall f []) <$> init_list (base (image_of c)) (lf_fini L) (lf_finis L)) ++ [e].
Proof.
  intros Hfound Hsize Hent Hexp Hkeep Hout.
  destruct (found_loads _ L w Hfound Hsize) as (file0 & w0 & c & l' & w1 & Hload & Hst & Hm0 & Ha0).
  destruct (link_step_runs room limit None pre [] L c [] (pre_find_map (print_map print)) es w1 (fd_good _ _ Hfound)
    (ls_ready _ _ _ _ _ _ _ _ Hst)) as [w2 Hlk]; try done.
  { rewrite (ls_arcs _ _ _ _ _ _ _ _ Hst). apply lookup_insert_eq. }
  { exact pre_range. }
  destruct (returns w2 (base (image_of c) + a) []) as [[r m] Hcall].
  set (w3 := push_event (EvCall (base (image_of c) + a) []) (set_mem m w2)).
  set (text := bytes_of (pretty (as_i32 r)) ++ [10]).
  set (w4 := push_event (EvWrite 1 text (Z.of_nat (length text))) w3).
  assert (Hl4 : linked_lib [] L c (mem w4)) by (apply (Hkeep c w2 (base (image_of c) + a) [] r m); [apply Hlk|done]).
  destruct (drop_step_runs pre [] L c w4 Hl4) as [w5 Hdrop]; [|done|].
  { cbn [w4 w3 push_event set_mem arcs]. rewrite (lk_arcs _ _ _ _ _ _ _ _ Hlk). apply lookup_insert_eq. }
  destruct (lk_log _ _ _ _ _ _ _ _ Hlk) as [protect Hlog]. destruct (ds_log _ _ _ _ Hdrop) as (e & He & Hlog').
  exists c, w1, w2, r, m, protect, e, w5. split; [done|]. split; [done|]. split; [|split; [|split; [done|]]].
  - unfold load_dylib_main. rewrite (bind_run _ _ _ _ _ (unwrap_result_run _ _ _ _ Hload)).
    rewrite (bind_run _ _ _ _ _ (unwrap_result_run _ _ _ _ (lk_run _ _ _ _ _ _ _ _ Hlk))).
    apply (finally_run _ _ _ w4); [|exact (ds_run _ _ _ _ Hdrop)].
    rewrite (bind_run _ _ _ _ _ (get_and_call_run pre [] L c (bytes_of "a") a w2 r m (lk_linked _ _ _ _ _ _ _ _ Hlk) Hexp Hcall)).
    unfold print_line. fold text. by rewrite Hout.
  - rewrite (ds_arcs _ _ _ _ Hdrop). cbn [w4 w3 push_event set_mem arcs]. rewrite (lk_arcs _ _ _ _ _ _ _ _ Hlk).
    rewrite (ls_arcs _ _ _ _ _ _ _ _ Hst), delete_insert_eq, delete_insert_id; [done|]. apply (ls_fresh _ _ _ _ _ _ _ _ Hst).
  - intros text'. rewrite Hlog'. cbn [w4 w3 push_event set_mem log]. rewrite Hlog.
    assert (Hargs : init_args (c_init c) = []).
    { unfold init_args. by rewrite (ls_init _ _ _ _ _ _ _ _ Hst). }
    by rewrite Hargs, <- !app_assoc.
Qed.
(** *** relocate_dylib.rs *)

(** The slot at link address [off] is for the symbol [name]. *)
Definition imports (L : lib_file) (name : bytes) (off : Z) : Prop :=
  exists x, x ∈ lf_entries L /\ (r_type x = REL_GOT \/ r_type x = REL_SYMBOLIC \/ r_type x = REL_JUMP_SLOT) /\ r_offset x = off /\
    (lf_own L (r_symbol x)).2 = name /\ is_local (lf_own L (r_symbol x)).1 = false.

Lemma imports_word libs L c m name off v :
  linked_lib libs L c m -> imports L name off ->
  (forall base sym, is_local sym = false -> resolve_address pre libs base sym name = Some v) ->
  read_u64 m (base (image_of c) + off) = Ok v.
Proof.
  intros Hl (x & Hx & Ht & <- & <- & Hloc) Hv. apply (kl_words _ _ _ _ _ Hl x v Hx).
  destruct (stored_symbolic libs pre (lf_own L) (base (image_of c)) x) as [_ ->]; [naive_solver|]. by apply Hv.
Qed.

Lemma resolve_print libs b sym : resolve_address pre libs b sym (bytes_of "print") = Some print.
Proof. unfold resolve_address, print_map. by rewrite lookup_insert_eq. Qed.

Lemma resolve_exported L c name s b sym :
  name <> bytes_of "print" -> exported name (mk_library 0 (lf_symtab L) (lf_syms L)) = Some s -> is_local sym = false ->
  resolve_address pre [lib_of L c] b sym name = Some (base (image_of c) + st_value s).
Proof.
  intros Hne Hs Hloc. unfold resolve_address, print_map. rewrite lookup_insert_ne, lookup_empty by congruence.
  unfold definition. rewrite Hloc. cbn [find_map].
  change (exported name (lib_of L c)) with (exported name (mk_library 0 (lf_symtab L) (lf_syms L))). by rewrite Hs.
Qed.

(** What the code of [b] and [c] does: the slots are read, then the function runs. *)
Definition body_b (sp sa sh text : Z) (b : Z) : M Z :=
  let! p := reads (fun m => read_u64 m (b + sp)) in
  let! a := reads (fun m => read_u64 m (b + sa)) in
  let! h := reads (fun m => read_u64 m (b + sh)) in
  fn_b invoke p a h (b + text).
Definition body_c (sp sb text : Z) (b : Z) : M Z :=
  let! p := reads (fun m => read_u64 m (b + sp)) in
  let! f := reads (fun m => read_u64 m (b + sb)) in
  fn_c invoke p f (b + text).

Lemma mapped_read m p n a : mapped_range m p n -> p <= a -> a + 8 <= p + n -> exists v, read_u64 m a = Ok v.
Proof.
  intros Hm Hp Hn. unfold read_u64, load_le. destruct (load_bytes m a 8) eqn:Hl; [by eexists|].
  exfalso. apply eq_None_not_Some in Hl. apply Hl, load_bytes_mapped. intros i Hi. apply Hm. lia.
Qed.
Section three.
Context (La Lb Lc : lib_file) (fa fb fc h sp sa sh tb cp sb tc : Z).

(** What the three libraries export and import. *)
Record chain_symbols : Prop := {
  cs_a : exports_function La (bytes_of "a") fa;
  cs_b : exports_function Lb (bytes_of "b") fb;
  cs_c : exports_function Lc (bytes_of "c") fc;
  cs_hello : exports_function La (bytes_of "HELLO") h /\ h + 16 <= lf_lo La + pm_len (lf_param La);
  cs_b_print : imports Lb (bytes_of "print") sp;
  cs_b_a : imports Lb (bytes_of "a") sa;
  cs_b_hello : imports Lb (bytes_of "HELLO") sh;
  cs_c_print : imports Lc (bytes_of "print") cp;
  cs_c_b : imports Lc (bytes_of "b") sb;
}.

(** The libraries that are linked, in memory [m]. *)
Definition linked_a (ca : ElfCommonPart) (m : memory) : Prop := linked_lib [] La ca m.
Definition linked_b (ca cb : ElfCommonPart) (m : memory) : Prop := linked_a ca m /\ linked_lib [lib_of La ca] Lb cb m.
Definition linked_c (ca cb cc : ElfCommonPart) (m : memory) : Prop := linked_b ca cb m /\ linked_lib [lib_of Lb cb] Lc cc m.

(** A call of [f] does what [body] does. *)
Definition does (w : world) (f : Z) (body : M Z) : Prop :=
  native_call w f [] = match body w with (Ok v, w') => Some (v, mem w') | _ => None end.

(** What their code does, once they are linked; and native code leaves alone what the
    loader still needs of them. *)
Record chain_code : Prop := {
  cc_a : forall ca w, linked_a ca (mem w) -> does w (base (image_of ca) + fa) fn_a;
  cc_b : forall ca cb w, linked_b ca cb (mem w) -> does w (base (image_of cb) + fb) (body_b sp sa sh tb (base (image_of cb)));
  cc_c : forall ca cb cc w, linked_c ca cb cc (mem w) -> does w (base (image_of cc) + fc) (body_c cp sb tc (base (image_of cc)));
  cc_ready : forall L c, L ∈ [La; Lb; Lc] -> native_keeps (ready L c);
  cc_linked : forall libs L c, L ∈ [La; Lb; Lc] -> native_keeps (linked_lib libs L c);
}.

(** A call of unknown code. *)
Lemma invoke_some f args K w : native_keeps K -> K (mem w) -> exists v w', invoke f args w = (Ok v, w') /\ K (mem w').
Proof.
  intros HK Hw. destruct (returns w f args) as [[v m] Hc]. exists v, (push_event (EvCall f args) (set_mem m w)).
  split; [unfold invoke; by rewrite Hc|]. by apply (HK w f args v m).
Qed.

Lemma invoke_known f v m w : native_call w f [] = Some (v, m) -> invoke f [] w = (Ok v, push_event (EvCall f []) (set_mem m w)).
Proof. unfold invoke. by intros ->. Qed.

Lemma reads_run {A} (f : memory -> outcome A) a w : f (mem w) = Ok a -> reads f w = (Ok a, w).
Proof. unfold reads. by intros ->. Qed.

Lemma slot_of L c m name off s L0 c0 :
  linked_lib [lib_of L0 c0] L c m -> imports L name off -> name <> bytes_of "print" ->
  exported name (mk_library 0 (lf_symtab L0) (lf_syms L0)) = Some s ->
  read_u64 m (base (image_of c) + off) = Ok (base (image_of c0) + st_value s).
Proof.
  intros Hl Himp Hne Hs. apply (imports_word [lib_of L0 c0] L c m name off); [done|done|].
  intros b sym Hloc. by apply resolve_exported.
Qed.

Section values.
Hypothesis Hsym : chain_symbols.
Context (ca cb cc : ElfCommonPart).

(** [K] is what is known of the memory, and not broken by native code. *)
Lemma body_b_value K w :
  native_keeps K -> K (mem w) -> (forall m, K m -> linked_b ca cb m) ->
  (forall u, K (mem u) -> exists m, native_call u (base (image_of ca) + fa) [] = Some (1, m)) ->
  exists w', body_b sp sa sh tb (base (image_of cb)) w = (Ok 2, w') /\ K (mem w').
Proof.
  intros HK Hw Hl Hca. destruct (Hl _ Hw) as [Hla Hlb]. unfold body_b.
  destruct (cs_a Hsym) as (s & Hs & _ & Hva & _). destruct (cs_hello Hsym) as [(s' & Hs' & _ & Hvh & Hlo) Hend].
  rewrite (bind_run _ _ _ _ _ (reads_run _ print w
    (imports_word _ Lb cb _ _ sp print Hlb (cs_b_print Hsym) (fun b sym _ => resolve_print _ b sym)))).
  rewrite (bind_run _ _ _ _ _ (reads_run _ _ w (slot_of Lb cb _ _ sa s La ca Hlb (cs_b_a Hsym) ltac:(done) Hs))).
  rewrite (bind_run _ _ _ _ _ (reads_run _ _ w (slot_of Lb cb _ _ sh s' La ca Hlb (cs_b_hello Hsym) ltac:(done) Hs'))).
  rewrite Hva, Hvh. unfold fn_b.
  destruct (invoke_some print [base (image_of cb) + tb; 8] K w HK Hw) as (r & w1 & Hrun & Hk1).
  rewrite (bind_run _ _ _ _ _ Hrun). destruct (Hl _ Hk1) as [Ha1 _]. pose proof (kl_mapped _ _ _ _ _ Ha1) as Hmap.
  pose proof (kl_segments _ _ _ _ _ Ha1) as Hseg. pose proof (base_ok _ Hseg) as Hbase.
  pose proof (kl_offset _ _ _ _ _ Ha1) as Hoff. pose proof (kl_len _ _ _ _ _ Ha1) as Hlen.
  destruct (mapped_read (mem w1) _ _ (base (image_of ca) + h) Hmap) as [p Hp]; [lia..|].
  destruct (mapped_read (mem w1) _ _ (base (image_of ca) + h + 8) Hmap) as [n Hn]; [lia..|].
  rewrite (bind_run _ _ _ _ _ (reads_run _ p w1 Hp)), (bind_run _ _ _ _ _ (reads_run _ n w1 Hn)).
  destruct (invoke_some print [p; n] K w1 HK Hk1) as (r2 & w2 & Hrun2 & Hk2). rewrite (bind_run _ _ _ _ _ Hrun2).
  destruct (Hca w2 Hk2) as [m Hm]. rewrite (bind_run _ _ _ _ _ (invoke_known _ _ _ _ Hm)).
  eexists. split; [reflexivity|]. by apply (HK w2 (base (image_of ca) + fa) [] 1).
Qed.

Lemma body_c_value K w :
  native_keeps K -> K (mem w) -> (forall m, K m -> linked_c ca cb cc m) ->
  (forall u, K (mem u) -> exists m, native_call u (base (image_of cb) + fb) [] = Some (2, m)) ->
  exists w', body_c cp sb tc (base (image_of cc)) w = (Ok 3, w') /\ K (mem w').
Proof.
  intros HK Hw Hl Hcb. destruct (Hl _ Hw) as [Hlb Hlc]. unfold body_c. destruct (cs_b Hsym) as (s & Hs & _ & Hvb & _).
  rewrite (bind_run _ _ _ _ _ (reads_run _ print w
    (imports_word _ Lc cc _ _ cp print Hlc (cs_c_print Hsym) (fun b sym _ => resolve_print _ b sym)))).
  rewrite (bind_run _ _ _ _ _ (reads_run _ _ w (slot_of Lc cc _ _ sb s Lb cb Hlc (cs_c_b Hsym) ltac:(done) Hs))).
  rewrite Hvb. unfold fn_c.
  destruct (invoke_some print [base (image_of cc) + tc; 8] K w HK Hw) as (r & w1 & Hrun & Hk1).
  rewrite (bind_run _ _ _ _ _ Hrun). destruct (Hcb w1 Hk1) as [m Hm]. rewrite (bind_run _ _ _ _ _ (invoke_known _ _ _ _ Hm)).
  eexists. split; [reflexivity|]. by apply (HK w1 (base (image_of cb) + fb) [] 2).
Qed.

Hypothesis Hcode : chain_code.

Lemma keeps_a : native_keeps (linked_a ca).
Proof. apply (cc_linked Hcode). set_solver. Qed.
Lemma keeps_b : native_keeps (linked_b ca cb).
Proof. apply native_keeps_and; [apply keeps_a|]. apply (cc_linked Hcode). set_solver. Qed.
Lemma keeps_c : native_keeps (linked_c ca cb cc).
Proof. apply native_keeps_and; [apply keeps_b|]. apply (cc_linked Hcode). set_solver. Qed.

(** The calls of the program. *)
Lemma call_a w : linked_a ca (mem w) -> native_call w (base (image_of ca) + fa) [] = Some (1, mem w).
Proof. intros Hl. by rewrite (cc_a Hcode ca w Hl). Qed.

Lemma call_b w : linked_b ca cb (mem w) -> exists m, native_call w (base (image_of cb) + fb) [] = Some (2, m).
Proof.
  intros Hl. destruct (body_b_value (linked_b ca cb) w keeps_b Hl) as (w' & Hb & _); [done| |].
  { intros u [Hu _]. eexists. by apply call_a. }
  eexists. rewrite (cc_b Hcode ca cb w Hl). by rewrite Hb.
Qed.

Lemma call_c w : linked_c ca cb cc (mem w) -> exists m, native_call w (base (image_of cc) + fc) [] = Some (3, m).
Proof.
  intros Hl. destruct (body_c_value (linked_c ca cb cc) w keeps_c Hl) as (w' & Hb & _); [done| |].
  { intros u [Hu _]. by apply call_b. }
  eexists. rewrite (cc_c Hcode ca cb cc w Hl). by rewrite Hb.
Qed.
End values.
End three.

Lemma assert_call_run libs L c name a r m w :
  linked_lib libs L c (mem w) -> exports_function L name a -> native_call w (base (image_of c) + a) [] = Some (r, m) -> as_i32 r = r ->
  assert_call (mk_relocated_dylib (c_core c)) name r w = (Ok tt, push_event (EvCall (base (image_of c) + a) []) (set_mem m w)).
Proof.
  intros Hl He Hc Hr. unfold assert_call. rewrite (bind_run _ _ _ _ _ (get_and_call_run pre libs L c name a w r m Hl He Hc)).
  rewrite Hr. unfold lift, rust_assert. by rewrite Z.eqb_refl.
Qed.

(** What is asked of the three files and of the world. *)
Record program_ok (path : bytes -> outcome bytes) (La Lb Lc : lib_file) (w : world) : Prop := {
  po_a : exists p, path (bytes_of "liba.so") = Ok p /\ found p La;
  po_b : exists p, path (bytes_of "libb.so") = Ok p /\ found p Lb;
  po_c : exists p, path (bytes_of "libc.so") = Ok p /\ found p Lc;
  po_size : Z.of_nat (size (mem w)) + pm_len (lf_param La) + pm_len (lf_param Lb) <= budget;
  po_link_a : linkable La [];
  po_link_b : forall ca, image_for La ca -> linkable Lb [lib_of La ca];
  po_link_c : forall cb, image_for Lb cb -> linkable Lc [lib_of Lb cb];
}.

Lemma load_path_step (path : bytes -> outcome bytes) name p L w :
  path name = Ok p -> found p L -> Z.of_nat (size (mem w)) <= budget ->
  exists file0 w0 c l' w', load_path_of (path name) w = (Ok (mk_dylib c), w') /\ load_step L file0 Loader_new w0 c l' w' /\
    mem w0 = mem w /\ arcs w0 = arcs w.
Proof.
  intros Hp Hf Hs. destruct (found_loads p L w Hf Hs) as (file0 & w0 & c & l' & w' & Hload & Hst & Hm & Ha).
  exists file0, w0, c, l', w'. split; [|done]. unfold load_path_of. rewrite Hp. unfold bind, lift.
  by rewrite (unwrap_result_run _ _ _ _ Hload).
Qed.

(** The three libraries are loaded, side by side. *)
Record three_loaded (La Lb Lc : lib_file) (path : bytes -> outcome bytes) (w : world) (ca cb cc : ElfCommonPart)
    (w1 w2 w3 : world) : Prop := {
  tl_load_a : load_path_of (path (bytes_of "liba.so")) w = (Ok (mk_dylib ca), w1);
  tl_load_b : load_path_of (path (bytes_of "libb.so")) w1 = (Ok (mk_dylib cb), w2);
  tl_load_c : load_path_of (path (bytes_of "libc.so")) w2 = (Ok (mk_dylib cc), w3);
  tl_ready : ready La ca (mem w3) /\ ready Lb cb (mem w3) /\ ready Lc cc (mem w3);
  tl_apart : images_apart ca cb /\ images_apart ca cc /\ images_apart cb cc;
  tl_distinct : arc_ptr (c_core ca) <> arc_ptr (c_core cb) /\ arc_ptr (c_core ca) <> arc_ptr (c_core cc) /\
    arc_ptr (c_core cb) <> arc_ptr (c_core cc);
  tl_arcs : arcs w3 = <[arc_ptr (c_core cc) := mk_cell 1 0 false]> (<[arc_ptr (c_core cb) := mk_cell 1 0 false]>
    (<[arc_ptr (c_core ca) := mk_cell 1 0 false]> (arcs w)));
  tl_fresh : arcs w !! arc_ptr (c_core ca) = None /\ arcs w !! arc_ptr (c_core cb) = None /\ arcs w !! arc_ptr (c_core cc) = None;
}.

Lemma load_three path La Lb Lc w : program_ok path La Lb Lc w -> exists ca cb cc w1 w2 w3, three_loaded La Lb Lc path w ca cb cc w1 w2 w3.
Proof.
  intros [(pa & Hpa & Hfa) (pb & Hpb & Hfb) (pc & Hpc & Hfc) Hsize _ _ _].
  pose proof (fd_good _ _ Hfa) as Ga. pose proof (fd_good _ _ Hfb) as Gb.
  pose proof (good_file_len room limit None La Ga) as Hla. pose proof (good_file_len room limit None Lb Gb) as Hlb.
  destruct (load_path_step path _ pa La w Hpa Hfa ltac:(lia)) as (f1 & v1 & ca & l1 & w1 & E1 & S1 & M1 & A1).
  pose proof (ls_ready _ _ _ _ _ _ _ _ S1) as Ra. pose proof (ready_len None La ca _ Ra) as Na.
  pose proof (size_outside _ _ _ _ (ls_outside _ _ _ _ _ _ _ _ S1) ltac:(lia)) as Z1. rewrite M1, (rd_len _ _ _ _ Ra) in Z1.
  destruct (load_path_step path _ pb Lb w1 Hpb Hfb ltac:(lia)) as (f2 & v2 & cb & l2 & w2 & E2 & S2 & M2 & A2).
  pose proof (ls_ready _ _ _ _ _ _ _ _ S2) as Rb. pose proof (ready_len None Lb cb _ Rb) as Nb.
  pose proof (size_outside _ _ _ _ (ls_outside _ _ _ _ _ _ _ _ S2) ltac:(lia)) as Z2. rewrite M2, (rd_len _ _ _ _ Rb) in Z2.
  destruct (load_path_step path _ pc Lc w2 Hpc Hfc ltac:(lia)) as (f3 & v3 & cc & l3 & w3 & E3 & S3 & M3 & A3).
  rewrite <- M2 in Ra. destruct (load_step_apart None Lb f2 _ v2 cb l2 w2 ca S2 (rd_mapped _ _ _ _ Ra) Na) as [Hba Ka].
  apply (ready_same room limit None La ca _ _ Ga) in Ka as Ra2; [|done]. rewrite <- M3 in Ra2, Rb.
  destruct (load_step_apart None Lc f3 _ v3 cc l3 w3 ca S3 (rd_mapped _ _ _ _ Ra2) Na) as [Hca Ka2].
  destruct (load_step_apart None Lc f3 _ v3 cc l3 w3 cb S3 (rd_mapped _ _ _ _ Rb) Nb) as [Hcb Kb].
  pose proof (ls_arcs _ _ _ _ _ _ _ _ S1) as B1. pose proof (ls_arcs _ _ _ _ _ _ _ _ S2) as B2. pose proof (ls_arcs _ _ _ _ _ _ _ _ S3) as B3.
  pose proof (ls_fresh _ _ _ _ _ _ _ _ S1) as F1. pose proof (ls_fresh _ _ _ _ _ _ _ _ S2) as F2. pose proof (ls_fresh _ _ _ _ _ _ _ _ S3) as F3.
  rewrite A1 in B1, F1. rewrite A2, B1 in B2, F2. rewrite A3, B2 in B3, F3.
  apply lookup_insert_None in F2 as [F2 N2]. apply lookup_insert_None in F3 as [F3 N3]. apply lookup_insert_None in F3 as [F3 N4].
  exists ca, cb, cc, w1, w2, w3. constructor; try done.
  - split_and!; [|by apply (ready_same room limit None Lb cb _ _ Gb) in Kb|apply (ls_ready _ _ _ _ _ _ _ _ S3)].
    by apply (ready_same room limit None La ca _ _ Ga) in Ka2.
Qed.

(** They are linked one after the other, and called. *)
Record three_linked (La Lb Lc : lib_file) (ca cb cc : ElfCommonPart) (w w1 w2 w3 w4 w5 w6 : world) : Prop := {
  tk_link_a : dylib_easy_relocate (mk_dylib ca) [] (pre_find_map (print_map print)) w = (Ok (mk_relocated_dylib (c_core ca)), w1);
  tk_call_a : assert_call (mk_relocated_dylib (c_core ca)) (bytes_of "a") 1 w1 = (Ok tt, w2);
  tk_link_b : dylib_easy_relocate (mk_dylib cb) [mk_relocated_dylib (c_core ca)] (pre_find_map (print_map print)) w2 =
    (Ok (mk_relocated_dylib (c_core cb)), w3);
  tk_call_b : assert_call (mk_relocated_dylib (c_core cb)) (bytes_of "b") 2 w3 = (Ok tt, w4);
  tk_link_c : dylib_easy_relocate (mk_dylib cc) [mk_relocated_dylib (c_core cb)] (pre_find_map (print_map print)) w4 =
    (Ok (mk_relocated_dylib (c_core cc)), w5);
  tk_call_c : assert_call (mk_relocated_dylib (c_core cc)) (bytes_of "c") 3 w5 = (Ok tt, w6);
  tk_linked : linked_c La Lb Lc ca cb cc (mem w6);
  tk_arcs : arcs w6 = <[arc_ptr (c_core cc) := mk_cell 1 0 true]> (<[arc_ptr (c_core cb) := mk_cell 1 0 true]>
    (<[arc_ptr (c_core ca) := mk_cell 1 0 true]> (arcs w)));
}.

Section three_more.
Context (La Lb Lc : lib_file) (fa fb fc h sp sa sh tb cp sb tc : Z) (path : bytes -> outcome bytes) (w0 w1 w2 w : world).
Context (ca cb cc : ElfCommonPart).
Hypothesis Hsym : chain_symbols La Lb Lc fa fb fc h sp sa sh cp sb.
Hypothesis Hcode : chain_code La Lb Lc fa fb fc sp sa sh tb cp sb tc.
Hypothesis Hok : program_ok path La Lb Lc w0.
Hypothesis Hld : three_loaded La Lb Lc path w0 ca cb cc w1 w2 w.

Lemma in_three : La ∈ [La; Lb; Lc] /\ Lb ∈ [La; Lb; Lc] /\ Lc ∈ [La; Lb; Lc].
Proof. set_solver. Qed.

(** One library is linked and called, next to what [K] says of the others. *)
Lemma link_and_call libs L c scope name a r K v :
  good_file room limit None L -> L ∈ [La; Lb; Lc] -> ready L c (mem v) ->
  arcs v !! arc_ptr (c_core c) = Some (mk_cell 1 0 false) ->
  Forall (range_apart (image_start c) (image_len c)) (libs ≫= fun l => gnu_ranges (lib_table l) (lib_syms l)) ->
  Forall (library_in (mem v)) libs -> map_outcome helper_of scope = Ok (lib_helper <$> libs) -> linkable L libs ->
  exports_function L name a -> as_i32 r = r -> native_keeps K -> elsewhere c K -> K (mem v) ->
  (forall u, K (mem u) /\ linked_lib libs L c (mem u) -> exists m, native_call u (base (image_of c) + a) [] = Some (r, m)) ->
  exists v1 v2, dylib_easy_relocate (mk_dylib c) scope (pre_find_map (print_map print)) v = (Ok (mk_relocated_dylib (c_core c)), v1) /\
    assert_call (mk_relocated_dylib (c_core c)) name r v1 = (Ok tt, v2) /\
    K (mem v2) /\ linked_lib libs L c (mem v2) /\ arcs v2 = <[arc_ptr (c_core c) := mk_cell 1 0 true]> (arcs v).
Proof.
  intros Hg HL Hr Harc Hap Hlibs Hsc Hlk He Hi HK Hel Hv Hcall.
  pose proof (cc_linked _ _ _ _ _ _ _ _ _ _ _ _ _ Hcode libs L c HL) as HN.
  destruct (link_step_runs room limit None pre libs L c scope (pre_find_map (print_map print)) es v Hg Hr) as [v1 S1]; try done.
  { exact pre_range. }
  pose proof (lk_linked _ _ _ _ _ _ _ _ S1) as Hl. pose proof (link_step_keeps pre libs L c _ _ v v1 K S1 HK Hel Hv) as Hk.
  destruct (Hcall v1 (conj Hk Hl)) as [m Hm]. exists v1. eexists. split; [apply (lk_run _ _ _ _ _ _ _ _ S1)|].
  split; [by apply (assert_call_run libs L c name a r m)|]. cbn [push_event set_mem mem arcs].
  split; [by apply (HK v1 (base (image_of c) + a) [] r)|]. split; [by apply (HN v1 (base (image_of c) + a) [] r)|].
  apply (lk_arcs _ _ _ _ _ _ _ _ S1).
Qed.

Lemma link_three : exists v1 v2 v3 v4 v5 v6, three_linked La Lb Lc ca cb cc w v1 v2 v3 v4 v5 v6.
Proof.
  destruct Hok as [(pa & _ & Fa) (pb & _ & Fb) (pc & _ & Fc) _ Ka Kb Kc].
  pose proof (fd_good _ _ Fa) as Ga. pose proof (fd_good _ _ Fb) as Gb. pose proof (fd_good _ _ Fc) as Gc.
  specialize (Kb ca). specialize (Kc cb). destruct (tl_ready _ _ _ _ _ _ _ _ _ _ _ Hld) as (Ra & Rb & Rc). destruct (tl_apart _ _ _ _ _ _ _ _ _ _ _ Hld) as (Pab & Pac & Pbc).
  specialize (Kb (ready_image _ _ _ _ Ra)). specialize (Kc (ready_image _ _ _ _ Rb)).
  destruct (tl_distinct _ _ _ _ _ _ _ _ _ _ _ Hld) as (Dab & Dac & Dbc). pose proof (tl_arcs _ _ _ _ _ _ _ _ _ _ _ Hld) as Harcs.
  destruct in_three as (IA & IB & IC).
  pose proof (cc_ready _ _ _ _ _ _ _ _ _ _ _ _ _ Hcode) as NR. pose proof (cc_linked _ _ _ _ _ _ _ _ _ _ _ _ _ Hcode) as NL.
  destruct (link_and_call [] La ca [] (bytes_of "a") fa 1 (fun m => ready Lb cb m /\ ready Lc cc m) w)
    as (v1 & v2 & E1 & E2 & [Rb2 Rc2] & L2 & A2); try done.
  { rewrite Harcs. do 2 (rewrite lookup_insert_ne by done). apply lookup_insert_eq. }
  { apply Hsym. }
  { apply native_keeps_and; by apply NR. }
  { apply elsewhere_and; by apply (ready_elsewhere room limit). }
  { intros u [_ Hu]. eexists. by eapply call_a; [exact Hcode|]. }
  destruct (linked_in_scope pre [] La ca (mem v2) cb L2 (images_apart_sym _ _ Pab)) as (Q1 & Q2 & Q3).
  destruct (link_and_call [lib_of La ca] Lb cb [mk_relocated_dylib (c_core ca)] (bytes_of "b") fb 2 (fun m => ready Lc cc m /\ linked_a La ca m) v2 Gb IB Rb2)
    as (v3 & v4 & E3 & E4 & [Rc4 La4] & Lb4 & A4); try done.
  { rewrite A2, Harcs. do 2 (rewrite lookup_insert_ne by done). apply lookup_insert_eq. }
  { apply Hsym. }
  { apply native_keeps_and; [by apply NR|by apply NL]. }
  { apply elsewhere_and; [by apply (ready_elsewhere room limit)|by apply linked_elsewhere, images_apart_sym]. }
  { intros u [[_ Hu] Hb]. by eapply call_b; [exact Hsym|exact Hcode|]. }
  destruct (linked_in_scope pre [lib_of La ca] Lb cb (mem v4) cc Lb4 (images_apart_sym _ _ Pbc)) as (T1 & T2 & T3).
  destruct (link_and_call [lib_of Lb cb] Lc cc [mk_relocated_dylib (c_core cb)] (bytes_of "c") fc 3 (linked_b La Lb ca cb) v4 Gc IC Rc4)
    as (v5 & v6 & E5 & E6 & Lb6 & Lc6 & A6); try done.
  { rewrite A4, A2, Harcs. do 2 (rewrite lookup_insert_ne by done). apply lookup_insert_eq. }
  { apply Hsym. }
  { eapply keeps_b; [exact Hsym|exact Hcode]. }
  { apply elsewhere_and; by apply linked_elsewhere, images_apart_sym. }
  { intros u [Hb Hu]. by eapply call_c; [exact Hsym|exact Hcode|]. }
  exists v1, v2, v3, v4, v5, v6. constructor; try done. by rewrite A6, A4, A2.
Qed.
(** They are dropped, the newest first. *)
Lemma drop_three v : linked_c La Lb Lc ca cb cc (mem v) ->
  arcs v = <[arc_ptr (c_core cc) := mk_cell 1 0 true]> (<[arc_ptr (c_core cb) := mk_cell 1 0 true]>
    (<[arc_ptr (c_core ca) := mk_cell 1 0 true]> (arcs w))) ->
  exists v', (drop_relocated (mk_relocated_dylib (c_core cc)) ;; drop_relocated (mk_relocated_dylib (c_core cb)) ;;
      drop_relocated (mk_relocated_dylib (c_core ca))) v = (Ok tt, v') /\ arcs v' = arcs w0.
Proof.
  intros [[Ha Hb] Hc] Harcs. destruct (tl_apart _ _ _ _ _ _ _ _ _ _ _ Hld) as (Pab & Pac & Pbc).
  destruct (tl_distinct _ _ _ _ _ _ _ _ _ _ _ Hld) as (Dab & Dac & Dbc). destruct (tl_fresh _ _ _ _ _ _ _ _ _ _ _ Hld) as (Fa & Fb & Fc).
  destruct in_three as (IA & IB & IC).
  pose proof (cc_linked _ _ _ _ _ _ _ _ _ _ _ _ _ Hcode) as NL.
  destruct (drop_step_runs pre [lib_of Lb cb] Lc cc v Hc) as [v1 S1]; [rewrite Harcs; apply lookup_insert_eq|done|].
  apply (drop_step_keeps Lc cc v v1 _ S1 (NL _ _ ca IA)) in Ha; [|by apply linked_elsewhere, images_apart_sym].
  apply (drop_step_keeps Lc cc v v1 _ S1 (NL _ _ cb IB)) in Hb; [|by apply linked_elsewhere, images_apart_sym].
  pose proof (ds_arcs _ _ _ _ S1) as A1. rewrite Harcs, delete_insert_eq in A1.
  rewrite delete_insert_ne, delete_insert_ne in A1 by done.
  destruct (drop_step_runs pre [lib_of La ca] Lb cb v1 Hb) as [v2 S2]; [rewrite A1; apply lookup_insert_eq|done|].
  apply (drop_step_keeps Lb cb v1 v2 _ S2 (NL _ _ ca IA)) in Ha; [|by apply linked_elsewhere, images_apart_sym].
  pose proof (ds_arcs _ _ _ _ S2) as A2. rewrite A1, delete_insert_eq, delete_insert_ne in A2 by done.
  destruct (drop_step_runs pre [] La ca v2 Ha) as [v3 S3]; [rewrite A2; apply lookup_insert_eq|done|].
  exists v3. split.
  - unfold drop_relocated. cbn [rd_core]. rewrite (bind_run _ _ _ _ _ (ds_run _ _ _ _ S1)), (bind_run _ _ _ _ _ (ds_run _ _ _ _ S2)).
    apply (ds_run _ _ _ _ S3).
  - rewrite (ds_arcs _ _ _ _ S3), A2, delete_insert_eq, (tl_arcs _ _ _ _ _ _ _ _ _ _ _ Hld).
    rewrite delete_insert_eq, delete_insert_ne, delete_insert_eq by done.
    rewrite delete_insert_ne, delete_insert_ne, delete_insert_eq by done. by rewrite !delete_id by (by rewrite ?lookup_delete_ne).
Qed.
End three_more.

(** C3: [relocate_dylib.rs] works.  The libraries are built, and the three files are
    well-formed libraries that can be linked: the first against [print] alone, each of
    the others against [print] and the one before; they export [a], [HELLO], [b] and
    [c], import what [src/example_dylib] imports, and their code does what its sources
    say.  Then the program loads, links and calls all three, its assertions hold - [b]
    finds the [a] of the first library and [c] the [b] of the second, wherever the
    platform has put them - and when it ends every [Arc] cell it made is freed. *)
Theorem relocate_dylib_main_runs `{BuildEnv} st st' La Lb Lc fa fb fc h sp sa sh tb cp sb tc w :
  compile st = (Ok tt, st') -> program_ok (lib_path st') La Lb Lc w ->
  chain_symbols La Lb Lc fa fb fc h sp sa sh cp sb -> chain_code La Lb Lc fa fb fc sp sa sh tb cp sb tc ->
  exists w', relocate_dylib_main print st w = (Ok tt, (st', w')) /\ arcs w' = arcs w.
Proof.
  intros Hcomp Hok Hsym Hcode. destruct (load_three _ La Lb Lc w Hok) as (ca & cb & cc & w1 & w2 & w3 & Hld).
  edestruct link_three as (v1 & v2 & v3 & v4 & v5 & v6 & [K1 K2 K3 K4 K5 K6 Kl Ka]); [exact Hsym|exact Hcode|exact Hok|exact Hld|].
  edestruct drop_three as (v7 & Hd & Harcs); [exact Hsym|exact Hcode|exact Hok|exact Hld|exact Kl|exact Ka|].
  exists v7. split; [|done]. unfold relocate_dylib_main. rewrite Hcomp.
  enough (Hb : relocate_dylib_body (lib_path st') print w = (Ok tt, v7)) by by rewrite Hb.
  unfold relocate_dylib_body.
  rewrite (bind_run _ _ _ _ _ (tl_load_a _ _ _ _ _ _ _ _ _ _ _ Hld)).
  rewrite (bind_run _ _ _ _ _ (on_unwind_run _ _ _ _ _ (tl_load_b _ _ _ _ _ _ _ _ _ _ _ Hld))).
  rewrite (bind_run _ _ _ _ _ (on_unwind_run _ _ _ _ _ (tl_load_c _ _ _ _ _ _ _ _ _ _ _ Hld))).
  rewrite (bind_run _ _ _ _ _ (on_unwind_run _ _ _ _ _ (unwrap_result_run _ _ _ _ K1))).
  rewrite (bind_run _ _ _ _ _ (on_unwind_run _ _ _ _ _ K2)).
  rewrite (bind_run _ _ _ _ _ (on_unwind_run _ _ _ _ _ (unwrap_result_run _ _ _ _ K3))).
  rewrite (bind_run _ _ _ _ _ (on_unwind_run _ _ _ _ _ K4)).
  rewrite (bind_run _ _ _ _ _ (on_unwind_run _ _ _ _ _ (unwrap_result_run _ _ _ _ K5))).
  by apply (finally_run _ _ _ v6).
Qed.
End running.

(** ** The libraries of [Demo.v] *)

Definition demo_build : BuildEnv := {|
  consts_ARCH := bytes_of "x86_64"; TARGET_DIR := None; command_status _ _ := Some true |}.
Definition demo_stdout : Stdout := {| stdout_takes _ _ := true |}.

Lemma compile_once_witness :
  exists st', @compile demo_build fresh_statics = (Ok tt, st') /\ @compile demo_build st' = (Ok tt, st') /\
    length (commands st') = 3%nat /\
    @lib_path demo_build st' (bytes_of "liba.so") = Ok (bytes_of "target/x86_64-unknown-linux-gnu/release/liba.so").
Proof.
  destruct (@compile demo_build fresh_statics) as [r st'] eqn:Hc.
  destruct (@compile_once demo_build fresh_statics st' r Hc) as (_ & Hagain & Hok).
  assert (Hr : r = Ok tt) by (apply (f_equal fst) in Hc; by vm_compute in Hc). subst r.
  destruct (Hok eq_refl eq_refl) as (t & Ht & _ & Hcmd & Hpath). exists st'. split; [done|]. split; [done|]. split.
  - rewrite Hcmd, length_app, length_fmap. reflexivity.
  - rewrite Hpath. vm_compute in Ht. injection Ht as <-. reflexivity.
Defined.

Definition one_dir : list (bytes * bytes) := [(bytes_of "target/liba.so", ty_data tiny_a)].
Definition triple_path (name : bytes) : bytes := bytes_of "target/x86_64-unknown-linux-gnu/release/" ++ name.
Definition three_dir : list (bytes * bytes) :=
  [(triple_path (bytes_of "liba.so"), ty_data tiny_a); (triple_path (bytes_of "libb.so"), ty_data tiny_b);
   (triple_path (bytes_of "libc.so"), ty_data tiny_c)].

Section demo.
#[local] Existing Instances dev_config demo_arch tiny_native fresh_alloc.
#[local] Opaque ty_data.
Context (dir : list (bytes * bytes)).
#[local] Instance demo_mmap : Mmap := @Libc.MmapImpl (slot_kernel (dir_contents dir)).

Lemma demo_found i path t : t ∈ tinies ->
  list_find (fun e => e.1 = path) dir = Some (i, (path, ty_data t)) -> bool_decide (0 ∈ path) = false ->
  found (fs := @libc_fs (dir_files dir)) (fun fd j => demo_file (dir_contents dir fd) fd j) SLOT SLOT path (tiny_lib t).
Proof.
  intros Ht Hf H0. constructor; [by apply tiny_good|]. apply (dir_serves dir i path (tiny_lib t)); [done..|].
  change (lf_data (tiny_lib t)) with (ty_data t). by rewrite tiny_length.
Qed.
Lemma tiny_page c L pre libs m : linked_lib pre libs L c m ->
  lf_lo L = 0 -> base (image_of c) mod 4096 = 0.
Proof.
  intros [_ Hs Ha Ho _ _ _ _ _ _ _ _] Hlo. rewrite (base_ok _ Hs), Ho, Hlo. by rewrite Z.sub_0_r.
Qed.

Lemma tiny_call w b o : b mod 4096 = 0 -> 0 <= o < 4096 ->
  native_call w (b + o) [] = Some (if o =? 896 then 1 else if o =? 904 then 2 else if o =? 912 then 3 else 0, mem w).
Proof.
  intros Hb Ho. cbn [native_call tiny_native]. replace ((b + o) mod 4096) with o; [done|].
  rewrite Z.add_mod, Hb, Z.add_0_l, Zmod_mod by done. symmetry. by apply Z.mod_small.
Qed.
(** The three libraries import and export what the sources say, and their code does it. *)
Lemma tiny_symbols : chain_symbols (tiny_lib tiny_a) (tiny_lib tiny_b) (tiny_lib tiny_c) 896 904 912 928 848 856 840 840 848.
Proof.
  constructor; try (unfold imports; apply Exists_exists, (bool_decide_unpack _); by vm_compute).
  4: split; [|done].
  all: eexists; split; [reflexivity|]; by split_and!.
Qed.

Lemma tiny_code : chain_code demo_print (tiny_lib tiny_a) (tiny_lib tiny_b) (tiny_lib tiny_c) 896 904 912 848 856 840 952 840 848 952.
Proof.
  assert (Hkeep : forall m, native_keeps (eq m)) by (intros m; apply tiny_native_keeps).
  assert (Hcall : forall w f args, is_Some (native_call w f args)) by (intros w f args; by eexists).
  constructor; try (intros; apply tiny_native_keeps).
  - intros ca w Hl. unfold does. rewrite tiny_call; [done| |done]. by eapply tiny_page.
  - intros ca cb w Hl. destruct Hl as [Ha Hb] eqn:Hl'. unfold does. rewrite tiny_call; [|by eapply tiny_page|done].
    destruct (body_b_value demo_print Hcall (tiny_lib tiny_a) (tiny_lib tiny_b) (tiny_lib tiny_c) 896 904 912 928 848 856 840 952
      840 848 tiny_symbols ca cb (eq (mem w)) w) as (w' & Hrun & Hm); [done|done|by intros m <-| |].
    { intros u Hu. eexists. apply tiny_call; [by eapply tiny_page|done]. }
    by rewrite Hrun, Hm.
  - intros ca cb cc w Hl. destruct Hl as [Hb Hc] eqn:Hl'. unfold does. rewrite tiny_call; [|by eapply tiny_page|done].
    destruct (body_c_value demo_print Hcall (tiny_lib tiny_a) (tiny_lib tiny_b) (tiny_lib tiny_c) 896 904 912 928 848 856 840
      840 848 952 tiny_symbols ca cb cc (eq (mem w)) w) as (w' & Hrun & Hm); [done|done|by intros m <-| |].
    { intros u Hu. destruct Hb. eexists. apply tiny_call; [by eapply tiny_page|done]. }
    by rewrite Hrun, Hm.
Qed.
End demo.

Lemma load_dylib_main_runs_witness :
  exists w' text,
    @load_dylib_main dev_config demo_arch tiny_native (@Libc.MmapImpl (slot_kernel (dir_contents one_dir))) fresh_alloc
      (@libc_fs (dir_files one_dir)) demo_stdout demo_print empty_world = (Ok tt, w') /\
    arcs w' = ∅ /\ EvWrite 1 text (Z.of_nat (length text)) ∈ log w'.
Proof.
  destruct (@load_dylib_main_runs dev_config demo_arch _ tiny_native (@Libc.MmapImpl (slot_kernel (dir_contents one_dir)))
    (fun fd j => demo_file (dir_contents one_dir fd) fd j) _ SLOT SLOT BUDGET _ _ _ _ fresh_alloc _ (@libc_fs (dir_files one_dir))
    demo_stdout demo_print (fun a n => [EvMprotect a n PROT_READ true]) ltac:(done) ltac:(intros a n v; reflexivity)
    ltac:(intros v f args; by eexists) (tiny_lib tiny_a) 896 empty_world)
    as (c & w1 & v & r & m & protect & e & w' & _ & _ & Hrun & Harcs & _ & Hlog).
  - apply (demo_found one_dir 0 (bytes_of "target/liba.so") tiny_a); [by left|reflexivity|reflexivity].
  - done.
  - exact link_tiny_a.
  - eexists. split; [reflexivity|]. by split_and!.
  - intros c. apply tiny_native_keeps.
  - done.
  - exists w', (bytes_of (pretty (as_i32 r)) ++ [10]). split; [exact Hrun|]. split; [exact Harcs|]. rewrite Hlog.
    rewrite !elem_of_app. right. right. right. left. right. by left.
Defined.


Lemma demo_compiles : exists st', @compile demo_build fresh_statics = (Ok tt, st') /\
  forall file, @lib_path demo_build st' file = Ok (path_join (bytes_of "target/x86_64-unknown-linux-gnu/release") file).
Proof. eexists. split; [vm_compute; reflexivity|]. intros file. reflexivity. Qed.

Lemma relocate_dylib_main_runs_witness :
  exists st' w',
    @relocate_dylib_main dev_config demo_arch tiny_native (@Libc.MmapImpl (slot_kernel (dir_contents three_dir))) fresh_alloc
      (@libc_fs (dir_files three_dir)) demo_build demo_print fresh_statics empty_world = (Ok tt, (st', w')) /\ arcs w' = ∅.
Proof.
  destruct demo_compiles as (st' & Hc & Hp). exists st'.
  destruct (@relocate_dylib_main_runs dev_config demo_arch _ tiny_native (@Libc.MmapImpl (slot_kernel (dir_contents three_dir)))
    (fun fd j => demo_file (dir_contents three_dir fd) fd j) _ SLOT SLOT BUDGET _ _ _ _ fresh_alloc _ (@libc_fs (dir_files three_dir))
    demo_print (fun a n => [EvMprotect a n PROT_READ true]) ltac:(done) ltac:(intros a n v; reflexivity)
    ltac:(intros v f args; by eexists) demo_build fresh_statics st' (tiny_lib tiny_a) (tiny_lib tiny_b) (tiny_lib tiny_c)
    896 904 912 928 848 856 840 952 840 848 952 empty_world) as (w' & Hrun & Harcs).
  - exact Hc.
  - constructor.
    + eexists. split; [apply Hp|]. apply (demo_found three_dir 0 _ tiny_a); [by left|reflexivity|reflexivity].
    + eexists. split; [apply Hp|]. apply (demo_found three_dir 1 _ tiny_b); [right; by left|reflexivity|reflexivity].
    + eexists. split; [apply Hp|]. apply (demo_found three_dir 2 _ tiny_c); [right; right; by left|reflexivity|reflexivity].
    + done.
    + exact link_tiny_a.
    + exact link_tiny_b.
    + exact link_tiny_c.
  - exact tiny_symbols.
  - exact (tiny_code three_dir).
  - exists w'. split; [exact Hrun|exact Harcs].
Defined.
